(** * PFQ transmit core: a shallow embedding and its properties

    The embedding follows [kernel/pf_q-transmit.c] (device submission, the
    transmit drain, lazy forwarding), [kernel/pf_q-skbuff-pool.h] (the
    socket-buffer pool), the optional values of [kernel/pf_q-module.h]
    and the predicate serializer of [user/C++/pfq-lang.hpp].

    Conventions.
    - C integers are [Z]; a conversion to an unsigned type is written out
      with [mod].  Counters of packets ([int total], [size_t disc], ...)
      are bounded by the number of descriptors of a ring half and are kept
      as exact integers.
    - An address of the transmit ring is a [Z]; the cursor of the drain
      is a 64-bit address, and its step wraps.
    - A [struct sk_buff *] is an address ([nat]); the objects live in the
      heap [w_heap] of the kernel state, a map from every address to the
      object read there, so that two holders of one address see one
      object.
    - Whatever the code reads from outside itself (pending signals, the
      wall clock, the allocator, the device flags, the driver's return
      code) is an oracle of [environment], a stream indexed by the number
      of observations made so far ([w_tick]).
    - Whatever the code does that is visible outside (lock, unlock, driver
      call, buffer release, clock read) is appended to the trace
      [w_trace], oldest event first; messages to the kernel log are not
      part of it.
    - A sparse (per-CPU) counter is the sum of its cells.
    - A loop with no bound in the source takes a fuel argument and returns
      [None] when the fuel runs out; [None] is also a kernel fault
      ([BUG_ON], a NULL pointer followed). *)

From Stdlib Require Import ZArith List Bool Lia.
From Stdlib Require String.
From stdpp Require Import base option list.
Import ListNotations.
Local Open Scope Z_scope.

(** ** Machine integers *)

Definition to_u16 (x : Z) : Z := x mod 2 ^ 16.
Definition to_u32 (x : Z) : Z := x mod 2 ^ 32.
Definition to_u64 (x : Z) : Z := x mod 2 ^ 64.

(** [ALIGN(x, 8)] of the kernel on a [size_t]: [(x + 7) & ~7]. *)
Definition ALIGN8 (x : Z) : Z := Z.land (to_u64 (x + 7)) (to_u64 (Z.lnot 7)).

Definition NETDEV_TX_OK : Z := 0.
Definition NET_XMIT_MASK : Z := 15.
Definition EPERM : Z := 1.
Definition EINTR : Z := 4.
Definition ENOMEM : Z := 12.
Definition ENETDOWN : Z := 100.

(** Linux: [dev_xmit_complete(rc)] is [rc < NET_XMIT_MASK]. *)
Definition dev_xmit_complete (rc : Z) : bool := rc <? NET_XMIT_MASK.

(** ** Socket buffers and devices *)

Record sk_buff := SkBuff {
  skb_users : Z;            (* atomic_t users: the reference count *)
  skb_len : Z;
  skb_data : Z;             (* address the linear data was copied from *)
  skb_copied : Z;           (* number of bytes copied *)
  skb_queue_mapping : Z;    (* u16 *)
  skb_xmit_more : bool;
  skb_dev : nat             (* ifindex of skb->dev *)
}.

Definition skb_zero : sk_buff := SkBuff 0 0 0 0 0 false 0.

Definition skb_with_users (f : Z -> Z) (s : sk_buff) : sk_buff :=
  SkBuff (f (skb_users s)) (skb_len s) (skb_data s) (skb_copied s)
         (skb_queue_mapping s) (skb_xmit_more s) (skb_dev s).

Definition skb_with_queue_mapping (q : Z) (s : sk_buff) : sk_buff :=
  SkBuff (skb_users s) (skb_len s) (skb_data s) (skb_copied s)
         q (skb_xmit_more s) (skb_dev s).

Definition skb_with_xmit_more (b : bool) (s : sk_buff) : sk_buff :=
  SkBuff (skb_users s) (skb_len s) (skb_data s) (skb_copied s)
         (skb_queue_mapping s) b (skb_dev s).

Record net_device := NetDevice {
  dev_ifindex : nat;
  real_num_tx_queues : Z;                        (* unsigned int *)
  ndo_select_queue : option (sk_buff -> Z)       (* netdev_ops, returns u16 *)
}.

(** ** The socket-buffer pool ([pf_q-skbuff-pool.h]) *)

Record pfq_skb_pool := SkbPool {
  pool_skbs : option (list (option nat));  (* NULL, or the array of slots *)
  pool_size : Z;
  p_idx : Z;
  c_idx : Z
}.

Definition __pool_next (pool : pfq_skb_pool) (i : Z) : Z :=
  let n := to_u64 (i + 1) in
  if n =? pool_size pool then 0 else n.

Definition skb_heap := nat -> sk_buff.

(** An update of the object at address [p]. *)
Definition heap_update (f : sk_buff -> sk_buff) (p : nat) (h : skb_heap)
  : skb_heap :=
  fun q => (if (q =? p)%nat then f else fun s => s) (h q).

(** [pfq_skb_pool_pop]; the heap is read for the reference count of the
    head buffer.  A slot index outside the array and a NULL head slot of
    a non-empty pool are faults. *)
Definition pfq_skb_pool_pop (heap : skb_heap) (pool : pfq_skb_pool)
  : option (option nat * pfq_skb_pool) :=
  match pool_skbs pool with
  | Some arr =>
      let c := c_idx pool in
      let p := p_idx pool in
      if negb (c =? p) then
        match arr !! Z.to_nat c with
        | Some (Some skb) =>
            if skb_users (heap skb) <? 2 then
              let n := __pool_next pool c in
              Some (Some skb,
                    SkbPool (Some (<[Z.to_nat c := None]> arr))
                            (pool_size pool) (p_idx pool) n)
            else Some (None, pool)
        | _ => None
        end
      else Some (None, pool)
  | None => Some (None, pool)
  end.

(** ** Kernel state, environment and build configuration *)

Inductive event :=
| EvGiveup (b : bool)                          (* giveup_tx_process() *)
| EvClock (now : Z)                            (* ktime_get_real() *)
| EvRelax                                      (* pfq_relax() *)
| EvLock (txq : Z)                             (* __netif_tx_lock_bh *)
| EvUnlock (txq : Z)                           (* __netif_tx_unlock_bh *)
| EvStartXmit (p : nat) (skb : sk_buff) (rc : Z)  (* ndo_start_xmit *)
| EvKfree (p : nat).                           (* kfree_skb *)

Record world := World {
  w_tick : nat;                  (* observations of the environment so far *)
  w_trace : list event;
  w_heap : skb_heap;
  w_next : nat;                  (* serial number of the next allocation *)
  w_tx_pool : pfq_skb_pool;      (* local->tx_pool *)
  w_os_free : Z;                 (* memory_stats.os_free *)
  w_abrt : Z;                    (* global_stats.abrt *)
  w_sent : Z;                    (* global_stats.sent *)
  w_disc : Z                     (* global_stats.disc *)
}.

Record environment := Environment {
  env_signal_pending : nat -> bool;
  env_pf_kthread : bool;                  (* current->flags & PF_KTHREAD *)
  env_kthread_should_stop : nat -> bool;
  env_clock : nat -> Z;                   (* ktime_to_ns(ktime_get_real()) *)
  env_alloc_ok : nat -> bool;             (* does the allocator deliver? *)
  env_iff_up : nat -> bool;               (* dev->flags & IFF_UP *)
  env_xmit_stopped : nat -> bool;         (* netif_xmit_stopped(txq) *)
  env_start_xmit : nat -> Z;              (* return code of the driver *)
  env_clone_ok : nat -> bool;             (* does skb_clone deliver? *)
  env_prod : nat -> Z                     (* load of txs->prod *)
}.

(** Compile-time switches, module parameters and constants that are
    declared outside the files at hand. *)
Record config := Config {
  PFQ_USE_XMIT_MORE : bool;
  PFQ_DEBUG : bool;
  batch_len : Z;                 (* module parameter *)
  max_len : Z;                   (* module parameter *)
  Q_SKBUFF_SHORT_BATCH : nat;    (* capacity of pfq_skbuff_short_batch *)
  Q_GC_LOG_QUEUE_LEN : Z;        (* capacity of gc_log.dev *)
  Q_NO_KTHREAD : Z
}.

Definition emit (e : event) (w : world) : world :=
  World (w_tick w) (w_trace w ++ [e]) (w_heap w) (w_next w)
        (w_tx_pool w) (w_os_free w) (w_abrt w) (w_sent w) (w_disc w).

Definition observe {A : Type} (f : nat -> A) (w : world) : A * world :=
  (f (w_tick w),
   World (S (w_tick w)) (w_trace w) (w_heap w) (w_next w)
         (w_tx_pool w) (w_os_free w) (w_abrt w) (w_sent w) (w_disc w)).

Definition with_heap (f : skb_heap -> skb_heap) (w : world)
  : world :=
  World (w_tick w) (w_trace w) (f (w_heap w)) (w_next w)
        (w_tx_pool w) (w_os_free w) (w_abrt w) (w_sent w) (w_disc w).

Definition with_tx_pool (pool : pfq_skb_pool) (w : world) : world :=
  World (w_tick w) (w_trace w) (w_heap w) (w_next w)
        pool (w_os_free w) (w_abrt w) (w_sent w) (w_disc w).

(** [SPARSE_INC(&memory_stats.os_free)] *)
Definition inc_os_free (w : world) : world :=
  World (w_tick w) (w_trace w) (w_heap w) (w_next w)
        (w_tx_pool w) (w_os_free w + 1) (w_abrt w) (w_sent w) (w_disc w).

(** [sparse_inc(&global_stats.abrt)] *)
Definition inc_abrt (w : world) : world :=
  World (w_tick w) (w_trace w) (w_heap w) (w_next w)
        (w_tx_pool w) (w_os_free w) (w_abrt w + 1) (w_sent w) (w_disc w).

Definition skb_at (w : world) (p : nat) : sk_buff := w_heap w p.

(** Linux: [skb_get] takes a reference, [kfree_skb] gives one back. *)
Definition skb_get (p : nat) (w : world) : world :=
  with_heap (heap_update (skb_with_users (fun u => u + 1)) p) w.

Definition kfree_skb (p : nat) (w : world) : world :=
  emit (EvKfree p) (with_heap (heap_update (skb_with_users (fun u => u - 1)) p) w).

Definition skb_set_queue_mapping (p : nat) (q : Z) (w : world) : world :=
  with_heap (heap_update (skb_with_queue_mapping (to_u16 q)) p) w.

(** [pfq_skb_pool_push]; [BUG_ON] on an occupied slot is a fault. *)
Definition pfq_skb_pool_push (pool : pfq_skb_pool) (skb : nat) (w : world)
  : option (bool * pfq_skb_pool * world) :=
  let slow := Some (false, pool, kfree_skb skb (inc_os_free w)) in
  match pool_skbs pool with
  | Some arr =>
      let p := p_idx pool in
      let c := c_idx pool in
      let n := __pool_next pool p in
      if negb (n =? c) then
        match arr !! Z.to_nat p with
        | Some None =>
            Some (true,
                  SkbPool (Some (<[Z.to_nat p := Some skb]> arr))
                          (pool_size pool) n (c_idx pool),
                  w)
        | _ => None
        end
      else slow
  | None => slow
  end.

(** Modelled from the spec: [pfq_kfree_skb_pool] is declared in
    [pf_q-memory.h], which is not at hand; the specification has the sent
    buffers recycled into the CPU-local pool, so it is the push of the
    buffer into [w_tx_pool]. *)
Definition pfq_kfree_skb_pool (skb : nat) (w : world) : option world :=
  match pfq_skb_pool_push (w_tx_pool w) skb w with
  | Some (_, pool', w') => Some (with_tx_pool pool' w')
  | None => None
  end.

Definition to_int (x : Z) : Z :=
  let y := to_u32 x in if y <? 2 ^ 31 then y else y - 2 ^ 32.

(** ** Device submission ([pf_q-transmit.c]) *)

(** The comparison is between an [int] and the [unsigned int]
    [real_num_tx_queues], hence unsigned. *)
Definition __pfq_dev_cap_txqueue (dev : net_device) (hw_queue : Z) : Z :=
  if to_u32 hw_queue >=? real_num_tx_queues dev then 0 else hw_queue.

(** [pfq_pick_tx] fixes [*hw_queue]; the [netdev_queue] it returns is the
    one of that index, so the index stands for it. *)
Definition pfq_pick_tx (dev : net_device) (skb : sk_buff) (hw_queue : Z) : Z :=
  let hw :=
    if negb (real_num_tx_queues dev =? 1) && (hw_queue =? -1) then
      match ndo_select_queue dev with
      | Some select => to_u16 (select skb)
      | None => 0
      end
    else hw_queue in
  __pfq_dev_cap_txqueue dev hw.

Section Transmit.

Variable cfg : config.
Variable env : environment.

Definition is_kthread_should_stop (t : nat) : bool :=
  env_pf_kthread env && env_kthread_should_stop env t.

Definition giveup_at (t : nat) : bool :=
  env_signal_pending env t || is_kthread_should_stop t.

Definition giveup_tx_process (w : world) : bool * world :=
  let (g, w1) := observe giveup_at w in (g, emit (EvGiveup g) w1).

Definition ktime_get_real (w : world) : Z * world :=
  let (now, w1) := observe (env_clock env) w in (now, emit (EvClock now) w1).

(** Modelled from the spec: [pfq_relax] is declared in [pf_q-thread.h],
    which is not at hand; it is the relax hint of a spin loop. *)
Definition pfq_relax (w : world) : world := emit EvRelax w.

(** [__pfq_xmit], for a kernel with [skb->xmit_more] (3.18 and later). *)
Definition __pfq_xmit (p : nat) (dev : net_device) (txq : Z)
    (xmit_more : bool) (w : world) : Z * world :=
  let xmit_more := if PFQ_USE_XMIT_MORE cfg then xmit_more else false in
  let w := with_heap (heap_update (skb_with_xmit_more xmit_more) p) w in
  let refused w := (- ENETDOWN, kfree_skb p (inc_os_free w)) in
  let (up, w) := observe (env_iff_up env) w in
  if up then
    let (stopped, w) := observe (env_xmit_stopped env) w in
    if negb stopped then
      let (rc, w) := observe (env_start_xmit env) w in
      let w := emit (EvStartXmit p (skb_at w p) rc) w in
      if dev_xmit_complete rc then (rc, w) else refused w
    else refused w
  else refused w.

Definition pfq_xmit (p : nat) (dev : net_device) (hw_queue : Z)
    (more : bool) (w : world) : Z * world :=
  let txq := pfq_pick_tx dev (skb_at w p) hw_queue in
  let w := skb_set_queue_mapping p txq w in
  let w := emit (EvLock txq) w in
  let (ret, w) := __pfq_xmit p dev txq more w in
  (ret, emit (EvUnlock txq) w).

(** Modelled from the spec: [struct pfq_skbuff_batch] and its primitives
    ([pfq_skbuff_batch_len], [for_each_skbuff], [for_each_skbuff_from],
    [for_each_skbuff_upto], [pfq_skbuff_batch_drop_n]) are declared in
    [pf_q-skbuff-batch.h], which is not at hand; a batch is a sequence of
    buffer handles with the primitives len, iterate, iterate-from-k and
    drop-first-n, so it is the list of its buffers.

    The body of [for_each_skbuff] in [pfq_batch_xmit]: [rest] are the
    buffers from index [n] on; the result tells whether the loop ran to
    its end ([true]) or left through [goto intr] ([false]). *)
Fixpoint batch_xmit_loop (dev : net_device) (txq last : Z) (rest : list nat)
    (n ret : Z) (w : world) : Z * bool * world :=
  match rest with
  | [] => (ret, true, w)
  | p :: rest' =>
      let w := skb_set_queue_mapping p txq w in
      let (rc, w) := __pfq_xmit p dev txq (negb (to_u64 n =? last)) w in
      if rc =? NETDEV_TX_OK then
        batch_xmit_loop dev txq last rest' (n + 1) (ret + 1) w
      else (ret, false, w)
  end.

(** The loop at label [intr]. *)
Definition free_each (ps : list nat) (w : world) : world :=
  fold_left (fun w p => kfree_skb p (inc_os_free w)) ps w.

Definition pfq_batch_xmit (skbs : list nat) (dev : net_device) (hw_queue : Z)
    (w : world) : Z * world :=
  let txq := pfq_pick_tx dev (skb_at w (hd 0%nat skbs)) hw_queue in
  let last := to_u64 (Z.of_nat (length skbs) - 1) in
  let w := emit (EvLock txq) w in
  let '(ret, completed, w) := batch_xmit_loop dev txq last skbs 0 0 w in
  if completed then (ret, emit (EvUnlock txq) w)
  else
    let w := free_each (drop (Z.to_nat (ret + 1)) skbs) w in
    (ret, emit (EvUnlock txq) w).

(** The buffers of [for_each_skbuff_upto(sent, ...)] go back to the pool. *)
Fixpoint recycle_each (ps : list nat) (w : world) : option world :=
  match ps with
  | [] => Some w
  | p :: ps' =>
      match pfq_kfree_skb_pool p w with
      | Some w' => recycle_each ps' w'
      | None => None
      end
  end.

(** [full_batch_xmit]: the [while] loop, [total] being its local. *)
Fixpoint full_batch_xmit_loop (fuel : nat) (skbs : list nat)
    (dev : net_device) (hw_queue : Z) (total : Z) (w : world)
  : option (Z * list nat * world) :=
  match skbs with
  | [] => Some (total, [], w)
  | _ :: _ =>
      match fuel with
      | O => None
      | S fuel' =>
          let (g, w) := giveup_tx_process w in
          if g then Some (Z.lnot total, skbs, w)
          else
            let w := fold_left (fun w p => skb_get p w) skbs w in
            let (sent, w) := pfq_batch_xmit skbs dev hw_queue w in
            if sent =? 0 then
              full_batch_xmit_loop fuel' skbs dev hw_queue total (pfq_relax w)
            else
              match recycle_each (take (Z.to_nat sent) skbs) w with
              | Some w =>
                  full_batch_xmit_loop fuel' (drop (Z.to_nat sent) skbs)
                                       dev hw_queue (total + sent) w
              | None => None
              end
      end
  end.

Definition full_batch_xmit (fuel : nat) (skbs : list nat) (dev : net_device)
    (hw_queue : Z) (w : world) : option (Z * list nat * world) :=
  full_batch_xmit_loop fuel skbs dev hw_queue 0 w.

(** [ts] is a [uint64_t], [ktime_to_ns(now)] an [s64]: the comparison is
    unsigned. *)
Definition transmission_required (q : list nat) (now ts : Z) : bool :=
  let len := Z.of_nat (length q) in
  (len =? batch_len cfg) || ((len >? 0) && (ts >? to_u64 now)).

Fixpoint wait_until (fuel : nat) (ts : Z) (w : world) : option (Z * world) :=
  match fuel with
  | O => None
  | S fuel' =>
      let (now, w) := ktime_get_real w in
      let (g, w) := giveup_tx_process w in
      if g then Some (now, w)
      else if to_u64 now <? ts then wait_until fuel' ts (pfq_relax w)
      else Some (now, w)
  end.


(** ** The transmit ring and its drain *)

(** Modelled from the spec: [struct pfq_pkthdr_tx] is declared in
    [linux/pf_q.h], which is not at hand; a descriptor is
    [{ u64 nsec; u64 len; payload }], its header takes 16 bytes. *)
Record pfq_pkthdr_tx := PktHdrTx { pkt_nsec : Z; pkt_len : Z }.

Definition sizeof_pfq_pkthdr_tx : Z := 16.

(** The shared [struct pfq_tx_queue]: the two stamps and the size of a
    half.  The memory of the two halves is a map from an address to the
    header read there; the base address and the size are those of the
    region the kernel mapped. *)
Record pfq_tx_queue := TxQueue { txs_prod : Z; txs_cons : Z; txs_size : Z }.

Record pfq_tx_opt := TxOpt {
  to_hw_queue : nat -> Z;          (* to->queue[idx].hw_queue *)
  to_base_addr : nat -> Z;         (* to->queue[idx].base_addr *)
  to_txs : nat -> pfq_tx_queue;    (* *pfq_get_tx_queue(to, idx) *)
  to_stats_sent : Z;               (* to->stats.sent *)
  to_stats_disc : Z                (* to->stats.disc *)
}.

Definition tx_memory := Z -> pfq_pkthdr_tx.

(** [ptr += sizeof(struct pfq_pkthdr_tx) + ALIGN(hdr->len, 8)]: the
    length is what the user process wrote, the sum is one of [size_t]
    and of a 64-bit address, so it wraps. *)
Definition next_descriptor (mem : tx_memory) (ptr : Z) : Z :=
  to_u64 (ptr + sizeof_pfq_pkthdr_tx + ALIGN8 (pkt_len (mem ptr))).

(** The spin of [swap_tx_queue_and_wait] on [txs->prod], which the user
    process writes. *)
Fixpoint swap_spin (fuel : nat) (index : Z) (w : world) : option (Z * world) :=
  match fuel with
  | O => None
  | S fuel' =>
      let (prod, w) := observe (env_prod env) w in
      if negb (to_u64 index =? prod) then
        let w := pfq_relax w in
        let (g, w) := giveup_tx_process w in
        if g then Some (- EINTR, w) else swap_spin fuel' index w
      else Some (0, w)
  end.

Definition swap_tx_queue_and_wait (fuel : nat) (txs : pfq_tx_queue) (cpu : Z)
    (w : world) : option (Z * Z * pfq_tx_queue * world) :=
  let cons := to_u64 (txs_cons txs + 1) in
  let index := to_int cons in
  if negb (cpu =? Q_NO_KTHREAD cfg) then
    match swap_spin fuel index w with
    | Some (err, w) =>
        Some (err, index, TxQueue (txs_prod txs) cons (txs_size txs), w)
    | None => None
    end
  else Some (0, index, TxQueue 1 cons (txs_size txs), w).

Definition traverse_tx_queue (mem : tx_memory) (ptr begin end_ : Z) : bool :=
  let hdr := mem ptr in
  if PFQ_DEBUG cfg then
    if (ptr <? begin) || (ptr >=? end_) then false
    else if pkt_len hdr >? 2048 then false
    else negb (pkt_len hdr =? 0)
  else (ptr <? end_) && negb (pkt_len hdr =? 0).

(** Modelled from the spec: [pfq_tx_alloc_skb] is declared in
    [pf_q-memory.h], which is not at hand.  The engine that allocates
    is the consumer of the CPU-local pool: a buffer the pool gives is
    re-acquired and leaves the pool; when the pool gives none the kernel
    allocator delivers a buffer or NULL.  A fresh buffer has one
    reference; its address is the serial number of the allocation. *)
Definition pfq_tx_alloc_skb (node : Z) (w : world)
  : option (option nat * world) :=
  match pfq_skb_pool_pop (w_heap w) (w_tx_pool w) with
  | Some (Some p, pool) => Some (Some p, with_tx_pool pool w)
  | Some (None, _) =>
      let (ok, w) := observe (env_alloc_ok env) w in
      if ok then
        let p := w_next w in
        Some (Some p,
              World (w_tick w) (w_trace w)
                    (heap_update (fun _ => SkBuff 1 0 0 0 0 false 0) p (w_heap w))
                    (S p) (w_tx_pool w) (w_os_free w) (w_abrt w) (w_sent w)
                    (w_disc w))
      else Some (None, w)
  | None => None
  end.

(** Modelled from the spec: [pfq_skbuff_short_batch_push] is declared in
    [pf_q-skbuff-batch.h], which is not at hand; the batch has a fixed
    capacity and a push beyond it stores nothing. *)
Definition pfq_skbuff_short_batch_push (q : list nat) (skb : nat) : list nat :=
  if (length q <? Q_SKBUFF_SHORT_BATCH cfg)%nat then q ++ [skb] else q.

(** "fill the skb" and "copy bytes in the socket buffer". *)
Definition tx_fill (p : nat) (hdr : pfq_pkthdr_tx) (ptr : Z)
    (dev : net_device) (hw_queue : Z) (w : world) : world :=
  let len := Z.min (to_u64 (pkt_len hdr)) (to_u64 (max_len cfg)) in
  with_heap (heap_update (fun s =>
    SkBuff (skb_users s) len (ptr + sizeof_pfq_pkthdr_tx)
           (if len <? 64 then 64 else len)
           (to_u16 hw_queue) (skb_xmit_more s) (dev_ifindex dev)) p) w.

(** "if the batch is full or the last packet is to be transmitted, do it
    now": the result says whether the loop is left through [break]. *)
Definition tx_submit (inner : nat) (skbs : list nat) (now last_ts : Z)
    (dev : net_device) (hw_queue : Z) (tot_sent : Z) (w : world)
  : option (bool * list nat * Z * world) :=
  if transmission_required skbs now last_ts then
    match full_batch_xmit inner skbs dev hw_queue w with
    | Some (sent, skbs, w) =>
        Some (sent <? 0, skbs,
              tot_sent + (if sent >=? 0 then sent else Z.lnot sent), w)
    | None => None
    end
  else Some (false, skbs, tot_sent, w).

(** The "Tx loop"; it is left with the cursor, the batch and the count. *)
Fixpoint tx_loop (inner fuel : nat) (mem : tx_memory) (begin end_ : Z)
    (dev : net_device) (hw_queue node : Z) (ptr now : Z) (skbs : list nat)
    (tot_sent : Z) (w : world) : option (Z * list nat * Z * world) :=
  match fuel with
  | O => None
  | S fuel' =>
      if traverse_tx_queue mem ptr begin end_ then
        let hdr := mem ptr in
        let last_ts := pkt_nsec hdr in
        match tx_submit inner skbs now last_ts dev hw_queue tot_sent w with
        | Some (true, skbs, tot_sent, w) => Some (ptr, skbs, tot_sent, w)
        | Some (false, skbs, tot_sent, w) =>
            match (if last_ts >? to_u64 now then wait_until inner last_ts w
                   else Some (now, w)) with
            | Some (now, w) =>
                match pfq_tx_alloc_skb node w with
                | Some (Some p, w) =>
                    let w := tx_fill p hdr ptr dev hw_queue w in
                    let skbs := pfq_skbuff_short_batch_push skbs p in
                    tx_loop inner fuel' mem begin end_ dev hw_queue node
                            (next_descriptor mem ptr) now skbs tot_sent w
                | Some (None, w) => Some (ptr, skbs, tot_sent, w)
                | None => None
                end
            | None => None
            end
        | None => None
        end
      else Some (ptr, skbs, tot_sent, w)
  end.

(** "disc takes into account for the packets left in the shared queue". *)
Fixpoint count_left (fuel : nat) (mem : tx_memory) (begin end_ ptr disc : Z)
  : option Z :=
  match fuel with
  | O => None
  | S fuel' =>
      if traverse_tx_queue mem ptr begin end_ then
        count_left fuel' mem begin end_ (next_descriptor mem ptr) (disc + 1)
      else Some disc
  end.

Definition tx_half_begin (base swap size : Z) : Z :=
  base + Z.land (to_int (swap + 1)) 1 * size.

Definition clear_queue (mem : tx_memory) (begin : Z) : tx_memory :=
  fun a => if a =? begin then PktHdrTx (pkt_nsec (mem a)) 0 else mem a.

Definition add_stats (tot_sent disc : Z) (to : pfq_tx_opt) (w : world)
  : pfq_tx_opt * world :=
  (TxOpt (to_hw_queue to) (to_base_addr to) (to_txs to)
         (to_stats_sent to + tot_sent) (to_stats_disc to + disc),
   World (w_tick w) (w_trace w) (w_heap w) (w_next w) (w_tx_pool w)
         (w_os_free w) (w_abrt w) (w_sent w + tot_sent) (w_disc w + disc)).

Definition with_txs (idx : nat) (txs : pfq_tx_queue) (to : pfq_tx_opt)
  : pfq_tx_opt :=
  TxOpt (to_hw_queue to) (to_base_addr to)
        (fun i => if (i =? idx)%nat then txs else to_txs to i)
        (to_stats_sent to) (to_stats_disc to).

Definition __pfq_queue_xmit (fuel : nat) (idx : nat) (to : pfq_tx_opt)
    (mem : tx_memory) (dev : net_device) (cpu node : Z) (w : world)
  : option (Z * pfq_tx_opt * tx_memory * world) :=
  let hw_queue := to_hw_queue to idx in
  match swap_tx_queue_and_wait fuel (to_txs to idx) cpu w with
  | Some (err, swap, txs, w) =>
      let to := with_txs idx txs to in
      if err <? 0 then Some (err, to, mem, w)
      else
        let begin := tx_half_begin (to_base_addr to idx) swap (txs_size txs) in
        let end_ := begin + txs_size txs in
        let (now, w) := ktime_get_real w in
        match tx_loop fuel fuel mem begin end_ dev hw_queue node
                      begin now [] 0 w with
        | Some (ptr, skbs, tot_sent, w) =>
            match (match skbs with
                   | [] => Some (0, skbs, w)
                   | _ :: _ => full_batch_xmit fuel skbs dev hw_queue w
                   end) with
            | Some (sent, skbs, w) =>
                let tot_sent :=
                  tot_sent + (if sent >=? 0 then sent else Z.lnot sent) in
                let disc := Z.of_nat (length skbs) in
                match recycle_each skbs w with
                | Some w =>
                    match count_left fuel mem begin end_ ptr disc with
                    | Some disc =>
                        let (to, w) := add_stats tot_sent disc to w in
                        Some (to_int tot_sent, to, clear_queue mem begin, w)
                    | None => None
                    end
                | None => None
                end
            | None => None
            end
        | None => None
        end
  | None => None
  end.

(** ** Lazy forwarding *)

(** Modelled from the spec: [struct gc_log], [struct gc_data] and
    [struct lazy_fwd_targets] are declared in [pf_q-GC.h], which is not
    at hand: a log is a bounded array of target devices with the number
    of entries in use, the counter [xmit_todo] and the flag [to_kernel];
    the counters are [size_t].  A device pointer is the device, two
    pointers being equal when the interface indices are. *)
Record gc_log := GcLog {
  log_dev : list net_device;
  log_num_devs : Z;
  log_to_kernel : Z;
  log_xmit_todo : Z
}.

(** [log] is the log [PFQ_CB(buff.skb)->log] points to. *)
Definition pfq_lazy_xmit (buff : nat) (log : gc_log) (dev : net_device)
    (hw_queue : Z) (w : world) : Z * gc_log * world :=
  if log_num_devs log >=? Q_GC_LOG_QUEUE_LEN cfg then (0, log, w)
  else
    let w := skb_set_queue_mapping buff hw_queue w in
    let log :=
      GcLog (<[Z.to_nat (log_num_devs log) := dev]> (log_dev log))
            (to_u64 (log_num_devs log + 1))
            (log_to_kernel log)
            (to_u64 (log_xmit_todo log + 1)) in
    (1, log, w).

Definition same_dev (a b : net_device) : bool :=
  (dev_ifindex a =? dev_ifindex b)%nat.

(** Modelled from the spec: [gc_count_dev_in_log] is declared in
    [pf_q-GC.h], which is not at hand; it counts the references of the
    log to the device. *)
Definition gc_count_dev_in_log (dev : net_device) (log : gc_log) : Z :=
  Z.of_nat (length (filter (fun d => same_dev dev d = true)
                           (take (Z.to_nat (log_num_devs log)) (log_dev log)))).

(** Linux: [skb_clone] delivers a new buffer head with one reference, or
    NULL. *)
Definition skb_clone (p : nat) (w : world) : option nat * world :=
  let (ok, w) := observe (env_clone_ok env) w in
  if ok then
    let q := w_next w in
    (Some q,
     World (w_tick w) (w_trace w)
           (heap_update (fun _ => skb_with_users (fun _ => 1) (skb_at w p))
                        q (w_heap w))
           (S q) (w_tx_pool w) (w_os_free w) (w_abrt w) (w_sent w) (w_disc w))
  else (None, w).

Definition with_xmit_todo (x : Z) (log : gc_log) : gc_log :=
  GcLog (log_dev log) (log_num_devs log) (log_to_kernel log) x.

(** "forward this skb `num` times": the loop on [j]. *)
Fixpoint lazy_xmit_times (num : nat) (skb : nat) (dev : net_device)
    (txq cnt : Z) (log : gc_log) (sent_dev sent : Z) (w : world)
  : gc_log * Z * Z * world :=
  match num with
  | O => (log, sent_dev, sent, w)
  | S num' =>
      let sent_dev := to_u64 (sent_dev + 1) in
      let xmit_more := negb (sent_dev =? cnt) in
      let '(to_clone, log) :=
        if negb (log_to_kernel log =? 0) then (true, log)
        else (log_xmit_todo log >? 1,
              with_xmit_todo (to_u64 (log_xmit_todo log - 1)) log) in
      let (nskb, w) :=
        if to_clone : bool then skb_clone skb w else (Some skb, skb_get skb w) in
      match nskb with
      | Some q =>
          let (rc, w) := __pfq_xmit q dev txq xmit_more w in
          if rc =? NETDEV_TX_OK then
            lazy_xmit_times num' skb dev txq cnt log sent_dev (sent + 1) w
          else
            lazy_xmit_times num' skb dev txq cnt log sent_dev sent (inc_abrt w)
      | None =>
          lazy_xmit_times num' skb dev txq cnt log sent_dev sent (inc_abrt w)
      end
  end.

(** "scan the list of skbs": the loop on [i] over the buffers in flight,
    each paired with its log ([gc->pool.queue[i].skb], [gc->log[i]]). *)
Fixpoint lazy_xmit_scan (gc : list (nat * gc_log)) (dev : net_device)
    (cnt : Z) (txq : option Z) (sent_dev sent : Z) (w : world)
  : list (nat * gc_log) * option Z * Z * world :=
  match gc with
  | [] => ([], txq, sent, w)
  | (skb, log) :: gc' =>
      let num := gc_count_dev_in_log dev log in
      if num =? 0 then
        let '(gc'', txq, sent, w) :=
          lazy_xmit_scan gc' dev cnt txq sent_dev sent w in
        ((skb, log) :: gc'', txq, sent, w)
      else
        let (q, w) :=
          match txq with
          | Some q => (q, w)
          | None =>
              let q := pfq_pick_tx dev (skb_at w skb)
                                   (skb_queue_mapping (skb_at w skb)) in
              (q, emit (EvLock q) w)
          end in
        let '(log, sent_dev, sent, w) :=
          lazy_xmit_times (Z.to_nat num) skb dev q cnt log sent_dev sent w in
        let '(gc'', txq, sent, w) :=
          lazy_xmit_scan gc' dev cnt (Some q) sent_dev sent w in
        ((skb, log) :: gc'', txq, sent, w)
  end.

(** [pfq_lazy_xmit_exec]: the loop on [n] over the targets
    ([ts->dev[n]], [ts->cnt[n]] for [n < ts->num]). *)
Fixpoint lazy_xmit_exec_loop (ts : list (net_device * Z))
    (gc : list (nat * gc_log)) (sent : Z) (w : world)
  : Z * list (nat * gc_log) * world :=
  match ts with
  | [] => (sent, gc, w)
  | (dev, cnt) :: ts' =>
      let '(gc, txq, sent, w) := lazy_xmit_scan gc dev cnt None 0 sent w in
      let w := match txq with Some q => emit (EvUnlock q) w | None => w end in
      lazy_xmit_exec_loop ts' gc sent w
  end.

Definition pfq_lazy_xmit_exec (gc : list (nat * gc_log))
    (ts : list (net_device * Z)) (w : world)
  : Z * list (nat * gc_log) * world :=
  lazy_xmit_exec_loop ts gc 0 w.

End Transmit.

(** ** The predicate serializer ([pfq-lang.hpp]) *)

Module pfq_lang.

Inductive pfq_functional_type :=
| pfq_monadic_fun
| pfq_high_order_fun
| pfq_predicate_fun
| pfq_combinator_fun.

(** [arg_ptr] is a [shared_ptr<void>]: empty, or the address of the
    argument.  [left] and [right] are [int]; an [int] that overflows is
    undefined in C++, the indices are kept exact. *)
Record FunDescr := MkFunDescr {
  fd_type : pfq_functional_type;
  fd_symbol : String.string;
  fd_arg_ptr : option nat;
  fd_arg_size : Z;
  fd_left : Z;
  fd_right : Z
}.

Record Combinator := MkCombinator { comb_name : String.string }.

(** [Pred], [Pred1] and the template [Pred2<P1,P2>]: the template
    arguments range over the predicate types, so the values form a tree. *)
Inductive predicate :=
| Pred (name_ : String.string)
| Pred1 (name_ : String.string) (ptr_ : nat) (size_ : Z)
| Pred2 (comb_ : Combinator) (left_ right_ : predicate).

Definition serialize_comb (n : Z) (comb : Combinator) : list FunDescr * Z :=
  ([MkFunDescr pfq_combinator_fun (comb_name comb) None 0 (-1) (-1)], n + 1).

(** [ret[0].left = n1; ret[0].right = n2;] *)
Definition set_links (n1 n2 : Z) (ret : list FunDescr) : list FunDescr :=
  match ret with
  | d :: tl =>
      MkFunDescr (fd_type d) (fd_symbol d) (fd_arg_ptr d) (fd_arg_size d) n1 n2
      :: tl
  | [] => []
  end.

Fixpoint serialize (n : Z) (p : predicate) : list FunDescr * Z :=
  match p with
  | Pred name =>
      ([MkFunDescr pfq_predicate_fun name None 0 (-1) (-1)], n + 1)
  | Pred1 name ptr size =>
      ([MkFunDescr pfq_predicate_fun name (Some ptr) size (-1) (-1)], n + 1)
  | Pred2 comb l r =>
      let (ret, n1) := serialize_comb n comb in
      let (left, n2) := serialize n1 l in
      let (right, n3) := serialize n2 l in
      let ret := set_links n1 n2 ret in
      ((ret ++ left) ++ right, n3)
  end.

End pfq_lang.

(** ** Reading a trace *)

(** The calls of the driver, in order: the buffer, its fields at the
    call, the return code. *)
Definition driver_calls (tr : list event) : list (nat * sk_buff * Z) :=
  omap (fun e => match e with
                 | EvStartXmit p s rc => Some (p, s, rc)
                 | _ => None
                 end) tr.

(** The buffers the driver took with [NETDEV_TX_OK], in order. *)
Definition transmitted (tr : list event) : list nat :=
  omap (fun e => match e with
                 | EvStartXmit p _ rc =>
                     if rc =? NETDEV_TX_OK then Some p else None
                 | _ => None
                 end) tr.

(** The buffers given to [kfree_skb], in order. *)
Definition released (tr : list event) : list nat :=
  omap (fun e => match e with EvKfree p => Some p | _ => None end) tr.

Definition lock_events (tr : list event) : list event :=
  omap (fun e => match e with
                 | EvLock _ | EvUnlock _ => Some e
                 | _ => None
                 end) tr.

(** The clock readings, as the unsigned values the code compares. *)
Definition clock_reads (tr : list event) : list Z :=
  omap (fun e => match e with EvClock now => Some (to_u64 now) | _ => None end)
       tr.

Definition giveups (tr : list event) : list bool :=
  omap (fun e => match e with EvGiveup b => Some b | _ => None end) tr.

(** What one call of [__pfq_xmit] on the buffer [p] leaves in the trace,
    together with its return code; [ok] holds of the fields the driver
    saw. *)
Inductive xmit_events (p : nat) (ok : sk_buff -> Prop)
  : Z -> list event -> Prop :=
| xmit_complete s rc :
    ok s -> dev_xmit_complete rc = true ->
    xmit_events p ok rc [EvStartXmit p s rc]
| xmit_refused s rc :
    ok s -> dev_xmit_complete rc = false ->
    xmit_events p ok (- ENETDOWN) [EvStartXmit p s rc; EvKfree p]
| xmit_down :
    xmit_events p ok (- ENETDOWN) [EvKfree p].

(** What the loop of [pfq_batch_xmit] leaves in the trace on the buffers
    [ps], the first of index [n]: the number of buffers the driver took
    and whether the loop ran to its end. *)
Inductive loop_events (ok : Z -> nat -> sk_buff -> Prop)
  : Z -> list nat -> Z -> bool -> list event -> Prop :=
| loop_end n :
    loop_events ok n [] 0 true []
| loop_sent n p ps k c d1 d2 :
    xmit_events p (ok n p) NETDEV_TX_OK d1 ->
    loop_events ok (n + 1) ps k c d2 ->
    loop_events ok n (p :: ps) (k + 1) c (d1 ++ d2)
| loop_intr n p ps rc d1 :
    rc <> NETDEV_TX_OK ->
    xmit_events p (ok n p) rc d1 ->
    loop_events ok n (p :: ps) 0 false d1.

(** A step of the kernel that allocates nothing: time does not go back,
    no address is handed out, no buffer changes its data. *)
Definition quiet (w w' : world) : Prop :=
  (w_tick w <= w_tick w')%nat /\
  w_next w' = w_next w /\
  forall p, skb_data (w_heap w' p) = skb_data (w_heap w p).

(** The fields the driver sees of the buffer of index [i] of a batch:
    the hint, the queue the batch was fixed to, the data it was filled
    with. *)
Definition batch_ok (cfg : config) (txq last : Z) (h : skb_heap)
    (i : Z) (p : nat) (s : sk_buff) : Prop :=
  skb_xmit_more s =
    (if PFQ_USE_XMIT_MORE cfg then negb (to_u64 i =? last) else false) /\
  skb_queue_mapping s = to_u16 txq /\
  skb_data s = skb_data (h p).

(** An event that records an observation records what the environment
    showed at an observation from [lo] on and before [hi]: the give-up
    condition, the clock, and for a call of the driver the device that
    was up, its queue that was not stopped and the code the driver
    answered, in three observations that follow each other. *)
Definition observed (env : environment) (lo hi : nat) (e : event) : Prop :=
  match e with
  | EvGiveup b => exists t, (lo <= t < hi)%nat /\ b = giveup_at env t
  | EvClock now => exists t, (lo <= t < hi)%nat /\ now = env_clock env t
  | EvStartXmit _ _ rc =>
      exists t, (lo <= t)%nat /\ (S (S t) < hi)%nat /\
                env_iff_up env t = true /\
                env_xmit_stopped env (S t) = false /\
                rc = env_start_xmit env (S (S t))
  | _ => True
  end.

(** ** Reading a ring half *)

(** The descriptors laid out from [ptr] up to the end of the half: each
    lies below [end_] and has a length other than zero, the next one
    starts after its header and its payload padded to 8 bytes; the list
    ends at the first zero length or at the end of the half. *)
Inductive descriptors (mem : tx_memory) (end_ : Z)
  : Z -> list pfq_pkthdr_tx -> Prop :=
| descriptors_end ptr :
    end_ <= ptr \/ pkt_len (mem ptr) = 0 ->
    descriptors mem end_ ptr []
| descriptors_next ptr ds :
    ptr < end_ -> pkt_len (mem ptr) <> 0 ->
    descriptors mem end_ (next_descriptor mem ptr) ds ->
    descriptors mem end_ ptr (mem ptr :: ds).

(** The addresses the cursor takes over the descriptors [ds], the first
    of them at [ptr]. *)
Fixpoint descriptor_addrs (ptr : Z) (ds : list pfq_pkthdr_tx) : list Z :=
  match ds with
  | [] => []
  | d :: ds' =>
      ptr :: descriptor_addrs
               (to_u64 (ptr + sizeof_pfq_pkthdr_tx + ALIGN8 (pkt_len d))) ds'
  end.

(** What a debug build checks on its way over the descriptors [ds] from
    [ptr]: the lengths are plausible and the cursor is in the half. *)
Definition debug_checks (cfg : config) (begin ptr : Z)
    (ds : list pfq_pkthdr_tx) : Prop :=
  PFQ_DEBUG cfg = true ->
  Forall (fun d => pkt_len d <= 2048) ds /\
  Forall (fun a => begin <= a) (descriptor_addrs ptr ds).

(** ** Pacing *)

(** The timestamp of the descriptor a buffer was filled from: the data
    of the buffer start right after the header of the descriptor. *)
Definition skb_nsec (mem : tx_memory) (s : sk_buff) : Z :=
  pkt_nsec (mem (skb_data s - sizeof_pfq_pkthdr_tx)).

(** A trace is paced when every call of the driver is for a buffer
    filled from a descriptor the engine accepts ([good] holds of its
    address) and comes after a reading of the clock that is not before
    the timestamp of the descriptor; [clocks] are the readings made
    before the trace starts. *)
Fixpoint paced_from (mem : tx_memory) (good : Z -> Prop) (clocks : list Z)
    (tr : list event) : Prop :=
  match tr with
  | [] => True
  | EvClock now :: tr' => paced_from mem good (clocks ++ [to_u64 now]) tr'
  | EvStartXmit p s rc :: tr' =>
      (good (skb_data s - sizeof_pfq_pkthdr_tx) /\
       exists c, c ∈ clocks /\ skb_nsec mem s <= c) /\
      paced_from mem good clocks tr'
  | _ :: tr' => paced_from mem good clocks tr'
  end.

(** The give-up condition was seen true at some earlier observation. *)
Definition gave_up (env : environment) (w : world) : Prop :=
  exists t, (t < w_tick w)%nat /\ giveup_at env t = true.



(** ** Lazy forwarding *)

(** What [num] forwards of a buffer do to its log. *)
Definition forwarded (num : Z) (log : gc_log) : gc_log :=
  if (log_to_kernel log =? 0) && (0 <? num)
  then with_xmit_todo (to_u64 (log_xmit_todo log - num)) log
  else log.

(** The number of times a commit over the targets [ts] forwards the
    buffer of a log: once for every reference of the log to a target. *)
Fixpoint forwards (ts : list (net_device * Z)) (log : gc_log) : Z :=
  match ts with
  | [] => 0
  | (dev, _) :: ts' => gc_count_dev_in_log dev log + forwards ts' log
  end.

(** The same count over a plain list of targets. *)
Fixpoint forwards_on (ts : list (net_device * Z)) (l : list net_device) : Z :=
  match ts with
  | [] => 0
  | (dev, _) :: ts' =>
      Z.of_nat (length (filter (fun d => same_dev dev d = true) l))
      + forwards_on ts' l
  end.

(** The targets in use in a log. *)
Definition log_targets (log : gc_log) : list net_device :=
  take (Z.to_nat (log_num_devs log)) (log_dev log).

(** ** The invariant of the pool *)

(** The slots in use are those from [c] up to [p], around the end of the
    array. *)
Definition pool_live (c p i : Z) : Prop :=
  if c <=? p then c <= i < p else c <= i \/ i < p.

(** An initialized pool has both indices within its array and every slot
    that is not in use empty. *)
Definition pool_wf (pool : pfq_skb_pool) : Prop :=
  match pool_skbs pool with
  | None => True
  | Some arr =>
      pool_size pool = Z.of_nat (length arr) /\
      pool_size pool < 2 ^ 64 /\
      0 <= p_idx pool < pool_size pool /\
      0 <= c_idx pool < pool_size pool /\
      forall i : nat,
        Z.of_nat i < pool_size pool ->
        ~ pool_live (c_idx pool) (p_idx pool) (Z.of_nat i) ->
        arr !! i = Some None
  end.

(** ** Cancellation *)

(** From the observation [T] on the give-up condition is raised. *)
Definition gives_up_by (env : environment) (T : nat) : Prop :=
  forall t : nat, (T <= t)%nat -> giveup_at env t = true.
(** ** The pool as a queue *)

(** The slots a pool has in use, oldest first: those from [c] up to [p],
    around the end of the array. *)
Definition pool_items (pool : pfq_skb_pool) : list (option nat) :=
  match pool_skbs pool with
  | None => []
  | Some arr =>
      let c := Z.to_nat (c_idx pool) in
      let p := Z.to_nat (p_idx pool) in
      if c_idx pool <=? p_idx pool then take (p - c) (drop c arr)
      else drop c arr ++ take p arr
  end.

(** A pool that keeps its invariant and whose slots in use all hold a
    buffer. *)
Definition pool_stocked (pool : pfq_skb_pool) : Prop :=
  pool_wf pool /\ Forall (fun slot => slot <> None) (pool_items pool).

(** The buffers a pool holds, oldest first. *)
Definition pool_handles (pool : pfq_skb_pool) : list nat :=
  omap id (pool_items pool).

(** A pool that keeps its invariant, holds no buffer twice and holds
    only buffers that were allocated. *)
Definition pool_sound (w : world) : Prop :=
  pool_wf (w_tx_pool w) /\
  NoDup (pool_handles (w_tx_pool w)) /\
  Forall (fun p => (p < w_next w)%nat) (pool_handles (w_tx_pool w)).

(** The same with a batch: no buffer is twice in the batch or both in
    the batch and in the pool. *)
Definition batch_apart (skbs : list nat) (w : world) : Prop :=
  pool_wf (w_tx_pool w) /\
  NoDup (skbs ++ pool_handles (w_tx_pool w)) /\
  Forall (fun p => (p < w_next w)%nat) (skbs ++ pool_handles (w_tx_pool w)).

(** ** The order of a drain *)

(** The descriptors behind the buffers the driver took with
    [NETDEV_TX_OK], in order: the address of the header that the data of
    each buffer lie behind. *)
Definition transmitted_addrs (tr : list event) : list Z :=
  omap (fun c : nat * sk_buff * Z =>
          if snd c =? NETDEV_TX_OK
          then Some (skb_data (snd (fst c)) - sizeof_pfq_pkthdr_tx)
          else None)
       (driver_calls tr).

(** The same for the buffers of a batch. *)
Definition batch_addrs (w : world) (skbs : list nat) : list Z :=
  map (fun p => skb_data (w_heap w p) - sizeof_pfq_pkthdr_tx) skbs.

(** The first [n] positions of the cursor of a drain that starts at
    [ptr]. *)
Fixpoint cursor_positions (mem : tx_memory) (ptr : Z) (n : nat) : list Z :=
  match n with
  | O => []
  | S n' => ptr :: cursor_positions mem (next_descriptor mem ptr) n'
  end.

(** ** Optional values of the functional engine ([pf_q-module.h]) *)

(** [JUST(x)], [IS_JUST(x)], [FROM_JUST(x)] and [NOTHING]: the operand
    meets [1ULL << 31], an [unsigned long long], so it is converted to
    64 bits. *)
Definition NOTHING : Z := 0.

Definition JUST (x : Z) : Z := Z.lor (Z.shiftl 1 31) (to_u64 x).

Definition IS_JUST (x : Z) : Z := Z.land (Z.shiftl 1 31) (to_u64 x).

Definition FROM_JUST (x : Z) : Z :=
  Z.land (to_u64 (Z.lnot (Z.shiftl 1 31))) (to_u64 x).

(** ** Links of descriptors ([pfq-lang.hpp]) *)

(** [relinkFunDescr(n, m, descr)]: the links to [n] become links to [m]. *)
Definition relinkFunDescr (n m : Z) (descr : pfq_lang.FunDescr)
  : pfq_lang.FunDescr :=
  pfq_lang.MkFunDescr
    (pfq_lang.fd_type descr) (pfq_lang.fd_symbol descr)
    (pfq_lang.fd_arg_ptr descr) (pfq_lang.fd_arg_size descr)
    (if pfq_lang.fd_left descr =? n then m else pfq_lang.fd_left descr)
    (if pfq_lang.fd_right descr =? n then m else pfq_lang.fd_right descr).

(** ** The queue lock along a trace *)

(** The holder of the queue lock after the events [tr], the lock being
    held as [held] before them; [None] as a result when the events break
    the discipline: a lock taken while one is held, an unlock of a queue
    that is not the one held, a call of the driver with no lock held. *)
Fixpoint lock_run (held : option Z) (tr : list event) : option (option Z) :=
  match tr with
  | [] => Some held
  | EvLock q :: tr' =>
      match held with
      | None => lock_run (Some q) tr'
      | Some _ => None
      end
  | EvUnlock q :: tr' =>
      match held with
      | Some q' => if q =? q' then lock_run None tr' else None
      | None => None
      end
  | EvStartXmit _ _ _ :: tr' =>
      match held with
      | Some _ => lock_run held tr'
      | None => None
      end
  | _ :: tr' => lock_run held tr'
  end.

(** Events that start and end with no lock held and keep the
    discipline in between. *)
Definition lock_discipline (tr : list event) : Prop :=
  lock_run None tr = Some None.

(** An event that neither takes nor gives the lock nor calls the driver. *)
Definition idle_event (e : event) : bool :=
  match e with
  | EvLock _ | EvUnlock _ | EvStartXmit _ _ _ => false
  | _ => true
  end.

(** A step that only observes: it advances the count of observations
    and may add to the trace, and leaves the buffers, the allocator, the
    pool and the counters as they are. *)
Definition only_observes (w w' : world) : Prop :=
  (w_tick w <= w_tick w')%nat /\
  w_heap w' = w_heap w /\ w_next w' = w_next w /\
  w_tx_pool w' = w_tx_pool w /\ w_os_free w' = w_os_free w /\
  w_abrt w' = w_abrt w /\ w_sent w' = w_sent w /\ w_disc w' = w_disc w.

(** Buffers in the order of their allocation: addresses that go up
    strictly, from [lo] on and below [hi]. *)
Fixpoint ascending (lo hi : nat) (l : list nat) : Prop :=
  match l with
  | [] => (lo <= hi)%nat
  | p :: l' => (lo <= p < hi)%nat /\ ascending (S p) hi l'
  end.

(** ** What the drain fills in *)

(** The fields of a buffer the drain fills in: where its data come
    from, its length, the number of bytes copied, its device. *)
Definition skb_fill (s : sk_buff) : Z * Z * Z * nat :=
  (skb_data s, skb_len s, skb_copied s, skb_dev s).

(** A step that leaves these fields of every buffer, the allocator and
    the global counters of sent and discarded packets as they are. *)
Definition keeps_fill (w w' : world) : Prop :=
  w_next w' = w_next w /\ w_sent w' = w_sent w /\ w_disc w' = w_disc w /\
  forall p, skb_fill (w_heap w' p) = skb_fill (w_heap w p).

(** Such a step with the events it adds: the driver sees the fields as
    they were before the step. *)
Definition fill_step (w w' : world) (d : list event) : Prop :=
  w_trace w' = w_trace w ++ d /\
  keeps_fill w w' /\
  forall p s rc,
    (p, s, rc) ∈ driver_calls d -> skb_fill s = skb_fill (w_heap w p).

(** The buffer heads handed to the driver, in order; among them the
    ones allocated from the serial number [n0] on, and the older ones. *)
Definition submitted (tr : list event) : list nat :=
  map (fun c => fst (fst c)) (driver_calls tr).

Definition clones_of (n0 : nat) (l : list nat) : list nat :=
  filter (fun p => (n0 <= p)%nat) l.

Definition originals_of (n0 : nat) (l : list nat) : list nat :=
  filter (fun p => (p < n0)%nat) l.

(** ** Lazy forwarding of a whole queue *)

(** The forwards a commit over the targets [ts] makes for the buffers in
    flight. *)
Fixpoint total_forwards (ts : list (net_device * Z))
    (gc : list (nat * gc_log)) : Z :=
  match gc with
  | [] => 0
  | (_, log) :: gc' => forwards ts log + total_forwards ts gc'
  end.

(** A log of a buffer that does not go to the kernel, with room for [n]
    targets, whose targets in use are [ds], all of them still to be
    forwarded to. *)
Definition log_holds (n : Z) (ds : list net_device) (log : gc_log) : Prop :=
  log_targets log = ds /\
  log_num_devs log = Z.of_nat (length ds) /\
  log_xmit_todo log = Z.of_nat (length ds) /\
  log_to_kernel log = 0 /\
  Z.of_nat (length (log_dev log)) = n.

Section TransmitMore.

Variable cfg : config.
Variable env : environment.

(** A buffer as the drain fills it from the descriptor its data lie
    behind: the length is the length of the descriptor, [max_len] at
    most, at least 64 bytes are copied, and the device is the device of
    the drain. *)
Definition filled_from (mem : tx_memory) (dev : net_device) (s : sk_buff)
  : Prop :=
  let hdr := mem (skb_data s - sizeof_pfq_pkthdr_tx) in
  let len := Z.min (to_u64 (pkt_len hdr)) (to_u64 (max_len cfg)) in
  skb_len s = len /\
  skb_copied s = (if len <? 64 then 64 else len) /\
  skb_dev s = dev_ifindex dev.

(** ** Submission by mask ([pf_q-transmit.c]) *)

(** Modelled from the spec: [for_each_skbuff_bitmask] is declared in
    [pf_q-skbuff-batch.h], which is not at hand; it iterates by mask,
    skipping the indices absent from a 64-bit mask, so it runs, in
    order, over the buffers whose index has its bit set.  [n] is the
    index of the first buffer of [skbs]. *)
Fixpoint skbuff_bitmask (mask : Z) (n : Z) (skbs : list nat) : list nat :=
  match skbs with
  | [] => []
  | p :: rest =>
      if Z.testbit (to_u64 mask) n then p :: skbuff_bitmask mask (n + 1) rest
      else skbuff_bitmask mask (n + 1) rest
  end.

(** The body of [for_each_skbuff_bitmask] in [pfq_batch_xmit_by_mask]:
    [rest] are the selected buffers still to be visited. *)
Fixpoint batch_xmit_mask_loop (dev : net_device) (txq : Z) (rest : list nat)
    (ret : Z) (w : world) : Z * bool * world :=
  match rest with
  | [] => (ret, true, w)
  | p :: rest' =>
      let w := skb_set_queue_mapping p txq w in
      let (rc, w) := __pfq_xmit cfg env p dev txq false w in
      if rc =? NETDEV_TX_OK then
        batch_xmit_mask_loop dev txq rest' (ret + 1) w
      else (ret, false, w)
  end.

Definition pfq_batch_xmit_by_mask (skbs : list nat) (mask : Z)
    (dev : net_device) (hw_queue : Z) (w : world) : Z * world :=
  let txq := pfq_pick_tx dev (skb_at w (hd 0%nat skbs)) hw_queue in
  let w := emit (EvLock txq) w in
  let '(ret, completed, w) :=
    batch_xmit_mask_loop dev txq (skbuff_bitmask mask 0 skbs) 0 w in
  if completed then (ret, emit (EvUnlock txq) w)
  else
    let w := free_each (drop (Z.to_nat (ret + 1)) skbs) w in
    (ret, emit (EvUnlock txq) w).

(** ** Lazy forwarding of a batch ([pf_q-transmit.c]) *)

(** Modelled from the spec: [struct gc_queue_buff], [for_each_gcbuff]
    and [for_each_gcbuff_bitmask] are declared in [pf_q-GC.h], which is
    not at hand; the queue is the sequence of the buffers in flight,
    each with the log [PFQ_CB(buff.skb)->log] points to, as
    [pfq_lazy_xmit_exec] reads them, and the iteration by mask skips
    the indices absent from a 64-bit mask.

    The body of [for_each_gcbuff] in [pfq_batch_lazy_xmit], [n] being
    its local. *)
Fixpoint batch_lazy_xmit_loop (queue : list (nat * gc_log)) (dev : net_device)
    (hw_queue : Z) (n : Z) (w : world) : Z * list (nat * gc_log) * world :=
  match queue with
  | [] => (n, [], w)
  | (skb, log) :: queue' =>
      let '(r, log, w) := pfq_lazy_xmit cfg skb log dev hw_queue w in
      let '(n, queue'', w) :=
        batch_lazy_xmit_loop queue' dev hw_queue
                             (if negb (r =? 0) then n + 1 else n) w in
      (n, (skb, log) :: queue'', w)
  end.

Definition pfq_batch_lazy_xmit (queue : list (nat * gc_log))
    (dev : net_device) (hw_queue : Z) (w : world)
  : Z * list (nat * gc_log) * world :=
  batch_lazy_xmit_loop queue dev hw_queue 0 w.

(** The body of [for_each_gcbuff_bitmask] in
    [pfq_batch_lazy_xmit_by_mask]; [i] is the index of the first entry
    of [queue]. *)
Fixpoint batch_lazy_xmit_mask_loop (mask : Z) (i : Z)
    (queue : list (nat * gc_log)) (dev : net_device)
    (hw_queue : Z) (n : Z) (w : world) : Z * list (nat * gc_log) * world :=
  match queue with
  | [] => (n, [], w)
  | (skb, log) :: queue' =>
      if Z.testbit (to_u64 mask) i then
        let '(r, log, w) := pfq_lazy_xmit cfg skb log dev hw_queue w in
        let '(n, queue'', w) :=
          batch_lazy_xmit_mask_loop mask (i + 1) queue' dev hw_queue
                                    (if negb (r =? 0) then n + 1 else n) w in
        (n, (skb, log) :: queue'', w)
      else
        let '(n, queue'', w) :=
          batch_lazy_xmit_mask_loop mask (i + 1) queue' dev hw_queue n w in
        (n, (skb, log) :: queue'', w)
  end.

Definition pfq_batch_lazy_xmit_by_mask (queue : list (nat * gc_log))
    (mask : Z) (dev : net_device) (hw_queue : Z) (w : world)
  : Z * list (nat * gc_log) * world :=
  batch_lazy_xmit_mask_loop mask 0 queue dev hw_queue 0 w.

(** One call of [pfq_batch_lazy_xmit] for each device of [devs], one
    after the other. *)
Fixpoint pfq_batch_lazy_xmit_each (queue : list (nat * gc_log))
    (devs : list net_device) (hw_queue : Z) (w : world)
  : list (nat * gc_log) * world :=
  match devs with
  | [] => (queue, w)
  | dev :: devs' =>
      let '(_, queue, w) := pfq_batch_lazy_xmit queue dev hw_queue w in
      pfq_batch_lazy_xmit_each queue devs' hw_queue w
  end.

(** What an annotation for [dev] does to an entry of the queue: with
    room in the log the device is its new last target and both counters
    are one more, with a full log nothing changes. *)
Definition lazy_annotated (dev : net_device) (e e' : nat * gc_log) : Prop :=
  fst e' = fst e /\
  if log_num_devs (snd e) <? Q_GC_LOG_QUEUE_LEN cfg then
    log_targets (snd e') = log_targets (snd e) ++ [dev] /\
    log_num_devs (snd e') = log_num_devs (snd e) + 1 /\
    log_xmit_todo (snd e') = log_xmit_todo (snd e) + 1 /\
    log_to_kernel (snd e') = log_to_kernel (snd e) /\
    length (log_dev (snd e')) = length (log_dev (snd e))
  else snd e' = snd e.

(** A log as [pfq_lazy_xmit] expects it: an array of
    [Q_GC_LOG_QUEUE_LEN] targets and counters that do not overflow. *)
Definition log_wf (log : gc_log) : Prop :=
  0 <= log_num_devs log /\
  0 <= log_xmit_todo log < 2 ^ 64 - 1 /\
  Z.of_nat (length (log_dev log)) = Q_GC_LOG_QUEUE_LEN cfg.

End TransmitMore.


(** ** Sample inputs *)

Module Samples.

Definition skb1 : sk_buff := SkBuff 1 100 0 100 0 false 1.
Definition skb2 : sk_buff := SkBuff 2 100 0 100 0 false 1.

Definition heap12 : skb_heap :=
  fun p => if (p =? 7)%nat then skb1 else if (p =? 8)%nat then skb2 else skb_zero.

(** A pool of four slots holding the buffers 7 and 8. *)
Definition pool78 : pfq_skb_pool :=
  SkbPool (Some [None; Some 7%nat; Some 8%nat; None]) 4 3 1.

Definition pool_null : pfq_skb_pool := SkbPool None 0 0 0.

Definition eth0 : net_device := NetDevice 2 1 None.
Definition eth1 : net_device := NetDevice 3 4 None.

Definition world0 : world := World 0 [] heap12 9 pool_null 0 0 0 0.

(** The same kernel with the pool of the buffers 7 and 8: buffer 7 has
    one reference and can be taken again, buffer 8 has two. *)
Definition world78 : world := World 0 [] heap12 9 pool78 0 0 0 0.

Definition cfg0 : config := Config true false 16 1514 16 4 (-1).

(** A device that is up and takes everything, an allocator that always
    delivers, no signal, and a clock that advances by 100 ns with every
    observation. *)
Definition env_fair : environment :=
  Environment (fun _ => false) false (fun _ => false)
              (fun t => Z.of_nat t * 100)
              (fun _ => true) (fun _ => true) (fun _ => false)
              (fun _ => NETDEV_TX_OK) (fun _ => true) (fun _ => 1).

(** A driver that is busy on its second call. *)
Definition env_busy : environment :=
  Environment (fun _ => false) false (fun _ => false)
              (fun t => Z.of_nat t * 100)
              (fun _ => true) (fun _ => true) (fun _ => false)
              (fun t => if (t =? 5)%nat then 16 else NETDEV_TX_OK)
              (fun _ => true) (fun _ => 1).

(** A ring half with three descriptors of 100 bytes, due at 0, 500 and
    900 ns, and the terminator. *)
Definition ring3 : tx_memory :=
  fun a =>
    if a =? 0 then PktHdrTx 0 100
    else if a =? 120 then PktHdrTx 500 100
    else if a =? 240 then PktHdrTx 900 100
    else PktHdrTx 0 0.

Definition to0 : pfq_tx_opt :=
  TxOpt (fun _ => 0) (fun _ => 0) (fun _ => TxQueue 0 0 4096) 0 0.

(** Buffer 7 is to be forwarded to [eth0] and twice to [eth1]; buffer 8
    to [eth0] and also to the kernel. *)
Definition log7 : gc_log := GcLog [eth0; eth1; eth1; eth0] 3 0 3.
Definition log8 : gc_log := GcLog [eth0; eth0; eth0; eth0] 1 1 1.

Definition gc78 : list (nat * gc_log) := [(7%nat, log7); (8%nat, log8)].

Definition targets01 : list (net_device * Z) := [(eth0, 2); (eth1, 2)].

Definition log_full : gc_log := GcLog [eth0; eth1; eth1; eth0] 4 0 4.

(** A pool of three slots that holds two buffers, which is all it can
    hold, and a pool of four slots with none. *)
Definition pool_full : pfq_skb_pool :=
  SkbPool (Some [Some 7%nat; Some 8%nat; None]) 3 2 0.

Definition pool_empty : pfq_skb_pool :=
  SkbPool (Some [None; None; None; None]) 4 2 2.

(** A task with a signal pending, and a producer that has not published
    the next half. *)
Definition env_cancel : environment :=
  Environment (fun _ => true) false (fun _ => false)
              (fun t => Z.of_nat t * 100)
              (fun _ => true) (fun _ => true) (fun _ => false)
              (fun _ => NETDEV_TX_OK) (fun _ => true) (fun _ => 0).

(** A driver that is busy on the second buffer of a batch, and a signal
    that is pending from the seventh observation on. *)
Definition env_halt : environment :=
  Environment (fun t => (7 <=? t)%nat) false (fun _ => false)
              (fun t => Z.of_nat t * 100)
              (fun _ => true) (fun _ => true) (fun _ => false)
              (fun t => if (t =? 6)%nat then 16 else NETDEV_TX_OK)
              (fun _ => true) (fun _ => 1).

(** A build without [PFQ_USE_XMIT_MORE]. *)
Definition cfg_nohint : config := Config false false 16 1514 16 4 (-1).

(** Two buffers in flight with nothing logged yet. *)
Definition log_new : gc_log := GcLog [eth0; eth0; eth0; eth0] 0 0 0.

Definition queue_new : list (nat * gc_log) := [(7%nat, log_new); (8%nat, log_new)].

Import Stdlib.Strings.String.

(** The descriptor of a combinator linked to the descriptors 1 and 2. *)
Definition descr_and : pfq_lang.FunDescr :=
  pfq_lang.MkFunDescr pfq_lang.pfq_combinator_fun "and"%string None 0 1 2.

Definition pred_and : pfq_lang.predicate :=
  pfq_lang.Pred2 (pfq_lang.MkCombinator "and"%string)
                 (pfq_lang.Pred "is_ip"%string) (pfq_lang.Pred "is_udp"%string).

Definition pred_and_left : pfq_lang.predicate :=
  pfq_lang.Pred2 (pfq_lang.MkCombinator "and"%string)
                 (pfq_lang.Pred "is_ip"%string) (pfq_lang.Pred "is_ip"%string).

End Samples.

(** * Properties *)

(** ** The pool *)

(** C7. On an initialized pool whose head slot, when the pool is not
    empty, holds a buffer: if [c <> p] and the reference count of the head
    buffer is below 2, [pfq_skb_pool_pop] nulls the head slot, moves the
    consumer index to [next(c)] and returns the buffer; otherwise it
    returns NULL and leaves the pool as it was. *)
Theorem pfq_skb_pool_pop_spec (heap : skb_heap) (pool : pfq_skb_pool)
    (arr : list (option nat)) (skb : nat) :
  pool_skbs pool = Some arr ->
  (c_idx pool <> p_idx pool ->
   arr !! Z.to_nat (c_idx pool) = Some (Some skb)) ->
  pfq_skb_pool_pop heap pool =
    if decide (c_idx pool <> p_idx pool /\ skb_users (heap skb) < 2)
    then Some (Some skb,
               SkbPool (Some (<[Z.to_nat (c_idx pool) := None]> arr))
                       (pool_size pool) (p_idx pool)
                       (__pool_next pool (c_idx pool)))
    else Some (None, pool).
Proof.
  intros Harr Hhead. unfold pfq_skb_pool_pop. rewrite Harr.
  destruct (Z.eqb_spec (c_idx pool) (p_idx pool)) as [Heq | Hne]; simpl.
  - case_decide as Hd; [destruct Hd as [Hd _]; contradiction | reflexivity].
  - rewrite (Hhead Hne).
    destruct (Z.ltb_spec (skb_users (heap skb)) 2); case_decide as Hd;
      first [reflexivity | exfalso; lia | exfalso; apply Hd; split; lia].
Qed.

(** The slot that was read is empty after a successful pop. *)
Lemma pfq_skb_pool_pop_slot (heap : skb_heap) (pool pool' : pfq_skb_pool)
    (arr arr' : list (option nat)) (skb : nat) :
  pool_skbs pool = Some arr ->
  pfq_skb_pool_pop heap pool = Some (Some skb, pool') ->
  pool_skbs pool' = Some arr' ->
  arr' !! Z.to_nat (c_idx pool) = Some None /\
  arr !! Z.to_nat (c_idx pool) = Some (Some skb).
Proof.
  intros Harr Hpop Harr'. unfold pfq_skb_pool_pop in Hpop. rewrite Harr in Hpop.
  destruct (negb (c_idx pool =? p_idx pool)); [| congruence].
  destruct (arr !! Z.to_nat (c_idx pool)) as [[q |] |] eqn:Hslot; try congruence.
  destruct (skb_users (heap q) <? 2); [| congruence].
  injection Hpop as <- <-. simpl in Harr'. injection Harr' as <-.
  split; [| reflexivity].
  apply list_lookup_insert_eq. eapply lookup_lt_Some; eassumption.
Qed.

(** C10. On a pool that was never initialized ([skbs] is NULL),
    [pfq_skb_pool_pop] returns NULL and touches nothing, and
    [pfq_skb_pool_push] stores nothing: it bumps [os_free], releases the
    buffer with [kfree_skb] and returns [false]. *)
Theorem pfq_skb_pool_uninitialized (heap : skb_heap)
    (pool : pfq_skb_pool) (skb : nat) (w : world) :
  pool_skbs pool = None ->
  pfq_skb_pool_pop heap pool = Some (None, pool) /\
  exists w',
    pfq_skb_pool_push pool skb w = Some (false, pool, w') /\
    w_os_free w' = w_os_free w + 1 /\
    w_trace w' = w_trace w ++ [EvKfree skb] /\
    w_heap w' = heap_update (skb_with_users (fun u => u - 1)) skb (w_heap w) /\
    w_tx_pool w' = w_tx_pool w.
Proof.
  intros Hnull. unfold pfq_skb_pool_pop, pfq_skb_pool_push. rewrite Hnull.
  split; [reflexivity |].
  exists (kfree_skb skb (inc_os_free w)). repeat split; reflexivity.
Qed.

(** ** Queue selection *)

(** C2, as the code has it: a caller's queue that is not -1 and not below
    [real_num_tx_queues] is replaced by queue 0; with -1 on a device that
    has not exactly one queue the driver's selector chooses (queue 0
    without a selector), and its choice is capped the same way; a caller's
    queue within range is used unchanged. *)
Theorem pfq_pick_tx_spec (dev : net_device) (skb : sk_buff) (hw_queue : Z) :
  0 <= real_num_tx_queues dev < 2 ^ 32 ->
  - 2 ^ 31 <= hw_queue < 2 ^ 31 ->
  (hw_queue <> -1 -> hw_queue >= real_num_tx_queues dev ->
   pfq_pick_tx dev skb hw_queue = 0) /\
  (hw_queue = -1 -> real_num_tx_queues dev <> 1 ->
   pfq_pick_tx dev skb hw_queue =
     match ndo_select_queue dev with
     | Some select =>
         if to_u16 (select skb) <? real_num_tx_queues dev
         then to_u16 (select skb) else 0
     | None => 0
     end) /\
  (0 <= hw_queue < real_num_tx_queues dev ->
   pfq_pick_tx dev skb hw_queue = hw_queue).
Proof.
  intros Hnum Hhw. unfold pfq_pick_tx, __pfq_dev_cap_txqueue.
  assert (Hu16 : forall x, 0 <= to_u16 x < 2 ^ 16)
    by (intros x; unfold to_u16; apply Z.mod_pos_bound; lia).
  repeat split.
  - intros Hne Hge.
    replace (hw_queue =? -1) with false by (symmetry; apply Z.eqb_neq; lia).
    rewrite andb_false_r. unfold to_u32.
    rewrite Z.mod_small by lia.
    destruct (Z.geb_spec hw_queue (real_num_tx_queues dev)); [reflexivity | lia].
  - intros -> Hmany.
    replace (real_num_tx_queues dev =? 1) with false
      by (symmetry; apply Z.eqb_neq; lia).
    simpl. destruct (ndo_select_queue dev) as [select |].
    + specialize (Hu16 (select skb)). unfold to_u32.
      rewrite Z.mod_small by lia.
      destruct (Z.geb_spec (to_u16 (select skb)) (real_num_tx_queues dev));
        destruct (Z.ltb_spec (to_u16 (select skb)) (real_num_tx_queues dev));
        first [reflexivity | lia].
    + unfold to_u32. rewrite Z.mod_small by lia.
      destruct (Z.geb_spec 0 (real_num_tx_queues dev)); reflexivity.
  - intros Hin.
    replace (hw_queue =? -1) with false by (symmetry; apply Z.eqb_neq; lia).
    rewrite andb_false_r. unfold to_u32. rewrite Z.mod_small by lia.
    destruct (Z.geb_spec hw_queue (real_num_tx_queues dev)); [lia | reflexivity].
Qed.

(** ** The predicate serializer *)

(** C9. The serialization of [Pred2] is the combinator, linked to [n + 1]
    and to the index after the left operand, followed by the serialization
    of the left operand twice: the right operand does not contribute. *)
Theorem serialize_Pred2_left_twice (n : Z) (comb : pfq_lang.Combinator)
    (l r : pfq_lang.predicate) :
  let n1 := n + 1 in
  let n2 := snd (pfq_lang.serialize n1 l) in
  pfq_lang.serialize n (pfq_lang.Pred2 comb l r) =
    (pfq_lang.MkFunDescr pfq_lang.pfq_combinator_fun
       (pfq_lang.comb_name comb) None 0 n1 n2
     :: fst (pfq_lang.serialize n1 l) ++ fst (pfq_lang.serialize n2 l),
     snd (pfq_lang.serialize n2 l)) /\
  forall r' : pfq_lang.predicate,
    pfq_lang.serialize n (pfq_lang.Pred2 comb l r') =
    pfq_lang.serialize n (pfq_lang.Pred2 comb l r).
Proof.
  intros n1 n2. split.
  - simpl. subst n1 n2.
    destruct (pfq_lang.serialize (n + 1) l) as [left m2] eqn:Hl. simpl.
    destruct (pfq_lang.serialize m2 l) as [right m3]. simpl.
    reflexivity.
  - intros r'. reflexivity.
Qed.

(** ** Device submission *)

Lemma quiet_refl (w : world) : quiet w w.
Proof. unfold quiet. auto. Qed.

Lemma quiet_trans (w1 w2 w3 : world) : quiet w1 w2 -> quiet w2 w3 -> quiet w1 w3.
Proof.
  unfold quiet. intros (Ht1 & Hn1 & Hd1) (Ht2 & Hn2 & Hd2).
  repeat split; [lia | congruence | intros p; rewrite Hd2; apply Hd1].
Qed.

Lemma heap_update_data (f : sk_buff -> sk_buff) (p q : nat) (h : skb_heap) :
  (forall s, skb_data (f s) = skb_data s) ->
  skb_data (heap_update f p h q) = skb_data (h q).
Proof.
  intros Hf. unfold heap_update. destruct (q =? p)%nat; [apply Hf | reflexivity].
Qed.

Lemma heap_update_same (f : sk_buff -> sk_buff) (p : nat) (h : skb_heap) :
  heap_update f p h p = f (h p).
Proof. unfold heap_update. rewrite Nat.eqb_refl. reflexivity. Qed.

Ltac quiet_step :=
  unfold quiet; simpl; repeat split; try lia;
  intros;
  repeat (rewrite heap_update_data by (intros []; reflexivity));
  try reflexivity.

Lemma quiet_emit (e : event) (w : world) : quiet w (emit e w).
Proof. quiet_step. Qed.

Lemma quiet_skb_get (p : nat) (w : world) : quiet w (skb_get p w).
Proof. quiet_step. Qed.

Lemma quiet_kfree_skb (p : nat) (w : world) : quiet w (kfree_skb p w).
Proof. quiet_step. Qed.

Lemma quiet_inc_os_free (w : world) : quiet w (inc_os_free w).
Proof. quiet_step. Qed.

Lemma quiet_skb_set_queue_mapping (p : nat) (q : Z) (w : world) :
  quiet w (skb_set_queue_mapping p q w).
Proof. quiet_step. Qed.

Lemma xmit_events_weaken (p : nat) (ok ok' : sk_buff -> Prop) (rc : Z)
    (d : list event) :
  (forall s, ok s -> ok' s) -> xmit_events p ok rc d -> xmit_events p ok' rc d.
Proof. intros Hok H. destruct H; constructor; auto. Qed.

Lemma xmit_events_sent (p : nat) (ok : sk_buff -> Prop) (d : list event) :
  xmit_events p ok NETDEV_TX_OK d ->
  exists s, ok s /\ d = [EvStartXmit p s NETDEV_TX_OK].
Proof.
  intros H. inversion H; subst; try discriminate. eauto.
Qed.

Lemma xmit_events_failed (p : nat) (ok : sk_buff -> Prop) (rc : Z)
    (d : list event) :
  xmit_events p ok rc d -> rc <> NETDEV_TX_OK ->
  transmitted d = [] /\ lock_events d = [] /\
  (driver_calls d = [] \/
   exists s rc0, ok s /\ rc0 <> NETDEV_TX_OK /\ driver_calls d = [(p, s, rc0)]) /\
  (released d = [] \/ released d = [p]).
Proof.
  intros H Hrc. destruct H as [s rc Hs Hc | s rc Hs Hc |]; simpl.
  - destruct (Z.eqb_spec rc NETDEV_TX_OK); [contradiction |].
    repeat split; eauto 6.
  - assert (rc <> NETDEV_TX_OK).
    { intros ->. discriminate. }
    destruct (Z.eqb_spec rc NETDEV_TX_OK); [contradiction |].
    repeat split; eauto 6.
  - repeat split; eauto.
Qed.

Lemma loop_events_weaken (ok ok' : Z -> nat -> sk_buff -> Prop) (n : Z)
    (ps : list nat) (k : Z) (c : bool) (d : list event) :
  (forall i p s, ok i p s -> ok' i p s) ->
  loop_events ok n ps k c d -> loop_events ok' n ps k c d.
Proof.
  intros Hok H. induction H.
  - constructor.
  - econstructor; [eapply xmit_events_weaken; [apply Hok | eassumption] | assumption].
  - econstructor; [eassumption | eapply xmit_events_weaken; [apply Hok | eassumption]].
Qed.

Lemma loop_events_count (ok : Z -> nat -> sk_buff -> Prop) (n : Z)
    (ps : list nat) (k : Z) (c : bool) (d : list event) :
  loop_events ok n ps k c d ->
  0 <= k <= Z.of_nat (length ps) /\
  (if c then k = Z.of_nat (length ps) else k < Z.of_nat (length ps)).
Proof.
  intros H. induction H; simpl length.
  - simpl. lia.
  - destruct c; lia.
  - lia.
Qed.

Lemma loop_events_locks (ok : Z -> nat -> sk_buff -> Prop) (n : Z)
    (ps : list nat) (k : Z) (c : bool) (d : list event) :
  loop_events ok n ps k c d -> lock_events d = [].
Proof.
  intros H. induction H.
  - reflexivity.
  - apply xmit_events_sent in H as (s & _ & ->). exact IHloop_events.
  - eapply xmit_events_failed in H0 as (_ & Hl & _); eauto.
Qed.

Lemma loop_events_transmitted (ok : Z -> nat -> sk_buff -> Prop) (n : Z)
    (ps : list nat) (k : Z) (c : bool) (d : list event) :
  loop_events ok n ps k c d -> transmitted d = take (Z.to_nat k) ps.
Proof.
  intros H. induction H.
  - reflexivity.
  - apply xmit_events_sent in H as (s & _ & ->).
    pose proof (loop_events_count _ _ _ _ _ _ H0) as [Hk _].
    replace (Z.to_nat (k + 1)) with (S (Z.to_nat k)) by lia.
    simpl. f_equal. exact IHloop_events.
  - eapply xmit_events_failed in H0 as (Ht & _); eauto.
Qed.

(** The i-th call of the driver is for the i-th buffer, and the driver
    took exactly the first [k]. *)
Lemma loop_events_calls (ok : Z -> nat -> sk_buff -> Prop) (n : Z)
    (ps : list nat) (k : Z) (c : bool) (d : list event) :
  loop_events ok n ps k c d ->
  (Z.to_nat k <= length (driver_calls d) <= S (Z.to_nat k))%nat /\
  forall (i : nat) p s rc,
    driver_calls d !! i = Some (p, s, rc) ->
    ps !! i = Some p /\ ok (n + Z.of_nat i) p s /\
    (rc = NETDEV_TX_OK <-> Z.of_nat i < k).
Proof.
  intros H. induction H.
  - split; [simpl; lia | intros i p s rc Hi; discriminate].
  - apply xmit_events_sent in H as (s0 & Hs0 & ->).
    pose proof (loop_events_count _ _ _ _ _ _ H0) as [Hk _].
    destruct IHloop_events as [Hlen Hcalls].
    replace (Z.to_nat (k + 1)) with (S (Z.to_nat k)) by lia.
    split; [simpl; lia |].
    intros [| i] q s rc Hi; simpl in Hi.
    + injection Hi as <- <- <-. rewrite Z.add_0_r.
      split; [reflexivity |]. split; [assumption |].
      split; intros; [lia | reflexivity].
    + destruct (Hcalls i q s rc Hi) as (Hq & Hok & Hrc).
      split; [exact Hq |]. split; [| split; intros; lia].
      replace (n + Z.of_nat (S i)) with (n + 1 + Z.of_nat i) by lia.
      assumption.
  - eapply xmit_events_failed in H0 as (_ & _ & Hd & _); eauto.
    destruct Hd as [-> | (s0 & rc0 & Hs0 & Hrc0 & ->)].
    + split; [simpl; lia | intros i q s r Hi; discriminate].
    + split; [simpl; lia |].
      intros [| i] q s r Hi; simpl in Hi; [| discriminate].
      injection Hi as <- <- <-. rewrite Z.add_0_r.
      split; [reflexivity |]. split; [assumption |].
      split; intros; [contradiction | lia].
Qed.

Lemma loop_events_released (ok : Z -> nat -> sk_buff -> Prop) (n : Z)
    (ps : list nat) (k : Z) (c : bool) (d : list event) :
  loop_events ok n ps k c d ->
  if c then released d = []
  else released d = [] \/ released d = take 1 (drop (Z.to_nat k) ps).
Proof.
  intros H. induction H.
  - reflexivity.
  - apply xmit_events_sent in H as (s0 & Hs0 & ->).
    pose proof (loop_events_count _ _ _ _ _ _ H0) as [Hk _].
    replace (Z.to_nat (k + 1)) with (S (Z.to_nat k)) by lia.
    exact IHloop_events.
  - eapply xmit_events_failed in H0 as (_ & _ & _ & Hr); eauto.
Qed.

(** The buffer a batch stops at: the driver refused it, or it never
    reached the driver and was released. *)
Lemma loop_events_failure (ok : Z -> nat -> sk_buff -> Prop) (n : Z)
    (ps : list nat) (k : Z) (c : bool) (d : list event) :
  loop_events ok n ps k c d -> c = false ->
  exists p,
    ps !! Z.to_nat k = Some p /\
    ((exists s rc,
        ok (n + k) p s /\ rc <> NETDEV_TX_OK /\
        driver_calls d !! Z.to_nat k = Some (p, s, rc) /\
        length (driver_calls d) = S (Z.to_nat k) /\
        released d = if dev_xmit_complete rc then [] else [p]) \/
     (length (driver_calls d) = Z.to_nat k /\ released d = [p])).
Proof.
  intros H. induction H as [n | n p ps k c d1 d2 Hx Hrest IH | n p ps rc d1 Hrc Hx];
    intros Hc.
  - discriminate.
  - apply xmit_events_sent in Hx as (s0 & _ & ->).
    pose proof (loop_events_count _ _ _ _ _ _ Hrest) as [Hk _].
    destruct (IH Hc) as (q & Hq & Hcases).
    replace (Z.to_nat (k + 1)) with (S (Z.to_nat k)) by lia.
    exists q. split; [exact Hq |].
    replace (n + (k + 1)) with (n + 1 + k) by lia.
    destruct Hcases as [(s & rc & Hok & Hrc & Hcall & Hlen & Hrel) | (Hlen & Hrel)].
    + left. exists s, rc. simpl. auto 6.
    + right. simpl. auto.
  - exists p. split; [reflexivity |]. rewrite Z.add_0_r.
    inversion Hx as [s rc0 Hs Hcomp | s rc0 Hs Hcomp |]; subst.
    + left. exists s, rc. rewrite Hcomp. simpl. auto 6.
    + left. exists s, rc0. rewrite Hcomp. simpl.
      split; [exact Hs |]. split; [| auto].
      intros ->. discriminate.
    + right. simpl. auto.
Qed.

Lemma xmit_events_silent (p : nat) (ok : sk_buff -> Prop) (rc : Z)
    (d : list event) :
  xmit_events p ok rc d -> clock_reads d = [] /\ giveups d = [].
Proof. intros H. destruct H; auto. Qed.

Lemma loop_events_silent (ok : Z -> nat -> sk_buff -> Prop) (n : Z)
    (ps : list nat) (k : Z) (c : bool) (d : list event) :
  loop_events ok n ps k c d -> clock_reads d = [] /\ giveups d = [].
Proof.
  intros H. induction H.
  - auto.
  - apply xmit_events_silent in H as [Hc Hg]. destruct IHloop_events as [Hc2 Hg2].
    unfold clock_reads, giveups in *. rewrite !omap_app, Hc, Hg, Hc2, Hg2. auto.
  - eapply xmit_events_silent; eassumption.
Qed.

Lemma trace_of_kfrees (ps : list nat) :
  driver_calls (map EvKfree ps) = [] /\
  transmitted (map EvKfree ps) = [] /\
  lock_events (map EvKfree ps) = [] /\
  released (map EvKfree ps) = ps /\
  clock_reads (map EvKfree ps) = [] /\
  giveups (map EvKfree ps) = [].
Proof.
  induction ps as [| p ps (H1 & H2 & H3 & H4 & H5 & H6)]; simpl; [auto 6 |].
  repeat split; try assumption. f_equal. exact H4.
Qed.

Lemma transmitted_app (a b : list event) :
  transmitted (a ++ b) = transmitted a ++ transmitted b.
Proof. apply omap_app. Qed.

Lemma driver_calls_app (a b : list event) :
  driver_calls (a ++ b) = driver_calls a ++ driver_calls b.
Proof. apply omap_app. Qed.

Lemma clock_reads_app (a b : list event) :
  clock_reads (a ++ b) = clock_reads a ++ clock_reads b.
Proof. apply omap_app. Qed.

Lemma giveups_app (a b : list event) :
  giveups (a ++ b) = giveups a ++ giveups b.
Proof. apply omap_app. Qed.

Lemma last_cons_Some {A : Type} (x y : A) (l : list A) :
  last l = Some y -> last (x :: l) = Some y.
Proof. destruct l; [discriminate | auto]. Qed.

Lemma observed_mono (env : environment) (lo hi lo' hi' : nat) (e : event) :
  (lo' <= lo)%nat -> (hi <= hi')%nat ->
  observed env lo hi e -> observed env lo' hi' e.
Proof.
  intros Hlo Hhi. destruct e; simpl; try tauto.
  - intros (t & Ht & Hb). exists t. split; [lia | exact Hb].
  - intros (t & Ht & Hb). exists t. split; [lia | exact Hb].
  - intros (t & Ht1 & Ht2 & Hrest). exists t.
    split; [lia |]. split; [lia | exact Hrest].
Qed.

Lemma observed_all_mono (env : environment) (lo hi lo' hi' : nat)
    (d : list event) :
  (lo' <= lo)%nat -> (hi <= hi')%nat ->
  Forall (observed env lo hi) d -> Forall (observed env lo' hi') d.
Proof.
  intros Hlo Hhi H. eapply Forall_impl; [exact H |].
  intros e. apply observed_mono; assumption.
Qed.

Lemma observed_kfrees (env : environment) (lo hi : nat) (ps : list nat) :
  Forall (observed env lo hi) (map EvKfree ps).
Proof. apply Forall_map. apply Forall_forall. intros q _. exact I. Qed.

Lemma last_app_Some {A : Type} (a b : list A) (x : A) :
  last b = Some x -> last (a ++ b) = Some x.
Proof.
  intros H. induction a as [| y a IH]; [exact H |].
  simpl. apply last_cons_Some. exact IH.
Qed.

Section Submit.

Variable cfg : config.
Variable env : environment.

(** One call of [__pfq_xmit]: the driver sees the buffer with
    [xmit_more] set as asked (cleared without [PFQ_USE_XMIT_MORE]). *)
Lemma __pfq_xmit_events (p : nat) (dev : net_device) (txq : Z) (more : bool)
    (w w' : world) (rc : Z) :
  __pfq_xmit cfg env p dev txq more w = (rc, w') ->
  exists d,
    w_trace w' = w_trace w ++ d /\
    quiet w w' /\
    xmit_events p
      (fun s => s = skb_with_xmit_more
                      (if PFQ_USE_XMIT_MORE cfg then more else false)
                      (w_heap w p)) rc d.
Proof.
  unfold __pfq_xmit, observe. simpl.
  destruct (env_iff_up env (w_tick w)); simpl.
  - destruct (env_xmit_stopped env (S (w_tick w))); simpl.
    + intros [= <- <-]. exists [EvKfree p]. simpl.
      split; [reflexivity |]. split; [quiet_step | constructor].
    + destruct (dev_xmit_complete (env_start_xmit env (S (S (w_tick w)))))
        eqn:Hc; intros [= <- <-]; simpl.
      * eexists. split; [reflexivity |]. split; [quiet_step |].
        constructor; [| exact Hc].
        unfold skb_at. simpl. apply heap_update_same.
      * eexists. split; [rewrite <- app_assoc; reflexivity |].
        split; [quiet_step |].
        apply xmit_refused; [| exact Hc].
        unfold skb_at. simpl. apply heap_update_same.
  - intros [= <- <-]. exists [EvKfree p]. simpl.
    split; [reflexivity |]. split; [quiet_step | constructor].
Qed.

Lemma batch_xmit_loop_events (dev : net_device) (txq last : Z)
    (rest : list nat) :
  forall (n ret : Z) (w w' : world) (ret' : Z) (c : bool),
    batch_xmit_loop cfg env dev txq last rest n ret w = (ret', c, w') ->
    exists d k,
      w_trace w' = w_trace w ++ d /\ quiet w w' /\ ret' = ret + k /\
      loop_events (batch_ok cfg txq last (w_heap w)) n rest k c d.
Proof.
  induction rest as [| p rest IH]; intros n ret w w' ret' c Hloop; simpl in Hloop.
  - injection Hloop as <- <- <-. exists [], 0.
    rewrite app_nil_r. repeat split; [apply quiet_refl | lia | constructor].
  - destruct (__pfq_xmit cfg env p dev txq (negb (to_u64 n =? last))
                (skb_set_queue_mapping p txq w)) as [rc w1] eqn:Hx.
    apply __pfq_xmit_events in Hx as (d1 & Ht1 & Hq1 & Hev).
    assert (Hq : quiet w w1).
    { eapply quiet_trans; [apply quiet_skb_set_queue_mapping | exact Hq1]. }
    assert (Hev' : xmit_events p (batch_ok cfg txq last (w_heap w) n p) rc d1).
    { eapply xmit_events_weaken; [| exact Hev].
      intros s ->. unfold batch_ok. simpl. rewrite heap_update_same.
      repeat split; reflexivity. }
    destruct (Z.eqb_spec rc NETDEV_TX_OK) as [-> | Hrc].
    + apply IH in Hloop as (d2 & k & Ht2 & Hq2 & -> & Hev2).
      exists (d1 ++ d2), (k + 1).
      split; [rewrite Ht2, Ht1; simpl; apply eq_sym, app_assoc |].
      split; [eapply quiet_trans; eassumption |].
      split; [lia |].
      econstructor; [exact Hev' |].
      eapply loop_events_weaken; [| exact Hev2].
      unfold batch_ok. intros i q s (Hm & Hqm & Hd).
      destruct Hq as (_ & _ & Hdata). rewrite <- Hdata. auto.
    + injection Hloop as <- <- <-. exists d1, 0.
      split; [exact Ht1 |]. split; [exact Hq |]. split; [lia |].
      econstructor; eassumption.
Qed.

Lemma free_each_spec (ps : list nat) :
  forall w : world,
    w_trace (free_each ps w) = w_trace w ++ map EvKfree ps /\
    quiet w (free_each ps w).
Proof.
  unfold free_each.
  induction ps as [| p ps IH]; intros w; simpl.
  - rewrite app_nil_r. split; [reflexivity | apply quiet_refl].
  - destruct (IH (kfree_skb p (inc_os_free w))) as [Ht Hq].
    split.
    + rewrite Ht. simpl. rewrite <- app_assoc. reflexivity.
    + eapply quiet_trans; [| exact Hq]. quiet_step.
Qed.

(** [pfq_batch_xmit] as a whole: the lock, the loop, the buffers
    released after a failure, the unlock. *)
Lemma pfq_batch_xmit_events (skbs : list nat) (dev : net_device)
    (hw_queue : Z) (w w' : world) (ret : Z) :
  pfq_batch_xmit cfg env skbs dev hw_queue w = (ret, w') ->
  let txq := pfq_pick_tx dev (skb_at w (hd 0%nat skbs)) hw_queue in
  let last := to_u64 (Z.of_nat (length skbs) - 1) in
  exists d c,
    w_trace w' =
      w_trace w ++
      EvLock txq :: d ++
      (if c : bool then [] else map EvKfree (drop (S (Z.to_nat ret)) skbs)) ++
      [EvUnlock txq] /\
    quiet w w' /\
    loop_events (batch_ok cfg txq last (w_heap w)) 0 skbs ret c d.
Proof.
  unfold pfq_batch_xmit. cbv zeta. intros H.
  set (txq := pfq_pick_tx dev (skb_at w (hd 0%nat skbs)) hw_queue) in *.
  set (last := to_u64 (Z.of_nat (length skbs) - 1)) in *.
  destruct (batch_xmit_loop cfg env dev txq last skbs 0 0 (emit (EvLock txq) w))
    as [[ret0 c] w1] eqn:Hloop.
  apply batch_xmit_loop_events in Hloop as (d & k & Ht & Hq & -> & Hev).
  simpl in Ht, Hev. rewrite Z.add_0_l in H.
  pose proof (loop_events_count _ _ _ _ _ _ Hev) as [Hk _].
  exists d, c. destruct c.
  - injection H as <- <-. simpl. rewrite Ht, <- !app_assoc. simpl.
    split; [reflexivity |].
    split; [| exact Hev].
    eapply quiet_trans; [apply quiet_emit |].
    eapply quiet_trans; [exact Hq | apply quiet_emit].
  - injection H as <- <-.
    replace (Z.to_nat (k + 1)) with (S (Z.to_nat k)) by lia.
    destruct (free_each_spec (drop (S (Z.to_nat k)) skbs) w1) as [Htf Hqf].
    simpl. rewrite Htf, Ht, <- !app_assoc. simpl.
    split; [reflexivity |].
    split; [| exact Hev].
    eapply quiet_trans; [apply quiet_emit |].
    eapply quiet_trans; [exact Hq |].
    eapply quiet_trans; [exact Hqf | apply quiet_emit].
Qed.

(** What a call of [__pfq_xmit] leaves in the trace is what the
    environment showed; it hands the buffer to the driver unless the
    device was down or its queue stopped. *)
Lemma __pfq_xmit_observed (p : nat) (dev : net_device) (txq : Z) (more : bool)
    (w w' : world) (rc : Z) (d : list event) :
  __pfq_xmit cfg env p dev txq more w = (rc, w') ->
  w_trace w' = w_trace w ++ d ->
  (w_tick w < w_tick w')%nat /\
  Forall (observed env (w_tick w) (w_tick w')) d /\
  (driver_calls d = [] ->
   exists t, (w_tick w <= t < w_tick w')%nat /\
             (env_iff_up env t = false \/ env_xmit_stopped env t = true)).
Proof.
  unfold __pfq_xmit, observe. simpl.
  destruct (env_iff_up env (w_tick w)) eqn:Hup; simpl.
  - destruct (env_xmit_stopped env (S (w_tick w))) eqn:Hst; simpl.
    + intros [= <- <-] Hd. simpl in Hd. apply app_inv_head in Hd. subst d.
      simpl. split; [lia |]. split; [repeat constructor |].
      intros _. exists (S (w_tick w)). split; [lia | right; exact Hst].
    + destruct (dev_xmit_complete (env_start_xmit env (S (S (w_tick w)))));
        intros [= <- <-] Hd; simpl in Hd.
      * apply app_inv_head in Hd. subst d. simpl.
        split; [lia |]. split; [| discriminate].
        constructor; [| constructor].
        exists (w_tick w). repeat split; first [lia | assumption].
      * rewrite <- app_assoc in Hd. apply app_inv_head in Hd. subst d. simpl.
        split; [lia |]. split; [| discriminate].
        constructor; [| repeat constructor].
        exists (w_tick w). repeat split; first [lia | assumption].
  - intros [= <- <-] Hd. simpl in Hd. apply app_inv_head in Hd. subst d.
    simpl. split; [lia |]. split; [repeat constructor |].
    intros _. exists (w_tick w). split; [lia | left; exact Hup].
Qed.

Lemma batch_xmit_loop_observed (dev : net_device) (txq last : Z)
    (rest : list nat) :
  forall (n ret : Z) (w w' : world) (ret' : Z) (c : bool) (d : list event),
    batch_xmit_loop cfg env dev txq last rest n ret w = (ret', c, w') ->
    w_trace w' = w_trace w ++ d ->
    (w_tick w <= w_tick w')%nat /\
    Forall (observed env (w_tick w) (w_tick w')) d /\
    (c = false -> length (driver_calls d) = length (transmitted d) ->
     exists t, (w_tick w <= t < w_tick w')%nat /\
               (env_iff_up env t = false \/ env_xmit_stopped env t = true)).
Proof.
  induction rest as [| p rest IH]; intros n ret w w' ret' c d Hloop Hd;
    simpl in Hloop.
  - injection Hloop as <- <- <-.
    rewrite <- (app_nil_r (w_trace w)) in Hd at 1.
    apply app_inv_head in Hd. subst d.
    split; [lia |]. split; [constructor | discriminate].
  - destruct (__pfq_xmit cfg env p dev txq (negb (to_u64 n =? last))
                (skb_set_queue_mapping p txq w)) as [rc w1] eqn:Hx.
    pose proof Hx as Hev.
    apply __pfq_xmit_events in Hev as (d1 & Ht1 & _ & Hev).
    destruct (__pfq_xmit_observed _ _ _ _ _ _ _ _ Hx Ht1) as (Htk1 & Hob1 & Hno1).
    simpl in Ht1, Htk1, Hob1, Hno1.
    destruct (Z.eqb_spec rc NETDEV_TX_OK) as [-> | Hrc].
    + pose proof Hloop as Hev2.
      apply batch_xmit_loop_events in Hev2 as (d2 & _ & Ht2 & _).
      destruct (IH _ _ _ _ _ _ _ Hloop Ht2) as (Htk2 & Hob2 & Hno2).
      rewrite Ht2, Ht1, <- app_assoc in Hd. apply app_inv_head in Hd. subst d.
      apply xmit_events_sent in Hev as (s & _ & ->).
      split; [lia |]. split.
      * apply Forall_app. split.
        -- eapply observed_all_mono; [| | exact Hob1]; lia.
        -- eapply observed_all_mono; [| | exact Hob2]; lia.
      * intros Hc Hlen. simpl in Hlen. injection Hlen as Hlen.
        destruct (Hno2 Hc Hlen) as (t & Ht & Hdown).
        exists t. split; [lia | exact Hdown].
    + injection Hloop as <- <- <-.
      rewrite Ht1 in Hd. apply app_inv_head in Hd. subst d.
      split; [lia |]. split; [exact Hob1 |].
      intros _ Hlen.
      eapply xmit_events_failed in Hev as (Htr & _); [| exact Hrc].
      rewrite Htr in Hlen. simpl in Hlen.
      apply Hno1. destruct (driver_calls d1); [reflexivity | discriminate].
Qed.

Lemma free_each_tick (ps : list nat) :
  forall w : world, w_tick (free_each ps w) = w_tick w.
Proof.
  unfold free_each. induction ps as [| p ps IH]; intros w; simpl; [reflexivity |].
  rewrite IH. reflexivity.
Qed.

(** The same for a whole batch: [d] is what [pfq_batch_xmit] adds to the
    trace. *)
Lemma pfq_batch_xmit_observed (skbs : list nat) (dev : net_device)
    (hw_queue : Z) (w w' : world) (ret : Z) (d : list event) :
  pfq_batch_xmit cfg env skbs dev hw_queue w = (ret, w') ->
  w_trace w' = w_trace w ++ d ->
  (w_tick w <= w_tick w')%nat /\
  Forall (observed env (w_tick w) (w_tick w')) d /\
  (ret < Z.of_nat (length skbs) ->
   length (driver_calls d) = length (transmitted d) ->
   exists t, (w_tick w <= t < w_tick w')%nat /\
             (env_iff_up env t = false \/ env_xmit_stopped env t = true)).
Proof.
  intros H Hd.
  unfold pfq_batch_xmit in H. cbv zeta in H.
  set (txq := pfq_pick_tx dev (skb_at w (hd 0%nat skbs)) hw_queue) in *.
  set (last := to_u64 (Z.of_nat (length skbs) - 1)) in *.
  destruct (batch_xmit_loop cfg env dev txq last skbs 0 0 (emit (EvLock txq) w))
    as [[ret0 c] w1] eqn:Hloop.
  pose proof Hloop as Hev1.
  apply batch_xmit_loop_events in Hev1 as (d1 & k & Ht1 & _ & Hret0 & Hev1).
  destruct (batch_xmit_loop_observed _ _ _ _ _ _ _ _ _ _ _ Hloop Ht1)
    as (Htk1 & Hob1 & Hno1).
  pose proof (loop_events_count _ _ _ _ _ _ Hev1) as [Hk Hc].
  simpl in Ht1, Htk1, Hob1, Hno1.
  set (frees := if c then [] else map EvKfree (drop (Z.to_nat (ret0 + 1)) skbs)).
  assert (Hw' : w_tick w' = w_tick w1 /\
                w_trace w' = w_trace w1 ++ frees ++ [EvUnlock txq] /\
                ret = ret0).
  { subst frees. destruct c; injection H as <- <-; simpl.
    - auto.
    - rewrite free_each_tick.
      destruct (free_each_spec (drop (Z.to_nat (ret0 + 1)) skbs) w1) as [-> _].
      rewrite <- app_assoc. auto. }
  destruct Hw' as (Htk' & Ht' & ->).
  rewrite Ht1, <- !app_assoc in Ht'. rewrite Ht' in Hd.
  apply app_inv_head in Hd. subst d.
  assert (Hfrees : driver_calls frees = [] /\ transmitted frees = [] /\
                   Forall (observed env (w_tick w) (w_tick w1)) frees).
  { subst frees. destruct c.
    - split; [reflexivity |]. split; [reflexivity | constructor].
    - destruct (trace_of_kfrees (drop (Z.to_nat (ret0 + 1)) skbs))
        as (Hf1 & Hf2 & _).
      split; [exact Hf1 |]. split; [exact Hf2 | apply observed_kfrees]. }
  destruct Hfrees as (Hfc & Hft & Hfo).
  rewrite Htk'.
  split; [lia |]. split.
  - simpl. constructor; [exact I |].
    apply Forall_app. split; [exact Hob1 |].
    apply Forall_app. split; [exact Hfo | repeat constructor].
  - intros Hlt Hlen. apply Hno1.
    + destruct c; [lia | reflexivity].
    + simpl in Hlen.
      change (driver_calls (EvLock txq :: ?l)) with (driver_calls l) in Hlen.
      change (transmitted (EvLock txq :: ?l)) with (transmitted l) in Hlen.
      rewrite !driver_calls_app, !transmitted_app, Hfc, Hft in Hlen.
      simpl in Hlen. rewrite !app_nil_r in Hlen. exact Hlen.
Qed.

(** C6, as the code has it.  A batch of K buffers is submitted under
    one hold of the queue lock; the i-th call of the driver is for the
    i-th buffer of the batch.  Built with [PFQ_USE_XMIT_MORE] the call
    carries [xmit_more] except for the buffer of index K - 1; built
    without it no call carries the hint.  Every call was made with the
    device up and its queue running, and has the code the driver
    answered.  The value returned is the number of buffers the driver
    took with [NETDEV_TX_OK] before its first other answer.  The buffer
    the batch stops at was handed to the driver, and is released when
    the code says the driver did not complete it, or was not handed
    over and released because the device was down or its queue stopped;
    the buffers after it are released. *)
Theorem pfq_batch_xmit_spec (skbs : list nat) (dev : net_device)
    (hw_queue : Z) (w w' : world) (ret : Z) :
  (0 < length skbs)%nat ->
  Z.of_nat (length skbs) < 2 ^ 64 ->
  pfq_batch_xmit cfg env skbs dev hw_queue w = (ret, w') ->
  exists txq body,
    w_trace w' = w_trace w ++ EvLock txq :: body ++ [EvUnlock txq] /\
    lock_events body = [] /\
    Forall (observed env (w_tick w) (w_tick w')) body /\
    0 <= ret <= Z.of_nat (length skbs) /\
    (Z.to_nat ret <= length (driver_calls body) <= S (Z.to_nat ret))%nat /\
    (forall (i : nat) p s rc,
        driver_calls body !! i = Some (p, s, rc) ->
        skbs !! i = Some p /\
        skb_xmit_more s =
          PFQ_USE_XMIT_MORE cfg && negb (i =? length skbs - 1)%nat /\
        (rc = NETDEV_TX_OK <-> Z.of_nat i < ret)) /\
    (ret = Z.of_nat (length skbs) ->
     length (driver_calls body) = length skbs /\ released body = []) /\
    (ret < Z.of_nat (length skbs) ->
     exists p front,
       skbs !! Z.to_nat ret = Some p /\
       released body = front ++ drop (S (Z.to_nat ret)) skbs /\
       ((exists s rc,
           driver_calls body !! Z.to_nat ret = Some (p, s, rc) /\
           length (driver_calls body) = S (Z.to_nat ret) /\
           front = if dev_xmit_complete rc then [] else [p]) \/
        (length (driver_calls body) = Z.to_nat ret /\ front = [p] /\
         exists t, (w_tick w <= t < w_tick w')%nat /\
                   (env_iff_up env t = false \/
                    env_xmit_stopped env t = true)))).
Proof.
  intros Hpos Hsmall H. pose proof H as Hrun.
  apply pfq_batch_xmit_events in H as (d & c & Ht & _ & Hev).
  destruct (pfq_batch_xmit_observed _ _ _ _ _ _ _ Hrun Ht) as (_ & Hobs & Hdown).
  set (txq := pfq_pick_tx dev (skb_at w (hd 0%nat skbs)) hw_queue) in *.
  set (frees := if c then [] else map EvKfree (drop (S (Z.to_nat ret)) skbs)) in *.
  pose proof (loop_events_count _ _ _ _ _ _ Hev) as [Hret Hc].
  pose proof (loop_events_locks _ _ _ _ _ _ Hev) as Hlocks.
  pose proof (loop_events_calls _ _ _ _ _ _ Hev) as [Hlen Hcalls].
  pose proof (loop_events_released _ _ _ _ _ _ Hev) as Hrel.
  pose proof (loop_events_transmitted _ _ _ _ _ _ Hev) as Htr.
  assert (Hfrees : driver_calls frees = [] /\ lock_events frees = [] /\
                   transmitted frees = [] /\
                   released frees =
                     if c then [] else drop (S (Z.to_nat ret)) skbs).
  { subst frees. destruct c; [auto |].
    destruct (trace_of_kfrees (drop (S (Z.to_nat ret)) skbs))
      as (? & ? & ? & ? & _). auto. }
  destruct Hfrees as (Hfc & Hfl & Hft & Hfr).
  assert (Hdc : driver_calls (d ++ frees) = driver_calls d).
  { unfold driver_calls in *. rewrite omap_app, Hfc. apply app_nil_r. }
  assert (Hindex : forall (i : nat) p s rc,
             driver_calls d !! i = Some (p, s, rc) -> (i < length skbs)%nat).
  { intros i p s rc Hi. apply Hcalls in Hi as (Hi & _).
    eapply lookup_lt_Some; exact Hi. }
  exists txq, (d ++ frees).
  split; [rewrite Ht, <- app_assoc; reflexivity |].
  split; [unfold lock_events in *; rewrite omap_app, Hlocks, Hfl; reflexivity |].
  split.
  { apply Forall_cons in Hobs as [_ Hobs]. rewrite app_assoc in Hobs.
    apply Forall_app in Hobs as [Hobs _]. exact Hobs. }
  split; [exact Hret |].
  rewrite Hdc.
  split; [exact Hlen |].
  split; [| split].
  - intros i p s rc Hi. pose proof (Hindex _ _ _ _ Hi) as Hlt.
    apply Hcalls in Hi as (Hp & (Hmore & _) & Hrc).
    split; [exact Hp |]. split; [| exact Hrc].
    rewrite Hmore. destruct (PFQ_USE_XMIT_MORE cfg); [| reflexivity].
    simpl. f_equal. unfold to_u64.
    rewrite !Z.mod_small by lia.
    destruct (Z.eqb_spec (0 + Z.of_nat i) (Z.of_nat (length skbs) - 1));
      destruct (Nat.eqb_spec i (length skbs - 1)); first [reflexivity | lia].
  - intros ->. rewrite Nat2Z.id in *. destruct c; [| lia].
    split.
    + destruct Hlen as [Hlo Hhi].
      destruct (decide (length (driver_calls d) = length skbs)) as [| Hne];
        [assumption |].
      assert (Hlast : is_Some (driver_calls d !! length skbs)).
      { apply lookup_lt_is_Some. lia. }
      destruct Hlast as [[[p s] rc] Hlast].
      apply Hindex in Hlast. lia.
    + unfold released in *. rewrite omap_app, Hrel, Hfr. reflexivity.
  - intros Hlt. destruct c; [lia |].
    destruct (loop_events_failure _ _ _ _ _ _ Hev eq_refl) as (p & Hp & Hcases).
    exists p, (released d).
    split; [exact Hp |].
    split; [unfold released in *; rewrite omap_app, Hfr; reflexivity |].
    destruct Hcases as [(s & rc & _ & _ & Hcall & Hl & Hr) | (Hl & Hr)].
    + left. exists s, rc. auto.
    + right. split; [exact Hl |]. split; [exact Hr |].
      apply Hdown; [exact Hlt |].
      change (driver_calls (EvLock txq :: ?l)) with (driver_calls l).
      change (transmitted (EvLock txq :: ?l)) with (transmitted l).
      rewrite !driver_calls_app, !transmitted_app, Hfc, Hft, Htr. simpl.
      rewrite !app_nil_r, length_take, Hl. lia.
Qed.

(** What the rest of the engine needs to know of one [pfq_batch_xmit]. *)
Lemma pfq_batch_xmit_summary (skbs : list nat) (dev : net_device)
    (hw_queue : Z) (w w' : world) (ret : Z) :
  pfq_batch_xmit cfg env skbs dev hw_queue w = (ret, w') ->
  exists d,
    w_trace w' = w_trace w ++ d /\
    quiet w w' /\
    0 <= ret <= Z.of_nat (length skbs) /\
    transmitted d = take (Z.to_nat ret) skbs /\
    clock_reads d = [] /\ giveups d = [] /\
    forall p s rc,
      (p, s, rc) ∈ driver_calls d ->
      p ∈ skbs /\ skb_data s = skb_data (w_heap w p).
Proof.
  intros H.
  apply pfq_batch_xmit_events in H as (d & c & Ht & Hq & Hev).
  set (txq := pfq_pick_tx dev (skb_at w (hd 0%nat skbs)) hw_queue) in *.
  set (frees := if c then [] else map EvKfree (drop (S (Z.to_nat ret)) skbs)) in *.
  pose proof (loop_events_count _ _ _ _ _ _ Hev) as [Hret _].
  pose proof (loop_events_transmitted _ _ _ _ _ _ Hev) as Htr.
  pose proof (loop_events_calls _ _ _ _ _ _ Hev) as [_ Hcalls].
  pose proof (loop_events_silent _ _ _ _ _ _ Hev) as [Hclk Hgv].
  assert (Hfrees : driver_calls frees = [] /\ transmitted frees = [] /\
                   clock_reads frees = [] /\ giveups frees = []).
  { subst frees. destruct c; [auto |].
    destruct (trace_of_kfrees (drop (S (Z.to_nat ret)) skbs))
      as (? & ? & ? & ? & ? & ?). auto. }
  destruct Hfrees as (Hfc & Hft & Hfk & Hfg).
  exists (EvLock txq :: d ++ frees ++ [EvUnlock txq]).
  split; [exact Ht |]. split; [exact Hq |]. split; [exact Hret |].
  unfold transmitted, clock_reads, giveups, driver_calls in *.
  simpl. rewrite !omap_app, Htr, Hclk, Hgv, Hft, Hfk, Hfg, Hfc. simpl.
  rewrite !app_nil_r.
  repeat split; try reflexivity.
  - apply list_elem_of_lookup in H as [i Hi].
    apply Hcalls in Hi as (Hp & _). eapply list_elem_of_lookup_2; exact Hp.
  - apply list_elem_of_lookup in H as [i Hi].
    apply Hcalls in Hi as (_ & (_ & _ & Hd) & _). exact Hd.
Qed.

Lemma skb_get_each_quiet (ps : list nat) :
  forall w : world,
    w_trace (fold_left (fun w p => skb_get p w) ps w) = w_trace w /\
    quiet w (fold_left (fun w p => skb_get p w) ps w).
Proof.
  induction ps as [| p ps IH]; intros w; simpl.
  - split; [reflexivity | apply quiet_refl].
  - destruct (IH (skb_get p w)) as [Ht Hq]. split; [exact Ht |].
    eapply quiet_trans; [apply quiet_skb_get | exact Hq].
Qed.

Lemma pfq_kfree_skb_pool_spec (p : nat) (w w' : world) :
  pfq_kfree_skb_pool p w = Some w' ->
  quiet w w' /\
  (w_trace w' = w_trace w \/ w_trace w' = w_trace w ++ [EvKfree p]).
Proof.
  unfold pfq_kfree_skb_pool, pfq_skb_pool_push.
  destruct (pool_skbs (w_tx_pool w)) as [arr |].
  - destruct (negb (__pool_next (w_tx_pool w) (p_idx (w_tx_pool w))
                    =? c_idx (w_tx_pool w))).
    + destruct (arr !! Z.to_nat (p_idx (w_tx_pool w))) as [[q |] |];
        try discriminate.
      intros [= <-]. split; [quiet_step | left; reflexivity].
    + intros [= <-]. split; [quiet_step | right; reflexivity].
  - intros [= <-]. split; [quiet_step | right; reflexivity].
Qed.

Lemma recycle_each_spec (ps : list nat) :
  forall w w' : world,
    recycle_each ps w = Some w' ->
    exists d,
      w_trace w' = w_trace w ++ d /\ quiet w w' /\
      driver_calls d = [] /\ transmitted d = [] /\
      clock_reads d = [] /\ giveups d = [].
Proof.
  induction ps as [| p ps IH]; intros w w' H; simpl in H.
  - injection H as <-. exists []. rewrite app_nil_r.
    repeat split; apply quiet_refl.
  - destruct (pfq_kfree_skb_pool p w) as [w1 |] eqn:Hk; [| discriminate].
    apply pfq_kfree_skb_pool_spec in Hk as [Hq1 Ht1].
    apply IH in H as (d & Ht & Hq & Hd & Htr & Hc & Hg).
    destruct Ht1 as [Ht1 | Ht1].
    + exists d. rewrite Ht, Ht1.
      repeat split; try assumption; eapply quiet_trans; eassumption.
    + exists (EvKfree p :: d). rewrite Ht, Ht1, <- app_assoc.
      repeat split; try assumption; eapply quiet_trans; eassumption.
Qed.

Lemma giveup_tx_process_facts (w w' : world) (g : bool) :
  giveup_tx_process env w = (g, w') ->
  g = giveup_at env (w_tick w) /\
  w_trace w' = w_trace w ++ [EvGiveup g] /\
  quiet w w'.
Proof.
  unfold giveup_tx_process, observe. intros [= <- <-].
  split; [reflexivity |]. split; [reflexivity | quiet_step].
Qed.

Lemma full_batch_xmit_loop_step (fuel : nat) (p : nat) (ps : list nat)
    (dev : net_device) (hw_queue total : Z) (w : world) :
  full_batch_xmit_loop cfg env (S fuel) (p :: ps) dev hw_queue total w =
    let skbs := p :: ps in
    let (g, w) := giveup_tx_process env w in
    if g then Some (Z.lnot total, skbs, w)
    else
      let w := fold_left (fun w p => skb_get p w) skbs w in
      let (sent, w) := pfq_batch_xmit cfg env skbs dev hw_queue w in
      if sent =? 0 then
        full_batch_xmit_loop cfg env fuel skbs dev hw_queue total (pfq_relax w)
      else
        match recycle_each (take (Z.to_nat sent) skbs) w with
        | Some w =>
            full_batch_xmit_loop cfg env fuel (drop (Z.to_nat sent) skbs)
                                 dev hw_queue (total + sent) w
        | None => None
        end.
Proof. reflexivity. Qed.

(** The loop of [full_batch_xmit], from any value of [total]. *)
Lemma full_batch_xmit_loop_spec (fuel : nat) :
  forall (skbs : list nat) (dev : net_device) (hw_queue total : Z)
         (w w' : world) (ret : Z) (skbs' : list nat),
    full_batch_xmit_loop cfg env fuel skbs dev hw_queue total w
      = Some (ret, skbs', w') ->
    exists d,
      w_trace w' = w_trace w ++ d /\
      quiet w w' /\
      transmitted d = take (length (transmitted d)) skbs /\
      skbs' = drop (length (transmitted d)) skbs /\
      clock_reads d = [] /\
      (forall p s rc,
          (p, s, rc) ∈ driver_calls d ->
          p ∈ skbs /\ skb_data s = skb_data (w_heap w p)) /\
      ((ret = total + Z.of_nat (length (transmitted d)) /\
        skbs' = [] /\ Forall (eq false) (giveups d)) \/
       (ret = Z.lnot (total + Z.of_nat (length (transmitted d))) /\
        skbs' <> [] /\ last (giveups d) = Some true)).
Proof.
  induction fuel as [| fuel IH]; intros skbs dev hw_queue total w w' ret skbs' H;
    destruct skbs as [| p0 ps]; try discriminate.
  - injection H as <- <- <-. exists []. rewrite app_nil_r. simpl.
    split; [reflexivity |]. split; [apply quiet_refl |].
    split; [reflexivity |]. split; [reflexivity |]. split; [reflexivity |].
    split; [intros ? ? ? Hnil; apply elem_of_nil in Hnil; contradiction |].
    left. rewrite Z.add_0_r. auto.
  - injection H as <- <- <-. exists []. rewrite app_nil_r. simpl.
    split; [reflexivity |]. split; [apply quiet_refl |].
    split; [reflexivity |]. split; [reflexivity |]. split; [reflexivity |].
    split; [intros ? ? ? Hnil; apply elem_of_nil in Hnil; contradiction |].
    left. rewrite Z.add_0_r. auto.
  - rewrite full_batch_xmit_loop_step in H. cbv zeta in H.
    set (skbs := p0 :: ps) in *.
    destruct (giveup_tx_process env w) as [g w1] eqn:Hg.
    apply giveup_tx_process_facts in Hg as (-> & Ht1 & Hq1).
    destruct (giveup_at env (w_tick w)) eqn:Hg.
    + injection H as <- <- <-. exists [EvGiveup true]. simpl.
      split; [exact Ht1 |]. split; [exact Hq1 |].
      split; [reflexivity |]. split; [reflexivity |]. split; [reflexivity |].
      split; [intros ? ? ? Hnil; apply elem_of_nil in Hnil; contradiction |].
      right. rewrite Z.add_0_r. split; [reflexivity |]. split; [subst skbs; discriminate | reflexivity].
    + destruct (skb_get_each_quiet skbs w1) as [Ht2 Hq2].
      set (w2 := fold_left (fun w p => skb_get p w) skbs w1) in *.
      destruct (pfq_batch_xmit cfg env skbs dev hw_queue w2) as [sent w3] eqn:Hb.
      apply pfq_batch_xmit_summary in Hb
        as (db & Ht3 & Hq3 & Hsent & Htr3 & Hck3 & Hgv3 & Hcalls3).
      assert (Hq13 : quiet w w3).
      { eapply quiet_trans; [exact Hq1 |].
        eapply quiet_trans; [exact Hq2 | exact Hq3]. }
      assert (Hcallsb : forall p s rc, (p, s, rc) ∈ driver_calls db ->
                p ∈ skbs /\ skb_data s = skb_data (w_heap w p)).
      { intros p s rc Hin. apply Hcalls3 in Hin as [Hp Hd]. split; [exact Hp |].
        rewrite Hd. destruct (quiet_trans _ _ _ Hq1 Hq2) as (_ & _ & Hd12).
        apply Hd12. }
      destruct (Z.eqb_spec sent 0) as [-> | Hnz].
      * apply IH in H as (d2 & Ht & Hq & Htr & Hdrop & Hck & Hcalls & Hres).
        exists (EvGiveup false :: db ++ EvRelax :: d2).
        assert (Htrd : transmitted (EvGiveup false :: db ++ EvRelax :: d2)
                       = transmitted d2).
        { change (transmitted (EvGiveup false :: db ++ EvRelax :: d2))
            with (transmitted (db ++ EvRelax :: d2)).
          rewrite transmitted_app, Htr3. reflexivity. }
        rewrite Htrd.
        split.
        { rewrite Ht. simpl. rewrite Ht3, Ht2, Ht1.
          rewrite <- !app_assoc. reflexivity. }
        split.
        { eapply quiet_trans; [exact Hq13 |].
          eapply quiet_trans; [apply quiet_emit | exact Hq]. }
        split; [exact Htr |]. split; [exact Hdrop |].
        split.
        { change (clock_reads (EvGiveup false :: db ++ EvRelax :: d2))
            with (clock_reads (db ++ EvRelax :: d2)).
          rewrite clock_reads_app, Hck3. exact Hck. }
        split.
        { intros p s rc Hin.
          change (driver_calls (EvGiveup false :: db ++ EvRelax :: d2))
            with (driver_calls (db ++ EvRelax :: d2)) in Hin.
          rewrite driver_calls_app in Hin. apply elem_of_app in Hin as [Hin | Hin].
          - eapply Hcallsb; exact Hin.
          - apply Hcalls in Hin as [Hp Hd]. split; [exact Hp |].
            rewrite Hd. simpl. destruct Hq13 as (_ & _ & Hd13). apply Hd13. }
        change (giveups (EvGiveup false :: db ++ EvRelax :: d2))
          with (false :: giveups (db ++ EvRelax :: d2)).
        rewrite giveups_app, Hgv3.
        change (giveups (EvRelax :: d2)) with (giveups d2). simpl.
        destruct Hres as [(-> & Hnil & Hall) | (-> & Hne & Hlast)].
        -- left. auto.
        -- right. split; [reflexivity |]. split; [exact Hne |].
           apply last_cons_Some; exact Hlast.
      * destruct (recycle_each (take (Z.to_nat sent) skbs) w3) as [w4 |] eqn:Hr;
          [| discriminate].
        apply recycle_each_spec in Hr as (dr & Ht4 & Hq4 & Hdc4 & Htr4 & Hck4 & Hgv4).
        apply IH in H as (d2 & Ht & Hq & Htr & Hdrop & Hck & Hcalls & Hres).
        assert (Hq14 : quiet w w4) by (eapply quiet_trans; eassumption).
        exists (EvGiveup false :: db ++ dr ++ d2).
        assert (Hlen : length (take (Z.to_nat sent) skbs) = Z.to_nat sent).
        { rewrite length_take. lia. }
        assert (Htrd : transmitted (EvGiveup false :: db ++ dr ++ d2)
                       = take (Z.to_nat sent) skbs ++ transmitted d2).
        { change (transmitted (EvGiveup false :: db ++ dr ++ d2))
            with (transmitted (db ++ dr ++ d2)).
          rewrite !transmitted_app, Htr3, Htr4. reflexivity. }
        assert (Htlen : length (transmitted (EvGiveup false :: db ++ dr ++ d2))
                        = (Z.to_nat sent + length (transmitted d2))%nat).
        { rewrite Htrd, length_app, Hlen. reflexivity. }
        rewrite Htlen.
        split.
        { rewrite Ht, Ht4, Ht3, Ht2, Ht1.
          rewrite <- !app_assoc. reflexivity. }
        split; [eapply quiet_trans; eassumption |].
        split.
        { rewrite Htrd, Htr at 1. apply take_take_drop. }
        split; [rewrite Hdrop, drop_drop; reflexivity |].
        split.
        { change (clock_reads (EvGiveup false :: db ++ dr ++ d2))
            with (clock_reads (db ++ dr ++ d2)).
          rewrite !clock_reads_app, Hck3, Hck4. exact Hck. }
        split.
        { intros p s rc Hin.
          change (driver_calls (EvGiveup false :: db ++ dr ++ d2))
            with (driver_calls (db ++ dr ++ d2)) in Hin.
          rewrite !driver_calls_app, Hdc4 in Hin. simpl in Hin.
          apply elem_of_app in Hin as [Hin | Hin].
          - eapply Hcallsb; exact Hin.
          - apply Hcalls in Hin as [Hp Hd].
            split; [eapply subseteq_drop; exact Hp |].
            rewrite Hd. destruct Hq14 as (_ & _ & Hd14). apply Hd14. }
        change (giveups (EvGiveup false :: db ++ dr ++ d2))
          with (false :: giveups (db ++ dr ++ d2)).
        rewrite !giveups_app, Hgv3, Hgv4. simpl.
        destruct Hres as [(-> & Hnil & Hall) | (-> & Hne & Hlast)].
        -- left. split; [lia |]. auto.
        -- right. split; [f_equal; lia |]. split; [exact Hne |].
           apply last_cons_Some; exact Hlast.
Qed.

Lemma pfq_kfree_skb_pool_tick (p : nat) (w w' : world) :
  pfq_kfree_skb_pool p w = Some w' -> w_tick w' = w_tick w.
Proof.
  unfold pfq_kfree_skb_pool, pfq_skb_pool_push.
  destruct (pool_skbs (w_tx_pool w)) as [arr |].
  - destruct (negb (__pool_next (w_tx_pool w) (p_idx (w_tx_pool w))
                    =? c_idx (w_tx_pool w))).
    + destruct (arr !! Z.to_nat (p_idx (w_tx_pool w))) as [[q |] |];
        try discriminate.
      intros [= <-]. reflexivity.
    + intros [= <-]. reflexivity.
  - intros [= <-]. reflexivity.
Qed.

Lemma skb_get_each_tick (ps : list nat) :
  forall w : world,
    w_tick (fold_left (fun w p => skb_get p w) ps w) = w_tick w.
Proof.
  induction ps as [| p ps IH]; intros w; simpl; [reflexivity |].
  rewrite IH. reflexivity.
Qed.

Lemma giveup_tx_process_tick (w w' : world) (g : bool) :
  giveup_tx_process env w = (g, w') -> w_tick w' = S (w_tick w).
Proof. unfold giveup_tx_process, observe. intros [= _ <-]. reflexivity. Qed.

Lemma recycle_each_observed (lo hi : nat) (ps : list nat) :
  forall (w w' : world) (d : list event),
    recycle_each ps w = Some w' ->
    w_trace w' = w_trace w ++ d ->
    w_tick w' = w_tick w /\ Forall (observed env lo hi) d.
Proof.
  induction ps as [| p ps IH]; intros w w' d H Hd; simpl in H.
  - injection H as <-.
    rewrite <- (app_nil_r (w_trace w)) in Hd at 1.
    apply app_inv_head in Hd. subst d. split; [reflexivity | constructor].
  - destruct (pfq_kfree_skb_pool p w) as [w1 |] eqn:Hk; [| discriminate].
    pose proof (pfq_kfree_skb_pool_tick _ _ _ Hk) as Htk1.
    apply pfq_kfree_skb_pool_spec in Hk as [_ Ht1].
    pose proof H as Hrest.
    apply recycle_each_spec in Hrest as (d2 & Ht2 & _).
    destruct (IH _ _ _ H Ht2) as [Htk Hob].
    split; [congruence |].
    destruct Ht1 as [Ht1 | Ht1]; rewrite Ht2, Ht1 in Hd.
    + apply app_inv_head in Hd. subst d. exact Hob.
    + rewrite <- app_assoc in Hd. apply app_inv_head in Hd. subst d.
      simpl. constructor; [exact I | exact Hob].
Qed.

(** The loop of [full_batch_xmit] against the environment: what it
    leaves in the trace is what the environment showed, and it leaves
    buffers in the batch only when its last observation was a give-up
    check that the environment answered with yes, all the checks before
    having been answered with no. *)
Lemma full_batch_xmit_loop_observed (fuel : nat) :
  forall (skbs : list nat) (dev : net_device) (hw_queue total : Z)
         (w w' : world) (ret : Z) (skbs' : list nat) (d : list event),
    full_batch_xmit_loop cfg env fuel skbs dev hw_queue total w
      = Some (ret, skbs', w') ->
    w_trace w' = w_trace w ++ d ->
    (w_tick w <= w_tick w')%nat /\
    Forall (observed env (w_tick w) (w_tick w')) d /\
    (skbs' <> [] ->
     (w_tick w < w_tick w')%nat /\
     giveup_at env (pred (w_tick w')) = true /\
     last d = Some (EvGiveup true) /\
     exists n, giveups d = replicate n false ++ [true]).
Proof.
  assert (Hstop : forall (w w' : world) (d : list event) (skbs' : list nat),
             w' = w -> skbs' = [] -> w_trace w' = w_trace w ++ d ->
             (w_tick w <= w_tick w')%nat /\
             Forall (observed env (w_tick w) (w_tick w')) d /\
             (skbs' <> [] ->
              (w_tick w < w_tick w')%nat /\
              giveup_at env (pred (w_tick w')) = true /\
              last d = Some (EvGiveup true) /\
              exists n, giveups d = replicate n false ++ [true])).
  { intros w w' d skbs' -> -> Hd.
    rewrite <- (app_nil_r (w_trace w)) in Hd at 1.
    apply app_inv_head in Hd. subst d.
    split; [lia |]. split; [constructor | intros Hne; contradiction]. }
  induction fuel as [| fuel IH];
    intros skbs dev hw_queue total w w' ret skbs' d H Hd;
    destruct skbs as [| p0 ps]; try discriminate.
  - injection H as <- <- <-. apply Hstop; auto.
  - injection H as <- <- <-. apply Hstop; auto.
  - rewrite full_batch_xmit_loop_step in H. cbv zeta in H.
    set (skbs := p0 :: ps) in *.
    destruct (giveup_tx_process env w) as [g w1] eqn:Hgp.
    pose proof (giveup_tx_process_tick _ _ _ Hgp) as Htk1.
    apply giveup_tx_process_facts in Hgp as (-> & Ht1 & _).
    destruct (giveup_at env (w_tick w)) eqn:Hg.
    + injection H as <- <- <-. rewrite Ht1 in Hd.
      apply app_inv_head in Hd. subst d. rewrite Htk1. simpl.
      split; [lia |]. split.
      { constructor; [| constructor]. exists (w_tick w). split; [lia | auto]. }
      intros _. split; [lia |]. split; [exact Hg |]. split; [reflexivity |].
      exists 0%nat. reflexivity.
    + destruct (skb_get_each_quiet skbs w1) as [Ht2 _].
      pose proof (skb_get_each_tick skbs w1) as Htk2.
      set (w2 := fold_left (fun w p => skb_get p w) skbs w1) in *.
      destruct (pfq_batch_xmit cfg env skbs dev hw_queue w2) as [sent w3] eqn:Hb.
      pose proof Hb as Hsum.
      apply pfq_batch_xmit_summary in Hsum as (db & Ht3 & _ & _ & _ & _ & Hgv3 & _).
      destruct (pfq_batch_xmit_observed _ _ _ _ _ _ _ Hb Ht3) as (Htk3 & Hob3 & _).
      assert (Hfirst : observed env (w_tick w) (w_tick w3) (EvGiveup false)).
      { exists (w_tick w). split; [lia | auto]. }
      assert (Hjoin : forall (w4 : world) (dr d2 : list event),
                 w_tick w4 = w_tick w3 ->
                 Forall (observed env (w_tick w) (w_tick w3)) dr ->
                 giveups dr = [] ->
                 (w_tick w4 <= w_tick w')%nat /\
                 Forall (observed env (w_tick w4) (w_tick w')) d2 /\
                 (skbs' <> [] ->
                  (w_tick w4 < w_tick w')%nat /\
                  giveup_at env (pred (w_tick w')) = true /\
                  last d2 = Some (EvGiveup true) /\
                  exists n, giveups d2 = replicate n false ++ [true]) ->
                 d = EvGiveup false :: db ++ dr ++ d2 ->
                 (w_tick w <= w_tick w')%nat /\
                 Forall (observed env (w_tick w) (w_tick w')) d /\
                 (skbs' <> [] ->
                  (w_tick w < w_tick w')%nat /\
                  giveup_at env (pred (w_tick w')) = true /\
                  last d = Some (EvGiveup true) /\
                  exists n, giveups d = replicate n false ++ [true])).
      { intros w4 dr d2 Htk4 Hobr Hgvr (Htk' & Hob2 & Hleft) ->.
        split; [lia |]. split.
        - constructor; [eapply observed_mono; [| | exact Hfirst]; lia |].
          apply Forall_app. split.
          { eapply observed_all_mono; [| | exact Hob3]; lia. }
          apply Forall_app. split.
          { eapply observed_all_mono; [| | exact Hobr]; lia. }
          eapply observed_all_mono; [| | exact Hob2]; lia.
        - intros Hne. destruct (Hleft Hne) as (Hlt & Hlast & Hld & n & Hgv).
          split; [lia |]. split; [exact Hlast |].
          split.
          { apply last_cons_Some. apply last_app_Some. apply last_app_Some.
            exact Hld. }
          exists (S n).
          change (giveups (EvGiveup false :: db ++ dr ++ d2))
            with (false :: giveups (db ++ dr ++ d2)).
          rewrite !giveups_app, Hgv3, Hgvr, Hgv. reflexivity. }
      destruct (Z.eqb_spec sent 0) as [-> | Hnz].
      * pose proof H as Hrest.
        apply full_batch_xmit_loop_spec in Hrest as (d2 & Ht & _).
        pose proof (IH _ _ _ _ _ _ _ _ _ H Ht) as Hih.
        apply (Hjoin (pfq_relax w3) [EvRelax] d2);
          [reflexivity | repeat constructor | reflexivity | exact Hih |].
        rewrite Ht in Hd. simpl in Hd. rewrite Ht3, Ht2, Ht1 in Hd.
        rewrite <- !app_assoc in Hd. apply app_inv_head in Hd.
        rewrite <- Hd. reflexivity.
      * destruct (recycle_each (take (Z.to_nat sent) skbs) w3) as [w4 |] eqn:Hr;
          [| discriminate].
        pose proof Hr as Hrs.
        apply recycle_each_spec in Hrs as (dr & Ht4 & _ & _ & _ & _ & Hgv4).
        destruct (recycle_each_observed (w_tick w) (w_tick w3) _ _ _ _ Hr Ht4)
          as [Htk4 Hob4].
        pose proof H as Hrest.
        apply full_batch_xmit_loop_spec in Hrest as (d2 & Ht & _).
        pose proof (IH _ _ _ _ _ _ _ _ _ H Ht) as Hih.
        apply (Hjoin w4 dr d2); [exact Htk4 | exact Hob4 | exact Hgv4 | exact Hih |].
        rewrite Ht, Ht4, Ht3, Ht2, Ht1 in Hd.
        rewrite <- !app_assoc in Hd. apply app_inv_head in Hd.
        rewrite <- Hd. reflexivity.
Qed.

(** C4. When [full_batch_xmit] returns, the buffers the driver took are a
    prefix of the batch, in order, and what is left in the batch are the
    others; what the trace records of the give-up condition and of the
    driver is what the environment showed.  Either it ran to completion:
    the value returned is the number of buffers transmitted, it is not
    negative, the whole batch was transmitted and every give-up check
    was answered with no.  Or it was interrupted: its last step was a
    give-up check that the environment answered with yes, the checks
    before having been answered with no; the value returned is negative,
    its complement is the number of buffers transmitted so far, and the
    unsent buffers are still in the batch. *)
Theorem full_batch_xmit_spec (fuel : nat) (skbs : list nat) (dev : net_device)
    (hw_queue : Z) (w w' : world) (ret : Z) (skbs' : list nat) :
  full_batch_xmit cfg env fuel skbs dev hw_queue w = Some (ret, skbs', w') ->
  exists d,
    w_trace w' = w_trace w ++ d /\
    Forall (observed env (w_tick w) (w_tick w')) d /\
    let total := length (transmitted d) in
    transmitted d = take total skbs /\
    skbs' = drop total skbs /\
    ((0 <= ret /\ ret = Z.of_nat total /\ total = length skbs /\
      skbs' = [] /\ Forall (eq false) (giveups d)) \/
     (ret < 0 /\ ret = Z.lnot (Z.of_nat total) /\
      Z.lnot ret = Z.of_nat total /\ (total < length skbs)%nat /\
      skbs' <> [] /\ last (giveups d) = Some true /\
      (w_tick w < w_tick w')%nat /\
      giveup_at env (pred (w_tick w')) = true /\
      last d = Some (EvGiveup true) /\
      exists n, giveups d = replicate n false ++ [true])).
Proof.
  unfold full_batch_xmit. intros H. pose proof H as Hrun.
  apply full_batch_xmit_loop_spec in H
    as (d & Ht & _ & Htr & Hdrop & _ & _ & Hres).
  destruct (full_batch_xmit_loop_observed _ _ _ _ _ _ _ _ _ _ Hrun Ht)
    as (_ & Hobs & Hleft).
  exists d. split; [exact Ht |]. split; [exact Hobs |]. cbv zeta.
  split; [exact Htr |]. split; [exact Hdrop |].
  assert (Hle : (length (transmitted d) <= length skbs)%nat).
  { rewrite Htr at 1. rewrite length_take. lia. }
  rewrite Z.add_0_l in Hres.
  destruct Hres as [(-> & Hnil & Hall) | (-> & Hne & Hlast)].
  - left. split; [lia |]. split; [reflexivity |].
    split; [| auto].
    rewrite Hnil in Hdrop. symmetry in Hdrop.
    apply (f_equal length) in Hdrop. rewrite length_drop in Hdrop.
    simpl in Hdrop. lia.
  - right. split; [unfold Z.lnot; lia |]. split; [reflexivity |].
    split; [apply Z.lnot_involutive |].
    split.
    { destruct (decide (length (transmitted d) < length skbs)%nat) as [| Hge];
        [assumption |].
      exfalso. apply Hne. rewrite Hdrop. apply drop_ge. lia. }
    split; [exact Hne |]. split; [exact Hlast |].
    apply Hleft. exact Hne.
Qed.

(** X27. Built without [PFQ_USE_XMIT_MORE], no call of the driver made
    by [pfq_batch_xmit] carries the [xmit_more] hint, whatever the
    position of the buffer in the batch. *)
Lemma pfq_batch_xmit_no_hint (skbs : list nat) (dev : net_device)
    (hw_queue : Z) (w w' : world) (ret : Z) (d : list event) :
  PFQ_USE_XMIT_MORE cfg = false ->
  pfq_batch_xmit cfg env skbs dev hw_queue w = (ret, w') ->
  w_trace w' = w_trace w ++ d ->
  forall p s rc, (p, s, rc) ∈ driver_calls d -> skb_xmit_more s = false.
Proof.
  intros Huse H Hd p s rc Hin.
  apply pfq_batch_xmit_events in H as (d1 & c & Ht & _ & Hev).
  rewrite Ht in Hd. apply app_inv_head in Hd. subst d.
  pose proof (loop_events_calls _ _ _ _ _ _ Hev) as [_ Hcalls].
  change (driver_calls (EvLock ?q :: ?l)) with (driver_calls l) in Hin.
  rewrite !driver_calls_app in Hin.
  assert (Hfrees : driver_calls
                     (if c then []
                      else map EvKfree (drop (S (Z.to_nat ret)) skbs)) = []).
  { destruct c; [reflexivity |]. apply trace_of_kfrees. }
  rewrite Hfrees in Hin. simpl in Hin. rewrite app_nil_r in Hin.
  apply list_elem_of_lookup in Hin as [i Hi].
  apply Hcalls in Hi as (_ & (Hmore & _) & _).
  rewrite Hmore, Huse. reflexivity.
Qed.

End Submit.

(** ** The drain *)

(** A half holds one list of descriptors at most. *)
Lemma descriptors_unique (mem : tx_memory) (end_ ptr : Z)
    (ds ds' : list pfq_pkthdr_tx) :
  descriptors mem end_ ptr ds -> descriptors mem end_ ptr ds' -> ds = ds'.
Proof.
  intros H. revert ds'.
  induction H as [ptr Hend | ptr ds Hlt Hlen Hrest IH]; intros ds' H'.
  - destruct H' as [| ptr ds' Hlt' Hlen' _]; [reflexivity |].
    destruct Hend; [lia | contradiction].
  - inversion H' as [ptr0 Hend' | ptr0 ds0 Hlt' Hlen' Hrest']; subst.
    + destruct Hend'; [lia | contradiction].
    + f_equal. apply IH. exact Hrest'.
Qed.

Section Drain.

Variable cfg : config.
Variable env : environment.

(** The traversal of the code agrees with the layout. *)
Lemma traverse_tx_queue_descriptors (mem : tx_memory) (begin end_ ptr : Z)
    (ds : list pfq_pkthdr_tx) :
  descriptors mem end_ ptr ds ->
  debug_checks cfg begin ptr ds ->
  match ds with
  | [] => traverse_tx_queue cfg mem ptr begin end_ = false
  | d :: ds' =>
      traverse_tx_queue cfg mem ptr begin end_ = true /\
      d = mem ptr /\
      descriptors mem end_ (next_descriptor mem ptr) ds' /\
      debug_checks cfg begin (next_descriptor mem ptr) ds'
  end.
Proof.
  intros Hds Hdebug. unfold traverse_tx_queue, debug_checks in *.
  destruct Hds as [ptr Hend | ptr ds Hlt Hlen Hrest].
  - destruct (PFQ_DEBUG cfg).
    + destruct (Z.ltb_spec ptr begin); [reflexivity |]. simpl.
      destruct (Z.geb_spec ptr end_); [reflexivity |].
      destruct Hend as [Hend | ->]; [lia |]. reflexivity.
    + destruct (Z.ltb_spec ptr end_); [| reflexivity].
      destruct Hend as [Hend | ->]; [lia |]. reflexivity.
  - assert (Hne : negb (pkt_len (mem ptr) =? 0) = true).
    { destruct (Z.eqb_spec (pkt_len (mem ptr)) 0); [contradiction | reflexivity]. }
    split.
    + destruct (PFQ_DEBUG cfg).
      * destruct (Hdebug eq_refl) as [Hd Ha].
        apply Forall_cons in Hd as [Hd _]. simpl in Ha.
        apply Forall_cons in Ha as [Ha _].
        destruct (Z.ltb_spec ptr begin); [lia |]. simpl.
        destruct (Z.geb_spec ptr end_); [lia |].
        destruct (Z.gtb_spec (pkt_len (mem ptr)) 2048); [lia | exact Hne].
      * destruct (Z.ltb_spec ptr end_); [exact Hne | lia].
    + split; [reflexivity |]. split; [exact Hrest |].
      intros Hd. destruct (Hdebug Hd) as [Hl Ha].
      apply Forall_cons in Hl as [_ Hl]. simpl in Ha.
      apply Forall_cons in Ha as [_ Ha]. split; [exact Hl | exact Ha].
Qed.

Lemma count_left_spec (mem : tx_memory) (begin end_ : Z) (fuel : nat) :
  forall (ptr disc disc' : Z) (ds : list pfq_pkthdr_tx),
    count_left cfg fuel mem begin end_ ptr disc = Some disc' ->
    descriptors mem end_ ptr ds ->
    debug_checks cfg begin ptr ds ->
    disc' = disc + Z.of_nat (length ds).
Proof.
  induction fuel as [| fuel IH]; intros ptr disc disc' ds H Hds Hdbg;
    simpl in H; [discriminate |].
  pose proof (traverse_tx_queue_descriptors _ _ _ _ _ Hds Hdbg) as Htr.
  destruct ds as [| d ds'].
  - rewrite Htr in H. injection H as <-. simpl. lia.
  - destruct Htr as (Htr & _ & Hds' & Hdbg'). rewrite Htr in H.
    rewrite (IH _ _ _ _ H Hds' Hdbg'). simpl length. lia.
Qed.

(** A flush moves buffers from the batch to the count of sent ones. *)
Lemma full_batch_xmit_count (fuel : nat) (skbs : list nat) (dev : net_device)
    (hw_queue : Z) (w w' : world) (sent : Z) (skbs' : list nat) :
  full_batch_xmit cfg env fuel skbs dev hw_queue w = Some (sent, skbs', w') ->
  let moved := if sent >=? 0 then sent else Z.lnot sent in
  0 <= moved /\
  moved + Z.of_nat (length skbs') = Z.of_nat (length skbs) /\
  (0 <= sent -> skbs' = []).
Proof.
  unfold full_batch_xmit. intros H.
  apply (full_batch_xmit_loop_spec cfg env) in H
    as (d & _ & _ & Htr & Hdrop & _ & _ & Hres).
  cbv zeta. rewrite Z.add_0_l in Hres.
  assert (Hle : (length (transmitted d) <= length skbs)%nat).
  { rewrite Htr at 1. rewrite length_take. lia. }
  assert (Hlen : length skbs' = (length skbs - length (transmitted d))%nat).
  { rewrite Hdrop. apply length_drop. }
  destruct Hres as [(-> & Hnil & _) | (-> & Hne & _)].
  - destruct (Z.geb_spec (Z.of_nat (length (transmitted d))) 0); [| lia].
    split; [lia |]. split; [lia | auto].
  - assert (Hneg : Z.lnot (Z.of_nat (length (transmitted d))) < 0)
      by (unfold Z.lnot; lia).
    destruct (Z.geb_spec (Z.lnot (Z.of_nat (length (transmitted d)))) 0); [lia |].
    rewrite Z.lnot_involutive.
    split; [lia |]. split; [lia | intros; lia].
Qed.

Lemma tx_submit_count (inner : nat) (skbs : list nat) (now last_ts : Z)
    (dev : net_device) (hw_queue tot_sent : Z) (w w' : world)
    (interrupted : bool) (skbs' : list nat) (tot_sent' : Z) :
  tx_submit cfg env inner skbs now last_ts dev hw_queue tot_sent w
    = Some (interrupted, skbs', tot_sent', w') ->
  0 < batch_len cfg ->
  Z.of_nat (length skbs) <= batch_len cfg ->
  0 <= tot_sent ->
  0 <= tot_sent' /\
  tot_sent' + Z.of_nat (length skbs') = tot_sent + Z.of_nat (length skbs) /\
  (interrupted = false -> Z.of_nat (length skbs') < batch_len cfg).
Proof.
  unfold tx_submit, transmission_required. intros H Hpos Hle Htot.
  destruct ((Z.of_nat (length skbs) =? batch_len cfg)
            || (Z.of_nat (length skbs) >? 0) && (last_ts >? to_u64 now)) eqn:Hreq.
  - destruct (full_batch_xmit cfg env inner skbs dev hw_queue w)
      as [[[sent skbs1] w1] |] eqn:Hf; [| discriminate].
    injection H as <- <- <- <-.
    apply full_batch_xmit_count in Hf as (Hm & Hsum & Hnil). cbv zeta in *.
    split; [lia |]. split; [lia |].
    intros Hint. apply Z.ltb_ge in Hint. rewrite (Hnil Hint). simpl. lia.
  - injection H as <- <- <- <-.
    apply orb_false_iff in Hreq as [Hne _]. apply Z.eqb_neq in Hne.
    split; [lia |]. split; [lia |]. intros _. lia.
Qed.

(** The "Tx loop" keeps the books: what is sent, what is in the batch
    and what is still in the ring add up to the same number. *)
Lemma tx_loop_count (inner : nat) (mem : tx_memory) (begin end_ : Z)
    (dev : net_device) (hw_queue node : Z) (fuel : nat) :
  forall (ptr now : Z) (skbs : list nat) (tot_sent : Z) (w : world)
         (ptr' : Z) (skbs' : list nat) (tot_sent' : Z) (w' : world)
         (ds : list pfq_pkthdr_tx),
    tx_loop cfg env inner fuel mem begin end_ dev hw_queue node
            ptr now skbs tot_sent w = Some (ptr', skbs', tot_sent', w') ->
    0 < batch_len cfg <= Z.of_nat (Q_SKBUFF_SHORT_BATCH cfg) ->
    descriptors mem end_ ptr ds ->
    debug_checks cfg begin ptr ds ->
    Z.of_nat (length skbs) <= batch_len cfg ->
    0 <= tot_sent ->
    exists ds',
      descriptors mem end_ ptr' ds' /\
      debug_checks cfg begin ptr' ds' /\
      0 <= tot_sent' /\
      tot_sent' + Z.of_nat (length skbs') + Z.of_nat (length ds') =
        tot_sent + Z.of_nat (length skbs) + Z.of_nat (length ds).
Proof.
  induction fuel as [| fuel IH];
    intros ptr now skbs tot_sent w ptr' skbs' tot_sent' w' ds
           H Hcap Hds Hdbg Hlen Htot; simpl in H; [discriminate |].
  pose proof (traverse_tx_queue_descriptors _ _ _ _ _ Hds Hdbg) as Htr.
  destruct ds as [| d ds1].
  - rewrite Htr in H. injection H as <- <- <- <-. exists []. auto.
  - destruct Htr as (Htr & -> & Hds1 & Hdbg1). rewrite Htr in H.
    destruct (tx_submit cfg env inner skbs now (pkt_nsec (mem ptr)) dev
                hw_queue tot_sent w) as [[[[intr skbs1] tot1] w1] |] eqn:Hs;
      [| discriminate].
    apply tx_submit_count in Hs as (Htot1 & Hsum1 & Hroom); [| lia | lia | lia].
    destruct intr.
    + injection H as <- <- <- <-. exists (mem ptr :: ds1).
      split; [exact Hds |]. split; [exact Hdbg |].
      split; [exact Htot1 | lia].
    + specialize (Hroom eq_refl).
      destruct (if pkt_nsec (mem ptr) >? to_u64 now
                then wait_until env inner (pkt_nsec (mem ptr)) w1
                else Some (now, w1)) as [[now2 w2] |]; [| discriminate].
      destruct (pfq_tx_alloc_skb env node w2) as [[[p |] w3] |];
        [| | discriminate].
      * apply IH with (ds := ds1) in H; try assumption.
        -- destruct H as (ds' & Hds' & Hdbg' & Htot' & Hsum').
           exists ds'. split; [exact Hds' |]. split; [exact Hdbg' |].
           split; [exact Htot' |].
           rewrite Hsum'. unfold pfq_skbuff_short_batch_push.
           destruct (Nat.ltb_spec (length skbs1) (Q_SKBUFF_SHORT_BATCH cfg));
             [| lia].
           rewrite length_app. simpl length. lia.
        -- unfold pfq_skbuff_short_batch_push.
           destruct (Nat.ltb_spec (length skbs1) (Q_SKBUFF_SHORT_BATCH cfg));
             [| lia].
           rewrite length_app. simpl length. lia.
      * injection H as <- <- <- <-. exists (mem ptr :: ds1).
        split; [exact Hds |]. split; [exact Hdbg |].
        split; [exact Htot1 | lia].
Qed.

(** C1. A drain that gets past the swap accounts every descriptor of
    the drained half exactly once: what it adds to the counter of sent
    packets and what it adds to the counter of discarded packets sum to
    the number of descriptors of the half, the next descriptor being
    found with the cursor of the code, a 64-bit address.  The batch is
    flushed when it holds [batch_len] buffers, so [batch_len] must be
    positive and within the capacity of the batch; a debug build stops
    at a length above 2048 and at a cursor that has left the half, so
    there the lengths must be plausible and the descriptors must start
    in the half. *)
Theorem __pfq_queue_xmit_accounting (fuel : nat) (idx : nat) (to : pfq_tx_opt)
    (mem : tx_memory) (dev : net_device) (cpu node : Z) (w : world)
    (err swap : Z) (txs1 : pfq_tx_queue) (w1 : world)
    (ds : list pfq_pkthdr_tx)
    (ret : Z) (to' : pfq_tx_opt) (mem' : tx_memory) (w' : world) :
  swap_tx_queue_and_wait cfg env fuel (to_txs to idx) cpu w
    = Some (err, swap, txs1, w1) ->
  0 <= err ->
  let begin := tx_half_begin (to_base_addr to idx) swap (txs_size txs1) in
  descriptors mem (begin + txs_size txs1) begin ds ->
  (PFQ_DEBUG cfg = true -> Forall (fun d => pkt_len d <= 2048) ds) ->
  (PFQ_DEBUG cfg = true ->
   Forall (fun a => begin <= a) (descriptor_addrs begin ds)) ->
  0 < batch_len cfg <= Z.of_nat (Q_SKBUFF_SHORT_BATCH cfg) ->
  __pfq_queue_xmit cfg env fuel idx to mem dev cpu node w
    = Some (ret, to', mem', w') ->
  exists tot_sent disc,
    0 <= tot_sent /\ 0 <= disc /\
    to_stats_sent to' = to_stats_sent to + tot_sent /\
    to_stats_disc to' = to_stats_disc to + disc /\
    ret = to_int tot_sent /\
    tot_sent + disc = Z.of_nat (length ds).
Proof.
  intros Hswap Herr begin Hds Hlens Haddrs Hcap H.
  assert (Hdbg : debug_checks cfg begin begin ds).
  { intros Hd. split; [apply Hlens | apply Haddrs]; exact Hd. }
  unfold __pfq_queue_xmit in H. rewrite Hswap in H.
  destruct (Z.ltb_spec err 0) as [| _]; [lia |].
  change (to_base_addr (with_txs idx txs1 to) idx) with (to_base_addr to idx) in H.
  fold begin in H.
  destruct (ktime_get_real env w1) as [now w2].
  destruct (tx_loop cfg env fuel fuel mem begin (begin + txs_size txs1) dev
              (to_hw_queue to idx) node begin now [] 0 w2)
    as [[[[ptr skbs] tot] w3] |] eqn:Hloop; [| discriminate].
  eapply tx_loop_count in Hloop; [| exact Hcap | exact Hds | exact Hdbg
                                  | simpl; lia | lia].
  destruct Hloop as (ds' & Hds' & Hdbg' & Htot & Hsum).
  assert (Hflush : exists sent skbs4 w4,
             match skbs with
             | [] => Some (0, skbs, w3)
             | _ :: _ => full_batch_xmit cfg env fuel skbs dev (to_hw_queue to idx) w3
             end = Some (sent, skbs4, w4) /\
             0 <= (if sent >=? 0 then sent else Z.lnot sent) /\
             (if sent >=? 0 then sent else Z.lnot sent)
               + Z.of_nat (length skbs4) = Z.of_nat (length skbs)).
  { destruct skbs as [| p ps].
    - exists 0, [], w3. simpl. auto with zarith.
    - destruct (full_batch_xmit cfg env fuel (p :: ps) dev (to_hw_queue to idx) w3)
        as [[[sent skbs4] w4] |] eqn:Hf; [| discriminate].
      exists sent, skbs4, w4. split; [reflexivity |].
      apply full_batch_xmit_count in Hf as (Hm & Hs & _). auto. }
  destruct Hflush as (sent & skbs4 & w4 & Hf & Hmoved & Hfsum).
  rewrite Hf in H.
  destruct (recycle_each skbs4 w4) as [w5 |]; [| discriminate].
  destruct (count_left cfg fuel mem begin (begin + txs_size txs1) ptr
              (Z.of_nat (length skbs4))) as [disc |] eqn:Hcount;
    [| discriminate].
  apply count_left_spec with (ds := ds') in Hcount; try assumption.
  unfold add_stats in H. injection H as <- <- <- <-. simpl.
  exists (tot + (if sent >=? 0 then sent else Z.lnot sent)), disc.
  simpl in Hsum.
  repeat split; try reflexivity; lia.
Qed.

End Drain.

(** ** Pacing *)

Lemma paced_from_mono (mem : tx_memory) (good : Z -> Prop) (tr : list event) :
  forall cs cs' : list Z,
    (forall c, c ∈ cs -> c ∈ cs') ->
    paced_from mem good cs tr -> paced_from mem good cs' tr.
Proof.
  induction tr as [| e tr IH]; intros cs cs' Hsub H; [exact I |].
  destruct e; simpl in *; try (eapply IH; eassumption).
  - eapply IH; [| exact H]. intros c Hc.
    apply elem_of_app in Hc as [Hc | Hc]; apply elem_of_app; auto.
  - destruct H as [(Hgood & c & Hc & Hle) H]. split; [eauto |].
    eapply IH; eassumption.
Qed.







Section Pacing.

Variable cfg : config.
Variable env : environment.

Lemma ktime_get_real_facts (w w' : world) (now : Z) :
  ktime_get_real env w = (now, w') ->
  w_trace w' = w_trace w ++ [EvClock now] /\ quiet w w'.
Proof.
  unfold ktime_get_real, observe. intros [= <- <-].
  split; [reflexivity | quiet_step].
Qed.

Lemma wait_until_step (ts : Z) (fuel : nat) (w : world) :
  wait_until env (S fuel) ts w =
    let (now, w) := ktime_get_real env w in
    let (g, w) := giveup_tx_process env w in
    if g then Some (now, w)
    else if to_u64 now <? ts then wait_until env fuel ts (pfq_relax w)
    else Some (now, w).
Proof. reflexivity. Qed.







(** An allocation adds nothing to the trace and touches no buffer but
    the one it delivers, which may come from the pool. *)
Lemma pfq_tx_alloc_skb_fill (node : Z) (w w1 : world) (p : nat)
    (hdr : pfq_pkthdr_tx) (ptr : Z) (dev : net_device) (hw_queue : Z) :
  pfq_tx_alloc_skb env node w = Some (Some p, w1) ->
  let w2 := tx_fill cfg p hdr ptr dev hw_queue w1 in
  w_trace w2 = w_trace w /\
  (w_next w <= w_next w2)%nat /\
  (w_tick w <= w_tick w2)%nat /\
  skb_data (w_heap w2 p) = ptr + sizeof_pfq_pkthdr_tx /\
  forall q, q <> p -> w_heap w2 q = w_heap w q.
Proof.
  unfold pfq_tx_alloc_skb, observe.
  destruct (pfq_skb_pool_pop (w_heap w) (w_tx_pool w)) as [[[q |] pool] |];
    [| | discriminate].
  - intros [= <- <-]. simpl.
    split; [reflexivity |]. split; [lia |]. split; [lia |].
    split; [rewrite heap_update_same; reflexivity |].
    intros q' Hq. unfold heap_update.
    destruct (Nat.eqb_spec q' q); [contradiction | reflexivity].
  - destruct (env_alloc_ok env (w_tick w)); [| discriminate].
    intros [= <- <-]. simpl.
    split; [reflexivity |]. split; [lia |]. split; [lia |].
    split; [rewrite heap_update_same; reflexivity |].
    intros q Hq. unfold heap_update.
    destruct (Nat.eqb_spec q (w_next w)); [contradiction | reflexivity].
Qed.

Lemma pfq_tx_alloc_skb_fail (node : Z) (w w1 : world) :
  pfq_tx_alloc_skb env node w = Some (None, w1) ->
  w_trace w1 = w_trace w /\ quiet w w1.
Proof.
  unfold pfq_tx_alloc_skb, observe.
  destruct (pfq_skb_pool_pop (w_heap w) (w_tx_pool w)) as [[[q |] pool] |];
    try discriminate.
  destruct (env_alloc_ok env (w_tick w)); [discriminate |].
  intros [= <-]. split; [reflexivity | quiet_step].
Qed.

Lemma tx_loop_step (inner fuel : nat) (mem : tx_memory) (begin end_ : Z)
    (dev : net_device) (hw_queue node ptr now : Z) (skbs : list nat)
    (tot_sent : Z) (w : world) :
  tx_loop cfg env inner (S fuel) mem begin end_ dev hw_queue node
          ptr now skbs tot_sent w =
    if traverse_tx_queue cfg mem ptr begin end_ then
      match tx_submit cfg env inner skbs now (pkt_nsec (mem ptr)) dev
                      hw_queue tot_sent w with
      | Some (true, skbs, tot_sent, w) => Some (ptr, skbs, tot_sent, w)
      | Some (false, skbs, tot_sent, w) =>
          match (if pkt_nsec (mem ptr) >? to_u64 now
                 then wait_until env inner (pkt_nsec (mem ptr)) w
                 else Some (now, w)) with
          | Some (now, w) =>
              match pfq_tx_alloc_skb env node w with
              | Some (Some p, w) =>
                  tx_loop cfg env inner fuel mem begin end_ dev hw_queue node
                          (next_descriptor mem ptr) now
                          (pfq_skbuff_short_batch_push cfg skbs p) tot_sent
                          (tx_fill cfg p (mem ptr) ptr dev hw_queue w)
              | Some (None, w) => Some (ptr, skbs, tot_sent, w)
              | None => None
              end
          | None => None
          end
      | None => None
      end
    else Some (ptr, skbs, tot_sent, w).
Proof. reflexivity. Qed.






End Pacing.

(** ** The pool keeps its invariant *)

Lemma pool_next_small (pool : pfq_skb_pool) (i : Z) :
  pool_size pool < 2 ^ 64 -> 0 <= i < pool_size pool ->
  __pool_next pool i = (if i + 1 =? pool_size pool then 0 else i + 1) /\
  0 <= __pool_next pool i < pool_size pool.
Proof.
  intros Hsize Hi. unfold __pool_next, to_u64.
  rewrite Z.mod_small by lia.
  destruct (Z.eqb_spec (i + 1) (pool_size pool)); split; first [reflexivity | lia].
Qed.

(** On a pool that keeps its invariant [pfq_skb_pool_push] never runs
    into its [BUG_ON], and the invariant holds afterwards. *)
Lemma pfq_skb_pool_push_wf (pool : pfq_skb_pool) (skb : nat) (w : world) :
  pool_wf pool ->
  exists b pool' w',
    pfq_skb_pool_push pool skb w = Some (b, pool', w') /\
    pool_wf pool' /\
    (w' = w \/ w' = kfree_skb skb (inc_os_free w)).
Proof.
  unfold pool_wf, pfq_skb_pool_push.
  destruct (pool_skbs pool) as [arr |] eqn:Harr.
  2: { intros _. eexists _, _, _. split; [reflexivity |].
       rewrite Harr. auto. }
  intros (Hlen & Hsize & Hp & Hc & Hfree).
  destruct (pool_next_small pool (p_idx pool) Hsize Hp) as [Hnext Hnb].
  destruct (Z.eqb_spec (__pool_next pool (p_idx pool)) (c_idx pool)) as [Hfull | Hroom];
    simpl.
  { eexists _, _, _. split; [reflexivity |]. rewrite Harr. auto 10. }
  assert (Hslot : arr !! Z.to_nat (p_idx pool) = Some None).
  { apply Hfree; [lia |]. rewrite Z2Nat.id by lia. unfold pool_live.
    destruct (Z.leb_spec (c_idx pool) (p_idx pool)); lia. }
  rewrite Hslot. eexists _, _, _. split; [reflexivity |]. simpl.
  split; [| auto].
  rewrite length_insert.
  split; [exact Hlen |]. split; [exact Hsize |].
  split; [exact Hnb |]. split; [exact Hc |].
  intros i Hi Hdead.
  assert (Hne : i <> Z.to_nat (p_idx pool) /\
                ~ pool_live (c_idx pool) (p_idx pool) (Z.of_nat i)).
  { unfold pool_live in *. rewrite Hnext in Hdead, Hroom.
    destruct (Z.eqb_spec (p_idx pool + 1) (pool_size pool));
      destruct (Z.leb_spec (c_idx pool) (p_idx pool));
      destruct (Z.leb_spec (c_idx pool) 0);
      destruct (Z.leb_spec (c_idx pool) (p_idx pool + 1)); lia. }
  destruct Hne as [Hne Hdead'].
  rewrite list_lookup_insert_ne by lia. apply Hfree; assumption.
Qed.

(** [pfq_skb_pool_pop] keeps the invariant as well. *)
Lemma pfq_skb_pool_pop_wf (heap : skb_heap) (pool pool' : pfq_skb_pool)
    (r : option nat) :
  pool_wf pool ->
  pfq_skb_pool_pop heap pool = Some (r, pool') ->
  pool_wf pool'.
Proof.
  unfold pool_wf, pfq_skb_pool_pop.
  destruct (pool_skbs pool) as [arr |] eqn:Harr.
  2: { intros _ [= <- <-]. rewrite Harr. exact I. }
  intros (Hlen & Hsize & Hp & Hc & Hfree).
  destruct (Z.eqb_spec (c_idx pool) (p_idx pool)) as [Hempty | Hsome]; simpl.
  { intros [= <- <-]. rewrite Harr. auto. }
  destruct (arr !! Z.to_nat (c_idx pool)) as [[skb |] |]; try discriminate.
  destruct (skb_users (heap skb) <? 2).
  2: { intros [= <- <-]. rewrite Harr. auto. }
  intros [= <- <-]. simpl.
  destruct (pool_next_small pool (c_idx pool) Hsize Hc) as [Hnext Hnb].
  rewrite length_insert.
  split; [exact Hlen |]. split; [exact Hsize |].
  split; [exact Hp |]. split; [exact Hnb |].
  intros i Hi Hdead.
  destruct (decide (i = Z.to_nat (c_idx pool))) as [-> | Hne].
  - apply list_lookup_insert_eq. lia.
  - rewrite list_lookup_insert_ne by lia. apply Hfree; [exact Hi |].
    unfold pool_live in *. rewrite Hnext in Hdead.
    destruct (Z.eqb_spec (c_idx pool + 1) (pool_size pool));
      destruct (Z.leb_spec (c_idx pool) (p_idx pool));
      destruct (Z.leb_spec 0 (p_idx pool));
      destruct (Z.leb_spec (c_idx pool + 1) (p_idx pool)); lia.
Qed.

(** ** The pool is a bounded queue *)

Lemma take_drop_insert_snoc {A : Type} (l : list A) (c p : nat) (x : A) :
  (c <= p < length l)%nat ->
  take (S p - c) (drop c (<[p := x]> l)) = take (p - c) (drop c l) ++ [x].
Proof.
  intros H. rewrite drop_insert_ge by lia.
  replace (S p - c)%nat with (S (p - c)) by lia.
  erewrite take_S_r by (apply list_lookup_insert_eq; rewrite length_drop; lia).
  rewrite take_insert_ge by lia. reflexivity.
Qed.

Lemma pool_items_length (pool : pfq_skb_pool) (arr : list (option nat)) :
  pool_wf pool -> pool_skbs pool = Some arr ->
  Z.of_nat (length (pool_items pool)) =
    if c_idx pool <=? p_idx pool then p_idx pool - c_idx pool
    else pool_size pool - c_idx pool + p_idx pool.
Proof.
  unfold pool_wf, pool_items. intros Hwf Harr. rewrite Harr in *.
  destruct Hwf as (Hlen & Hsize & Hp & Hc & _). cbv zeta.
  destruct (Z.leb_spec (c_idx pool) (p_idx pool)).
  - rewrite length_take, length_drop. lia.
  - rewrite length_app, length_drop, length_take. lia.
Qed.

(** The producer index is about to meet the consumer index exactly when
    all slots but one are in use. *)
Lemma pool_full_iff (pool : pfq_skb_pool) (arr : list (option nat)) :
  pool_wf pool -> pool_skbs pool = Some arr ->
  (length (pool_items pool) < length arr)%nat /\
  (__pool_next pool (p_idx pool) = c_idx pool <->
   S (length (pool_items pool)) = length arr).
Proof.
  intros Hwf Harr. pose proof (pool_items_length _ _ Hwf Harr) as Hitems.
  unfold pool_wf in Hwf. rewrite Harr in Hwf.
  destruct Hwf as (Hlen & Hsize & Hp & Hc & _).
  destruct (pool_next_small pool (p_idx pool) Hsize Hp) as [Hnext _].
  rewrite Hnext.
  destruct (Z.leb_spec (c_idx pool) (p_idx pool));
    destruct (Z.eqb_spec (p_idx pool + 1) (pool_size pool)); lia.
Qed.

Lemma pfq_skb_pool_push_items (pool : pfq_skb_pool) (skb : nat) (w : world)
    (arr : list (option nat)) :
  pool_wf pool -> pool_skbs pool = Some arr ->
  __pool_next pool (p_idx pool) <> c_idx pool ->
  exists pool',
    pfq_skb_pool_push pool skb w = Some (true, pool', w) /\
    pool_items pool' = pool_items pool ++ [Some skb] /\
    pool_size pool' = pool_size pool /\
    c_idx pool' = c_idx pool /\
    p_idx pool' = __pool_next pool (p_idx pool).
Proof.
  intros Hwf Harr Hroom. pose proof Hwf as Hwf0.
  unfold pool_wf in Hwf. rewrite Harr in Hwf.
  destruct Hwf as (Hlen & Hsize & Hp & Hc & Hfree).
  destruct (pool_next_small pool (p_idx pool) Hsize Hp) as [Hnext Hnb].
  assert (Hslot : arr !! Z.to_nat (p_idx pool) = Some None).
  { apply Hfree; [lia |]. rewrite Z2Nat.id by lia. unfold pool_live.
    rewrite Hnext in Hroom.
    destruct (Z.eqb_spec (p_idx pool + 1) (pool_size pool));
      destruct (Z.leb_spec (c_idx pool) (p_idx pool)); lia. }
  unfold pfq_skb_pool_push. rewrite Harr. cbv zeta.
  destruct (Z.eqb_spec (__pool_next pool (p_idx pool)) (c_idx pool));
    [contradiction |].
  simpl negb. cbv iota. rewrite Hslot.
  eexists. split; [reflexivity |].
  split; [| auto].
  unfold pool_items. simpl. rewrite Harr. rewrite Hnext in *.
  set (P := Z.to_nat (p_idx pool)). set (C := Z.to_nat (c_idx pool)).
  assert (HP : (P < length arr)%nat) by (subst P; lia).
  destruct (Z.eqb_spec (p_idx pool + 1) (pool_size pool)) as [Hend | Hmid].
  - (* the producer index wraps *)
    destruct (Z.leb_spec (c_idx pool) 0); [lia |].
    destruct (Z.leb_spec (c_idx pool) (p_idx pool)); [| lia].
    simpl. rewrite app_nil_r.
    rewrite <- (take_ge (drop C (<[P := Some skb]> arr)) (S P - C)).
    + apply take_drop_insert_snoc. subst P C. lia.
    + rewrite length_drop, length_insert. subst P C. lia.
  - destruct (Z.leb_spec (c_idx pool) (p_idx pool)).
    + destruct (Z.leb_spec (c_idx pool) (p_idx pool + 1)); [| lia].
      replace (Z.to_nat (p_idx pool + 1) - C)%nat with (S P - C)%nat
        by (subst P C; lia).
      apply take_drop_insert_snoc. subst P C. lia.
    + destruct (Z.leb_spec (c_idx pool) (p_idx pool + 1)); [lia |].
      rewrite drop_insert_lt by (subst P C; lia).
      replace (Z.to_nat (p_idx pool + 1)) with (S P) by (subst P; lia).
      erewrite take_S_r by (apply list_lookup_insert_eq; exact HP).
      rewrite take_insert_ge by lia. rewrite app_assoc. reflexivity.
Qed.

Lemma pfq_skb_pool_pop_items (heap : skb_heap) (pool : pfq_skb_pool)
    (arr : list (option nat)) (skb : nat) :
  pool_wf pool -> pool_skbs pool = Some arr ->
  c_idx pool <> p_idx pool ->
  arr !! Z.to_nat (c_idx pool) = Some (Some skb) ->
  skb_users (heap skb) < 2 ->
  exists pool',
    pfq_skb_pool_pop heap pool = Some (Some skb, pool') /\
    pool_items pool = Some skb :: pool_items pool' /\
    pool_size pool' = pool_size pool /\
    p_idx pool' = p_idx pool /\
    c_idx pool' = __pool_next pool (c_idx pool).
Proof.
  intros Hwf Harr Hsome Hslot Husers.
  unfold pool_wf in Hwf. rewrite Harr in Hwf.
  destruct Hwf as (Hlen & Hsize & Hp & Hc & Hfree).
  destruct (pool_next_small pool (c_idx pool) Hsize Hc) as [Hnext Hnb].
  unfold pfq_skb_pool_pop. rewrite Harr. cbv zeta.
  destruct (Z.eqb_spec (c_idx pool) (p_idx pool)); [contradiction |].
  simpl negb. cbv iota. rewrite Hslot.
  destruct (Z.ltb_spec (skb_users (heap skb)) 2); [| lia].
  eexists. split; [reflexivity |].
  split; [| auto].
  unfold pool_items. simpl. rewrite Harr. rewrite Hnext in *.
  set (P := Z.to_nat (p_idx pool)) in *. set (C := Z.to_nat (c_idx pool)) in *.
  assert (HC : (C < length arr)%nat) by (subst C; lia).
  rewrite (drop_S arr (Some skb) C Hslot).
  destruct (Z.eqb_spec (c_idx pool + 1) (pool_size pool)) as [Hend | Hmid].
  - (* the consumer index wraps *)
    destruct (Z.leb_spec (c_idx pool) (p_idx pool)); [lia |].
    destruct (Z.leb_spec 0 (p_idx pool)); [| lia].
    rewrite (drop_ge arr (S C)) by lia.
    simpl. rewrite Nat.sub_0_r. change (Z.to_nat 0) with 0%nat.
    rewrite drop_0, take_insert_ge by (subst P C; lia). reflexivity.
  - replace (Z.to_nat (c_idx pool + 1)) with (S C) by (subst C; lia).
    rewrite drop_insert_lt by lia.
    destruct (Z.leb_spec (c_idx pool) (p_idx pool)).
    + destruct (Z.leb_spec (c_idx pool + 1) (p_idx pool)); [| lia].
      replace (P - C)%nat with (S (P - S C)) by (subst P C; lia).
      reflexivity.
    + destruct (Z.leb_spec (c_idx pool + 1) (p_idx pool)); [lia |].
      rewrite take_insert_ge by (subst P C; lia). reflexivity.
Qed.

(** The head slot of a pool that is not empty is the first of its items. *)
Lemma pool_items_head (pool : pfq_skb_pool) (arr : list (option nat)) :
  pool_wf pool -> pool_skbs pool = Some arr ->
  (c_idx pool = p_idx pool -> pool_items pool = []) /\
  (c_idx pool <> p_idx pool ->
   exists x rest,
     arr !! Z.to_nat (c_idx pool) = Some x /\ pool_items pool = x :: rest).
Proof.
  intros Hwf Harr. unfold pool_wf in Hwf. rewrite Harr in Hwf.
  destruct Hwf as (Hlen & Hsize & Hp & Hc & Hfree).
  unfold pool_items. rewrite Harr. cbv zeta.
  set (P := Z.to_nat (p_idx pool)) in *. set (C := Z.to_nat (c_idx pool)) in *.
  assert (HC : is_Some (arr !! C)).
  { apply lookup_lt_is_Some. subst C. lia. }
  destruct HC as [x HC]. rewrite (drop_S arr x C HC).
  split.
  - intros Heq. rewrite Heq, Z.leb_refl.
    replace (P - C)%nat with 0%nat by (subst P C; lia). reflexivity.
  - intros Hne. destruct (Z.leb_spec (c_idx pool) (p_idx pool)).
    + replace (P - C)%nat with (S (P - S C)) by (subst P C; lia).
      simpl. eauto.
    + simpl. eauto.
Qed.

(** A push into a stocked pool does not run into its [BUG_ON] and
    leaves the pool stocked. *)
Lemma pfq_skb_pool_push_stocked (pool : pfq_skb_pool) (skb : nat) (w : world) :
  pool_stocked pool ->
  exists b pool' w',
    pfq_skb_pool_push pool skb w = Some (b, pool', w') /\
    pool_stocked pool' /\
    (w' = w \/ w' = kfree_skb skb (inc_os_free w)).
Proof.
  intros [Hwf Hall].
  destruct (pfq_skb_pool_push_wf pool skb w Hwf)
    as (b & pool' & w' & Hpush & Hwf' & Hw').
  exists b, pool', w'. split; [exact Hpush |]. split; [| exact Hw'].
  split; [exact Hwf' |].
  destruct (pool_skbs pool) as [arr |] eqn:Harr.
  - destruct (Z.eq_dec (__pool_next pool (p_idx pool)) (c_idx pool))
      as [Hfull | Hroom].
    + unfold pfq_skb_pool_push in Hpush. rewrite Harr in Hpush.
      cbv zeta in Hpush. rewrite Hfull, Z.eqb_refl in Hpush. simpl in Hpush.
      injection Hpush as <- <- <-. exact Hall.
    + destruct (pfq_skb_pool_push_items pool skb w arr Hwf Harr Hroom)
        as (pool'' & Hpush'' & Hitems & _).
      rewrite Hpush in Hpush''. injection Hpush'' as -> ->.
      rewrite Hitems. apply Forall_app. split; [exact Hall |].
      constructor; [discriminate | constructor].
  - unfold pfq_skb_pool_push in Hpush. rewrite Harr in Hpush.
    injection Hpush as <- <- <-. exact Hall.
Qed.

(** A pop from a stocked pool follows no NULL pointer and leaves the
    pool stocked; a pop that gives no buffer leaves the pool as it is. *)
Lemma pfq_skb_pool_pop_stocked (heap : skb_heap) (pool : pfq_skb_pool) :
  pool_stocked pool ->
  exists r pool',
    pfq_skb_pool_pop heap pool = Some (r, pool') /\
    pool_stocked pool' /\
    (r = None -> pool' = pool).
Proof.
  intros [Hwf Hall].
  destruct (pool_skbs pool) as [arr |] eqn:Harr.
  2: { exists None, pool. unfold pfq_skb_pool_pop. rewrite Harr.
       split; [reflexivity |]. split; [split; assumption | auto]. }
  destruct (pool_items_head _ _ Hwf Harr) as [_ Hhead].
  destruct (Z.eq_dec (c_idx pool) (p_idx pool)) as [Heq | Hne].
  { exists None, pool. unfold pfq_skb_pool_pop. rewrite Harr. cbv zeta.
    rewrite Heq, Z.eqb_refl. simpl.
    split; [reflexivity |]. split; [split; assumption | auto]. }
  destruct (Hhead Hne) as (x & rest & Hslot & Hitems).
  rewrite Hitems in Hall. apply Forall_cons in Hall as [Hx Hrest].
  destruct x as [skb |]; [| contradiction].
  destruct (Z_lt_ge_dec (skb_users (heap skb)) 2) as [Hfree | Hheld].
  - destruct (pfq_skb_pool_pop_items heap pool arr skb Hwf Harr Hne Hslot Hfree)
      as (pool' & Hpop & Hitems' & _).
    exists (Some skb), pool'. split; [exact Hpop |].
    split; [| discriminate].
    split; [eapply pfq_skb_pool_pop_wf; eassumption |].
    rewrite Hitems in Hitems'. injection Hitems' as <-. exact Hrest.
  - exists None, pool. unfold pfq_skb_pool_pop. rewrite Harr. cbv zeta.
    destruct (Z.eqb_spec (c_idx pool) (p_idx pool)); [contradiction |].
    simpl. rewrite Hslot.
    destruct (Z.ltb_spec (skb_users (heap skb)) 2); [lia |].
    split; [reflexivity |]. split; [| auto].
    split; [exact Hwf |]. rewrite Hitems. constructor; assumption.
Qed.

(** X1. A push into a pool that keeps its invariant and holds fewer than
    [size - 1] buffers stores the buffer behind the ones already there:
    the items of the pool grow by the buffer at their end, nothing is
    released and no counter moves, and the invariant still holds. *)
Theorem pfq_skb_pool_push_appends (pool : pfq_skb_pool) (skb : nat)
    (w : world) (arr : list (option nat)) :
  pool_wf pool -> pool_skbs pool = Some arr ->
  (S (length (pool_items pool)) < length arr)%nat ->
  exists pool',
    pfq_skb_pool_push pool skb w = Some (true, pool', w) /\
    pool_items pool' = pool_items pool ++ [Some skb] /\
    pool_wf pool'.
Proof.
  intros Hwf Harr Hroom.
  destruct (pool_full_iff _ _ Hwf Harr) as [_ Hfull].
  assert (Hnext : __pool_next pool (p_idx pool) <> c_idx pool).
  { intros Heq. apply Hfull in Heq. lia. }
  destruct (pfq_skb_pool_push_items pool skb w arr Hwf Harr Hnext)
    as (pool' & Hpush & Hitems & _).
  destruct (pfq_skb_pool_push_wf pool skb w Hwf)
    as (b & pool'' & w'' & Hpush' & Hwf' & _).
  rewrite Hpush in Hpush'. injection Hpush' as <- <- <-.
  exists pool'. auto.
Qed.

(** X2. A pool of [size] slots never holds more than [size - 1] buffers,
    and a push into a pool that holds [size - 1] is refused: it returns
    false, leaves the pool as it is and releases the buffer with
    [kfree_skb], counting it in [os_free]. *)
Theorem pfq_skb_pool_push_full (pool : pfq_skb_pool) (skb : nat)
    (w : world) (arr : list (option nat)) :
  pool_wf pool -> pool_skbs pool = Some arr ->
  (length (pool_items pool) < length arr)%nat /\
  (S (length (pool_items pool)) = length arr ->
   pfq_skb_pool_push pool skb w
   = Some (false, pool, kfree_skb skb (inc_os_free w)) /\
   released (w_trace (kfree_skb skb (inc_os_free w)))
   = released (w_trace w) ++ [skb] /\
   w_os_free (kfree_skb skb (inc_os_free w)) = w_os_free w + 1).
Proof.
  intros Hwf Harr.
  destruct (pool_full_iff _ _ Hwf Harr) as [Hcap Hfull].
  split; [exact Hcap |].
  intros Hlen. apply Hfull in Hlen.
  unfold pfq_skb_pool_push. rewrite Harr. cbv zeta.
  rewrite Hlen, Z.eqb_refl. simpl.
  split; [reflexivity |]. split; [| reflexivity].
  unfold released. rewrite omap_app. reflexivity.
Qed.

(** X3. A pop takes the oldest buffer: when the first item of the pool
    is a buffer with fewer than two references, [pfq_skb_pool_pop]
    returns that buffer, the items left are the other ones in their
    order, and the invariant still holds; on a pool with no item it
    returns NULL and leaves the pool as it is. *)
Theorem pfq_skb_pool_pop_oldest (heap : skb_heap) (pool : pfq_skb_pool)
    (arr : list (option nat)) :
  pool_wf pool -> pool_skbs pool = Some arr ->
  (pool_items pool = [] -> pfq_skb_pool_pop heap pool = Some (None, pool)) /\
  (forall skb rest,
     pool_items pool = Some skb :: rest ->
     skb_users (heap skb) < 2 ->
     exists pool',
       pfq_skb_pool_pop heap pool = Some (Some skb, pool') /\
       pool_items pool' = rest /\
       pool_wf pool').
Proof.
  intros Hwf Harr.
  destruct (pool_items_head _ _ Hwf Harr) as [Hempty Hhead].
  split.
  - intros Hnil.
    destruct (Z.eq_dec (c_idx pool) (p_idx pool)) as [Heq | Hne].
    + unfold pfq_skb_pool_pop. rewrite Harr. cbv zeta.
      rewrite Heq, Z.eqb_refl. reflexivity.
    + destruct (Hhead Hne) as (x & rest & _ & Hitems).
      rewrite Hitems in Hnil. discriminate.
  - intros skb rest Hitems Husers.
    destruct (Z.eq_dec (c_idx pool) (p_idx pool)) as [Heq | Hne].
    { rewrite (Hempty Heq) in Hitems. discriminate. }
    destruct (Hhead Hne) as (x & rest' & Hslot & Hitems').
    rewrite Hitems in Hitems'. injection Hitems' as <- <-.
    destruct (pfq_skb_pool_pop_items heap pool arr skb Hwf Harr Hne Hslot Husers)
      as (pool' & Hpop & Hitems' & _).
    exists pool'. split; [exact Hpop |].
    split.
    + rewrite Hitems in Hitems'. injection Hitems' as <-. reflexivity.
    + eapply pfq_skb_pool_pop_wf; eassumption.
Qed.

(** X4. What is pushed into an empty pool comes back: after a push of a
    buffer into an initialized pool of at least two slots with no item,
    a pop returns that very buffer (its reference count being below two)
    and the pool has no item again. *)
Theorem pfq_skb_pool_push_pop (pool : pfq_skb_pool) (skb : nat) (w : world)
    (arr : list (option nat)) :
  pool_wf pool -> pool_skbs pool = Some arr ->
  pool_items pool = [] ->
  (1 < length arr)%nat ->
  skb_users (w_heap w skb) < 2 ->
  exists pool1 pool2,
    pfq_skb_pool_push pool skb w = Some (true, pool1, w) /\
    pfq_skb_pool_pop (w_heap w) pool1 = Some (Some skb, pool2) /\
    pool_items pool2 = [] /\
    pool_wf pool2.
Proof.
  intros Hwf Harr Hnil Hlen Husers.
  destruct (pool_full_iff _ _ Hwf Harr) as [_ Hfull].
  assert (Hnext : __pool_next pool (p_idx pool) <> c_idx pool).
  { intros Heq. apply Hfull in Heq. rewrite Hnil in Heq. simpl in Heq. lia. }
  destruct (pfq_skb_pool_push_items pool skb w arr Hwf Harr Hnext)
    as (pool1 & Hpush & Hitems1 & Hsize1 & Hc1 & Hp1).
  destruct (pfq_skb_pool_push_wf pool skb w Hwf)
    as (b & pool'' & w'' & Hpush' & Hwf1 & _).
  rewrite Hpush in Hpush'. injection Hpush' as <- <- <-.
  rewrite Hnil in Hitems1. simpl in Hitems1.
  destruct (pool_skbs pool1) as [arr1 |] eqn:Harr1.
  2: { unfold pool_items in Hitems1. rewrite Harr1 in Hitems1. discriminate. }
  destruct (pool_items_head _ _ Hwf1 Harr1) as [Hempty1 Hhead1].
  assert (Hne1 : c_idx pool1 <> p_idx pool1).
  { intros Heq. rewrite (Hempty1 Heq) in Hitems1. discriminate. }
  destruct (Hhead1 Hne1) as (x & rest & Hslot1 & Hitems1').
  rewrite Hitems1 in Hitems1'. injection Hitems1' as <- <-.
  destruct (pfq_skb_pool_pop_items (w_heap w) pool1 arr1 skb
              Hwf1 Harr1 Hne1 Hslot1 Husers)
    as (pool2 & Hpop & Hitems2 & _).
  exists pool1, pool2.
  split; [exact Hpush |]. split; [exact Hpop |].
  split.
  - rewrite Hitems1 in Hitems2. injection Hitems2 as <-. reflexivity.
  - eapply pfq_skb_pool_pop_wf; eassumption.
Qed.


(** ** A drain returns once the give-up condition is raised *)

Lemma free_each_pool (ps : list nat) :
  forall w : world, w_tx_pool (free_each ps w) = w_tx_pool w.
Proof.
  unfold free_each. induction ps as [| p ps IH]; intros w; simpl; [reflexivity |].
  rewrite IH. reflexivity.
Qed.

Lemma skb_get_each_pool (ps : list nat) :
  forall w : world,
    w_tx_pool (fold_left (fun w p => skb_get p w) ps w) = w_tx_pool w.
Proof.
  induction ps as [| p ps IH]; intros w; simpl; [reflexivity |].
  rewrite IH. reflexivity.
Qed.

Section Returns.

Variable cfg : config.
Variable env : environment.

Lemma __pfq_xmit_pool (p : nat) (dev : net_device) (txq : Z) (more : bool)
    (w : world) :
  w_tx_pool (snd (__pfq_xmit cfg env p dev txq more w)) = w_tx_pool w.
Proof.
  unfold __pfq_xmit, observe. simpl.
  destruct (env_iff_up env (w_tick w)); [| reflexivity]. simpl.
  destruct (env_xmit_stopped env (S (w_tick w))); [reflexivity |]. simpl.
  destruct (dev_xmit_complete (env_start_xmit env (S (S (w_tick w)))));
    reflexivity.
Qed.

Lemma batch_xmit_loop_pool (dev : net_device) (txq last : Z) (rest : list nat) :
  forall (n ret : Z) (w : world),
    w_tx_pool (snd (batch_xmit_loop cfg env dev txq last rest n ret w))
    = w_tx_pool w.
Proof.
  induction rest as [| p rest IH]; intros n ret w; simpl; [reflexivity |].
  pose proof (__pfq_xmit_pool p dev txq (negb (to_u64 n =? last))
                (skb_set_queue_mapping p txq w)) as Hx.
  destruct (__pfq_xmit cfg env p dev txq (negb (to_u64 n =? last))
              (skb_set_queue_mapping p txq w)) as [rc w1].
  simpl in Hx. destruct (rc =? NETDEV_TX_OK); [rewrite IH |]; exact Hx.
Qed.

Lemma pfq_batch_xmit_pool (skbs : list nat) (dev : net_device) (hw_queue : Z)
    (w : world) :
  w_tx_pool (snd (pfq_batch_xmit cfg env skbs dev hw_queue w)) = w_tx_pool w.
Proof.
  unfold pfq_batch_xmit. cbv zeta.
  set (txq := pfq_pick_tx dev (skb_at w (hd 0%nat skbs)) hw_queue).
  set (last := to_u64 (Z.of_nat (length skbs) - 1)).
  pose proof (batch_xmit_loop_pool dev txq last skbs 0 0 (emit (EvLock txq) w))
    as Hloop.
  destruct (batch_xmit_loop cfg env dev txq last skbs 0 0 (emit (EvLock txq) w))
    as [[ret c] w1].
  simpl in Hloop. destruct c; simpl; [exact Hloop |].
  rewrite free_each_pool. exact Hloop.
Qed.

Lemma recycle_each_returns (ps : list nat) :
  forall w : world,
    pool_wf (w_tx_pool w) ->
    exists w',
      recycle_each ps w = Some w' /\
      pool_wf (w_tx_pool w') /\ w_tick w' = w_tick w /\
      (pool_stocked (w_tx_pool w) -> pool_stocked (w_tx_pool w')).
Proof.
  induction ps as [| p ps IH]; intros w Hwf; simpl; [eauto 6 |].
  unfold pfq_kfree_skb_pool.
  destruct (pfq_skb_pool_push_wf (w_tx_pool w) p w Hwf)
    as (b & pool' & w1 & Hpush & Hwf' & Hw1).
  rewrite Hpush.
  destruct (IH (with_tx_pool pool' w1)) as (w' & Hr & Hwf'' & Htick & Hst);
    [exact Hwf' |].
  exists w'. split; [exact Hr |]. split; [exact Hwf'' |].
  split.
  - rewrite Htick. destruct Hw1 as [-> | ->]; reflexivity.
  - intros Hstocked. apply Hst. simpl.
    destruct (pfq_skb_pool_push_stocked (w_tx_pool w) p w Hstocked)
      as (b2 & pool2 & w2 & Hpush2 & Hst2 & _).
    rewrite Hpush in Hpush2. injection Hpush2 as -> -> ->. exact Hst2.
Qed.

Variable T : nat.
Hypothesis Hgiveup : gives_up_by env T.

Lemma full_batch_xmit_loop_returns (dev : net_device) (hw_queue : Z)
    (fuel : nat) :
  forall (skbs : list nat) (total : Z) (w : world),
    pool_wf (w_tx_pool w) ->
    (T - w_tick w < fuel)%nat ->
    exists ret skbs' w',
      full_batch_xmit_loop cfg env fuel skbs dev hw_queue total w
        = Some (ret, skbs', w') /\
      pool_wf (w_tx_pool w') /\ (w_tick w <= w_tick w')%nat /\
      (pool_stocked (w_tx_pool w) -> pool_stocked (w_tx_pool w')).
Proof using Hgiveup.
  induction fuel as [| fuel IH]; intros skbs total w Hwf Hfuel; [lia |].
  destruct skbs as [| p ps]; [simpl; eauto 8 |].
  rewrite full_batch_xmit_loop_step. cbv zeta.
  set (skbs := p :: ps).
  unfold giveup_tx_process, observe.
  destruct (giveup_at env (w_tick w)) eqn:Hg.
  { eexists _, _, _. split; [reflexivity |]. simpl.
    split; [exact Hwf |]. split; [lia | auto]. }
  assert (Hlt : (w_tick w < T)%nat).
  { destruct (le_lt_dec T (w_tick w)) as [Hle | Hlt]; [| exact Hlt].
    rewrite (Hgiveup _ Hle) in Hg. discriminate. }
  set (w1 := emit (EvGiveup false) _).
  set (w2 := fold_left (fun w p => skb_get p w) skbs w1).
  assert (Hpool2 : w_tx_pool w2 = w_tx_pool w)
    by (unfold w2; rewrite skb_get_each_pool; reflexivity).
  assert (Htick2 : (S (w_tick w) <= w_tick w2)%nat).
  { destruct (skb_get_each_quiet skbs w1) as [_ (Ht & _)]. exact Ht. }
  pose proof (pfq_batch_xmit_pool skbs dev hw_queue w2) as Hpool3.
  destruct (pfq_batch_xmit cfg env skbs dev hw_queue w2) as [sent w3] eqn:Hb.
  apply (pfq_batch_xmit_summary cfg env) in Hb as (_ & _ & (Ht3 & _) & _).
  simpl in Hpool3.
  assert (Hwf3 : pool_wf (w_tx_pool w3)) by (rewrite Hpool3, Hpool2; exact Hwf).
  destruct (sent =? 0).
  - destruct (IH skbs total (pfq_relax w3))
      as (ret & skbs' & w' & Hr & Hwf' & Ht' & Hst'); [exact Hwf3 | simpl; lia |].
    exists ret, skbs', w'. split; [exact Hr |]. split; [exact Hwf' |].
    simpl in Ht', Hst'. split; [lia |].
    intros Hs. apply Hst'. rewrite Hpool3, Hpool2. exact Hs.
  - destruct (recycle_each_returns (take (Z.to_nat sent) skbs) w3 Hwf3)
      as (w4 & -> & Hwf4 & Ht4 & Hst4).
    destruct (IH (drop (Z.to_nat sent) skbs) (total + sent) w4)
      as (ret & skbs' & w' & Hr & Hwf' & Ht' & Hst'); [exact Hwf4 | lia |].
    exists ret, skbs', w'. split; [exact Hr |]. split; [exact Hwf' |].
    split; [lia |].
    intros Hs. apply Hst', Hst4. rewrite Hpool3, Hpool2. exact Hs.
Qed.

(** X25. Whatever the driver does, [full_batch_xmit] returns once the
    give-up condition is raised: with the condition raised from the
    observation [T] on and a pool that keeps its invariant, the loop
    ends within the observations left before [T], however often the
    driver refuses the batch. *)
Lemma full_batch_xmit_returns (fuel : nat) (skbs : list nat)
    (dev : net_device) (hw_queue : Z) (w : world) :
  pool_wf (w_tx_pool w) ->
  (T - w_tick w < fuel)%nat ->
  exists ret skbs' w',
    full_batch_xmit cfg env fuel skbs dev hw_queue w = Some (ret, skbs', w').
Proof using Hgiveup.
  intros Hwf Hfuel. unfold full_batch_xmit.
  destruct (full_batch_xmit_loop_returns dev hw_queue fuel skbs 0 w Hwf Hfuel)
    as (ret & skbs' & w' & Hr & _).
  eauto.
Qed.

Lemma wait_until_returns (ts : Z) (fuel : nat) :
  forall w : world,
    (T - w_tick w < fuel)%nat ->
    exists now w',
      wait_until env fuel ts w = Some (now, w') /\
      w_tx_pool w' = w_tx_pool w /\ (w_tick w <= w_tick w')%nat.
Proof using Hgiveup.
  induction fuel as [| fuel IH]; intros w Hfuel; [lia |].
  rewrite wait_until_step.
  unfold ktime_get_real, giveup_tx_process, observe. simpl.
  destruct (giveup_at env (S (w_tick w))) eqn:Hg.
  { eexists _, _. split; [reflexivity |]. simpl. split; [reflexivity | lia]. }
  assert (Hlt : (S (w_tick w) < T)%nat).
  { destruct (le_lt_dec T (S (w_tick w))) as [Hle | Hlt]; [| exact Hlt].
    rewrite (Hgiveup _ Hle) in Hg. discriminate. }
  destruct (to_u64 (env_clock env (w_tick w)) <? ts).
  - match goal with
    | |- context [wait_until env fuel ts ?w1] =>
        destruct (IH w1) as (now & w' & Hr & Hp & Ht); [simpl; lia |]
    end.
    exists now, w'. split; [exact Hr |]. split; [exact Hp |].
    simpl in Ht. lia.
  - eexists _, _. split; [reflexivity |]. simpl. split; [reflexivity | lia].
Qed.

Lemma swap_spin_returns (index : Z) (fuel : nat) :
  forall w : world,
    (T - w_tick w < fuel)%nat ->
    exists err w',
      swap_spin env fuel index w = Some (err, w') /\
      w_tx_pool w' = w_tx_pool w /\ (w_tick w <= w_tick w')%nat.
Proof using Hgiveup.
  induction fuel as [| fuel IH]; intros w Hfuel; [lia |].
  change (swap_spin env (S fuel) index w) with
    (let (prod, w) := observe (env_prod env) w in
     if negb (to_u64 index =? prod) then
       let w := pfq_relax w in
       let (g, w) := giveup_tx_process env w in
       if g then Some (- EINTR, w) else swap_spin env fuel index w
     else Some (0, w)).
  unfold giveup_tx_process, observe. simpl.
  destruct (negb (to_u64 index =? env_prod env (w_tick w))).
  2: { eexists _, _. split; [reflexivity |]. simpl. split; [reflexivity | lia]. }
  destruct (giveup_at env (S (w_tick w))) eqn:Hg.
  { eexists _, _. split; [reflexivity |]. simpl. split; [reflexivity | lia]. }
  assert (Hlt : (S (w_tick w) < T)%nat).
  { destruct (le_lt_dec T (S (w_tick w))) as [Hle | Hlt]; [| exact Hlt].
    rewrite (Hgiveup _ Hle) in Hg. discriminate. }
  match goal with
  | |- context [swap_spin env fuel index ?w1] =>
      destruct (IH w1) as (err & w' & Hr & Hp & Ht); [simpl; lia |]
  end.
  exists err, w'. split; [exact Hr |]. split; [exact Hp |].
  simpl in Ht. lia.
Qed.

(** Where the traversal goes on there is a descriptor, in either build. *)
Lemma traverse_tx_queue_live (mem : tx_memory) (ptr begin end_ : Z) :
  traverse_tx_queue cfg mem ptr begin end_ = true ->
  ptr < end_ /\ pkt_len (mem ptr) <> 0.
Proof.
  unfold traverse_tx_queue. destruct (PFQ_DEBUG cfg).
  - destruct (Z.ltb_spec ptr begin); [discriminate |]. simpl.
    destruct (Z.geb_spec ptr end_); [discriminate |].
    destruct (pkt_len (mem ptr) >? 2048); [discriminate |].
    destruct (Z.eqb_spec (pkt_len (mem ptr)) 0); [discriminate |].
    intros _. split; [lia | assumption].
  - destruct (Z.ltb_spec ptr end_); [| discriminate].
    destruct (Z.eqb_spec (pkt_len (mem ptr)) 0); [discriminate |].
    intros _. split; [lia | assumption].
Qed.

Lemma tx_submit_returns (inner : nat) (skbs : list nat) (now last_ts : Z)
    (dev : net_device) (hw_queue tot_sent : Z) (w : world) :
  pool_wf (w_tx_pool w) ->
  (T - w_tick w < inner)%nat ->
  exists interrupted skbs' tot_sent' w',
    tx_submit cfg env inner skbs now last_ts dev hw_queue tot_sent w
      = Some (interrupted, skbs', tot_sent', w') /\
    pool_wf (w_tx_pool w') /\ (w_tick w <= w_tick w')%nat /\
    (pool_stocked (w_tx_pool w) -> pool_stocked (w_tx_pool w')).
Proof using Hgiveup.
  intros Hwf Hfuel. unfold tx_submit, full_batch_xmit.
  destruct (transmission_required cfg skbs now last_ts).
  - destruct (full_batch_xmit_loop_returns dev hw_queue inner skbs 0 w Hwf Hfuel)
      as (ret & skbs' & w' & -> & Hwf' & Ht & Hst).
    eexists _, _, _, _. split; [reflexivity | auto].
  - eexists _, _, _, _. split; [reflexivity | auto].
Qed.

(** The allocation does not fault on a stocked pool. *)
Lemma pfq_tx_alloc_skb_returns (node : Z) (w : world) :
  pool_stocked (w_tx_pool w) ->
  exists r w1,
    pfq_tx_alloc_skb env node w = Some (r, w1) /\
    pool_stocked (w_tx_pool w1) /\ (w_tick w <= w_tick w1)%nat.
Proof.
  intros Hst. unfold pfq_tx_alloc_skb.
  destruct (pfq_skb_pool_pop_stocked (w_heap w) (w_tx_pool w) Hst)
    as (r & pool' & -> & Hst' & _).
  destruct r as [p |].
  - eexists _, _. split; [reflexivity |]. simpl. split; [exact Hst' | lia].
  - unfold observe.
    destruct (env_alloc_ok env (w_tick w)); eexists _, _;
      (split; [reflexivity |]); simpl; (split; [exact Hst | lia]).
Qed.

Lemma tx_loop_returns (inner : nat) (mem : tx_memory) (begin end_ : Z)
    (dev : net_device) (hw_queue node : Z) (fuel : nat) :
  forall (ptr now : Z) (skbs : list nat) (tot_sent : Z) (w : world)
         (ds : list pfq_pkthdr_tx),
    pool_stocked (w_tx_pool w) ->
    (T - w_tick w < inner)%nat ->
    descriptors mem end_ ptr ds ->
    (length ds < fuel)%nat ->
    exists ptr' skbs' tot_sent' w' ds',
      tx_loop cfg env inner fuel mem begin end_ dev hw_queue node
              ptr now skbs tot_sent w = Some (ptr', skbs', tot_sent', w') /\
      pool_stocked (w_tx_pool w') /\ (w_tick w <= w_tick w')%nat /\
      descriptors mem end_ ptr' ds' /\ (length ds' <= length ds)%nat.
Proof using Hgiveup.
  induction fuel as [| fuel IH];
    intros ptr now skbs tot_sent w ds Hst Hinner Hds Hfuel; [lia |].
  rewrite tx_loop_step.
  destruct (traverse_tx_queue cfg mem ptr begin end_) eqn:Htrav.
  2: { exists ptr, skbs, tot_sent, w, ds. split; [reflexivity |]. auto. }
  apply traverse_tx_queue_live in Htrav as [Hlt Hlen].
  inversion Hds as [ptr0 Hend | ptr0 ds1 _ _ Hds1]; subst.
  { destruct Hend; [lia | contradiction]. }
  simpl in Hfuel.
  destruct (tx_submit_returns inner skbs now (pkt_nsec (mem ptr)) dev hw_queue
              tot_sent w (proj1 Hst) Hinner)
    as (intr & skbs1 & tot1 & w1 & -> & Hwf1 & Ht1 & Hst1).
  specialize (Hst1 Hst).
  destruct intr.
  { exists ptr, skbs1, tot1, w1, (mem ptr :: ds1).
    split; [reflexivity |]. auto. }
  assert (Hwait : exists now2 w2,
             (if pkt_nsec (mem ptr) >? to_u64 now
              then wait_until env inner (pkt_nsec (mem ptr)) w1
              else Some (now, w1)) = Some (now2, w2) /\
             w_tx_pool w2 = w_tx_pool w1 /\ (w_tick w1 <= w_tick w2)%nat).
  { destruct (pkt_nsec (mem ptr) >? to_u64 now).
    - apply wait_until_returns. lia.
    - eauto. }
  destruct Hwait as (now2 & w2 & -> & Hp2 & Ht2).
  destruct (pfq_tx_alloc_skb_returns node w2) as (r & w3 & -> & Hst3 & Ht3);
    [rewrite Hp2; exact Hst1 |].
  destruct r as [p |].
  - destruct (IH (next_descriptor mem ptr) now2
                 (pfq_skbuff_short_batch_push cfg skbs1 p) tot1
                 (tx_fill cfg p (mem ptr) ptr dev hw_queue w3) ds1)
      as (ptr' & skbs' & tot' & w' & ds' & Hr & Hst' & Ht' & Hds' & Hlen');
      [exact Hst3 | simpl; lia | exact Hds1 | lia |].
    exists ptr', skbs', tot', w', ds'. split; [exact Hr |].
    split; [exact Hst' |]. simpl in Ht'. split; [lia |].
    split; [exact Hds' | simpl; lia].
  - exists ptr, skbs1, tot1, w3, (mem ptr :: ds1).
    split; [reflexivity |]. split; [exact Hst3 |]. split; [lia | auto].
Qed.

Lemma count_left_returns (mem : tx_memory) (begin end_ : Z) (fuel : nat) :
  forall (ptr disc : Z) (ds : list pfq_pkthdr_tx),
    descriptors mem end_ ptr ds ->
    (length ds < fuel)%nat ->
    exists disc', count_left cfg fuel mem begin end_ ptr disc = Some disc'.
Proof.
  induction fuel as [| fuel IH]; intros ptr disc ds Hds Hfuel; [lia |].
  simpl. destruct (traverse_tx_queue cfg mem ptr begin end_) eqn:Htrav; [| eauto].
  apply traverse_tx_queue_live in Htrav as [Hlt Hlen].
  inversion Hds as [ptr0 Hend | ptr0 ds1 _ _ Hds1]; subst.
  { destruct Hend; [lia | contradiction]. }
  simpl in Hfuel. eapply IH; [exact Hds1 | lia].
Qed.

(** X26. On a half that holds a list of descriptors, whatever the
    driver, the clock and the allocator do, a drain returns once the
    give-up condition is raised and stays raised: the fuel of the model
    only has to cover the observations made before that and the number
    of descriptors, and no step of the drain faults on a pool whose
    slots in use all hold a buffer. *)
Theorem __pfq_queue_xmit_returns (fuel : nat) (idx : nat) (to : pfq_tx_opt)
    (mem : tx_memory) (dev : net_device) (cpu node : Z) (w : world)
    (ds : list pfq_pkthdr_tx) :
  pool_stocked (w_tx_pool w) ->
  let txs := to_txs to idx in
  let swap := to_int (to_u64 (txs_cons txs + 1)) in
  let begin := tx_half_begin (to_base_addr to idx) swap (txs_size txs) in
  descriptors mem (begin + txs_size txs) begin ds ->
  (T + length ds < fuel)%nat ->
  exists ret to' mem' w',
    __pfq_queue_xmit cfg env fuel idx to mem dev cpu node w
      = Some (ret, to', mem', w').
Proof using Hgiveup.
  intros Hst txs swap begin Hds Hfuel. unfold __pfq_queue_xmit.
  assert (Hswap : exists err w1,
             swap_tx_queue_and_wait cfg env fuel (to_txs to idx) cpu w
             = Some (err, swap,
                     TxQueue (if negb (cpu =? Q_NO_KTHREAD cfg)
                              then txs_prod (to_txs to idx) else 1)
                             (to_u64 (txs_cons (to_txs to idx) + 1))
                             (txs_size (to_txs to idx)), w1) /\
             w_tx_pool w1 = w_tx_pool w /\ (w_tick w <= w_tick w1)%nat).
  { unfold swap_tx_queue_and_wait.
    destruct (negb (cpu =? Q_NO_KTHREAD cfg)).
    - destruct (swap_spin_returns
                  (to_int (to_u64 (txs_cons (to_txs to idx) + 1))) fuel w)
        as (err & w1 & -> & Hp & Ht); [lia |].
      eauto 8.
    - eauto 8. }
  destruct Hswap as (err & w1 & -> & Hp1 & Ht1).
  destruct (err <? 0); [eauto |].
  set (txs1 := TxQueue _ _ _).
  change (to_base_addr (with_txs idx txs1 to) idx) with (to_base_addr to idx).
  change (txs_size txs1) with (txs_size (to_txs to idx)).
  fold txs. fold begin.
  unfold ktime_get_real, observe.
  match goal with
  | |- context [tx_loop cfg env fuel fuel mem begin ?e dev ?hq node begin ?now
                        [] 0 ?w2] =>
      destruct (tx_loop_returns fuel mem begin e dev hq node fuel begin now [] 0
                                w2 ds)
        as (ptr & skbs & tot & w3 & ds3 & -> & Hst3 & Ht3 & Hds3 & Hlen3);
        [simpl; rewrite Hp1; exact Hst | simpl; lia | exact Hds | lia |]
  end.
  simpl in Ht3.
  assert (Hflush : exists sent skbs4 w4,
             match skbs with
             | [] => Some (0, skbs, w3)
             | _ :: _ =>
                 full_batch_xmit cfg env fuel skbs dev (to_hw_queue to idx) w3
             end = Some (sent, skbs4, w4) /\ pool_wf (w_tx_pool w4)).
  { destruct skbs as [| p ps]; [exists 0, [], w3; split; [reflexivity | apply Hst3] |].
    destruct (full_batch_xmit_loop_returns dev (to_hw_queue to idx) fuel
                (p :: ps) 0 w3 (proj1 Hst3)) as (ret & skbs' & w' & Hr & Hwf' & _);
      [lia |].
    unfold full_batch_xmit. eauto 6. }
  destruct Hflush as (sent & skbs4 & w4 & -> & Hwf4).
  destruct (recycle_each_returns skbs4 w4 Hwf4) as (w5 & -> & _).
  destruct (count_left_returns mem begin (begin + txs_size txs) fuel
              ptr (Z.of_nat (length skbs4)) ds3 Hds3) as (disc & ->); [lia |].
  unfold add_stats. eauto.
Qed.

End Returns.

(** ** Lazy forwarding *)

Lemma gc_count_dev_in_log_nonneg (dev : net_device) (log : gc_log) :
  0 <= gc_count_dev_in_log dev log.
Proof. unfold gc_count_dev_in_log. lia. Qed.

Lemma forwards_nonneg (ts : list (net_device * Z)) (log : gc_log) :
  0 <= forwards ts log.
Proof.
  induction ts as [| [dev cnt] ts IH]; simpl; [lia |].
  pose proof (gc_count_dev_in_log_nonneg dev log). lia.
Qed.

Lemma forwarded_fields (num : Z) (log : gc_log) :
  log_dev (forwarded num log) = log_dev log /\
  log_num_devs (forwarded num log) = log_num_devs log /\
  log_to_kernel (forwarded num log) = log_to_kernel log.
Proof.
  unfold forwarded. destruct ((log_to_kernel log =? 0) && (0 <? num)); auto.
Qed.

Lemma gc_count_dev_in_log_forwarded (dev : net_device) (num : Z) (log : gc_log) :
  gc_count_dev_in_log dev (forwarded num log) = gc_count_dev_in_log dev log.
Proof.
  unfold gc_count_dev_in_log.
  destruct (forwarded_fields num log) as (-> & -> & _). reflexivity.
Qed.

Lemma forwarded_forwarded (n m : Z) (log : gc_log) :
  0 <= n -> 0 <= m ->
  forwarded m (forwarded n log) = forwarded (n + m) log.
Proof.
  intros Hn Hm. unfold forwarded.
  destruct (Z.eqb_spec (log_to_kernel log) 0) as [Hk | Hk]; simpl.
  - destruct (Z.ltb_spec 0 n); destruct (Z.ltb_spec 0 m);
      destruct (Z.ltb_spec 0 (n + m)); try lia; simpl; rewrite ?Hk; simpl.
    + destruct (Z.ltb_spec 0 m); [| lia].
      unfold with_xmit_todo, to_u64. simpl. f_equal.
      rewrite Zminus_mod_idemp_l. f_equal. lia.
    + destruct (Z.ltb_spec 0 m); [lia |].
      replace (n + m) with n by lia. reflexivity.
    + destruct (Z.ltb_spec 0 m); [| lia].
      replace (n + m) with m by lia. reflexivity.
    + destruct (Z.ltb_spec 0 m); [lia |]. reflexivity.
  - destruct (Z.eqb_spec (log_to_kernel log) 0); [contradiction | reflexivity].
Qed.

Lemma forwards_forwarded (ts : list (net_device * Z)) (num : Z) (log : gc_log) :
  forwards ts (forwarded num log) = forwards ts log.
Proof.
  induction ts as [| [dev cnt] ts IH]; simpl; [reflexivity |].
  rewrite gc_count_dev_in_log_forwarded, IH. reflexivity.
Qed.

(** Every target in use is referred to by exactly one of the distinct
    devices of [ts]: the forwards are as many as the targets in use. *)
Lemma matching_targets_one (ts : list (net_device * Z)) (d : net_device) :
  NoDup (map (fun t => dev_ifindex (fst t)) ts) ->
  (exists t, t ∈ ts /\ same_dev (fst t) d = true) ->
  length (filter (fun t => same_dev (fst t) d = true) ts) = 1%nat.
Proof.
  induction ts as [| t ts IH]; intros Hnd (t0 & Hin & Hsame).
  - apply elem_of_nil in Hin. contradiction.
  - simpl in Hnd. apply NoDup_cons in Hnd as [Hnotin Hnd].
    rewrite filter_cons.
    destruct (decide (same_dev (fst t) d = true)) as [Ht | Ht].
    + simpl. f_equal.
      destruct (filter (fun t => same_dev (fst t) d = true) ts) as [| t1 l] eqn:Hf;
        [reflexivity |].
      exfalso. apply Hnotin.
      assert (Hin1 : t1 ∈ filter (fun t => same_dev (fst t) d = true) ts)
        by (rewrite Hf; apply list_elem_of_here).
      apply list_elem_of_filter in Hin1 as [Hs1 Hin1].
      unfold same_dev in Ht, Hs1. apply Nat.eqb_eq in Ht, Hs1.
      rewrite Ht, <- Hs1.
      apply (list_elem_of_fmap_2 (fun t => dev_ifindex (fst t))). exact Hin1.
    + apply IH; [exact Hnd |].
      exists t0. split; [| exact Hsame].
      apply elem_of_cons in Hin as [-> | Hin]; [contradiction | exact Hin].
Qed.

Lemma forwards_forwards_on (ts : list (net_device * Z)) (log : gc_log) :
  forwards ts log = forwards_on ts (log_targets log).
Proof.
  induction ts as [| [dev cnt] ts IH]; simpl; [reflexivity |].
  rewrite IH. reflexivity.
Qed.

Lemma forwards_on_nil (ts : list (net_device * Z)) : forwards_on ts [] = 0.
Proof.
  induction ts as [| [dev cnt] ts IH]; simpl; [reflexivity | exact IH].
Qed.

Lemma forwards_on_cons (ts : list (net_device * Z)) (d : net_device)
    (l : list net_device) :
  forwards_on ts (d :: l) =
  Z.of_nat (length (filter (fun t => same_dev (fst t) d = true) ts))
  + forwards_on ts l.
Proof.
  induction ts as [| [dev cnt] ts IH]; [reflexivity |].
  simpl forwards_on. rewrite IH, !filter_cons. simpl fst.
  destruct (decide (same_dev dev d = true)); simpl length; lia.
Qed.

Lemma forwards_all_targets (ts : list (net_device * Z)) (log : gc_log) :
  NoDup (map (fun t => dev_ifindex (fst t)) ts) ->
  (forall d, d ∈ log_targets log ->
             exists t, t ∈ ts /\ same_dev (fst t) d = true) ->
  forwards ts log = Z.of_nat (length (log_targets log)).
Proof.
  intros Hnd. rewrite forwards_forwards_on.
  induction (log_targets log) as [| d l IH]; intros Hcover.
  - apply forwards_on_nil.
  - rewrite forwards_on_cons, IH.
    + rewrite matching_targets_one; [simpl length; lia | exact Hnd |].
      apply Hcover. apply list_elem_of_here.
    + intros d' Hd'. apply Hcover. apply list_elem_of_further. exact Hd'.
Qed.

Section Lazy.

Variable cfg : config.
Variable env : environment.

(** The loop on [j] touches the log only in its counter [xmit_todo]. *)
Lemma lazy_xmit_times_log (skb : nat) (dev : net_device) (txq cnt : Z)
    (num : nat) :
  forall (log : gc_log) (sent_dev sent : Z) (w : world),
    fst (fst (fst (lazy_xmit_times cfg env num skb dev txq cnt log
                                   sent_dev sent w)))
    = forwarded (Z.of_nat num) log.
Proof.
  induction num as [| num IH]; intros log sent_dev sent w.
  - simpl. unfold forwarded. rewrite andb_false_r. reflexivity.
  - change (lazy_xmit_times cfg env (S num) skb dev txq cnt log sent_dev sent w)
      with
      (let sent_dev := to_u64 (sent_dev + 1) in
       let xmit_more := negb (sent_dev =? cnt) in
       let '(to_clone, log) :=
         if negb (log_to_kernel log =? 0) then (true, log)
         else (log_xmit_todo log >? 1,
               with_xmit_todo (to_u64 (log_xmit_todo log - 1)) log) in
       let (nskb, w) :=
         if to_clone : bool then skb_clone env skb w
         else (Some skb, skb_get skb w) in
       match nskb with
       | Some q =>
           let (rc, w) := __pfq_xmit cfg env q dev txq xmit_more w in
           if rc =? NETDEV_TX_OK then
             lazy_xmit_times cfg env num skb dev txq cnt log sent_dev (sent + 1) w
           else
             lazy_xmit_times cfg env num skb dev txq cnt log sent_dev sent
                             (inc_abrt w)
       | None =>
           lazy_xmit_times cfg env num skb dev txq cnt log sent_dev sent
                           (inc_abrt w)
       end).
    cbv zeta.
    assert (Hlog : forall log1,
               (if negb (log_to_kernel log =? 0) then (true, log)
                else (log_xmit_todo log >? 1,
                      with_xmit_todo (to_u64 (log_xmit_todo log - 1)) log))
               = (fst (if negb (log_to_kernel log =? 0) then (true, log)
                       else (log_xmit_todo log >? 1,
                             with_xmit_todo (to_u64 (log_xmit_todo log - 1)) log)),
                  log1) ->
               forwarded (Z.of_nat num) log1 = forwarded (Z.of_nat (S num)) log).
    { intros log1 Heq.
      replace (Z.of_nat (S num)) with (1 + Z.of_nat num) by lia.
      rewrite <- forwarded_forwarded by lia. f_equal.
      unfold forwarded at 1. simpl (0 <? 1). rewrite andb_true_r.
      destruct (log_to_kernel log =? 0); simpl in Heq; congruence. }
    destruct (if negb (log_to_kernel log =? 0) then (true, log)
              else (log_xmit_todo log >? 1,
                    with_xmit_todo (to_u64 (log_xmit_todo log - 1)) log))
      as [to_clone log1] eqn:Hsel.
    specialize (Hlog log1 eq_refl).
    destruct (if to_clone then skb_clone env skb w else (Some skb, skb_get skb w))
      as [[q |] w1].
    + destruct (__pfq_xmit cfg env q dev txq
                  (negb (to_u64 (sent_dev + 1) =? cnt)) w1) as [rc w2].
      destruct (rc =? NETDEV_TX_OK); rewrite IH; exact Hlog.
    + rewrite IH. exact Hlog.
Qed.

(** The loop on [i] forwards every buffer in flight as often as its
    log refers to the device. *)
Lemma lazy_xmit_scan_logs (dev : net_device) (cnt : Z)
    (gc : list (nat * gc_log)) :
  forall (txq : option Z) (sent_dev sent : Z) (w : world),
    fst (fst (fst (lazy_xmit_scan cfg env gc dev cnt txq sent_dev sent w)))
    = map (fun e => (fst e, forwarded (gc_count_dev_in_log dev (snd e)) (snd e)))
          gc.
Proof.
  induction gc as [| [skb log] gc IH]; intros txq sent_dev sent w; [reflexivity |].
  change (lazy_xmit_scan cfg env ((skb, log) :: gc) dev cnt txq sent_dev sent w)
    with
    (let num := gc_count_dev_in_log dev log in
     if num =? 0 then
       let '(gc'', txq, sent, w) :=
         lazy_xmit_scan cfg env gc dev cnt txq sent_dev sent w in
       ((skb, log) :: gc'', txq, sent, w)
     else
       let (q, w) :=
         match txq with
         | Some q => (q, w)
         | None =>
             let q := pfq_pick_tx dev (skb_at w skb)
                                  (skb_queue_mapping (skb_at w skb)) in
             (q, emit (EvLock q) w)
         end in
       let '(log, sent_dev, sent, w) :=
         lazy_xmit_times cfg env (Z.to_nat num) skb dev q cnt log
                         sent_dev sent w in
       let '(gc'', txq, sent, w) :=
         lazy_xmit_scan cfg env gc dev cnt (Some q) sent_dev sent w in
       ((skb, log) :: gc'', txq, sent, w)).
  cbv zeta. simpl map.
  pose proof (gc_count_dev_in_log_nonneg dev log) as Hnn.
  destruct (Z.eqb_spec (gc_count_dev_in_log dev log) 0) as [Hz | Hnz].
  - specialize (IH txq sent_dev sent w).
    destruct (lazy_xmit_scan cfg env gc dev cnt txq sent_dev sent w)
      as [[[gc2 txq2] sent2] w2].
    simpl in *. rewrite IH, Hz. unfold forwarded. rewrite andb_false_r.
    reflexivity.
  - destruct (match txq with
              | Some q => (q, w)
              | None =>
                  (pfq_pick_tx dev (skb_at w skb)
                               (skb_queue_mapping (skb_at w skb)),
                   emit (EvLock (pfq_pick_tx dev (skb_at w skb)
                                   (skb_queue_mapping (skb_at w skb)))) w)
              end) as [q w1].
    pose proof (lazy_xmit_times_log skb dev q cnt
                  (Z.to_nat (gc_count_dev_in_log dev log)) log sent_dev sent w1)
      as Htimes.
    destruct (lazy_xmit_times cfg env (Z.to_nat (gc_count_dev_in_log dev log))
                skb dev q cnt log sent_dev sent w1)
      as [[[log1 sent_dev1] sent1] w2].
    simpl in Htimes. rewrite Z2Nat.id in Htimes by lia.
    specialize (IH (Some q) sent_dev1 sent1 w2).
    destruct (lazy_xmit_scan cfg env gc dev cnt (Some q) sent_dev1 sent1 w2)
      as [[[gc2 txq2] sent2] w3].
    simpl in *. rewrite IH, Htimes. reflexivity.
Qed.

(** The whole commit, read on the logs. *)
Lemma lazy_xmit_exec_loop_logs (ts : list (net_device * Z)) :
  forall (gc : list (nat * gc_log)) (sent : Z) (w : world),
    snd (fst (lazy_xmit_exec_loop cfg env ts gc sent w))
    = map (fun e => (fst e, forwarded (forwards ts (snd e)) (snd e))) gc.
Proof.
  induction ts as [| [dev cnt] ts IH]; intros gc sent w.
  - simpl. induction gc as [| [skb log] gc IHgc]; [reflexivity |].
    simpl. rewrite <- IHgc. unfold forwarded. rewrite andb_false_r. reflexivity.
  - change (lazy_xmit_exec_loop cfg env ((dev, cnt) :: ts) gc sent w)
      with
      (let '(gc, txq, sent, w) :=
         lazy_xmit_scan cfg env gc dev cnt None 0 sent w in
       let w := match txq with Some q => emit (EvUnlock q) w | None => w end in
       lazy_xmit_exec_loop cfg env ts gc sent w).
    pose proof (lazy_xmit_scan_logs dev cnt gc None 0 sent w) as Hscan.
    destruct (lazy_xmit_scan cfg env gc dev cnt None 0 sent w)
      as [[[gc1 txq1] sent1] w1].
    simpl in Hscan. rewrite IH, Hscan, map_map.
    apply map_ext. intros [skb log]. simpl. f_equal.
    rewrite forwards_forwarded, forwarded_forwarded;
      [reflexivity | apply gc_count_dev_in_log_nonneg | apply forwards_nonneg].
Qed.

(** C8. With a full log [pfq_lazy_xmit] returns 0 and leaves the log and
    the kernel state as they were; otherwise it returns 1, the queue
    mapping of the buffer is [hw_queue], the device is the new last
    target in use of the log and both [num_devs] and [xmit_todo] are one
    more. *)
Theorem pfq_lazy_xmit_spec (buff : nat) (log : gc_log) (dev : net_device)
    (hw_queue : Z) (w : world) :
  0 <= log_num_devs log ->
  0 <= log_xmit_todo log < 2 ^ 64 - 1 ->
  Z.of_nat (length (log_dev log)) = Q_GC_LOG_QUEUE_LEN cfg ->
  Q_GC_LOG_QUEUE_LEN cfg < 2 ^ 64 ->
  (Q_GC_LOG_QUEUE_LEN cfg <= log_num_devs log ->
   pfq_lazy_xmit cfg buff log dev hw_queue w = (0, log, w)) /\
  (log_num_devs log < Q_GC_LOG_QUEUE_LEN cfg ->
   exists log' w',
     pfq_lazy_xmit cfg buff log dev hw_queue w = (1, log', w') /\
     skb_queue_mapping (w_heap w' buff) = to_u16 hw_queue /\
     (forall q, q <> buff -> w_heap w' q = w_heap w q) /\
     w_trace w' = w_trace w /\
     log_targets log' = log_targets log ++ [dev] /\
     log_num_devs log' = log_num_devs log + 1 /\
     log_xmit_todo log' = log_xmit_todo log + 1 /\
     log_to_kernel log' = log_to_kernel log).
Proof.
  intros Hnum Htodo Hlen Hcap. unfold pfq_lazy_xmit. split.
  - intros Hfull.
    destruct (Z.geb_spec (log_num_devs log) (Q_GC_LOG_QUEUE_LEN cfg));
      [reflexivity | lia].
  - intros Hroom.
    destruct (Z.geb_spec (log_num_devs log) (Q_GC_LOG_QUEUE_LEN cfg)); [lia |].
    eexists. eexists. split; [reflexivity |].
    split; [simpl; rewrite heap_update_same; reflexivity |].
    split.
    { intros q Hq. simpl. unfold heap_update.
      destruct (Nat.eqb_spec q buff); [contradiction | reflexivity]. }
    split; [reflexivity |].
    unfold log_targets, to_u64. simpl.
    rewrite !Z.mod_small by lia.
    split; [| auto].
    replace (Z.to_nat (log_num_devs log + 1))
      with (S (Z.to_nat (log_num_devs log))) by lia.
    erewrite take_S_r.
    + rewrite take_insert_ge by lia. reflexivity.
    + apply list_lookup_insert_eq. lia.
Qed.

End Lazy.
(** ** Optional values *)

Lemma testbit_to_u64 (y n : Z) :
  0 <= n -> Z.testbit (to_u64 y) n = Z.testbit y n && (n <? 64).
Proof.
  intros Hn. unfold to_u64. destruct (Z.ltb_spec n 64).
  - rewrite Z.mod_pow2_bits_low by lia. rewrite andb_true_r. reflexivity.
  - rewrite Z.mod_pow2_bits_high by lia. rewrite andb_false_r. reflexivity.
Qed.

Lemma testbit_bit31 (n : Z) : 0 <= n -> Z.testbit (Z.shiftl 1 31) n = (n =? 31).
Proof.
  intros Hn. rewrite Z.shiftl_1_l, Z.pow2_bits_eqb by lia. apply Z.eqb_sym.
Qed.

Lemma testbit_JUST (x n : Z) :
  0 <= n -> Z.testbit (JUST x) n = (n =? 31) || (Z.testbit x n && (n <? 64)).
Proof.
  intros Hn. unfold JUST.
  rewrite Z.lor_spec, testbit_bit31, testbit_to_u64 by lia. reflexivity.
Qed.

Lemma testbit_FROM_JUST (y n : Z) :
  0 <= n ->
  Z.testbit (FROM_JUST y) n = negb (n =? 31) && (Z.testbit y n && (n <? 64)).
Proof.
  intros Hn. unfold FROM_JUST.
  rewrite Z.land_spec, !testbit_to_u64, Z.lnot_spec, testbit_bit31 by lia.
  destruct (n =? 31), (n <? 64), (Z.testbit y n); reflexivity.
Qed.

Lemma testbit_IS_JUST (y n : Z) :
  0 <= n -> Z.testbit (IS_JUST y) n = (n =? 31) && Z.testbit y n.
Proof.
  intros Hn. unfold IS_JUST.
  rewrite Z.land_spec, testbit_to_u64, testbit_bit31 by lia.
  destruct (Z.eqb_spec n 31) as [-> |]; [| reflexivity].
  simpl. apply andb_true_r.
Qed.

(** X5. [JUST] marks a 64-bit value with bit 31, so a value so marked is
    told from [NOTHING] by [IS_JUST], whatever the value; [FROM_JUST]
    gives the value back exactly when its own bit 31 is clear (as for
    every value below 2^31). *)
Theorem FROM_JUST_JUST (x : Z) :
  0 <= x < 2 ^ 64 ->
  IS_JUST (JUST x) <> 0 /\
  IS_JUST NOTHING = 0 /\
  JUST x <> NOTHING /\
  (FROM_JUST (JUST x) = x <-> Z.testbit x 31 = false).
Proof.
  intros Hx.
  assert (H31 : Z.testbit (JUST x) 31 = true).
  { rewrite testbit_JUST by lia. reflexivity. }
  split.
  { intros H0.
    assert (Hb : Z.testbit (IS_JUST (JUST x)) 31 = true).
    { rewrite testbit_IS_JUST, H31 by lia. reflexivity. }
    rewrite H0 in Hb. discriminate. }
  split; [reflexivity |].
  split.
  { intros H0. rewrite H0 in H31. discriminate. }
  split.
  - intros Heq. rewrite <- Heq at 1.
    rewrite testbit_FROM_JUST by lia. reflexivity.
  - intros Hclear. apply Z.bits_inj'. intros n Hn.
    rewrite testbit_FROM_JUST, testbit_JUST by lia.
    destruct (Z.eqb_spec n 31) as [-> | Hne]; [rewrite Hclear; reflexivity |].
    assert (Hlow : Z.testbit x n = Z.testbit x n && (n <? 64)).
    { rewrite <- testbit_to_u64 by lia.
      unfold to_u64. rewrite Z.mod_small by lia. reflexivity. }
    destruct (n <? 64), (Z.testbit x n); simpl in *; congruence.
Qed.

(** ** The serializer keeps its indices *)

Lemma serialize_shape (p : pfq_lang.predicate) :
  forall n : Z,
    (0 < length (fst (pfq_lang.serialize n p)))%nat /\
    snd (pfq_lang.serialize n p)
    = n + Z.of_nat (length (fst (pfq_lang.serialize n p))).
Proof.
  induction p as [name | name ptr size | comb l IHl r IHr]; intros n; simpl.
  - split; [lia | reflexivity].
  - split; [lia | reflexivity].
  - destruct (IHl (n + 1)) as [Hpos1 Hnext1].
    destruct (pfq_lang.serialize (n + 1) l) as [left n2]. simpl in *.
    destruct (IHl n2) as [Hpos2 Hnext2].
    destruct (pfq_lang.serialize n2 l) as [right n3]. simpl in *.
    rewrite !length_app. simpl. split; lia.
Qed.

(** X6. The descriptors [serialize] makes from the index [n] are linked
    within themselves: the list is not empty and the index returned is
    [n] plus its length; the descriptor of a predicate has no link
    (both are -1); the descriptor of a combinator at the index [k] has
    its left link on the index [k + 1], right behind it, and its right
    link on a later index of the same list. *)
Theorem serialize_links (p : pfq_lang.predicate) :
  forall (n : Z),
    let ds := fst (pfq_lang.serialize n p) in
    (0 < length ds)%nat /\
    snd (pfq_lang.serialize n p) = n + Z.of_nat (length ds) /\
    forall (i : nat) d,
      ds !! i = Some d ->
      let k := n + Z.of_nat i in
      (pfq_lang.fd_type d = pfq_lang.pfq_predicate_fun /\
       pfq_lang.fd_left d = -1 /\ pfq_lang.fd_right d = -1) \/
      (pfq_lang.fd_type d = pfq_lang.pfq_combinator_fun /\
       pfq_lang.fd_left d = k + 1 /\
       k + 1 < pfq_lang.fd_right d < n + Z.of_nat (length ds)).
Proof.
  induction p as [name | name ptr size | comb l IHl r IHr]; intros n; cbv zeta.
  - split; [simpl; lia |]. split; [reflexivity |].
    intros [| i] d Hd; [| discriminate].
    injection Hd as <-. left. auto.
  - split; [simpl; lia |]. split; [reflexivity |].
    intros [| i] d Hd; [| discriminate].
    injection Hd as <-. left. auto.
  - pose proof (serialize_shape (pfq_lang.Pred2 comb l r) n) as [Hpos Hnext].
    split; [exact Hpos |]. split; [exact Hnext |].
    clear Hpos Hnext. simpl.
    specialize (IHl (n + 1)) as Hleft.
    pose proof (serialize_shape l (n + 1)) as [Hpos1 Hnext1].
    destruct (pfq_lang.serialize (n + 1) l) as [left n2]. simpl in *.
    specialize (IHl n2) as Hright.
    pose proof (serialize_shape l n2) as [Hpos2 Hnext2].
    destruct (pfq_lang.serialize n2 l) as [right n3]. simpl in *.
    destruct Hleft as (_ & _ & Hleft). destruct Hright as (_ & _ & Hright).
    rewrite !length_app. simpl length.
    intros [| i] d Hd; simpl in Hd.
    + injection Hd as <-. right. simpl. split; [reflexivity |]. lia.
    + apply lookup_app_Some in Hd as [Hd | [Hge Hd]].
      * pose proof (lookup_lt_Some _ _ _ Hd) as Hlt.
        destruct (Hleft i d Hd) as [Hpred | (Ht & Hl & Hr)]; [left; exact Hpred |].
        right. split; [exact Ht |]. lia.
      * pose proof (lookup_lt_Some _ _ _ Hd) as Hlt.
        destruct (Hright _ d Hd) as [Hpred | (Ht & Hl & Hr)]; [left; exact Hpred |].
        right. split; [exact Ht |]. lia.
Qed.

(** X7. [relinkFunDescr(n, m, descr)] moves the links from [n] to [m]:
    on a descriptor that had no link to [m] the opposite call,
    [relinkFunDescr(m, n, ...)], restores the descriptor, and when [n]
    and [m] differ no link to [n] is left after the first call. *)
Theorem relinkFunDescr_back (n m : Z) (d : pfq_lang.FunDescr) :
  pfq_lang.fd_left d <> m -> pfq_lang.fd_right d <> m ->
  relinkFunDescr m n (relinkFunDescr n m d) = d /\
  (n <> m ->
   pfq_lang.fd_left (relinkFunDescr n m d) <> n /\
   pfq_lang.fd_right (relinkFunDescr n m d) <> n).
Proof.
  destruct d as [ty sym ptr size l r]. unfold relinkFunDescr. simpl.
  intros Hl Hr.
  destruct (Z.eqb_spec l n) as [-> | Hln];
    destruct (Z.eqb_spec r n) as [-> | Hrn];
    rewrite ?Z.eqb_refl;
    try (destruct (Z.eqb_spec l m); [contradiction |]);
    try (destruct (Z.eqb_spec r m); [contradiction |]);
    (split; [reflexivity | intros Hnm; split; congruence]).
Qed.

(** ** More of the device submission *)

(** X8. The queue [pfq_pick_tx] fixes is a queue of the device: for a
    device with at least one queue (and no more than 2^31) and any
    [hw_queue] of type [int], negative ones included, the index chosen
    lies in [0, real_num_tx_queues). *)
Theorem pfq_pick_tx_in_range (dev : net_device) (skb : sk_buff) (hw_queue : Z) :
  0 < real_num_tx_queues dev <= 2 ^ 31 ->
  - 2 ^ 31 <= hw_queue < 2 ^ 31 ->
  0 <= pfq_pick_tx dev skb hw_queue < real_num_tx_queues dev.
Proof.
  intros Hnum Hhw.
  assert (Hcap : forall h, - 2 ^ 31 <= h < 2 ^ 31 ->
            0 <= __pfq_dev_cap_txqueue dev h < real_num_tx_queues dev).
  { intros h Hh. unfold __pfq_dev_cap_txqueue, to_u32.
    rewrite Z.geb_leb.
    destruct (Z.leb_spec (real_num_tx_queues dev) (h mod 2 ^ 32)) as [| Hlt];
      [lia |].
    destruct (Z.neg_nonneg_cases h) as [Hneg | Hpos].
    - exfalso.
      assert (Hmod : h + 2 ^ 32 = h mod 2 ^ 32).
      { apply (Z.mod_unique h (2 ^ 32) (-1)); lia. }
      lia.
    - rewrite Z.mod_small in Hlt by lia. lia. }
  unfold pfq_pick_tx.
  destruct (negb (real_num_tx_queues dev =? 1) && (hw_queue =? -1)).
  - destruct (ndo_select_queue dev) as [select |].
    + apply Hcap. unfold to_u16.
      pose proof (Z.mod_pos_bound (select skb) (2 ^ 16)). lia.
    + apply Hcap. lia.
  - apply Hcap. exact Hhw.
Qed.

Section Xmit.

Variable cfg : config.
Variable env : environment.

(** X9. [__pfq_xmit] consumes the buffer one way or the other.  Either
    the driver was called and answered a complete code: that code is
    returned, nothing is released and no counter moves.  Or the value
    returned is [-ENETDOWN]: the buffer was released once with
    [kfree_skb], which takes one reference, [os_free] counts it, and the
    driver was not called or answered an incomplete code.  When the
    device is not up or its queue is stopped the driver is not called. *)
Theorem __pfq_xmit_consumes (p : nat) (dev : net_device) (txq : Z)
    (more : bool) (w w' : world) (ret : Z) :
  __pfq_xmit cfg env p dev txq more w = (ret, w') ->
  exists d,
    w_trace w' = w_trace w ++ d /\
    ((exists s, d = [EvStartXmit p s ret] /\
                dev_xmit_complete ret = true /\
                w_os_free w' = w_os_free w /\
                skb_users (w_heap w' p) = skb_users (w_heap w p)) \/
     (ret = - ENETDOWN /\
      released d = [p] /\
      w_os_free w' = w_os_free w + 1 /\
      skb_users (w_heap w' p) = skb_users (w_heap w p) - 1 /\
      (driver_calls d = [] \/
       exists s rc, driver_calls d = [(p, s, rc)] /\
                    dev_xmit_complete rc = false))) /\
    (env_iff_up env (w_tick w) = false \/
     env_xmit_stopped env (S (w_tick w)) = true ->
     ret = - ENETDOWN /\ driver_calls d = []).
Proof.
  unfold __pfq_xmit, observe. simpl.
  destruct (env_iff_up env (w_tick w)) eqn:Hup; simpl.
  - destruct (env_xmit_stopped env (S (w_tick w))) eqn:Hstop; simpl.
    + intros [= <- <-]. exists [EvKfree p]. simpl.
      split; [reflexivity |].
      split; [| auto].
      right. rewrite !heap_update_same. simpl. auto 6.
    + destruct (dev_xmit_complete (env_start_xmit env (S (S (w_tick w)))))
        eqn:Hc; intros [= <- <-]; simpl.
      * eexists. split; [reflexivity |].
        split; [| intros [|]; discriminate].
        left. eexists. split; [reflexivity |].
        rewrite !heap_update_same. simpl. auto.
      * eexists. split; [rewrite <- app_assoc; reflexivity |].
        split; [| intros [|]; discriminate].
        right. simpl. rewrite !heap_update_same. simpl.
        split; [reflexivity |]. split; [reflexivity |].
        split; [reflexivity |]. split; [reflexivity |].
        right. eauto.
  - intros [= <- <-]. exists [EvKfree p]. simpl.
    split; [reflexivity |].
    split; [| auto].
    right. rewrite !heap_update_same. simpl. auto 6.
Qed.

(** X10. [pfq_xmit] submits one buffer under one hold of the lock of the
    queue [pfq_pick_tx] fixes: the lock is taken, the driver is called
    at most once, for that buffer, with its queue mapping set to the
    queue and [xmit_more] as the caller asked (cleared without
    [PFQ_USE_XMIT_MORE]), and the lock is given back.  The value
    returned is a complete code of the driver, the buffer then being the
    driver's, or [-ENETDOWN], the buffer then being released. *)
Theorem pfq_xmit_spec (p : nat) (dev : net_device) (hw_queue : Z)
    (more : bool) (w w' : world) (ret : Z) :
  pfq_xmit cfg env p dev hw_queue more w = (ret, w') ->
  let txq := pfq_pick_tx dev (w_heap w p) hw_queue in
  exists body,
    w_trace w' = w_trace w ++ EvLock txq :: body ++ [EvUnlock txq] /\
    lock_events body = [] /\
    (forall q s rc,
        (q, s, rc) ∈ driver_calls body ->
        q = p /\
        skb_queue_mapping s = to_u16 txq /\
        skb_xmit_more s = (if PFQ_USE_XMIT_MORE cfg then more else false)) /\
    ((exists s, driver_calls body = [(p, s, ret)] /\
                dev_xmit_complete ret = true /\ released body = []) \/
     (ret = - ENETDOWN /\ released body = [p] /\
      (length (driver_calls body) <= 1)%nat /\
      transmitted body = [])).
Proof.
  unfold pfq_xmit. cbv zeta. unfold skb_at.
  set (txq := pfq_pick_tx dev (w_heap w p) hw_queue).
  destruct (__pfq_xmit cfg env p dev txq more
              (emit (EvLock txq) (skb_set_queue_mapping p txq w)))
    as [rc w1] eqn:Hx.
  intros [= <- <-].
  apply __pfq_xmit_events in Hx as (d & Ht & _ & Hev).
  exists d. simpl in Ht. simpl.
  split; [rewrite Ht, <- !app_assoc; reflexivity |].
  assert (Hok : forall s,
            s = skb_with_xmit_more
                  (if PFQ_USE_XMIT_MORE cfg then more else false)
                  (heap_update (skb_with_queue_mapping (to_u16 txq)) p
                               (w_heap w) p) ->
            skb_queue_mapping s = to_u16 txq /\
            skb_xmit_more s = (if PFQ_USE_XMIT_MORE cfg then more else false)).
  { intros s ->. rewrite heap_update_same. split; reflexivity. }
  destruct Hev as [s rc0 Hs Hc | s rc0 Hs Hc |]; simpl.
  - split; [reflexivity |].
    split.
    + intros q s' rc Hin. apply list_elem_of_singleton in Hin.
      injection Hin as -> -> ->. split; [reflexivity | apply Hok; exact Hs].
    + left. exists s. auto.
  - split; [reflexivity |].
    assert (Hne : (rc0 =? NETDEV_TX_OK) = false).
    { destruct (Z.eqb_spec rc0 NETDEV_TX_OK) as [-> |]; [discriminate | reflexivity]. }
    rewrite Hne.
    split.
    + intros q s' rc Hin. apply list_elem_of_singleton in Hin.
      injection Hin as -> -> ->. split; [reflexivity | apply Hok; exact Hs].
    + right. simpl. auto.
  - split; [reflexivity |].
    split.
    + intros q s' rc Hin. apply elem_of_nil in Hin. contradiction.
    + right. simpl. auto.
Qed.

(** *** Submission by mask *)

(** What the driver sees of a buffer submitted by mask: no hint, the
    queue of the batch, its data. *)
Lemma batch_xmit_mask_loop_events (dev : net_device) (txq : Z)
    (rest : list nat) :
  forall (n ret : Z) (w w' : world) (ret' : Z) (c : bool),
    batch_xmit_mask_loop cfg env dev txq rest ret w = (ret', c, w') ->
    exists d k,
      w_trace w' = w_trace w ++ d /\ quiet w w' /\ ret' = ret + k /\
      loop_events (fun _ p s => skb_xmit_more s = false /\
                                skb_queue_mapping s = to_u16 txq)
                  n rest k c d.
Proof.
  induction rest as [| p rest IH]; intros n ret w w' ret' c Hloop;
    simpl in Hloop.
  - injection Hloop as <- <- <-. exists [], 0.
    rewrite app_nil_r. repeat split; [apply quiet_refl | lia | constructor].
  - destruct (__pfq_xmit cfg env p dev txq false
                (skb_set_queue_mapping p txq w)) as [rc w1] eqn:Hx.
    apply __pfq_xmit_events in Hx as (d1 & Ht1 & Hq1 & Hev).
    assert (Hq : quiet w w1).
    { eapply quiet_trans; [apply quiet_skb_set_queue_mapping | exact Hq1]. }
    assert (Hev' : xmit_events p
                     (fun s => skb_xmit_more s = false /\
                               skb_queue_mapping s = to_u16 txq) rc d1).
    { eapply xmit_events_weaken; [| exact Hev].
      intros s ->. simpl. rewrite heap_update_same.
      split; [destruct (PFQ_USE_XMIT_MORE cfg) |]; reflexivity. }
    destruct (Z.eqb_spec rc NETDEV_TX_OK) as [-> | Hrc].
    + apply (IH (n + 1)) in Hloop as (d2 & k & Ht2 & Hq2 & -> & Hev2).
      exists (d1 ++ d2), (k + 1).
      split; [rewrite Ht2, Ht1; simpl; apply eq_sym, app_assoc |].
      split; [eapply quiet_trans; eassumption |].
      split; [lia |].
      econstructor; [exact Hev' | exact Hev2].
    + injection Hloop as <- <- <-. exists d1, 0.
      split; [exact Ht1 |]. split; [exact Hq |]. split; [lia |].
      econstructor; eassumption.
Qed.

Lemma pfq_batch_xmit_by_mask_events (skbs : list nat) (mask : Z)
    (dev : net_device) (hw_queue : Z) (w w' : world) (ret : Z) :
  pfq_batch_xmit_by_mask cfg env skbs mask dev hw_queue w = (ret, w') ->
  let txq := pfq_pick_tx dev (skb_at w (hd 0%nat skbs)) hw_queue in
  exists d c,
    w_trace w' =
      w_trace w ++
      EvLock txq :: d ++
      (if c : bool then [] else map EvKfree (drop (S (Z.to_nat ret)) skbs)) ++
      [EvUnlock txq] /\
    loop_events (fun _ p s => skb_xmit_more s = false /\
                              skb_queue_mapping s = to_u16 txq)
                0 (skbuff_bitmask mask 0 skbs) ret c d.
Proof.
  unfold pfq_batch_xmit_by_mask. cbv zeta. intros H.
  set (txq := pfq_pick_tx dev (skb_at w (hd 0%nat skbs)) hw_queue) in *.
  destruct (batch_xmit_mask_loop cfg env dev txq (skbuff_bitmask mask 0 skbs) 0
              (emit (EvLock txq) w)) as [[ret0 c] w1] eqn:Hloop.
  apply (batch_xmit_mask_loop_events _ _ _ 0) in Hloop
    as (d & k & Ht & Hq & -> & Hev).
  simpl in Ht. rewrite Z.add_0_l in H.
  pose proof (loop_events_count _ _ _ _ _ _ Hev) as [Hk _].
  exists d, c. destruct c.
  - injection H as <- <-. simpl. rewrite Ht, <- !app_assoc. simpl.
    split; [reflexivity | exact Hev].
  - injection H as <- <-.
    replace (Z.to_nat (k + 1)) with (S (Z.to_nat k)) by lia.
    destruct (free_each_spec (drop (S (Z.to_nat k)) skbs) w1) as [Htf Hqf].
    simpl. rewrite Htf, Ht, <- !app_assoc. simpl.
    split; [reflexivity | exact Hev].
Qed.

(** The buffers a mask selects are buffers of the batch, each at an
    index whose bit is set, and they keep the order of the batch. *)
Lemma skbuff_bitmask_lookup (mask : Z) (skbs : list nat) :
  forall (n : Z) (j : nat) (p : nat),
    0 <= n ->
    skbuff_bitmask mask n skbs !! j = Some p ->
    exists i : nat,
      skbs !! i = Some p /\ (j <= i)%nat /\
      Z.testbit (to_u64 mask) (n + Z.of_nat i) = true.
Proof.
  induction skbs as [| q skbs IH]; intros n j p Hn Hj; simpl in Hj;
    [discriminate |].
  destruct (Z.testbit (to_u64 mask) n) eqn:Hbit.
  - destruct j as [| j]; simpl in Hj.
    + injection Hj as <-. exists 0%nat. rewrite Z.add_0_r.
      split; [reflexivity |]. split; [lia | exact Hbit].
    + apply IH in Hj as (i & Hi & Hle & Hb); [| lia].
      exists (S i). split; [exact Hi |]. split; [lia |].
      rewrite <- Hb. f_equal. lia.
  - apply IH in Hj as (i & Hi & Hle & Hb); [| lia].
    exists (S i). split; [exact Hi |]. split; [lia |].
    rewrite <- Hb. f_equal. lia.
Qed.

Lemma skbuff_bitmask_none (skbs : list nat) :
  forall n : Z, skbuff_bitmask 0 n skbs = [].
Proof.
  induction skbs as [| q skbs IH]; intros n; simpl; [reflexivity |].
  change (to_u64 0) with 0. rewrite Z.testbit_0_l. apply IH.
Qed.

(** X11. [pfq_batch_xmit_by_mask] submits, under one hold of the queue
    lock, the buffers of the batch whose index has its bit set in the
    mask, in the order of the batch and never with the [xmit_more] hint;
    the value returned is the number of buffers the driver took with
    [NETDEV_TX_OK] before its first other answer, and these are the
    first selected ones.  When all selected buffers were taken nothing
    is released; with an empty mask the driver is not called and 0 is
    returned. *)
Theorem pfq_batch_xmit_by_mask_spec (skbs : list nat) (mask : Z)
    (dev : net_device) (hw_queue : Z) (w w' : world) (ret : Z) :
  pfq_batch_xmit_by_mask cfg env skbs mask dev hw_queue w = (ret, w') ->
  let selected := skbuff_bitmask mask 0 skbs in
  exists txq body,
    w_trace w' = w_trace w ++ EvLock txq :: body ++ [EvUnlock txq] /\
    lock_events body = [] /\
    0 <= ret <= Z.of_nat (length selected) /\
    transmitted body = take (Z.to_nat ret) selected /\
    (forall (j : nat) p s rc,
        driver_calls body !! j = Some (p, s, rc) ->
        selected !! j = Some p /\
        (exists i : nat,
            skbs !! i = Some p /\
            Z.testbit (to_u64 mask) (Z.of_nat i) = true) /\
        skb_xmit_more s = false /\
        (rc = NETDEV_TX_OK <-> Z.of_nat j < ret)) /\
    (ret = Z.of_nat (length selected) -> released body = []) /\
    (mask = 0 -> ret = 0 /\ body = []).
Proof.
  intros H. cbv zeta.
  apply pfq_batch_xmit_by_mask_events in H as (d & c & Ht & Hev).
  set (txq := pfq_pick_tx dev (skb_at w (hd 0%nat skbs)) hw_queue) in *.
  set (frees := if c then [] else map EvKfree (drop (S (Z.to_nat ret)) skbs)) in *.
  pose proof (loop_events_count _ _ _ _ _ _ Hev) as [Hret Hc].
  pose proof (loop_events_locks _ _ _ _ _ _ Hev) as Hlocks.
  pose proof (loop_events_calls _ _ _ _ _ _ Hev) as [Hlen Hcalls].
  pose proof (loop_events_released _ _ _ _ _ _ Hev) as Hrel.
  pose proof (loop_events_transmitted _ _ _ _ _ _ Hev) as Htr.
  assert (Hfrees : driver_calls frees = [] /\ lock_events frees = [] /\
                   transmitted frees = [] /\
                   released frees =
                     if c then [] else drop (S (Z.to_nat ret)) skbs).
  { subst frees. destruct c; [auto |].
    destruct (trace_of_kfrees (drop (S (Z.to_nat ret)) skbs))
      as (? & ? & ? & ? & _). auto. }
  destruct Hfrees as (Hfc & Hfl & Hft & Hfr).
  exists txq, (d ++ frees).
  split; [rewrite Ht, <- app_assoc; reflexivity |].
  split; [unfold lock_events in *; rewrite omap_app, Hlocks, Hfl; reflexivity |].
  split; [exact Hret |].
  split; [rewrite transmitted_app, Hft, app_nil_r; exact Htr |].
  rewrite driver_calls_app, Hfc, app_nil_r.
  split; [| split].
  - intros j p s rc Hj.
    apply Hcalls in Hj as (Hp & (Hmore & _) & Hrc).
    split; [exact Hp |].
    split; [| split; [exact Hmore | exact Hrc]].
    apply skbuff_bitmask_lookup in Hp as (i & Hi & _ & Hb); [| lia].
    exists i. rewrite Z.add_0_l in Hb. auto.
  - intros ->. rewrite Nat2Z.id in *. destruct c; [| lia].
    unfold released in *. rewrite omap_app, Hrel, Hfr. reflexivity.
  - intros ->. subst frees. rewrite skbuff_bitmask_none in Hev.
    inversion Hev; subst. auto.
Qed.

(** X12. After a failure [pfq_batch_xmit_by_mask] releases the buffers
    of the batch from the position [ret + 1] on, [ret] being the number
    of buffers sent: the positions are those of the batch, whether the
    mask selects them or not, and come after the release of the buffer
    that failed, if [__pfq_xmit] released it. *)
Theorem pfq_batch_xmit_by_mask_failure (skbs : list nat) (mask : Z)
    (dev : net_device) (hw_queue : Z) (w w' : world) (ret : Z) (d : list event) :
  pfq_batch_xmit_by_mask cfg env skbs mask dev hw_queue w = (ret, w') ->
  w_trace w' = w_trace w ++ d ->
  ret < Z.of_nat (length (skbuff_bitmask mask 0 skbs)) ->
  exists front,
    released d = front ++ drop (S (Z.to_nat ret)) skbs /\
    (front = [] \/
     front = take 1 (drop (Z.to_nat ret) (skbuff_bitmask mask 0 skbs))).
Proof.
  intros H Hd Hlt.
  apply pfq_batch_xmit_by_mask_events in H as (d1 & c & Ht & Hev).
  rewrite Ht in Hd. apply app_inv_head in Hd. subst d.
  pose proof (loop_events_count _ _ _ _ _ _ Hev) as [Hret Hc].
  pose proof (loop_events_released _ _ _ _ _ _ Hev) as Hrel.
  destruct c; [lia |].
  destruct (trace_of_kfrees (drop (S (Z.to_nat ret)) skbs))
    as (_ & _ & _ & Hfr & _).
  exists (released d1).
  split; [| exact Hrel].
  change (released (EvLock ?q :: ?l)) with (released l).
  unfold released in *. rewrite !omap_app, Hfr. simpl.
  rewrite app_nil_r. reflexivity.
Qed.

End Xmit.

(** ** The lock along the engine *)

Lemma lock_run_app (a b : list event) :
  forall held : option Z,
    lock_run held (a ++ b) =
      match lock_run held a with
      | Some held' => lock_run held' b
      | None => None
      end.
Proof.
  induction a as [| e a IH]; intros held; [reflexivity |].
  destruct e; simpl; try apply IH.
  - destruct held; [reflexivity | apply IH].
  - destruct held as [q |]; [| reflexivity].
    destruct (txq =? q); [apply IH | reflexivity].
  - destruct held; [apply IH | reflexivity].
Qed.

Lemma idle_events_spec (d : list event) :
  Forall (fun e => idle_event e = true) d ->
  (forall held, lock_run held d = Some held) /\
  transmitted d = [] /\ driver_calls d = [] /\ lock_events d = [].
Proof.
  induction 1 as [| e d He _ (Hrun & Htr & Hdc & Hl)]; [auto |].
  destruct e; try discriminate; simpl; auto.
Qed.

Lemma idle_kfrees (ps : list nat) :
  Forall (fun e => idle_event e = true) (map EvKfree ps).
Proof. induction ps; constructor; auto. Qed.

Lemma xmit_events_lock_run (p : nat) (ok : sk_buff -> Prop) (rc : Z)
    (d : list event) (q : Z) :
  xmit_events p ok rc d -> lock_run (Some q) d = Some (Some q).
Proof. intros H. destruct H; reflexivity. Qed.

Lemma loop_events_lock_run (ok : Z -> nat -> sk_buff -> Prop) (n : Z)
    (ps : list nat) (k : Z) (c : bool) (d : list event) (q : Z) :
  loop_events ok n ps k c d -> lock_run (Some q) d = Some (Some q).
Proof.
  intros H. induction H.
  - reflexivity.
  - rewrite lock_run_app, (xmit_events_lock_run _ _ _ _ q H). exact IHloop_events.
  - eapply xmit_events_lock_run; eassumption.
Qed.

(** A lock, a run of the loop, the buffers released, the unlock. *)
Lemma lock_run_hold (ok : Z -> nat -> sk_buff -> Prop) (n : Z)
    (ps : list nat) (k : Z) (c : bool) (d : list event) (q : Z)
    (frees : list nat) :
  loop_events ok n ps k c d ->
  lock_run None (EvLock q :: d ++ map EvKfree frees ++ [EvUnlock q]) = Some None.
Proof.
  intros H. simpl.
  rewrite lock_run_app, (loop_events_lock_run _ _ _ _ _ _ q H).
  rewrite lock_run_app.
  rewrite (proj1 (idle_events_spec _ (idle_kfrees frees))).
  simpl. rewrite Z.eqb_refl. reflexivity.
Qed.

Section Engine.

Variable cfg : config.
Variable env : environment.

Lemma pfq_batch_xmit_lock_run (skbs : list nat) (dev : net_device)
    (hw_queue : Z) (w w' : world) (ret : Z) :
  pfq_batch_xmit cfg env skbs dev hw_queue w = (ret, w') ->
  exists d, w_trace w' = w_trace w ++ d /\ lock_run None d = Some None.
Proof.
  intros H. apply pfq_batch_xmit_events in H as (d & c & Ht & _ & Hev).
  eexists. split; [exact Ht |].
  destruct c.
  - apply (lock_run_hold _ _ _ _ _ _ _ [] Hev).
  - eapply lock_run_hold; exact Hev.
Qed.

Lemma recycle_each_idle (ps : list nat) :
  forall w w' : world,
    recycle_each ps w = Some w' ->
    exists d,
      w_trace w' = w_trace w ++ d /\ Forall (fun e => idle_event e = true) d.
Proof.
  induction ps as [| p ps IH]; intros w w' H; simpl in H.
  - injection H as <-. exists []. rewrite app_nil_r. auto.
  - destruct (pfq_kfree_skb_pool p w) as [w1 |] eqn:Hk; [| discriminate].
    apply pfq_kfree_skb_pool_spec in Hk as [_ Ht1].
    apply IH in H as (d & Ht & Hidle).
    destruct Ht1 as [Ht1 | Ht1].
    + exists d. rewrite Ht, Ht1. auto.
    + exists (EvKfree p :: d). rewrite Ht, Ht1, <- app_assoc. auto.
Qed.

Lemma full_batch_xmit_loop_lock_run (fuel : nat) :
  forall (skbs : list nat) (dev : net_device) (hw_queue total : Z)
         (w w' : world) (ret : Z) (skbs' : list nat),
    full_batch_xmit_loop cfg env fuel skbs dev hw_queue total w
      = Some (ret, skbs', w') ->
    exists d, w_trace w' = w_trace w ++ d /\ lock_run None d = Some None.
Proof.
  induction fuel as [| fuel IH]; intros skbs dev hw_queue total w w' ret skbs' H;
    destruct skbs as [| p0 ps]; try discriminate.
  - injection H as <- <- <-. exists []. rewrite app_nil_r. auto.
  - injection H as <- <- <-. exists []. rewrite app_nil_r. auto.
  - rewrite full_batch_xmit_loop_step in H. cbv zeta in H.
    set (skbs := p0 :: ps) in *.
    destruct (giveup_tx_process env w) as [g w1] eqn:Hg.
    apply giveup_tx_process_facts in Hg as (_ & Ht1 & _).
    destruct g.
    + injection H as <- <- <-. exists [EvGiveup true]. auto.
    + destruct (skb_get_each_quiet skbs w1) as [Ht2 _].
      set (w2 := fold_left (fun w p => skb_get p w) skbs w1) in *.
      destruct (pfq_batch_xmit cfg env skbs dev hw_queue w2) as [sent w3] eqn:Hb.
      apply pfq_batch_xmit_lock_run in Hb as (db & Ht3 & Hrun3).
      destruct (sent =? 0).
      * apply IH in H as (d2 & Ht & Hrun).
        exists (EvGiveup false :: db ++ EvRelax :: d2).
        split.
        { rewrite Ht. simpl. rewrite Ht3, Ht2, Ht1.
          rewrite <- !app_assoc. reflexivity. }
        simpl. rewrite lock_run_app, Hrun3. exact Hrun.
      * destruct (recycle_each (take (Z.to_nat sent) skbs) w3) as [w4 |] eqn:Hr;
          [| discriminate].
        apply recycle_each_idle in Hr as (dr & Ht4 & Hidle).
        apply IH in H as (d2 & Ht & Hrun).
        exists (EvGiveup false :: db ++ dr ++ d2).
        split.
        { rewrite Ht, Ht4, Ht3, Ht2, Ht1.
          rewrite <- !app_assoc. reflexivity. }
        simpl. rewrite lock_run_app, Hrun3, lock_run_app.
        rewrite (proj1 (idle_events_spec _ Hidle)). exact Hrun.
Qed.

(** One flush of the batch: the lock is free before and after, and the
    count moves by the number of buffers the driver took. *)
Lemma full_batch_xmit_engine (fuel : nat) (skbs : list nat) (dev : net_device)
    (hw_queue : Z) (w w' : world) (sent : Z) (skbs' : list nat) :
  full_batch_xmit cfg env fuel skbs dev hw_queue w = Some (sent, skbs', w') ->
  exists d,
    w_trace w' = w_trace w ++ d /\
    lock_run None d = Some None /\
    (if sent >=? 0 then sent else Z.lnot sent)
    = Z.of_nat (length (transmitted d)).
Proof.
  unfold full_batch_xmit. intros H.
  pose proof H as H'.
  apply full_batch_xmit_loop_lock_run in H as (d & Ht & Hrun).
  apply (full_batch_xmit_loop_spec cfg env) in H'
    as (d' & Ht' & _ & _ & _ & _ & _ & Hres).
  rewrite Ht in Ht'. apply app_inv_head in Ht'. subst d'.
  exists d. split; [exact Ht |]. split; [exact Hrun |].
  rewrite Z.add_0_l in Hres.
  destruct Hres as [(-> & _) | (-> & _)].
  - destruct (Z.geb_spec (Z.of_nat (length (transmitted d))) 0); [reflexivity | lia].
  - assert (Hneg : Z.lnot (Z.of_nat (length (transmitted d))) < 0)
      by (unfold Z.lnot; lia).
    destruct (Z.geb_spec (Z.lnot (Z.of_nat (length (transmitted d)))) 0); [lia |].
    apply Z.lnot_involutive.
Qed.

Lemma tx_submit_engine (inner : nat) (skbs : list nat) (now last_ts : Z)
    (dev : net_device) (hw_queue tot_sent : Z) (w w' : world)
    (interrupted : bool) (skbs' : list nat) (tot_sent' : Z) :
  tx_submit cfg env inner skbs now last_ts dev hw_queue tot_sent w
    = Some (interrupted, skbs', tot_sent', w') ->
  exists d,
    w_trace w' = w_trace w ++ d /\
    lock_run None d = Some None /\
    tot_sent' = tot_sent + Z.of_nat (length (transmitted d)).
Proof.
  unfold tx_submit. intros H.
  destruct (transmission_required cfg skbs now last_ts).
  - destruct (full_batch_xmit cfg env inner skbs dev hw_queue w)
      as [[[sent skbs1] w1] |] eqn:Hf; [| discriminate].
    injection H as <- <- <- <-.
    apply full_batch_xmit_engine in Hf as (d & Ht & Hrun & Hsent).
    exists d. rewrite Hsent. auto.
  - injection H as <- <- <- <-. exists []. rewrite app_nil_r. simpl.
    split; [reflexivity |]. split; [reflexivity | lia].
Qed.

Lemma wait_until_idle (ts : Z) (fuel : nat) :
  forall (w w' : world) (now : Z),
    wait_until env fuel ts w = Some (now, w') ->
    exists d,
      w_trace w' = w_trace w ++ d /\ Forall (fun e => idle_event e = true) d.
Proof.
  induction fuel as [| fuel IH]; intros w w' now H; [discriminate |].
  rewrite wait_until_step in H.
  destruct (ktime_get_real env w) as [now1 w1] eqn:Hk.
  apply ktime_get_real_facts in Hk as [Ht1 _].
  destruct (giveup_tx_process env w1) as [g w2] eqn:Hg.
  apply (giveup_tx_process_facts env) in Hg as (_ & Ht2 & _).
  destruct g.
  - injection H as <- <-. exists [EvClock now1; EvGiveup true].
    split; [rewrite Ht2, Ht1, <- app_assoc; reflexivity | auto].
  - destruct (to_u64 now1 <? ts).
    + apply IH in H as (d & Ht & Hidle).
      exists (EvClock now1 :: EvGiveup false :: EvRelax :: d).
      split; [rewrite Ht; simpl; rewrite Ht2, Ht1, <- !app_assoc; reflexivity |].
      auto.
    + injection H as <- <-. exists [EvClock now1; EvGiveup false].
      split; [rewrite Ht2, Ht1, <- app_assoc; reflexivity | auto].
Qed.

Lemma tx_loop_engine (inner : nat) (mem : tx_memory) (begin end_ : Z)
    (dev : net_device) (hw_queue node : Z) (fuel : nat) :
  forall (ptr now : Z) (skbs : list nat) (tot_sent : Z) (w : world)
         (ptr' : Z) (skbs' : list nat) (tot_sent' : Z) (w' : world),
    tx_loop cfg env inner fuel mem begin end_ dev hw_queue node
            ptr now skbs tot_sent w = Some (ptr', skbs', tot_sent', w') ->
    exists d,
      w_trace w' = w_trace w ++ d /\
      lock_run None d = Some None /\
      tot_sent' = tot_sent + Z.of_nat (length (transmitted d)).
Proof.
  induction fuel as [| fuel IH];
    intros ptr now skbs tot_sent w ptr' skbs' tot_sent' w' H; [discriminate |].
  rewrite tx_loop_step in H.
  destruct (traverse_tx_queue cfg mem ptr begin end_).
  2: { injection H as <- <- <- <-. exists []. rewrite app_nil_r. simpl.
       split; [reflexivity |]. split; [reflexivity | lia]. }
  destruct (tx_submit cfg env inner skbs now (pkt_nsec (mem ptr)) dev
              hw_queue tot_sent w) as [[[[intr skbs1] tot1] w1] |] eqn:Hs;
    [| discriminate].
  apply tx_submit_engine in Hs as (d1 & Ht1 & Hrun1 & Htot1).
  destruct intr.
  { injection H as <- <- <- <-. exists d1. auto. }
  assert (Hwait : exists now2 w2 d2,
             (if pkt_nsec (mem ptr) >? to_u64 now
              then wait_until env inner (pkt_nsec (mem ptr)) w1
              else Some (now, w1)) = Some (now2, w2) /\
             w_trace w2 = w_trace w1 ++ d2 /\
             Forall (fun e => idle_event e = true) d2).
  { destruct (pkt_nsec (mem ptr) >? to_u64 now).
    - destruct (wait_until env inner (pkt_nsec (mem ptr)) w1)
        as [[now2 w2] |] eqn:Hw; [| discriminate].
      apply wait_until_idle in Hw as (d2 & Ht2 & Hidle). eauto 7.
    - exists now, w1, []. rewrite app_nil_r. auto. }
  destruct Hwait as (now2 & w2 & d2 & Hw & Ht2 & Hidle2).
  rewrite Hw in H.
  destruct (idle_events_spec _ Hidle2) as (Hrun2 & Htr2 & _).
  assert (Hd12 : lock_run None (d1 ++ d2) = Some None /\
                 tot1 = tot_sent + Z.of_nat (length (transmitted (d1 ++ d2)))).
  { rewrite lock_run_app, Hrun1, Hrun2, transmitted_app, Htr2, app_nil_r. auto. }
  destruct Hd12 as [Hrun12 Htot12].
  destruct (pfq_tx_alloc_skb env node w2) as [[[p |] w3] |] eqn:Ha;
    [| | discriminate].
  - pose proof (pfq_tx_alloc_skb_fill cfg env node w2 w3 p (mem ptr) ptr dev
                  hw_queue Ha) as (Ht3 & _).
    apply IH in H as (d3 & Ht & Hrun3 & Htot).
    exists ((d1 ++ d2) ++ d3).
    split; [rewrite Ht, Ht3, Ht2, Ht1, <- !app_assoc; reflexivity |].
    split; [rewrite lock_run_app, Hrun12; exact Hrun3 |].
    rewrite transmitted_app, length_app. lia.
  - apply (pfq_tx_alloc_skb_fail env) in Ha as [Ht3 _].
    injection H as <- <- <- <-. exists (d1 ++ d2).
    split; [rewrite Ht3, Ht2, Ht1, <- app_assoc; reflexivity | auto].
Qed.

Lemma swap_spin_idle (fuel : nat) (index : Z) :
  forall (w w' : world) (err : Z),
    swap_spin env fuel index w = Some (err, w') ->
    exists d,
      w_trace w' = w_trace w ++ d /\ Forall (fun e => idle_event e = true) d.
Proof.
  induction fuel as [| fuel IH]; intros w w' err H; [discriminate |].
  change (swap_spin env (S fuel) index w) with
    (let (prod, w) := observe (env_prod env) w in
     if negb (to_u64 index =? prod) then
       let w := pfq_relax w in
       let (g, w) := giveup_tx_process env w in
       if g then Some (- EINTR, w) else swap_spin env fuel index w
     else Some (0, w)) in H.
  destruct (observe (env_prod env) w) as [prod w1] eqn:Ho.
  assert (Ht1 : w_trace w1 = w_trace w).
  { unfold observe in Ho. injection Ho as _ <-. reflexivity. }
  destruct (negb (to_u64 index =? prod)).
  - cbv zeta in H.
    destruct (giveup_tx_process env (pfq_relax w1)) as [g w2] eqn:Hg.
    apply (giveup_tx_process_facts env) in Hg as (_ & Ht2 & _).
    simpl in Ht2. rewrite Ht1 in Ht2.
    destruct g.
    + injection H as <- <-. exists [EvRelax; EvGiveup true].
      split; [rewrite Ht2, <- app_assoc; reflexivity | auto].
    + apply IH in H as (d & Ht & Hidle).
      exists (EvRelax :: EvGiveup false :: d).
      split; [rewrite Ht, Ht2, <- !app_assoc; reflexivity | auto].
  - injection H as <- <-. exists []. rewrite app_nil_r. auto.
Qed.

Lemma swap_tx_queue_and_wait_idle (fuel : nat) (txs txs1 : pfq_tx_queue)
    (cpu err swap : Z) (w w1 : world) :
  swap_tx_queue_and_wait cfg env fuel txs cpu w = Some (err, swap, txs1, w1) ->
  exists d,
    w_trace w1 = w_trace w ++ d /\ Forall (fun e => idle_event e = true) d.
Proof.
  unfold swap_tx_queue_and_wait. intros H.
  destruct (negb (cpu =? Q_NO_KTHREAD cfg)).
  - destruct (swap_spin env fuel (to_int (to_u64 (txs_cons txs + 1))) w)
      as [[e w2] |] eqn:Hs; [| discriminate].
    injection H as <- <- <- <-. eapply swap_spin_idle; exact Hs.
  - injection H as <- <- <- <-. exists []. rewrite app_nil_r. auto.
Qed.

(** A whole drain: the lock is free before and after, and what the
    drain adds to the counter of sent packets is the number of buffers
    the driver took. *)
Lemma __pfq_queue_xmit_engine (fuel : nat) (idx : nat) (to : pfq_tx_opt)
    (mem : tx_memory) (dev : net_device) (cpu node : Z) (w : world)
    (ret : Z) (to' : pfq_tx_opt) (mem' : tx_memory) (w' : world) :
  __pfq_queue_xmit cfg env fuel idx to mem dev cpu node w
    = Some (ret, to', mem', w') ->
  exists d,
    w_trace w' = w_trace w ++ d /\
    lock_run None d = Some None /\
    to_stats_sent to' = to_stats_sent to + Z.of_nat (length (transmitted d)) /\
    (ret = to_int (Z.of_nat (length (transmitted d))) \/
     ret = - EINTR /\ transmitted d = []).
Proof.
  unfold __pfq_queue_xmit. intros H.
  destruct (swap_tx_queue_and_wait cfg env fuel (to_txs to idx) cpu w)
    as [[[[err swap] txs1] w1] |] eqn:Hswap; [| discriminate].
  pose proof Hswap as Hidle0.
  apply swap_tx_queue_and_wait_idle in Hidle0 as (d0 & Ht0 & Hidle0).
  destruct (idle_events_spec _ Hidle0) as (Hrun0 & Htr0 & _).
  destruct (Z.ltb_spec err 0) as [Hneg | _].
  { injection H as <- <- <- <-. exists d0. rewrite Htr0. simpl.
    split; [exact Ht0 |]. split; [apply Hrun0 |]. split; [lia |].
    right. split; [| reflexivity].
    unfold swap_tx_queue_and_wait in Hswap.
    destruct (negb (cpu =? Q_NO_KTHREAD cfg)).
    - destruct (swap_spin env fuel (to_int (to_u64 (txs_cons (to_txs to idx) + 1))) w)
        as [[e w2] |] eqn:Hs; [| discriminate].
      injection Hswap as <- <- <- <-.
      clear - Hs Hneg. revert w Hs.
      induction fuel as [| fuel IH]; intros w Hs; [discriminate |].
      simpl in Hs.
      destruct (negb (to_u64 (to_int (to_u64 (txs_cons (to_txs to idx) + 1)))
                      =? env_prod env (w_tick w))).
      + destruct (giveup_at env (S (w_tick w))).
        * injection Hs as <- _. reflexivity.
        * eapply IH. exact Hs.
      + injection Hs as <- _. lia.
    - injection Hswap as <- <- <- <-. lia. }
  set (begin := tx_half_begin (to_base_addr (with_txs idx txs1 to) idx) swap
                              (txs_size txs1)) in *.
  destruct (ktime_get_real env w1) as [now w2] eqn:Hk.
  apply ktime_get_real_facts in Hk as [Ht2 _].
  destruct (tx_loop cfg env fuel fuel mem begin (begin + txs_size txs1) dev
              (to_hw_queue to idx) node begin now [] 0 w2)
    as [[[[ptr skbs] tot] w3] |] eqn:Hloop; [| discriminate].
  apply tx_loop_engine in Hloop as (d3 & Ht3 & Hrun3 & Htot3).
  assert (Hflush : exists sent skbs4 w4 d4,
             match skbs with
             | [] => Some (0, skbs, w3)
             | _ :: _ => full_batch_xmit cfg env fuel skbs dev (to_hw_queue to idx) w3
             end = Some (sent, skbs4, w4) /\
             w_trace w4 = w_trace w3 ++ d4 /\
             lock_run None d4 = Some None /\
             (if sent >=? 0 then sent else Z.lnot sent)
             = Z.of_nat (length (transmitted d4))).
  { destruct skbs as [| p ps].
    - exists 0, [], w3, []. rewrite app_nil_r. auto.
    - destruct (full_batch_xmit cfg env fuel (p :: ps) dev (to_hw_queue to idx) w3)
        as [[[sent skbs4] w4] |] eqn:Hf; [| discriminate].
      apply full_batch_xmit_engine in Hf as (d4 & Ht4 & Hrun4 & Hsent4).
      exists sent, skbs4, w4, d4. auto. }
  destruct Hflush as (sent & skbs4 & w4 & d4 & Hf & Ht4 & Hrun4 & Hsent4).
  rewrite Hf in H.
  destruct (recycle_each skbs4 w4) as [w5 |] eqn:Hr; [| discriminate].
  apply recycle_each_idle in Hr as (d5 & Ht5 & Hidle5).
  destruct (idle_events_spec _ Hidle5) as (Hrun5 & Htr5 & _).
  destruct (count_left cfg fuel mem begin (begin + txs_size txs1) ptr
              (Z.of_nat (length skbs4))) as [disc |]; [| discriminate].
  unfold add_stats in H. injection H as <- <- <- <-. simpl.
  exists (d0 ++ EvClock now :: d3 ++ d4 ++ d5).
  split; [rewrite Ht5, Ht4, Ht3, Ht2, Ht0, <- !app_assoc; reflexivity |].
  split.
  { rewrite lock_run_app, Hrun0. simpl.
    rewrite lock_run_app, Hrun3, lock_run_app, Hrun4. apply Hrun5. }
  rewrite transmitted_app, Htr0. simpl.
  change (transmitted (EvClock now :: ?l)) with (transmitted l).
  rewrite !transmitted_app, Htr5, app_nil_r, length_app, Hsent4.
  split; [lia |]. left. f_equal. lia.
Qed.

End Engine.

(** ** More of the lazy forwarding *)

Lemma total_forwards_cons (t : net_device * Z) (ts : list (net_device * Z))
    (gc : list (nat * gc_log)) :
  total_forwards (t :: ts) gc = total_forwards [t] gc + total_forwards ts gc.
Proof.
  induction gc as [| [skb log] gc IH]; [reflexivity |].
  destruct t as [dev cnt]. simpl in *. lia.
Qed.

Lemma total_forwards_nil (gc : list (nat * gc_log)) : total_forwards [] gc = 0.
Proof. induction gc as [| [skb log] gc IH]; simpl; lia. Qed.

Lemma total_forwards_forwarded (ts : list (net_device * Z)) (f : gc_log -> Z)
    (gc : list (nat * gc_log)) :
  total_forwards ts (map (fun e => (fst e, forwarded (f (snd e)) (snd e))) gc)
  = total_forwards ts gc.
Proof.
  induction gc as [| [skb log] gc IH]; [reflexivity |].
  simpl. rewrite forwards_forwarded, IH. reflexivity.
Qed.

Section LazyMore.

Variable cfg : config.
Variable env : environment.

Lemma pfq_lazy_xmit_annotated (skb : nat) (log : gc_log) (dev : net_device)
    (hw_queue : Z) (w w' : world) (r : Z) (log' : gc_log) :
  log_wf cfg log ->
  Q_GC_LOG_QUEUE_LEN cfg < 2 ^ 64 ->
  pfq_lazy_xmit cfg skb log dev hw_queue w = (r, log', w') ->
  lazy_annotated cfg dev (skb, log) (skb, log') /\
  r = (if log_num_devs log <? Q_GC_LOG_QUEUE_LEN cfg then 1 else 0) /\
  w_trace w' = w_trace w.
Proof.
  intros (Hnum & Htodo & Hlen) Hcap. unfold pfq_lazy_xmit, lazy_annotated.
  simpl fst. simpl snd.
  destruct (Z.geb_spec (log_num_devs log) (Q_GC_LOG_QUEUE_LEN cfg));
    destruct (Z.ltb_spec (log_num_devs log) (Q_GC_LOG_QUEUE_LEN cfg));
    try lia; intros [= <- <- <-].
  - auto.
  - split; [| auto]. split; [reflexivity |].
    unfold log_targets, to_u64. simpl.
    rewrite !Z.mod_small by lia.
    split; [| rewrite length_insert; auto].
    replace (Z.to_nat (log_num_devs log + 1))
      with (S (Z.to_nat (log_num_devs log))) by lia.
    erewrite take_S_r.
    + rewrite take_insert_ge by lia. reflexivity.
    + apply list_lookup_insert_eq. lia.
Qed.

Lemma batch_lazy_xmit_loop_spec (dev : net_device) (hw_queue : Z)
    (queue : list (nat * gc_log)) :
  forall (n : Z) (w : world) (n' : Z) (queue' : list (nat * gc_log))
         (w' : world),
    Forall (fun e => log_wf cfg (snd e)) queue ->
    Q_GC_LOG_QUEUE_LEN cfg < 2 ^ 64 ->
    batch_lazy_xmit_loop cfg queue dev hw_queue n w = (n', queue', w') ->
    n' = n + Z.of_nat (length (filter (fun e => log_num_devs (snd e)
                                                < Q_GC_LOG_QUEUE_LEN cfg) queue)) /\
    Forall2 (lazy_annotated cfg dev) queue queue' /\
    w_trace w' = w_trace w.
Proof.
  induction queue as [| [skb log] queue IH]; intros n w n' queue' w' Hwf Hcap H.
  - injection H as <- <- <-. simpl. split; [lia | auto].
  - apply Forall_cons in Hwf as [Hwf0 Hwf].
    change (batch_lazy_xmit_loop cfg ((skb, log) :: queue) dev hw_queue n w)
      with
      (let '(r, log, w) := pfq_lazy_xmit cfg skb log dev hw_queue w in
       let '(n, queue'', w) :=
         batch_lazy_xmit_loop cfg queue dev hw_queue
                              (if negb (r =? 0) then n + 1 else n) w in
       (n, (skb, log) :: queue'', w)) in H.
    destruct (pfq_lazy_xmit cfg skb log dev hw_queue w) as [[r log1] w1] eqn:Hx.
    apply pfq_lazy_xmit_annotated in Hx as (Hann & -> & Ht1); [| exact Hwf0 | exact Hcap].
    destruct (batch_lazy_xmit_loop cfg queue dev hw_queue
                (if negb ((if log_num_devs log <? Q_GC_LOG_QUEUE_LEN cfg
                           then 1 else 0) =? 0) then n + 1 else n) w1)
      as [[n2 queue2] w2] eqn:Hrest.
    injection H as <- <- <-.
    apply IH in Hrest as (-> & Hall & Ht2); [| exact Hwf | exact Hcap].
    split; [| split; [constructor; assumption | congruence]].
    rewrite filter_cons. simpl snd.
    destruct (Z.ltb_spec (log_num_devs log) (Q_GC_LOG_QUEUE_LEN cfg));
      destruct (decide (log_num_devs log < Q_GC_LOG_QUEUE_LEN cfg));
      try lia; simpl; lia.
Qed.

(** X19. [pfq_batch_lazy_xmit] annotates every buffer of the queue whose
    log has room and counts them: the value returned is the number of
    logs with fewer than [Q_GC_LOG_QUEUE_LEN] targets, each of these
    logs gets the device as its new last target with [num_devs] and
    [xmit_todo] one more, a full log is left as it is, and nothing is
    submitted or released. *)
Theorem pfq_batch_lazy_xmit_spec (queue : list (nat * gc_log))
    (dev : net_device) (hw_queue : Z) (w w' : world) (n : Z)
    (queue' : list (nat * gc_log)) :
  Forall (fun e => log_wf cfg (snd e)) queue ->
  Q_GC_LOG_QUEUE_LEN cfg < 2 ^ 64 ->
  pfq_batch_lazy_xmit cfg queue dev hw_queue w = (n, queue', w') ->
  n = Z.of_nat (length (filter (fun e => log_num_devs (snd e)
                                          < Q_GC_LOG_QUEUE_LEN cfg) queue)) /\
  0 <= n <= Z.of_nat (length queue) /\
  Forall2 (lazy_annotated cfg dev) queue queue' /\
  w_trace w' = w_trace w.
Proof.
  intros Hwf Hcap H. unfold pfq_batch_lazy_xmit in H.
  apply batch_lazy_xmit_loop_spec in H as (-> & Hall & Ht); [| exact Hwf | exact Hcap].
  split; [lia |]. split; [| auto].
  pose proof (length_filter (fun e : nat * gc_log =>
                log_num_devs (snd e) < Q_GC_LOG_QUEUE_LEN cfg) queue).
  lia.
Qed.

Lemma batch_lazy_xmit_mask_loop_spec (mask : Z) (dev : net_device)
    (hw_queue : Z) (queue : list (nat * gc_log)) :
  forall (i n : Z) (w : world) (n' : Z) (queue' : list (nat * gc_log))
         (w' : world),
    Forall (fun e => log_wf cfg (snd e)) queue ->
    Q_GC_LOG_QUEUE_LEN cfg < 2 ^ 64 ->
    batch_lazy_xmit_mask_loop cfg mask i queue dev hw_queue n w
      = (n', queue', w') ->
    n <= n' <= n + Z.of_nat (length queue) /\
    w_trace w' = w_trace w /\
    length queue' = length queue /\
    forall (j : nat) e,
      queue !! j = Some e ->
      exists e',
        queue' !! j = Some e' /\
        if Z.testbit (to_u64 mask) (i + Z.of_nat j)
        then lazy_annotated cfg dev e e' else e' = e.
Proof.
  induction queue as [| [skb log] queue IH];
    intros i n w n' queue' w' Hwf Hcap H.
  - injection H as <- <- <-. simpl. split; [lia |].
    split; [reflexivity |]. split; [reflexivity |].
    intros j e Hj. discriminate.
  - apply Forall_cons in Hwf as [Hwf0 Hwf].
    change (batch_lazy_xmit_mask_loop cfg mask i ((skb, log) :: queue) dev
                                      hw_queue n w)
      with
      (if Z.testbit (to_u64 mask) i then
         let '(r, log, w) := pfq_lazy_xmit cfg skb log dev hw_queue w in
         let '(n, queue'', w) :=
           batch_lazy_xmit_mask_loop cfg mask (i + 1) queue dev hw_queue
                                     (if negb (r =? 0) then n + 1 else n) w in
         (n, (skb, log) :: queue'', w)
       else
         let '(n, queue'', w) :=
           batch_lazy_xmit_mask_loop cfg mask (i + 1) queue dev hw_queue n w in
         (n, (skb, log) :: queue'', w)) in H.
    destruct (Z.testbit (to_u64 mask) i) eqn:Hbit.
    + destruct (pfq_lazy_xmit cfg skb log dev hw_queue w) as [[r log1] w1] eqn:Hx.
      apply pfq_lazy_xmit_annotated in Hx as (Hann & -> & Ht1);
        [| exact Hwf0 | exact Hcap].
      destruct (batch_lazy_xmit_mask_loop cfg mask (i + 1) queue dev hw_queue
                  (if negb ((if log_num_devs log <? Q_GC_LOG_QUEUE_LEN cfg
                             then 1 else 0) =? 0) then n + 1 else n) w1)
        as [[n2 queue2] w2] eqn:Hrest.
      injection H as <- <- <-.
      apply IH in Hrest as (Hn & Ht2 & Hlen & Hlook); [| exact Hwf | exact Hcap].
      split.
      { simpl length.
        destruct (log_num_devs log <? Q_GC_LOG_QUEUE_LEN cfg); simpl in Hn; lia. }
      split; [congruence |]. split; [simpl; congruence |].
      intros [| j] e Hj; simpl in Hj.
      * injection Hj as <-. exists (skb, log1).
        split; [reflexivity |]. rewrite Z.add_0_r, Hbit. exact Hann.
      * destruct (Hlook j e Hj) as (e' & He' & Hrel).
        exists e'. split; [exact He' |].
        replace (i + Z.of_nat (S j)) with (i + 1 + Z.of_nat j) by lia.
        exact Hrel.
    + destruct (batch_lazy_xmit_mask_loop cfg mask (i + 1) queue dev hw_queue n w)
        as [[n2 queue2] w2] eqn:Hrest.
      injection H as <- <- <-.
      apply IH in Hrest as (Hn & Ht2 & Hlen & Hlook); [| exact Hwf | exact Hcap].
      split; [simpl length; lia |].
      split; [exact Ht2 |]. split; [simpl; congruence |].
      intros [| j] e Hj; simpl in Hj.
      * injection Hj as <-. exists (skb, log).
        split; [reflexivity |]. rewrite Z.add_0_r, Hbit. reflexivity.
      * destruct (Hlook j e Hj) as (e' & He' & Hrel).
        exists e'. split; [exact He' |].
        replace (i + Z.of_nat (S j)) with (i + 1 + Z.of_nat j) by lia.
        exact Hrel.
Qed.

Lemma batch_lazy_xmit_mask_loop_all (mask : Z) (dev : net_device)
    (hw_queue : Z) (queue : list (nat * gc_log)) :
  forall (i n : Z) (w : world),
    (forall j : nat, (j < length queue)%nat ->
                     Z.testbit (to_u64 mask) (i + Z.of_nat j) = true) ->
    batch_lazy_xmit_mask_loop cfg mask i queue dev hw_queue n w
    = batch_lazy_xmit_loop cfg queue dev hw_queue n w.
Proof.
  induction queue as [| [skb log] queue IH]; intros i n w Hall; [reflexivity |].
  simpl. pose proof (Hall 0%nat ltac:(simpl; lia)) as H0.
  rewrite Z.add_0_r in H0. rewrite H0.
  destruct (pfq_lazy_xmit cfg skb log dev hw_queue w) as [[r log1] w1].
  rewrite IH; [reflexivity |].
  intros j Hj. replace (i + 1 + Z.of_nat j) with (i + Z.of_nat (S j)) by lia.
  apply Hall. simpl. lia.
Qed.

(** X20. [pfq_batch_lazy_xmit_by_mask] annotates only the buffers whose
    index has its bit set in the mask: a buffer whose bit is clear keeps
    its log, a buffer whose bit is set is annotated as [pfq_lazy_xmit]
    does, the value returned is at most the length of the queue, and
    with the bits of all indices of the queue set the call does what
    [pfq_batch_lazy_xmit] does. *)
Theorem pfq_batch_lazy_xmit_by_mask_spec (queue : list (nat * gc_log))
    (mask : Z) (dev : net_device) (hw_queue : Z) (w w' : world) (n : Z)
    (queue' : list (nat * gc_log)) :
  Forall (fun e => log_wf cfg (snd e)) queue ->
  Q_GC_LOG_QUEUE_LEN cfg < 2 ^ 64 ->
  pfq_batch_lazy_xmit_by_mask cfg queue mask dev hw_queue w = (n, queue', w') ->
  0 <= n <= Z.of_nat (length queue) /\
  length queue' = length queue /\
  w_trace w' = w_trace w /\
  (forall (j : nat) e,
      queue !! j = Some e ->
      exists e',
        queue' !! j = Some e' /\
        if Z.testbit (to_u64 mask) (Z.of_nat j)
        then lazy_annotated cfg dev e e' else e' = e) /\
  ((forall j : nat, (j < length queue)%nat ->
                    Z.testbit (to_u64 mask) (Z.of_nat j) = true) ->
   pfq_batch_lazy_xmit cfg queue dev hw_queue w = (n, queue', w')).
Proof.
  intros Hwf Hcap H. unfold pfq_batch_lazy_xmit_by_mask in H.
  pose proof H as H'.
  apply batch_lazy_xmit_mask_loop_spec in H as (Hn & Ht & Hlen & Hlook);
    [| exact Hwf | exact Hcap].
  split; [lia |]. split; [exact Hlen |]. split; [exact Ht |].
  split; [exact Hlook |].
  intros Hall. unfold pfq_batch_lazy_xmit.
  rewrite <- H'. symmetry. apply batch_lazy_xmit_mask_loop_all. exact Hall.
Qed.

(** *** From the annotation to the commit *)

Lemma lazy_annotated_holds (dev : net_device) (ds : list net_device)
    (e e' : nat * gc_log) :
  Z.of_nat (length ds) < Q_GC_LOG_QUEUE_LEN cfg ->
  log_holds (Q_GC_LOG_QUEUE_LEN cfg) ds (snd e) ->
  lazy_annotated cfg dev e e' ->
  fst e' = fst e /\ log_holds (Q_GC_LOG_QUEUE_LEN cfg) (ds ++ [dev]) (snd e').
Proof.
  intros Hroom (Ht & Hn & Hx & Hk & Hlen) [Hfst Hann].
  split; [exact Hfst |].
  destruct (Z.ltb_spec (log_num_devs (snd e)) (Q_GC_LOG_QUEUE_LEN cfg)); [| lia].
  destruct Hann as (Ht' & Hn' & Hx' & Hk' & Hlen').
  unfold log_holds. rewrite length_app. simpl length.
  rewrite Ht', Ht, Hn', Hx', Hk', Hlen'.
  repeat split; lia.
Qed.

Lemma pfq_batch_lazy_xmit_each_holds (hw_queue : Z) (devs : list net_device) :
  forall (ds : list net_device) (queue : list (nat * gc_log)) (w : world)
         (queue1 : list (nat * gc_log)) (w1 : world),
    Z.of_nat (length ds + length devs) <= Q_GC_LOG_QUEUE_LEN cfg ->
    Q_GC_LOG_QUEUE_LEN cfg < 2 ^ 64 ->
    Forall (fun e => log_holds (Q_GC_LOG_QUEUE_LEN cfg) ds (snd e)) queue ->
    pfq_batch_lazy_xmit_each cfg queue devs hw_queue w = (queue1, w1) ->
    map fst queue1 = map fst queue /\
    w_trace w1 = w_trace w /\
    Forall (fun e => log_holds (Q_GC_LOG_QUEUE_LEN cfg) (ds ++ devs) (snd e))
           queue1.
Proof.
  induction devs as [| dev devs IH]; intros ds queue w queue1 w1 Hlen Hcap Hall H.
  - injection H as <- <-. rewrite app_nil_r. auto.
  - simpl in H.
    destruct (pfq_batch_lazy_xmit cfg queue dev hw_queue w)
      as [[n queue2] w2] eqn:Hb.
    unfold pfq_batch_lazy_xmit in Hb. simpl length in Hlen.
    apply batch_lazy_xmit_loop_spec in Hb as (_ & Hann & Ht2); [| | exact Hcap].
    2: { eapply Forall_impl; [exact Hall |].
         intros e (Ht & Hn & Hx & Hk & Hl). unfold log_wf. lia. }
    assert (Hall2 : map fst queue2 = map fst queue /\
                    Forall (fun e => log_holds (Q_GC_LOG_QUEUE_LEN cfg)
                                               (ds ++ [dev]) (snd e)) queue2).
    { clear - Hann Hall Hlen.
      induction Hann as [| e e' queue queue2 Hee' _ IHq]; [auto |].
      apply Forall_cons in Hall as [He Hall].
      destruct (IHq Hall) as [Hm Hf].
      apply lazy_annotated_holds with (ds := ds) in Hee' as [Hfst Hh];
        [| lia | exact He].
      simpl. split; [congruence | constructor; assumption]. }
    destruct Hall2 as [Hm2 Hall2].
    apply IH with (ds := ds ++ [dev]) in H as (Hm & Ht & Hf);
      [| rewrite length_app; simpl length; lia | exact Hcap | exact Hall2].
    rewrite <- app_assoc in Hf.
    split; [congruence |]. split; [congruence | exact Hf].
Qed.

(** X21. From the annotation to the commit: buffers that do not go to
    the kernel and have nothing logged are annotated, by one call of
    [pfq_batch_lazy_xmit] for each device of a list no longer than
    [Q_GC_LOG_QUEUE_LEN]; every log then holds exactly these devices, in
    the order of the calls, with [xmit_todo] their number.  A commit
    ([pfq_lazy_xmit_exec]) over distinct targets that cover the devices
    brings [xmit_todo] of every buffer back to 0 and leaves the targets
    logged. *)
Theorem pfq_lazy_xmit_annotate_commit (queue : list (nat * gc_log))
    (devs : list net_device) (ts : list (net_device * Z)) (hw_queue : Z)
    (w : world) (queue1 : list (nat * gc_log)) (w1 : world) :
  Z.of_nat (length devs) <= Q_GC_LOG_QUEUE_LEN cfg < 2 ^ 64 ->
  Forall (fun e => log_holds (Q_GC_LOG_QUEUE_LEN cfg) [] (snd e)) queue ->
  NoDup (map (fun t => dev_ifindex (fst t)) ts) ->
  (forall d, d ∈ devs -> exists t, t ∈ ts /\ same_dev (fst t) d = true) ->
  pfq_batch_lazy_xmit_each cfg queue devs hw_queue w = (queue1, w1) ->
  Forall (fun e => log_holds (Q_GC_LOG_QUEUE_LEN cfg) devs (snd e)) queue1 /\
  let gc' := snd (fst (pfq_lazy_xmit_exec cfg env queue1 ts w1)) in
  map fst gc' = map fst queue /\
  Forall (fun e => log_xmit_todo (snd e) = 0 /\ log_targets (snd e) = devs) gc'.
Proof.
  intros [Hlen Hcap] Hfresh Hnd Hcover H.
  apply pfq_batch_lazy_xmit_each_holds with (ds := []) in H
    as (Hm & _ & Hall); [| simpl; lia | exact Hcap | exact Hfresh].
  simpl in Hall. split; [exact Hall |]. cbv zeta.
  unfold pfq_lazy_xmit_exec. rewrite lazy_xmit_exec_loop_logs.
  split.
  { rewrite map_map. simpl. exact Hm. }
  apply Forall_forall. intros e' Hin.
  apply list_elem_of_fmap in Hin as (e & -> & Hin).
  rewrite Forall_forall in Hall. specialize (Hall e Hin).
  destruct Hall as (Ht & Hn & Hx & Hk & Hl). simpl.
  destruct (forwarded_fields (forwards ts (snd e)) (snd e)) as (Hd & Hnum & _).
  split.
  - assert (Hfw : forwards ts (snd e) = Z.of_nat (length devs)).
    { rewrite forwards_all_targets; [rewrite Ht; reflexivity | exact Hnd |].
      rewrite Ht. exact Hcover. }
    unfold forwarded. rewrite Hk, Hfw. simpl.
    destruct (Z.ltb_spec 0 (Z.of_nat (length devs))).
    + simpl. rewrite Hx, Z.sub_diag. reflexivity.
    + rewrite Hx. lia.
  - unfold log_targets in *. rewrite Hd, Hnum. exact Ht.
Qed.

(** *** The commit: counters and lock *)

Lemma __pfq_xmit_abrt (p : nat) (dev : net_device) (txq : Z) (more : bool)
    (w : world) :
  w_abrt (snd (__pfq_xmit cfg env p dev txq more w)) = w_abrt w.
Proof.
  unfold __pfq_xmit, observe. simpl.
  destruct (env_iff_up env (w_tick w)); [| reflexivity]. simpl.
  destruct (env_xmit_stopped env (S (w_tick w))); [reflexivity |]. simpl.
  destruct (dev_xmit_complete (env_start_xmit env (S (S (w_tick w)))));
    reflexivity.
Qed.

Lemma lazy_xmit_times_step (num : nat) (skb : nat) (dev : net_device)
    (txq cnt : Z) (log : gc_log) (sent_dev sent : Z) (w : world) :
  lazy_xmit_times cfg env (S num) skb dev txq cnt log sent_dev sent w =
    let sent_dev := to_u64 (sent_dev + 1) in
    let xmit_more := negb (sent_dev =? cnt) in
    let '(to_clone, log) :=
      if negb (log_to_kernel log =? 0) then (true, log)
      else (log_xmit_todo log >? 1,
            with_xmit_todo (to_u64 (log_xmit_todo log - 1)) log) in
    let (nskb, w) :=
      if to_clone : bool then skb_clone env skb w
      else (Some skb, skb_get skb w) in
    match nskb with
    | Some q =>
        let (rc, w) := __pfq_xmit cfg env q dev txq xmit_more w in
        if rc =? NETDEV_TX_OK then
          lazy_xmit_times cfg env num skb dev txq cnt log sent_dev (sent + 1) w
        else
          lazy_xmit_times cfg env num skb dev txq cnt log sent_dev sent
                          (inc_abrt w)
    | None =>
        lazy_xmit_times cfg env num skb dev txq cnt log sent_dev sent
                        (inc_abrt w)
    end.
Proof. reflexivity. Qed.

(** The loop on [j]: every pass ends in a buffer the driver took or in
    an abort, and the lock stays held. *)
Lemma lazy_xmit_times_engine (skb : nat) (dev : net_device) (txq cnt : Z)
    (num : nat) :
  forall (log : gc_log) (sent_dev sent : Z) (w : world)
         (log' : gc_log) (sent_dev' sent' : Z) (w' : world),
    lazy_xmit_times cfg env num skb dev txq cnt log sent_dev sent w
      = (log', sent_dev', sent', w') ->
    exists d,
      w_trace w' = w_trace w ++ d /\
      lock_run (Some txq) d = Some (Some txq) /\
      sent' = sent + Z.of_nat (length (transmitted d)) /\
      sent' + w_abrt w' = sent + w_abrt w + Z.of_nat num /\
      w_abrt w <= w_abrt w'.
Proof.
  induction num as [| num IH];
    intros log sent_dev sent w log' sent_dev' sent' w' H.
  - injection H as <- <- <- <-. exists []. rewrite app_nil_r. simpl.
    split; [reflexivity |]. split; [reflexivity |]. lia.
  - rewrite lazy_xmit_times_step in H. cbv zeta in H.
    destruct (if negb (log_to_kernel log =? 0) then (true, log)
              else (log_xmit_todo log >? 1,
                    with_xmit_todo (to_u64 (log_xmit_todo log - 1)) log))
      as [to_clone log1].
    assert (Hget : exists nskb w1,
               (if to_clone then skb_clone env skb w
                else (Some skb, skb_get skb w)) = (nskb, w1) /\
               w_trace w1 = w_trace w /\ w_abrt w1 = w_abrt w).
    { destruct to_clone.
      - unfold skb_clone, observe.
        destruct (env_clone_ok env (w_tick w)); eauto.
      - eauto. }
    destruct Hget as (nskb & w1 & Hget & Ht1 & Ha1). rewrite Hget in H.
    destruct nskb as [q |].
    + pose proof (__pfq_xmit_abrt q dev txq
                    (negb (to_u64 (sent_dev + 1) =? cnt)) w1) as Ha2.
      destruct (__pfq_xmit cfg env q dev txq
                  (negb (to_u64 (sent_dev + 1) =? cnt)) w1) as [rc w2] eqn:Hx.
      simpl in Ha2.
      apply __pfq_xmit_events in Hx as (d1 & Ht2 & _ & Hev).
      pose proof (xmit_events_lock_run _ _ _ _ txq Hev) as Hrun1.
      destruct (Z.eqb_spec rc NETDEV_TX_OK) as [-> | Hrc].
      * apply xmit_events_sent in Hev as (s & _ & ->).
        apply IH in H as (d & Ht & Hrun & -> & Hsum).
        exists (EvStartXmit q s NETDEV_TX_OK :: d).
        split; [rewrite Ht, Ht2, Ht1, <- app_assoc; reflexivity |].
        split; [exact Hrun |].
        split; [simpl length; lia | lia].
      * eapply xmit_events_failed in Hev as (Htr & _); [| exact Hrc].
        apply IH in H as (d & Ht & Hrun & -> & Hsum).
        exists (d1 ++ d).
        split; [rewrite Ht; simpl; rewrite Ht2, Ht1, <- app_assoc; reflexivity |].
        split; [rewrite lock_run_app, Hrun1; exact Hrun |].
        rewrite transmitted_app, Htr. simpl in *.
        split; [reflexivity | lia].
    + apply IH in H as (d & Ht & Hrun & -> & Hsum).
      exists d. simpl in *.
      split; [rewrite Ht, Ht1; reflexivity |].
      split; [exact Hrun |]. split; [reflexivity | lia].
Qed.

Lemma lazy_xmit_scan_step (skb : nat) (log : gc_log)
    (gc : list (nat * gc_log)) (dev : net_device) (cnt : Z) (txq : option Z)
    (sent_dev sent : Z) (w : world) :
  lazy_xmit_scan cfg env ((skb, log) :: gc) dev cnt txq sent_dev sent w =
    let num := gc_count_dev_in_log dev log in
    if num =? 0 then
      let '(gc'', txq, sent, w) :=
        lazy_xmit_scan cfg env gc dev cnt txq sent_dev sent w in
      ((skb, log) :: gc'', txq, sent, w)
    else
      let (q, w) :=
        match txq with
        | Some q => (q, w)
        | None =>
            let q := pfq_pick_tx dev (skb_at w skb)
                                 (skb_queue_mapping (skb_at w skb)) in
            (q, emit (EvLock q) w)
        end in
      let '(log, sent_dev, sent, w) :=
        lazy_xmit_times cfg env (Z.to_nat num) skb dev q cnt log
                        sent_dev sent w in
      let '(gc'', txq, sent, w) :=
        lazy_xmit_scan cfg env gc dev cnt (Some q) sent_dev sent w in
      ((skb, log) :: gc'', txq, sent, w).
Proof. reflexivity. Qed.

(** The loop on [i]: the lock is taken at the first buffer to forward
    and kept to the end. *)
Lemma lazy_xmit_scan_engine (dev : net_device) (cnt : Z)
    (gc : list (nat * gc_log)) :
  forall (txq : option Z) (sent_dev sent : Z) (w : world)
         (gc' : list (nat * gc_log)) (txq' : option Z) (sent' : Z)
         (w' : world),
    lazy_xmit_scan cfg env gc dev cnt txq sent_dev sent w
      = (gc', txq', sent', w') ->
    exists d,
      w_trace w' = w_trace w ++ d /\
      lock_run txq d = Some txq' /\
      sent' = sent + Z.of_nat (length (transmitted d)) /\
      sent' + w_abrt w' = sent + w_abrt w + total_forwards [(dev, cnt)] gc /\
      w_abrt w <= w_abrt w'.
Proof.
  induction gc as [| [skb log] gc IH];
    intros txq sent_dev sent w gc' txq' sent' w' H.
  - injection H as <- <- <- <-. exists []. rewrite app_nil_r. simpl.
    split; [reflexivity |]. split; [reflexivity |]. lia.
  - rewrite lazy_xmit_scan_step in H. cbv zeta in H.
    pose proof (gc_count_dev_in_log_nonneg dev log) as Hnn.
    simpl total_forwards.
    destruct (Z.eqb_spec (gc_count_dev_in_log dev log) 0) as [Hz | Hnz].
    + destruct (lazy_xmit_scan cfg env gc dev cnt txq sent_dev sent w)
        as [[[gc2 txq2] sent2] w2] eqn:Hrest.
      injection H as <- <- <- <-.
      apply IH in Hrest as (d & Ht & Hrun & -> & Hsum).
      exists d. split; [exact Ht |]. split; [exact Hrun |].
      split; [reflexivity | lia].
    + assert (Hlock : exists q w1 d0,
                 match txq with
                 | Some q => (q, w)
                 | None =>
                     (pfq_pick_tx dev (skb_at w skb)
                                  (skb_queue_mapping (skb_at w skb)),
                      emit (EvLock (pfq_pick_tx dev (skb_at w skb)
                                      (skb_queue_mapping (skb_at w skb)))) w)
                 end = (q, w1) /\
                 w_trace w1 = w_trace w ++ d0 /\
                 lock_run txq d0 = Some (Some q) /\
                 transmitted d0 = [] /\ w_abrt w1 = w_abrt w).
      { destruct txq as [q |].
        - exists q, w, []. rewrite app_nil_r. auto.
        - eexists _, _, [_]. split; [reflexivity |]. simpl. auto. }
      destruct Hlock as (q & w1 & d0 & Hsel & Ht0 & Hrun0 & Htr0 & Ha0).
      rewrite Hsel in H.
      destruct (lazy_xmit_times cfg env (Z.to_nat (gc_count_dev_in_log dev log))
                  skb dev q cnt log sent_dev sent w1)
        as [[[log1 sent_dev1] sent1] w2] eqn:Htimes.
      apply lazy_xmit_times_engine in Htimes as (d1 & Ht1 & Hrun1 & -> & Hsum1).
      destruct (lazy_xmit_scan cfg env gc dev cnt (Some q) sent_dev1
                  (sent + Z.of_nat (length (transmitted d1))) w2)
        as [[[gc2 txq2] sent2] w3] eqn:Hrest.
      injection H as <- <- <- <-.
      apply IH in Hrest as (d2 & Ht2 & Hrun2 & -> & Hsum2).
      exists (d0 ++ d1 ++ d2).
      split; [rewrite Ht2, Ht1, Ht0, <- !app_assoc; reflexivity |].
      split; [rewrite lock_run_app, Hrun0, lock_run_app, Hrun1; exact Hrun2 |].
      rewrite !transmitted_app, Htr0, !length_app. simpl length.
      split; lia.
Qed.

(** The loop on [n]: no lock is held from one target to the next. *)
Lemma lazy_xmit_exec_loop_engine (ts : list (net_device * Z)) :
  forall (gc : list (nat * gc_log)) (sent : Z) (w : world)
         (sent' : Z) (gc' : list (nat * gc_log)) (w' : world),
    lazy_xmit_exec_loop cfg env ts gc sent w = (sent', gc', w') ->
    exists d,
      w_trace w' = w_trace w ++ d /\
      lock_run None d = Some None /\
      sent' = sent + Z.of_nat (length (transmitted d)) /\
      sent' + w_abrt w' = sent + w_abrt w + total_forwards ts gc /\
      w_abrt w <= w_abrt w'.
Proof.
  induction ts as [| [dev cnt] ts IH]; intros gc sent w sent' gc' w' H.
  - injection H as <- <- <-. exists []. rewrite app_nil_r, total_forwards_nil.
    simpl. split; [reflexivity |]. split; [reflexivity |]. lia.
  - change (lazy_xmit_exec_loop cfg env ((dev, cnt) :: ts) gc sent w)
      with
      (let '(gc, txq, sent, w) :=
         lazy_xmit_scan cfg env gc dev cnt None 0 sent w in
       let w := match txq with Some q => emit (EvUnlock q) w | None => w end in
       lazy_xmit_exec_loop cfg env ts gc sent w) in H.
    pose proof (lazy_xmit_scan_logs cfg env dev cnt gc None 0 sent w) as Hlogs.
    destruct (lazy_xmit_scan cfg env gc dev cnt None 0 sent w)
      as [[[gc1 txq1] sent1] w1] eqn:Hscan.
    simpl in Hlogs.
    apply lazy_xmit_scan_engine in Hscan as (d1 & Ht1 & Hrun1 & -> & Hsum1).
    apply IH in H as (d2 & Ht2 & Hrun2 & -> & Hsum2).
    rewrite Hlogs, total_forwards_forwarded in Hsum2.
    rewrite total_forwards_cons.
    destruct txq1 as [q |].
    + exists (d1 ++ EvUnlock q :: d2).
      split; [rewrite Ht2; simpl; rewrite Ht1, <- !app_assoc; reflexivity |].
      split; [rewrite lock_run_app, Hrun1; simpl; rewrite Z.eqb_refl; exact Hrun2 |].
      rewrite transmitted_app, length_app.
      change (transmitted (EvUnlock q :: d2)) with (transmitted d2).
      simpl in *. split; lia.
    + exists (d1 ++ d2).
      split; [rewrite Ht2, Ht1, <- !app_assoc; reflexivity |].
      split; [rewrite lock_run_app, Hrun1; exact Hrun2 |].
      rewrite transmitted_app, length_app. split; lia.
Qed.

(** X22. A commit accounts every forward: the value
    [pfq_lazy_xmit_exec] returns is the number of buffers the driver
    took with [NETDEV_TX_OK], and together with what the commit adds to
    the counter of aborts it is the number of forwards the logs ask of
    the targets, one for every reference of a log to a target. *)
Theorem pfq_lazy_xmit_exec_accounting (gc : list (nat * gc_log))
    (ts : list (net_device * Z)) (w w' : world) (sent : Z)
    (gc' : list (nat * gc_log)) :
  pfq_lazy_xmit_exec cfg env gc ts w = (sent, gc', w') ->
  exists d,
    w_trace w' = w_trace w ++ d /\
    sent = Z.of_nat (length (transmitted d)) /\
    0 <= w_abrt w' - w_abrt w /\
    sent + (w_abrt w' - w_abrt w) = total_forwards ts gc.
Proof.
  unfold pfq_lazy_xmit_exec. intros H.
  apply lazy_xmit_exec_loop_engine in H as (d & Ht & _ & -> & Hsum).
  exists d. split; [exact Ht |]. split; [lia |]. lia.
Qed.

End LazyMore.

(** ** The waits of the engine *)

Lemma only_observes_trans (w1 w2 w3 : world) :
  only_observes w1 w2 -> only_observes w2 w3 -> only_observes w1 w3.
Proof.
  unfold only_observes.
  intros (Ht1 & Hh1 & Hn1 & Hp1 & Ho1 & Ha1 & Hs1 & Hd1)
         (Ht2 & Hh2 & Hn2 & Hp2 & Ho2 & Ha2 & Hs2 & Hd2).
  repeat split; try congruence. lia.
Qed.

(** A call of the driver found in a trace that keeps the discipline
    comes while a lock is held. *)
Lemma lock_run_driver (pre post : list event) (p : nat) (s : sk_buff)
    (rc : Z) (held : option Z) (x : option Z) :
  lock_run held (pre ++ EvStartXmit p s rc :: post) = Some x ->
  exists q, lock_run held pre = Some (Some q).
Proof.
  rewrite lock_run_app.
  destruct (lock_run held pre) as [[q |] |]; simpl; [eauto | discriminate ..].
Qed.

Section Waits.

Variable cfg : config.
Variable env : environment.


Lemma swap_spin_outcome (index : Z) (fuel : nat) :
  forall (w w' : world) (err : Z),
    swap_spin env fuel index w = Some (err, w') ->
    exists d,
      w_trace w' = w_trace w ++ d /\
      only_observes w w' /\
      Forall (fun e => idle_event e = true) d /\
      ((err = 0 /\ (0 < w_tick w')%nat /\
        env_prod env (w_tick w' - 1) = to_u64 index /\
        Forall (eq false) (giveups d)) \/
       (err = - EINTR /\ last (giveups d) = Some true /\ gave_up env w')).
Proof.
  induction fuel as [| fuel IH]; intros w w' err H; [discriminate |].
  change (swap_spin env (S fuel) index w) with
    (let (prod, w) := observe (env_prod env) w in
     if negb (to_u64 index =? prod) then
       let w := pfq_relax w in
       let (g, w) := giveup_tx_process env w in
       if g then Some (- EINTR, w) else swap_spin env fuel index w
     else Some (0, w)) in H.
  cbv beta iota zeta delta [giveup_tx_process observe pfq_relax] in H.
  destruct (Z.eqb_spec (to_u64 index) (env_prod env (w_tick w))) as [Heq | Hne];
    simpl negb in H; cbv iota in H.
  - injection H as <- <-. exists []. rewrite app_nil_r. simpl.
    split; [reflexivity |].
    split; [unfold only_observes; simpl; repeat split; lia |].
    split; [constructor |].
    left. split; [reflexivity |]. split; [lia |].
    rewrite Nat.sub_0_r. split; [congruence | constructor].
  - simpl in H.
    destruct (giveup_at env (S (w_tick w))) eqn:Hg.
    + injection H as <- <-. exists [EvRelax; EvGiveup true].
      simpl. rewrite <- app_assoc.
      split; [reflexivity |].
      split; [unfold only_observes; simpl; repeat split; lia |].
      split; [auto |].
      right. split; [reflexivity |]. split; [reflexivity |].
      exists (S (w_tick w)). simpl. split; [lia | exact Hg].
    + apply IH in H as (d & Ht & Hobs & Hidle & Hres).
      exists (EvRelax :: EvGiveup false :: d). simpl in Ht.
      split; [rewrite Ht, <- !app_assoc; reflexivity |].
      split.
      { eapply only_observes_trans; [| exact Hobs].
        unfold only_observes; simpl; repeat split; lia. }
      split; [auto |].
      destruct Hres as [(-> & Hpos & Hprod & Hall) | (-> & Hlast & Hgave)].
      * left. split; [reflexivity |]. split; [exact Hpos |].
        split; [exact Hprod |]. simpl. constructor; [reflexivity | exact Hall].
      * right. split; [reflexivity |].
        split; [simpl; apply last_cons_Some; exact Hlast | exact Hgave].
Qed.

(** X16. [swap_tx_queue_and_wait] always moves the consumer stamp on by
    one and hands out its new value as the index, also when it is
    interrupted.  Run for a flush (cpu = Q_NO_KTHREAD) it stores 1 in
    the producer stamp and returns 0 at once.  Run by a kernel thread it
    leaves the producer stamp alone and spins, only observing: it
    returns 0 right after a load of the producer stamp that equals the
    index, no give-up check having said yes, or [-EINTR] right after a
    give-up check that said yes. *)
Theorem swap_tx_queue_and_wait_spec (fuel : nat) (txs txs' : pfq_tx_queue)
    (cpu err index : Z) (w w' : world) :
  swap_tx_queue_and_wait cfg env fuel txs cpu w = Some (err, index, txs', w') ->
  txs_cons txs' = to_u64 (txs_cons txs + 1) /\
  index = to_int (txs_cons txs') /\
  txs_size txs' = txs_size txs /\
  (cpu = Q_NO_KTHREAD cfg -> err = 0 /\ txs_prod txs' = 1 /\ w' = w) /\
  (cpu <> Q_NO_KTHREAD cfg ->
   txs_prod txs' = txs_prod txs /\
   exists d,
     w_trace w' = w_trace w ++ d /\
     only_observes w w' /\
     Forall (fun e => idle_event e = true) d /\
     ((err = 0 /\ (0 < w_tick w')%nat /\
       env_prod env (w_tick w' - 1) = to_u64 index /\
       Forall (eq false) (giveups d)) \/
      (err = - EINTR /\ last (giveups d) = Some true /\ gave_up env w'))).
Proof.
  unfold swap_tx_queue_and_wait. intros H.
  destruct (Z.eqb_spec cpu (Q_NO_KTHREAD cfg)) as [Hcpu | Hcpu]; simpl in H.
  - injection H as <- <- <- <-. simpl.
    split; [reflexivity |]. split; [reflexivity |]. split; [reflexivity |].
    split; [auto | contradiction].
  - destruct (swap_spin env fuel (to_int (to_u64 (txs_cons txs + 1))) w)
      as [[e w2] |] eqn:Hs; [| discriminate].
    injection H as <- <- <- <-. simpl.
    split; [reflexivity |]. split; [reflexivity |]. split; [reflexivity |].
    split; [contradiction |]. intros _. split; [reflexivity |].
    apply swap_spin_outcome in Hs. exact Hs.
Qed.

(** X17. A drain whose swap is interrupted gives up at once: it returns
    the error of the swap, which is [-EINTR] and comes from a kernel
    thread's wait, after a give-up check that said yes; it has called no
    driver and taken no lock, the memory of the ring and the counters of
    the socket are as before, and only the consumer stamp of the queue
    has moved. *)
Theorem __pfq_queue_xmit_interrupted (fuel : nat) (idx : nat)
    (to : pfq_tx_opt) (mem : tx_memory) (dev : net_device) (cpu node : Z)
    (w : world) (err swap : Z) (txs1 : pfq_tx_queue) (w1 : world) :
  swap_tx_queue_and_wait cfg env fuel (to_txs to idx) cpu w
    = Some (err, swap, txs1, w1) ->
  err < 0 ->
  exists to',
    __pfq_queue_xmit cfg env fuel idx to mem dev cpu node w
      = Some (- EINTR, to', mem, w1) /\
    cpu <> Q_NO_KTHREAD cfg /\
    to_stats_sent to' = to_stats_sent to /\
    to_stats_disc to' = to_stats_disc to /\
    to_txs to' idx
    = TxQueue (txs_prod (to_txs to idx))
              (to_u64 (txs_cons (to_txs to idx) + 1))
              (txs_size (to_txs to idx)) /\
    (forall i, i <> idx -> to_txs to' i = to_txs to i) /\
    only_observes w w1 /\
    gave_up env w1 /\
    exists d,
      w_trace w1 = w_trace w ++ d /\
      Forall (fun e => idle_event e = true) d /\
      last (giveups d) = Some true.
Proof.
  intros Hswap Hneg.
  unfold __pfq_queue_xmit. rewrite Hswap.
  destruct (Z.ltb_spec err 0) as [_ | ]; [| lia].
  unfold swap_tx_queue_and_wait in Hswap.
  destruct (Z.eqb_spec cpu (Q_NO_KTHREAD cfg)) as [Hcpu | Hcpu]; simpl in Hswap.
  { injection Hswap as <- <- <- <-. lia. }
  destruct (swap_spin env fuel (to_int (to_u64 (txs_cons (to_txs to idx) + 1))) w)
    as [[e w2] |] eqn:Hs; [| discriminate].
  injection Hswap as <- <- <- <-.
  apply swap_spin_outcome in Hs
    as (d & Ht & Hobs & Hidle & [(-> & _) | (-> & Hlast & Hgave)]); [lia |].
  eexists. split; [reflexivity |].
  split; [exact Hcpu |]. simpl.
  split; [reflexivity |]. split; [reflexivity |].
  split; [rewrite Nat.eqb_refl; reflexivity |].
  split.
  { intros i Hi. destruct (Nat.eqb_spec i idx); [contradiction | reflexivity]. }
  split; [exact Hobs |]. split; [exact Hgave |].
  exists d. auto.
Qed.

(** X18. A drain that gets past the swap always ends the drained half:
    when it returns, the length of the first descriptor of the half is
    0, so that the half reads as empty (no descriptor is laid out in
    it), the timestamp of that descriptor and all other memory of the
    ring are as before, and the queue of the socket has the stamps the
    swap left. *)
Theorem __pfq_queue_xmit_clears (fuel : nat) (idx : nat) (to : pfq_tx_opt)
    (mem : tx_memory) (dev : net_device) (cpu node : Z) (w : world)
    (err swap : Z) (txs1 : pfq_tx_queue) (w1 : world)
    (ret : Z) (to' : pfq_tx_opt) (mem' : tx_memory) (w' : world) :
  swap_tx_queue_and_wait cfg env fuel (to_txs to idx) cpu w
    = Some (err, swap, txs1, w1) ->
  0 <= err ->
  __pfq_queue_xmit cfg env fuel idx to mem dev cpu node w
    = Some (ret, to', mem', w') ->
  let begin := tx_half_begin (to_base_addr to idx) swap (txs_size txs1) in
  pkt_len (mem' begin) = 0 /\
  pkt_nsec (mem' begin) = pkt_nsec (mem begin) /\
  (forall a, a <> begin -> mem' a = mem a) /\
  descriptors mem' (begin + txs_size txs1) begin [] /\
  traverse_tx_queue cfg mem' begin begin (begin + txs_size txs1) = false /\
  to_txs to' idx = txs1 /\
  (forall i, i <> idx -> to_txs to' i = to_txs to i).
Proof.
  intros Hswap Herr H begin.
  unfold __pfq_queue_xmit in H. rewrite Hswap in H.
  destruct (Z.ltb_spec err 0) as [| _]; [lia |].
  change (to_base_addr (with_txs idx txs1 to) idx) with (to_base_addr to idx) in H.
  fold begin in H.
  destruct (ktime_get_real env w1) as [now w2].
  destruct (tx_loop cfg env fuel fuel mem begin (begin + txs_size txs1) dev
              (to_hw_queue to idx) node begin now [] 0 w2)
    as [[[[ptr skbs] tot] w3] |]; [| discriminate].
  destruct (match skbs with
            | [] => Some (0, skbs, w3)
            | _ :: _ => full_batch_xmit cfg env fuel skbs dev (to_hw_queue to idx) w3
            end) as [[[sent skbs4] w4] |]; [| discriminate].
  destruct (recycle_each skbs4 w4) as [w5 |]; [| discriminate].
  destruct (count_left cfg fuel mem begin (begin + txs_size txs1) ptr
              (Z.of_nat (length skbs4))) as [disc |]; [| discriminate].
  unfold add_stats in H. injection H as <- <- <- <-.
  unfold clear_queue. simpl. rewrite Z.eqb_refl, Nat.eqb_refl. simpl.
  split; [reflexivity |]. split; [reflexivity |].
  split.
  { intros a Ha. destruct (Z.eqb_spec a begin); [contradiction | reflexivity]. }
  split.
  { apply descriptors_end. right. rewrite Z.eqb_refl. reflexivity. }
  split.
  { unfold traverse_tx_queue. rewrite Z.eqb_refl. simpl.
    destruct (PFQ_DEBUG cfg); [| apply andb_false_r].
    destruct ((begin <? begin) || (begin >=? begin + txs_size txs1));
      reflexivity. }
  split; [reflexivity |].
  intros i Hi. destruct (Nat.eqb_spec i idx); [contradiction | reflexivity].
Qed.

(** X13. The drain keeps the discipline of the queue lock: along the
    events of a drain that returns, with [-EINTR] or not, no lock is
    taken while one is held, every unlock gives back the lock that is
    held, every call of the driver comes while a lock is held, and no
    lock is held at the end. *)
Theorem __pfq_queue_xmit_locked (fuel : nat) (idx : nat) (to : pfq_tx_opt)
    (mem : tx_memory) (dev : net_device) (cpu node : Z) (w : world)
    (ret : Z) (to' : pfq_tx_opt) (mem' : tx_memory) (w' : world) :
  __pfq_queue_xmit cfg env fuel idx to mem dev cpu node w
    = Some (ret, to', mem', w') ->
  exists d,
    w_trace w' = w_trace w ++ d /\
    lock_discipline d /\
    forall pre p s rc post,
      d = pre ++ EvStartXmit p s rc :: post ->
      exists q, lock_run None pre = Some (Some q).
Proof.
  intros H. apply __pfq_queue_xmit_engine in H as (d & Ht & Hrun & _).
  exists d. split; [exact Ht |]. split; [exact Hrun |].
  intros pre p s rc post ->. eapply lock_run_driver. exact Hrun.
Qed.

(** X14. What a drain counts as sent is what the driver took: the drain
    adds to the counter of sent packets of the socket the number of
    calls of the driver answered [NETDEV_TX_OK], and that number, as an
    [int], is the value returned, unless the swap was interrupted and
    [-EINTR] is returned, no buffer having been sent. *)
Theorem __pfq_queue_xmit_sent (fuel : nat) (idx : nat) (to : pfq_tx_opt)
    (mem : tx_memory) (dev : net_device) (cpu node : Z) (w : world)
    (ret : Z) (to' : pfq_tx_opt) (mem' : tx_memory) (w' : world) :
  __pfq_queue_xmit cfg env fuel idx to mem dev cpu node w
    = Some (ret, to', mem', w') ->
  exists d,
    w_trace w' = w_trace w ++ d /\
    to_stats_sent to' = to_stats_sent to + Z.of_nat (length (transmitted d)) /\
    (ret = to_int (Z.of_nat (length (transmitted d))) \/
     ret = - EINTR /\ transmitted d = []).
Proof.
  intros H. apply __pfq_queue_xmit_engine in H as (d & Ht & _ & Hsent & Hret).
  exists d. auto.
Qed.

(** X23. A commit keeps the discipline of the queue lock: along the
    events of [pfq_lazy_xmit_exec] no lock is taken while one is held,
    every unlock gives back the lock that is held, every call of the
    driver comes while a lock is held, and no lock is held at the end. *)
Theorem pfq_lazy_xmit_exec_locked (gc : list (nat * gc_log))
    (ts : list (net_device * Z)) (w w' : world) (sent : Z)
    (gc' : list (nat * gc_log)) :
  pfq_lazy_xmit_exec cfg env gc ts w = (sent, gc', w') ->
  exists d,
    w_trace w' = w_trace w ++ d /\
    lock_discipline d /\
    forall pre p s rc post,
      d = pre ++ EvStartXmit p s rc :: post ->
      exists q, lock_run None pre = Some (Some q).
Proof.
  unfold pfq_lazy_xmit_exec. intros H.
  apply lazy_xmit_exec_loop_engine in H as (d & Ht & Hrun & _).
  exists d. split; [exact Ht |]. split; [exact Hrun |].
  intros pre p s rc post ->. eapply lock_run_driver. exact Hrun.
Qed.

End Waits.

(** ** Addresses that go up *)

Lemma ascending_bound (l : list nat) :
  forall lo hi : nat, ascending lo hi l -> (lo <= hi)%nat.
Proof.
  induction l as [| p l IH]; intros lo hi H; simpl in H; [exact H |].
  destruct H as [Hp H]. apply IH in H. lia.
Qed.

Lemma ascending_weaken (l : list nat) :
  forall lo hi hi' : nat,
    ascending lo hi l -> (hi <= hi')%nat -> ascending lo hi' l.
Proof.
  induction l as [| p l IH]; intros lo hi hi' H Hle; simpl in *; [lia |].
  destruct H as [Hp H]. split; [lia | eapply IH; eassumption].
Qed.

Lemma ascending_snoc (l : list nat) :
  forall lo p : nat, ascending lo p l -> ascending lo (S p) (l ++ [p]).
Proof.
  induction l as [| q l IH]; intros lo p H; simpl in *; [lia |].
  destruct H as [Hq H]. split; [lia | apply IH; exact H].
Qed.

Lemma ascending_prefix (a b : list nat) :
  forall lo hi : nat, ascending lo hi (a ++ b) -> ascending lo hi a.
Proof.
  induction a as [| p a IH]; intros lo hi H; simpl in *.
  - eapply ascending_bound; exact H.
  - destruct H as [Hp H]. split; [exact Hp | eapply IH; exact H].
Qed.

Lemma ascending_spec (l : list nat) :
  forall lo hi : nat,
    ascending lo hi l ->
    Forall (fun p => (lo <= p < hi)%nat) l /\ NoDup l.
Proof.
  induction l as [| p l IH]; intros lo hi H; simpl in H.
  - split; constructor.
  - destruct H as [Hp H]. apply IH in H as [Hall Hnd].
    split.
    + constructor; [exact Hp |].
      eapply Forall_impl; [exact Hall |]. simpl. intros q Hq. lia.
    + apply NoDup_cons. split; [| exact Hnd].
      intros Hin. rewrite Forall_forall in Hall. apply Hall in Hin. lia.
Qed.

(** ** The buffers the drain hands to the driver *)

Lemma heap_update_fill (f : sk_buff -> sk_buff) (p q : nat) (h : skb_heap) :
  (forall s, skb_fill (f s) = skb_fill s) ->
  skb_fill (heap_update f p h q) = skb_fill (h q).
Proof.
  intros Hf. unfold heap_update. destruct (q =? p)%nat; [apply Hf | reflexivity].
Qed.

Ltac fill_kept :=
  unfold keeps_fill; simpl; repeat split;
  intros;
  repeat (rewrite heap_update_fill by (intros []; reflexivity));
  reflexivity.

Lemma keeps_fill_refl (w : world) : keeps_fill w w.
Proof. fill_kept. Qed.

Lemma keeps_fill_trans (w1 w2 w3 : world) :
  keeps_fill w1 w2 -> keeps_fill w2 w3 -> keeps_fill w1 w3.
Proof.
  unfold keeps_fill. intros (Hn1 & Hs1 & Hd1 & Hf1) (Hn2 & Hs2 & Hd2 & Hf2).
  split; [congruence |]. split; [congruence |]. split; [congruence |].
  intros p. rewrite Hf2. apply Hf1.
Qed.

Lemma fill_step_refl (w : world) : fill_step w w [].
Proof.
  unfold fill_step. rewrite app_nil_r.
  split; [reflexivity |]. split; [apply keeps_fill_refl |].
  intros p s rc Hin. apply elem_of_nil in Hin. contradiction.
Qed.

Lemma fill_step_trans (w w1 w2 : world) (d1 d2 : list event) :
  fill_step w w1 d1 -> fill_step w1 w2 d2 -> fill_step w w2 (d1 ++ d2).
Proof.
  intros (Ht1 & Hk1 & Hc1) (Ht2 & Hk2 & Hc2).
  split; [rewrite Ht2, Ht1, <- app_assoc; reflexivity |].
  split; [eapply keeps_fill_trans; eassumption |].
  intros p s rc Hin. rewrite driver_calls_app in Hin.
  apply elem_of_app in Hin as [Hin | Hin].
  - eapply Hc1; exact Hin.
  - rewrite (Hc2 _ _ _ Hin). destruct Hk1 as (_ & _ & _ & Hf). apply Hf.
Qed.

(** A step that calls no driver. *)
Lemma fill_step_silent (w w' : world) (d : list event) :
  w_trace w' = w_trace w ++ d -> keeps_fill w w' -> driver_calls d = [] ->
  fill_step w w' d.
Proof.
  intros Ht Hk Hdc. split; [exact Ht |]. split; [exact Hk |].
  intros p s rc Hin. rewrite Hdc in Hin. apply elem_of_nil in Hin. contradiction.
Qed.

Section Fill.

Variable cfg : config.
Variable env : environment.

Lemma __pfq_xmit_fill (p : nat) (dev : net_device) (txq : Z) (more : bool)
    (w w' : world) (rc : Z) :
  __pfq_xmit cfg env p dev txq more w = (rc, w') ->
  exists d, fill_step w w' d.
Proof.
  unfold __pfq_xmit, observe. simpl.
  assert (Hsnap : forall b,
            skb_fill (heap_update (skb_with_xmit_more b) p (w_heap w) p)
            = skb_fill (w_heap w p)).
  { intros b. apply heap_update_fill. intros []. reflexivity. }
  destruct (env_iff_up env (w_tick w)); simpl.
  - destruct (env_xmit_stopped env (S (w_tick w))); simpl.
    + intros [= <- <-]. exists [EvKfree p].
      apply fill_step_silent; [reflexivity | fill_kept | reflexivity].
    + destruct (dev_xmit_complete (env_start_xmit env (S (S (w_tick w)))));
        intros [= <- <-]; simpl.
      * eexists. split; [reflexivity |]. split; [fill_kept |].
        intros q s rc Hin. apply list_elem_of_singleton in Hin.
        injection Hin as -> -> ->. unfold skb_at. simpl. apply Hsnap.
      * eexists. split; [simpl; rewrite <- app_assoc; reflexivity |].
        split; [fill_kept |].
        intros q s rc Hin. apply list_elem_of_singleton in Hin.
        injection Hin as -> -> ->. unfold skb_at. simpl. apply Hsnap.
  - intros [= <- <-]. exists [EvKfree p].
    apply fill_step_silent; [reflexivity | fill_kept | reflexivity].
Qed.

Lemma batch_xmit_loop_fill (dev : net_device) (txq last : Z)
    (rest : list nat) :
  forall (n ret : Z) (w w' : world) (ret' : Z) (c : bool),
    batch_xmit_loop cfg env dev txq last rest n ret w = (ret', c, w') ->
    exists d, fill_step w w' d.
Proof.
  induction rest as [| p rest IH]; intros n ret w w' ret' c Hloop; simpl in Hloop.
  - injection Hloop as <- <- <-. exists []. apply fill_step_refl.
  - destruct (__pfq_xmit cfg env p dev txq (negb (to_u64 n =? last))
                (skb_set_queue_mapping p txq w)) as [rc w1] eqn:Hx.
    apply __pfq_xmit_fill in Hx as (d1 & Hs1).
    assert (Hs : fill_step w w1 ([] ++ d1)).
    { eapply fill_step_trans; [| exact Hs1].
      apply fill_step_silent; [simpl; rewrite app_nil_r; reflexivity
                              | fill_kept | reflexivity]. }
    simpl in Hs.
    destruct (rc =? NETDEV_TX_OK).
    + apply IH in Hloop as (d2 & Hs2).
      exists (d1 ++ d2). eapply fill_step_trans; eassumption.
    + injection Hloop as <- <- <-. exists d1. exact Hs.
Qed.

Lemma free_each_fill (ps : list nat) :
  forall w : world, fill_step w (free_each ps w) (map EvKfree ps).
Proof.
  unfold free_each.
  induction ps as [| p ps IH]; intros w; simpl; [apply fill_step_refl |].
  change (EvKfree p :: map EvKfree ps) with ([EvKfree p] ++ map EvKfree ps).
  eapply fill_step_trans; [| apply IH].
  apply fill_step_silent; [reflexivity | fill_kept | reflexivity].
Qed.

Lemma pfq_batch_xmit_fill (skbs : list nat) (dev : net_device)
    (hw_queue : Z) (w w' : world) (ret : Z) :
  pfq_batch_xmit cfg env skbs dev hw_queue w = (ret, w') ->
  exists d, fill_step w w' d.
Proof.
  unfold pfq_batch_xmit. cbv zeta. intros H.
  set (txq := pfq_pick_tx dev (skb_at w (hd 0%nat skbs)) hw_queue) in *.
  destruct (batch_xmit_loop cfg env dev txq
              (to_u64 (Z.of_nat (length skbs) - 1)) skbs 0 0
              (emit (EvLock txq) w)) as [[ret0 c] w1] eqn:Hloop.
  apply batch_xmit_loop_fill in Hloop as (d & Hs).
  assert (Hlock : fill_step w (emit (EvLock txq) w) [EvLock txq]).
  { apply fill_step_silent; [reflexivity | fill_kept | reflexivity]. }
  assert (Hunlock : forall w0, fill_step w0 (emit (EvUnlock txq) w0) [EvUnlock txq]).
  { intros w0. apply fill_step_silent; [reflexivity | fill_kept | reflexivity]. }
  destruct c; injection H as <- <-.
  - eexists. eapply fill_step_trans; [exact Hlock |].
    eapply fill_step_trans; [exact Hs | apply Hunlock].
  - eexists. eapply fill_step_trans; [exact Hlock |].
    eapply fill_step_trans; [exact Hs |].
    eapply fill_step_trans; [apply free_each_fill | apply Hunlock].
Qed.

Lemma skb_get_each_fill (ps : list nat) :
  forall w : world, fill_step w (fold_left (fun w p => skb_get p w) ps w) [].
Proof.
  induction ps as [| p ps IH]; intros w; simpl; [apply fill_step_refl |].
  change (@nil event) with (@nil event ++ []).
  eapply fill_step_trans; [| apply IH].
  apply fill_step_silent; [simpl; rewrite app_nil_r; reflexivity
                          | fill_kept | reflexivity].
Qed.

Lemma recycle_each_fill (ps : list nat) :
  forall w w' : world,
    recycle_each ps w = Some w' -> exists d, fill_step w w' d.
Proof.
  induction ps as [| p ps IH]; intros w w' H; simpl in H.
  - injection H as <-. exists []. apply fill_step_refl.
  - destruct (pfq_kfree_skb_pool p w) as [w1 |] eqn:Hk; [| discriminate].
    apply IH in H as (d & Hs).
    assert (Hs1 : exists d1, fill_step w w1 d1).
    { unfold pfq_kfree_skb_pool, pfq_skb_pool_push in Hk.
      destruct (pool_skbs (w_tx_pool w)) as [arr |].
      - destruct (negb (__pool_next (w_tx_pool w) (p_idx (w_tx_pool w))
                        =? c_idx (w_tx_pool w))).
        + destruct (arr !! Z.to_nat (p_idx (w_tx_pool w))) as [[q |] |];
            try discriminate.
          injection Hk as <-. exists [].
          apply fill_step_silent; [simpl; rewrite app_nil_r; reflexivity
                                  | fill_kept | reflexivity].
        + injection Hk as <-. exists [EvKfree p].
          apply fill_step_silent; [reflexivity | fill_kept | reflexivity].
      - injection Hk as <-. exists [EvKfree p].
        apply fill_step_silent; [reflexivity | fill_kept | reflexivity]. }
    destruct Hs1 as (d1 & Hs1).
    exists (d1 ++ d). eapply fill_step_trans; eassumption.
Qed.

Lemma full_batch_xmit_loop_fill (fuel : nat) :
  forall (skbs : list nat) (dev : net_device) (hw_queue total : Z)
         (w w' : world) (ret : Z) (skbs' : list nat),
    full_batch_xmit_loop cfg env fuel skbs dev hw_queue total w
      = Some (ret, skbs', w') ->
    exists d, fill_step w w' d.
Proof.
  induction fuel as [| fuel IH]; intros skbs dev hw_queue total w w' ret skbs' H;
    destruct skbs as [| p0 ps]; try discriminate.
  - injection H as <- <- <-. exists []. apply fill_step_refl.
  - injection H as <- <- <-. exists []. apply fill_step_refl.
  - rewrite full_batch_xmit_loop_step in H. cbv zeta in H.
    set (skbs := p0 :: ps) in *.
    assert (Hgive : fill_step w (snd (giveup_tx_process env w))
                              [EvGiveup (fst (giveup_tx_process env w))]).
    { unfold giveup_tx_process, observe. simpl.
      apply fill_step_silent; [reflexivity | fill_kept | reflexivity]. }
    destruct (giveup_tx_process env w) as [g w1]. simpl in Hgive.
    destruct g.
    + injection H as <- <- <-. eexists. exact Hgive.
    + pose proof (skb_get_each_fill skbs w1) as Hget.
      set (w2 := fold_left (fun w p => skb_get p w) skbs w1) in *.
      destruct (pfq_batch_xmit cfg env skbs dev hw_queue w2) as [sent w3] eqn:Hb.
      apply pfq_batch_xmit_fill in Hb as (db & Hsb).
      assert (Hs3 : fill_step w w3 ([EvGiveup false] ++ [] ++ db)).
      { eapply fill_step_trans; [exact Hgive |].
        eapply fill_step_trans; [exact Hget | exact Hsb]. }
      destruct (sent =? 0).
      * apply IH in H as (d2 & Hs2).
        eexists. eapply fill_step_trans; [exact Hs3 |].
        eapply fill_step_trans; [| exact Hs2].
        unfold pfq_relax.
        apply (fill_step_silent w3 (emit EvRelax w3) [EvRelax]);
          [reflexivity | fill_kept | reflexivity].
      * destruct (recycle_each (take (Z.to_nat sent) skbs) w3) as [w4 |] eqn:Hr;
          [| discriminate].
        apply recycle_each_fill in Hr as (dr & Hsr).
        apply IH in H as (d2 & Hs2).
        eexists. eapply fill_step_trans; [exact Hs3 |].
        eapply fill_step_trans; [exact Hsr | exact Hs2].
Qed.

(** One flush of the batch: the driver sees buffers of the batch, with
    the fields they had in the batch. *)
Lemma full_batch_xmit_fill (fuel : nat) (skbs : list nat) (dev : net_device)
    (hw_queue : Z) (w w' : world) (sent : Z) (skbs' : list nat) :
  full_batch_xmit cfg env fuel skbs dev hw_queue w = Some (sent, skbs', w') ->
  exists d,
    fill_step w w' d /\
    (forall p, p ∈ skbs' -> p ∈ skbs) /\
    (forall p s rc, (p, s, rc) ∈ driver_calls d -> p ∈ skbs).
Proof.
  unfold full_batch_xmit. intros H.
  pose proof H as H'.
  apply full_batch_xmit_loop_fill in H as (d & Hs).
  apply (full_batch_xmit_loop_spec cfg env) in H'
    as (d' & Ht' & _ & _ & Hdrop & _ & Hcalls & _).
  destruct Hs as (Ht & Hk & Hc).
  rewrite Ht in Ht'. apply app_inv_head in Ht'. subst d'.
  exists d. split; [split; auto |].
  split.
  - intros p Hp. rewrite Hdrop in Hp. eapply subseteq_drop. exact Hp.
  - intros p s rc Hin. apply Hcalls in Hin as [Hp _]. exact Hp.
Qed.

Lemma wait_until_observes (ts : Z) (fuel : nat) :
  forall (w w' : world) (now : Z),
    wait_until env fuel ts w = Some (now, w') ->
    exists d,
      w_trace w' = w_trace w ++ d /\ only_observes w w' /\
      driver_calls d = [].
Proof.
  induction fuel as [| fuel IH]; intros w w' now H; [discriminate |].
  rewrite wait_until_step in H.
  cbv beta iota zeta delta [ktime_get_real giveup_tx_process observe] in H.
  unfold emit in H at 1 2. simpl w_tick in H.
  destruct (giveup_at env (S (w_tick w))).
  - injection H as <- <-. eexists. simpl. rewrite <- app_assoc.
    split; [reflexivity |].
    split; [unfold only_observes; simpl; repeat split; lia | reflexivity].
  - destruct (to_u64 (env_clock env (w_tick w)) <? ts).
    + apply IH in H as (d & Ht & Hobs & Hdc).
      exists (EvClock (env_clock env (w_tick w)) :: EvGiveup false :: EvRelax :: d).
      simpl in Ht.
      split; [rewrite Ht, <- !app_assoc; reflexivity |].
      split; [| exact Hdc].
      eapply only_observes_trans; [| exact Hobs].
      unfold only_observes; simpl; repeat split; lia.
    + injection H as <- <-. eexists. simpl. rewrite <- app_assoc.
      split; [reflexivity |].
      split; [unfold only_observes; simpl; repeat split; lia | reflexivity].
Qed.

Section Loop.

Variable mem : tx_memory.
Variable dev : net_device.

Lemma filled_from_fill (s s' : sk_buff) :
  skb_fill s' = skb_fill s -> filled_from cfg mem dev s -> filled_from cfg mem dev s'.
Proof.
  unfold skb_fill, filled_from. intros [= Hd Hl Hc Hv]. rewrite Hd, Hl, Hc, Hv.
  auto.
Qed.

(** The buffer an allocation delivers, once filled: no other buffer
    changes, nothing is added to the trace, no counter moves. *)
Lemma pfq_tx_alloc_skb_filled (node : Z) (w w1 : world) (p : nat) (ptr : Z)
    (hw_queue : Z) :
  pfq_tx_alloc_skb env node w = Some (Some p, w1) ->
  let w2 := tx_fill cfg p (mem ptr) ptr dev hw_queue w1 in
  w_trace w2 = w_trace w /\
  w_sent w2 = w_sent w /\ w_disc w2 = w_disc w /\
  filled_from cfg mem dev (w_heap w2 p) /\
  forall q, q <> p -> w_heap w2 q = w_heap w q.
Proof.
  assert (Hfill : forall (w1 : world),
             filled_from cfg mem dev
               (w_heap (tx_fill cfg p (mem ptr) ptr dev hw_queue w1) p)).
  { intros v. unfold tx_fill. simpl. rewrite heap_update_same.
    unfold filled_from. simpl.
    replace (ptr + sizeof_pfq_pkthdr_tx - sizeof_pfq_pkthdr_tx) with ptr by lia.
    auto. }
  unfold pfq_tx_alloc_skb, observe.
  destruct (pfq_skb_pool_pop (w_heap w) (w_tx_pool w)) as [[[q |] pool] |];
    [| | discriminate].
  - intros [= <- <-]. cbv zeta.
    split; [reflexivity |]. split; [reflexivity |]. split; [reflexivity |].
    split; [apply Hfill |].
    intros q' Hq. simpl. unfold heap_update.
    destruct (Nat.eqb_spec q' q); [contradiction | reflexivity].
  - destruct (env_alloc_ok env (w_tick w)); [| discriminate].
    intros [= <- <-]. cbv zeta.
    split; [reflexivity |]. split; [reflexivity |]. split; [reflexivity |].
    split; [apply Hfill |].
    intros q Hq. simpl. unfold heap_update.
    destruct (Nat.eqb_spec q (w_next w)); [contradiction | reflexivity].
Qed.

Lemma pfq_tx_alloc_skb_none (node : Z) (w w1 : world) :
  pfq_tx_alloc_skb env node w = Some (None, w1) ->
  w_trace w1 = w_trace w /\ only_observes w w1.
Proof.
  unfold pfq_tx_alloc_skb, observe.
  destruct (pfq_skb_pool_pop (w_heap w) (w_tx_pool w)) as [[[q |] pool] |];
    try discriminate.
  destruct (env_alloc_ok env (w_tick w)); [discriminate |].
  intros [= <-]. split; [reflexivity |].
  unfold only_observes. simpl. repeat split; lia.
Qed.

Lemma tx_loop_fill (inner : nat) (begin end_ : Z) (hw_queue node : Z)
    (fuel : nat) :
  forall (ptr now : Z) (skbs : list nat) (tot_sent : Z) (w : world)
         (ptr' : Z) (skbs' : list nat) (tot_sent' : Z) (w' : world),
    tx_loop cfg env inner fuel mem begin end_ dev hw_queue node
            ptr now skbs tot_sent w = Some (ptr', skbs', tot_sent', w') ->
    (forall p, p ∈ skbs -> filled_from cfg mem dev (w_heap w p)) ->
    exists d,
      w_trace w' = w_trace w ++ d /\
      w_sent w' = w_sent w /\ w_disc w' = w_disc w /\
      (forall p, p ∈ skbs' -> filled_from cfg mem dev (w_heap w' p)) /\
      (forall p s rc,
          (p, s, rc) ∈ driver_calls d -> filled_from cfg mem dev s).
Proof.
  induction fuel as [| fuel IH];
    intros ptr now skbs tot_sent w ptr' skbs' tot_sent' w' H Hbatch;
    [discriminate |].
  rewrite tx_loop_step in H.
  destruct (traverse_tx_queue cfg mem ptr begin end_).
  2: { injection H as <- <- <- <-. exists []. rewrite app_nil_r.
       split; [reflexivity |]. split; [reflexivity |]. split; [reflexivity |].
       split; [exact Hbatch |].
       intros p s rc Hin. apply elem_of_nil in Hin. contradiction. }
  assert (Hsub : exists d1 w1 intr skbs1 tot1,
             tx_submit cfg env inner skbs now (pkt_nsec (mem ptr)) dev
                       hw_queue tot_sent w = Some (intr, skbs1, tot1, w1) /\
             fill_step w w1 d1 /\
             (forall p, p ∈ skbs1 -> p ∈ skbs) /\
             (forall p s rc, (p, s, rc) ∈ driver_calls d1 -> p ∈ skbs)).
  { unfold tx_submit in *.
    destruct (transmission_required cfg skbs now (pkt_nsec (mem ptr))).
    - destruct (full_batch_xmit cfg env inner skbs dev hw_queue w)
        as [[[sent skbs1] w1] |] eqn:Hf; [| discriminate].
      apply full_batch_xmit_fill in Hf as (d1 & Hs1 & Hsub1 & Hcalls1).
      eauto 10.
    - exists [], w. eexists _, _, _. split; [reflexivity |].
      split; [apply fill_step_refl |]. split; [auto |].
      intros p s rc Hin. apply elem_of_nil in Hin. contradiction. }
  destruct Hsub as (d1 & w1 & intr & skbs1 & tot1 & Hs & Hstep1 & Hsub1 & Hcalls1).
  rewrite Hs in H.
  destruct Hstep1 as (Ht1 & Hk1 & Hc1).
  pose proof Hk1 as (Hn1 & Hsent1 & Hdisc1 & Hf1).
  assert (Hbatch1 : forall p, p ∈ skbs1 -> filled_from cfg mem dev (w_heap w1 p)).
  { intros p Hp. apply Hsub1, Hbatch in Hp.
    eapply filled_from_fill; [apply Hf1 | exact Hp]. }
  assert (Hgood1 : forall p s rc,
             (p, s, rc) ∈ driver_calls d1 -> filled_from cfg mem dev s).
  { intros p s rc Hin. pose proof (Hcalls1 _ _ _ Hin) as Hp.
    apply Hbatch in Hp.
    eapply filled_from_fill; [eapply Hc1; exact Hin | exact Hp]. }
  destruct intr.
  { injection H as <- <- <- <-. exists d1.
    split; [exact Ht1 |]. split; [exact Hsent1 |]. split; [exact Hdisc1 |].
    split; [exact Hbatch1 | exact Hgood1]. }
  assert (Hwait : exists now2 w2 d2,
             (if pkt_nsec (mem ptr) >? to_u64 now
              then wait_until env inner (pkt_nsec (mem ptr)) w1
              else Some (now, w1)) = Some (now2, w2) /\
             w_trace w2 = w_trace w1 ++ d2 /\
             only_observes w1 w2 /\ driver_calls d2 = []).
  { destruct (pkt_nsec (mem ptr) >? to_u64 now).
    - destruct (wait_until env inner (pkt_nsec (mem ptr)) w1)
        as [[now2 w2] |] eqn:Hw; [| discriminate].
      apply wait_until_observes in Hw as (d2 & Ht2 & Hobs & Hdc). eauto 8.
    - exists now, w1, []. rewrite app_nil_r.
      split; [reflexivity |]. split; [reflexivity |].
      split; [| reflexivity].
      unfold only_observes. repeat split; lia. }
  destruct Hwait as (now2 & w2 & d2 & Hw & Ht2 & Hobs2 & Hdc2).
  rewrite Hw in H.
  pose proof Hobs2 as (_ & Hh2 & Hn2 & _ & _ & _ & Hsent2 & Hdisc2).
  assert (Hcalls12 : forall p s rc,
             (p, s, rc) ∈ driver_calls (d1 ++ d2) -> filled_from cfg mem dev s).
  { intros p s rc Hin. rewrite driver_calls_app, Hdc2, app_nil_r in Hin.
    eapply Hgood1; exact Hin. }
  destruct (pfq_tx_alloc_skb env node w2) as [[[p |] w3] |] eqn:Ha;
    [| | discriminate].
  - pose proof (pfq_tx_alloc_skb_filled node w2 w3 p ptr hw_queue Ha)
      as (Ht3 & Hsent3 & Hdisc3 & Hfill3 & Hframe3).
    apply IH in H.
    + destruct H as (d3 & Ht & Hsent & Hdisc & Hbatch3 & Hgood3).
      exists ((d1 ++ d2) ++ d3).
      split; [rewrite Ht, Ht3, Ht2, Ht1, <- !app_assoc; reflexivity |].
      split; [congruence |]. split; [congruence |].
      split; [exact Hbatch3 |].
      intros q s rc Hin. rewrite driver_calls_app in Hin.
      apply elem_of_app in Hin as [Hin | Hin]; eauto.
    + intros q Hq. unfold pfq_skbuff_short_batch_push in Hq.
      assert (Hcase : q ∈ skbs1 \/ q = p).
      { destruct (length skbs1 <? Q_SKBUFF_SHORT_BATCH cfg)%nat; [| auto].
        apply elem_of_app in Hq as [Hq | Hq]; [auto |].
        apply list_elem_of_singleton in Hq. auto. }
      destruct (decide (q = p)) as [-> | Hne]; [exact Hfill3 |].
      destruct Hcase as [Hold | ->]; [| contradiction].
      rewrite Hframe3 by exact Hne. rewrite Hh2. apply Hbatch1. exact Hold.
  - apply pfq_tx_alloc_skb_none in Ha
      as (Ht3 & (_ & Hh3 & _ & _ & _ & _ & Hsent3 & Hdisc3)).
    injection H as <- <- <- <-. exists (d1 ++ d2).
    split; [rewrite Ht3, Ht2, Ht1, <- app_assoc; reflexivity |].
    split; [congruence |]. split; [congruence |].
    split; [| exact Hcalls12].
    intros q Hq. rewrite Hh3, Hh2. apply Hbatch1. exact Hq.
Qed.

(** A whole drain: what the driver sees, and the global counters. *)
Lemma __pfq_queue_xmit_fill (fuel : nat) (idx : nat) (to : pfq_tx_opt)
    (cpu node : Z) (w : world)
    (ret : Z) (to' : pfq_tx_opt) (mem' : tx_memory) (w' : world) :
  __pfq_queue_xmit cfg env fuel idx to mem dev cpu node w
    = Some (ret, to', mem', w') ->
  exists d,
    w_trace w' = w_trace w ++ d /\
    (forall p s rc,
        (p, s, rc) ∈ driver_calls d -> filled_from cfg mem dev s) /\
    w_sent w' - w_sent w = to_stats_sent to' - to_stats_sent to /\
    w_disc w' - w_disc w = to_stats_disc to' - to_stats_disc to.
Proof.
  intros H.
  unfold __pfq_queue_xmit in H.
  destruct (swap_tx_queue_and_wait cfg env fuel (to_txs to idx) cpu w)
    as [[[[err swap] txs1] w1] |] eqn:Hswap; [| discriminate].
  assert (Hs0 : exists d0,
             w_trace w1 = w_trace w ++ d0 /\ only_observes w w1 /\
             driver_calls d0 = []).
  { pose proof Hswap as Hidle.
    apply swap_tx_queue_and_wait_idle in Hidle as (d0 & Ht0 & Hidle).
    exists d0. split; [exact Ht0 |].
    split; [| apply (idle_events_spec _ Hidle)].
    unfold swap_tx_queue_and_wait in Hswap.
    destruct (negb (cpu =? Q_NO_KTHREAD cfg)).
    - destruct (swap_spin env fuel (to_int (to_u64 (txs_cons (to_txs to idx) + 1))) w)
        as [[e w2] |] eqn:Hs; [| discriminate].
      injection Hswap as <- <- <- <-.
      apply swap_spin_outcome in Hs as (_ & _ & Hobs & _). exact Hobs.
    - injection Hswap as <- <- <- <-. unfold only_observes. repeat split; lia. }
  destruct Hs0 as (d0 & Ht0 & Hobs0 & Hdc0).
  pose proof Hobs0 as (_ & _ & _ & _ & _ & _ & Hsent0 & Hdisc0).
  destruct (Z.ltb_spec err 0) as [Hneg | _].
  { injection H as <- <- <- <-. exists d0. simpl.
    split; [exact Ht0 |].
    split; [| lia].
    intros p s rc Hin. rewrite Hdc0 in Hin. apply elem_of_nil in Hin.
    contradiction. }
  set (begin := tx_half_begin (to_base_addr (with_txs idx txs1 to) idx) swap
                              (txs_size txs1)) in *.
  unfold ktime_get_real, observe in H. cbv beta iota zeta in H.
  destruct (tx_loop cfg env fuel fuel mem begin (begin + txs_size txs1) dev
              (to_hw_queue to idx) node begin (env_clock env (w_tick w1)) [] 0 _)
    as [[[[ptr skbs] tot] w3] |] eqn:Hloop; [| discriminate].
  apply tx_loop_fill in Hloop
    as (d3 & Ht3 & Hsent3 & Hdisc3 & Hbatch3 & Hgood3).
  2: { intros p Hp. apply elem_of_nil in Hp. contradiction. }
  simpl in Ht3, Hsent3, Hdisc3.
  assert (Hflush : exists sent skbs4 w4 d4,
             match skbs with
             | [] => Some (0, skbs, w3)
             | _ :: _ => full_batch_xmit cfg env fuel skbs dev (to_hw_queue to idx) w3
             end = Some (sent, skbs4, w4) /\
             fill_step w3 w4 d4 /\
             (forall p s rc, (p, s, rc) ∈ driver_calls d4 -> p ∈ skbs)).
  { destruct skbs as [| p ps].
    - exists 0, [], w3, []. split; [reflexivity |].
      split; [apply fill_step_refl |].
      intros p s rc Hin. apply elem_of_nil in Hin. contradiction.
    - destruct (full_batch_xmit cfg env fuel (p :: ps) dev (to_hw_queue to idx) w3)
        as [[[sent skbs4] w4] |] eqn:Hf; [| discriminate].
      apply full_batch_xmit_fill in Hf as (d4 & Hs4 & _ & Hcalls4).
      exists sent, skbs4, w4, d4. auto. }
  destruct Hflush as (sent & skbs4 & w4 & d4 & Hf & Hstep4 & Hcalls4).
  rewrite Hf in H.
  destruct Hstep4 as (Ht4 & (_ & Hsent4 & Hdisc4 & _) & Hc4).
  destruct (recycle_each skbs4 w4) as [w5 |] eqn:Hr; [| discriminate].
  pose proof Hr as Hr'.
  apply recycle_each_fill in Hr as (d5 & Ht5 & (_ & Hsent5 & Hdisc5 & _) & _).
  apply recycle_each_spec in Hr' as (d5' & Ht5' & _ & Hdc5 & _).
  rewrite Ht5 in Ht5'. apply app_inv_head in Ht5'. subst d5'.
  destruct (count_left cfg fuel mem begin (begin + txs_size txs1) ptr
              (Z.of_nat (length skbs4))) as [disc |]; [| discriminate].
  unfold add_stats in H. injection H as <- <- <- <-. simpl.
  exists (d0 ++ EvClock (env_clock env (w_tick w1)) :: d3 ++ d4 ++ d5).
  split; [rewrite Ht5, Ht4, Ht3, Ht0, <- !app_assoc; reflexivity |].
  split; [| lia].
  intros p s rc Hin.
  rewrite driver_calls_app, Hdc0 in Hin. simpl in Hin.
  change (driver_calls (EvClock ?n :: ?l)) with (driver_calls l) in Hin.
  rewrite !driver_calls_app, Hdc5, app_nil_r in Hin.
  apply elem_of_app in Hin as [Hin | Hin]; [eapply Hgood3; exact Hin |].
  pose proof (Hcalls4 _ _ _ Hin) as Hp. apply Hbatch3 in Hp.
  eapply filled_from_fill; [eapply Hc4; exact Hin | exact Hp].
Qed.

(** X28. Every buffer a drain hands to the driver was filled from a
    descriptor of the ring: its length is the length of the descriptor
    its data lie behind, cut to [max_len] when the descriptor is longer,
    so never above [max_len]; the bytes copied are as many, but 64 when
    the length is below 64; its device is the device of the drain. *)
Theorem __pfq_queue_xmit_filled (fuel : nat) (idx : nat) (to : pfq_tx_opt)
    (cpu node : Z) (w : world)
    (ret : Z) (to' : pfq_tx_opt) (mem' : tx_memory) (w' : world) :
  __pfq_queue_xmit cfg env fuel idx to mem dev cpu node w
    = Some (ret, to', mem', w') ->
  exists d,
    w_trace w' = w_trace w ++ d /\
    forall p s rc,
      (p, s, rc) ∈ driver_calls d ->
      filled_from cfg mem dev s /\
      skb_len s <= to_u64 (max_len cfg) /\
      skb_len s <= skb_copied s /\ 64 <= skb_copied s.
Proof.
  intros H. apply __pfq_queue_xmit_fill in H as (d & Ht & Hgood & _).
  exists d. split; [exact Ht |].
  intros p s rc Hin. pose proof (Hgood _ _ _ Hin) as Hg.
  split; [exact Hg |]. destruct Hg as (Hlen & Hcopied & _).
  cbv zeta in Hlen, Hcopied. rewrite Hcopied, Hlen.
  split; [apply Z.le_min_r |].
  destruct (Z.ltb_spec
              (Z.min (to_u64 (pkt_len (mem (skb_data s - sizeof_pfq_pkthdr_tx))))
                     (to_u64 (max_len cfg))) 64); lia.
Qed.

(** X29. The global counters follow the counters of the socket: over a
    whole drain [global_stats.sent] and [global_stats.disc] move by
    what [stats.sent] and [stats.disc] of the socket move by. *)
Theorem __pfq_queue_xmit_global_stats (fuel : nat) (idx : nat)
    (to : pfq_tx_opt) (cpu node : Z) (w : world)
    (ret : Z) (to' : pfq_tx_opt) (mem' : tx_memory) (w' : world) :
  __pfq_queue_xmit cfg env fuel idx to mem dev cpu node w
    = Some (ret, to', mem', w') ->
  w_sent w' - w_sent w = to_stats_sent to' - to_stats_sent to /\
  w_disc w' - w_disc w = to_stats_disc to' - to_stats_disc to.
Proof.
  intros H. apply __pfq_queue_xmit_fill in H as (d & _ & _ & Hs & Hd).
  split; [exact Hs | exact Hd].
Qed.

End Loop.

End Fill.

(** ** A commit hands no buffer head to the driver twice *)

Lemma ascending_lower (l : list nat) (lo lo' hi : nat) :
  ascending lo hi l -> (lo' <= lo)%nat -> ascending lo' hi l.
Proof.
  destruct l as [| p l]; simpl; intros H Hle; [lia |].
  destruct H as [Hp H]. split; [lia | exact H].
Qed.

Lemma ascending_app (a : list nat) :
  forall (lo mid hi : nat) (b : list nat),
    ascending lo mid a -> ascending mid hi b -> ascending lo hi (a ++ b).
Proof.
  induction a as [| p a IH]; intros lo mid hi b Ha Hb; simpl in *.
  - eapply ascending_lower; eassumption.
  - destruct Ha as [Hp Ha]. pose proof (ascending_bound _ _ _ Hb) as Hle.
    split; [lia | eapply IH; eassumption].
Qed.

Lemma submitted_app (a b : list event) :
  submitted (a ++ b) = submitted a ++ submitted b.
Proof. unfold submitted. rewrite driver_calls_app. apply map_app. Qed.

Lemma clones_of_app (n0 : nat) (a b : list nat) :
  clones_of n0 (a ++ b) = clones_of n0 a ++ clones_of n0 b.
Proof. apply filter_app. Qed.

Lemma originals_of_app (n0 : nat) (a b : list nat) :
  originals_of n0 (a ++ b) = originals_of n0 a ++ originals_of n0 b.
Proof. apply filter_app. Qed.

(** Fresh buffers are all clones. *)
Lemma clones_of_fresh (n0 : nat) (cl : list nat) :
  forall lo hi : nat,
    ascending lo hi cl -> (n0 <= lo)%nat ->
    clones_of n0 cl = cl /\ originals_of n0 cl = [].
Proof.
  unfold clones_of, originals_of.
  induction cl as [| p cl IH]; intros lo hi H Hle; simpl in H; [auto |].
  destruct H as [Hp H]. rewrite !filter_cons.
  destruct (IH (S p) hi H) as [-> ->]; [lia |].
  destruct (decide (n0 <= p)%nat); [| lia].
  destruct (decide (p < n0)%nat); [lia | auto].
Qed.

Lemma originals_of_old (n0 p : nat) :
  (p < n0)%nat -> clones_of n0 [p] = [] /\ originals_of n0 [p] = [p].
Proof.
  intros Hp. unfold clones_of, originals_of. rewrite !filter_cons, !filter_nil.
  destruct (decide (n0 <= p)%nat); [lia |].
  destruct (decide (p < n0)%nat); [auto | lia].
Qed.

Lemma NoDup_clones_originals (n0 : nat) (l : list nat) :
  NoDup (clones_of n0 l) -> NoDup (originals_of n0 l) -> NoDup l.
Proof.
  unfold clones_of, originals_of.
  induction l as [| p l IH]; intros Hc Ho; [constructor |].
  rewrite filter_cons in Hc, Ho.
  destruct (decide (n0 <= p)%nat) as [Hge | Hlt];
    destruct (decide (p < n0)%nat) as [Hlt' | Hge']; try lia.
  - apply NoDup_cons in Hc as [Hnotin Hc].
    apply NoDup_cons. split; [| apply IH; assumption].
    intros Hin. apply Hnotin. apply list_elem_of_filter. auto.
  - apply NoDup_cons in Ho as [Hnotin Ho].
    apply NoDup_cons. split; [| apply IH; assumption].
    intros Hin. apply Hnotin. apply list_elem_of_filter. auto.
Qed.

Lemma xmit_events_submitted (p : nat) (ok : sk_buff -> Prop) (rc : Z)
    (d : list event) :
  xmit_events p ok rc d -> submitted d = [] \/ submitted d = [p].
Proof. intros H. destruct H; simpl; auto. Qed.

(** The log of a buffer in flight is the log of its entry. *)
Lemma gc_log_unique (gc : list (nat * gc_log)) (p : nat) (l1 l2 : gc_log) :
  NoDup (map fst gc) -> (p, l1) ∈ gc -> (p, l2) ∈ gc -> l1 = l2.
Proof.
  induction gc as [| [q l] gc IH]; intros Hnd H1 H2.
  - apply elem_of_nil in H1. contradiction.
  - simpl in Hnd. apply NoDup_cons in Hnd as [Hnotin Hnd].
    assert (Hfst : forall l', (q, l') ∈ gc -> False).
    { intros l' Hin. apply Hnotin.
      apply list_elem_of_In. apply in_map_iff. exists (q, l').
      split; [reflexivity | apply list_elem_of_In; exact Hin]. }
    apply elem_of_cons in H1 as [H1 | H1];
      apply elem_of_cons in H2 as [H2 | H2].
    + congruence.
    + assert (p = q) by congruence. subst p. exfalso. eapply Hfst; exact H2.
    + assert (p = q) by congruence. subst p. exfalso. eapply Hfst; exact H1.
    + apply IH; assumption.
Qed.

Section Once.

Variable cfg : config.
Variable env : environment.

(** The loop on [j]: the buffer itself is handed over at the last
    forward, if at all; what comes before are fresh clones. *)
Lemma lazy_xmit_times_once (skb : nat) (dev : net_device) (txq cnt : Z)
    (num : nat) :
  forall (log : gc_log) (sent_dev sent : Z) (w : world)
         (log' : gc_log) (sent_dev' sent' : Z) (w' : world) (R : Z),
    lazy_xmit_times cfg env num skb dev txq cnt log sent_dev sent w
      = (log', sent_dev', sent', w') ->
    0 <= R ->
    (log_to_kernel log <> 0 \/
     Z.of_nat num + R <= log_xmit_todo log < 2 ^ 64) ->
    exists d cl,
      w_trace w' = w_trace w ++ d /\
      ascending (w_next w) (w_next w') cl /\
      (submitted d = cl \/
       (submitted d = cl ++ [skb] /\ log_to_kernel log = 0 /\ R = 0 /\
        (0 < num)%nat)).
Proof.
  induction num as [| num IH];
    intros log sent_dev sent w log' sent_dev' sent' w' R H HR Hlog.
  - injection H as <- <- <- <-. exists [], []. rewrite app_nil_r. simpl.
    split; [reflexivity |]. split; [lia | left; reflexivity].
  - rewrite lazy_xmit_times_step in H. cbv zeta in H.
    destruct (if negb (log_to_kernel log =? 0) then (true, log)
              else (log_xmit_todo log >? 1,
                    with_xmit_todo (to_u64 (log_xmit_todo log - 1)) log))
      as [to_clone log1] eqn:Hsel.
    assert (Hfacts :
              (to_clone = true /\
               (log_to_kernel log1 <> 0 \/
                Z.of_nat num + R <= log_xmit_todo log1 < 2 ^ 64) /\
               (log_to_kernel log1 = 0 -> log_to_kernel log = 0)) \/
              (to_clone = false /\ num = 0%nat /\ R = 0 /\
               log_to_kernel log = 0)).
    { destruct (Z.eqb_spec (log_to_kernel log) 0) as [Hk | Hk];
        simpl in Hsel; injection Hsel as <- <-.
      - destruct Hlog as [Hlog | Hlog]; [contradiction |].
        destruct (Z.gtb_spec (log_xmit_todo log) 1) as [Hgt | Hle].
        + left. split; [reflexivity |]. split; [| auto].
          right. simpl. unfold to_u64. rewrite Z.mod_small by lia. lia.
        + right. split; [reflexivity |]. split; [lia |]. split; [lia | exact Hk].
      - left. split; [reflexivity |]. split; [left; exact Hk | auto]. }
    clear Hsel.
    destruct Hfacts as [(-> & Hlog1 & Hk1) | (-> & -> & -> & Hk)].
    + (* a clone is submitted *)
      unfold skb_clone, observe in H.
      destruct (env_clone_ok env (w_tick w)).
      * cbv beta iota zeta in H.
        match type of H with
        | context [__pfq_xmit cfg env ?q dev txq ?m ?w1] =>
            destruct (__pfq_xmit cfg env q dev txq m w1) as [rc w2] eqn:Hx
        end.
        apply __pfq_xmit_events in Hx as (d1 & Ht1 & (_ & Hn1 & _) & Hev).
        simpl in Ht1, Hn1.
        apply xmit_events_submitted in Hev.
        assert (Hrest : exists d2 cl2,
                   w_trace w' = w_trace w2 ++ d2 /\
                   ascending (w_next w2) (w_next w') cl2 /\
                   (submitted d2 = cl2 \/
                    (submitted d2 = cl2 ++ [skb] /\ log_to_kernel log1 = 0 /\
                     R = 0 /\ (0 < num)%nat))).
        { destruct (rc =? NETDEV_TX_OK);
            apply IH with (R := R) in H; try assumption; exact H. }
        destruct Hrest as (d2 & cl2 & Ht2 & Hasc2 & Hsub2).
        pose proof (ascending_bound _ _ _ Hasc2) as Hle2.
        exists (d1 ++ d2), (submitted d1 ++ cl2).
        split; [rewrite Ht2, Ht1, <- app_assoc; reflexivity |].
        split.
        { rewrite Hn1 in Hasc2, Hle2.
          destruct Hev as [-> | ->]; simpl.
          - eapply ascending_lower; [exact Hasc2 | lia].
          - split; [lia | exact Hasc2]. }
        rewrite submitted_app.
        destruct Hsub2 as [-> | (-> & Hk & HR0 & Hnum)].
        -- left. reflexivity.
        -- right. rewrite app_assoc. split; [reflexivity |].
           split; [auto |]. split; [exact HR0 | lia].
      * cbv beta iota zeta in H.
        apply IH with (R := R) in H; [| exact HR | exact Hlog1].
        destruct H as (d2 & cl2 & Ht2 & Hasc2 & Hsub2).
        exists d2, cl2. simpl in Ht2, Hasc2.
        split; [exact Ht2 |]. split; [exact Hasc2 |].
        destruct Hsub2 as [-> | (-> & Hk & HR0 & Hnum)]; [left; reflexivity |].
        right. split; [reflexivity |]. split; [auto |]. split; [exact HR0 | lia].
    + (* the buffer itself is submitted *)
      match type of H with
      | context [__pfq_xmit cfg env skb dev txq ?m ?w1] =>
          destruct (__pfq_xmit cfg env skb dev txq m w1) as [rc w2] eqn:Hx
      end.
      apply __pfq_xmit_events in Hx as (d1 & Ht1 & (_ & Hn1 & _) & Hev).
      simpl in Ht1, Hn1.
      apply xmit_events_submitted in Hev.
      assert (Hw' : w_trace w' = w_trace w2 /\ w_next w' = w_next w2).
      { destruct (rc =? NETDEV_TX_OK); simpl in H; injection H as <- <- <- <-;
          simpl; auto. }
      destruct Hw' as [Ht' Hn'].
      exists d1, []. rewrite Ht', Hn', Hn1. simpl.
      split; [exact Ht1 |]. split; [lia |].
      destruct Hev as [-> | ->]; [left; reflexivity |].
      right. split; [reflexivity |]. split; [exact Hk |]. split; [reflexivity | lia].
Qed.

(** The loop on [i], for buffers allocated before [n0]: a buffer is
    handed over itself only if it does not go to the kernel, the target
    takes forwards of it and no forward is left for later targets. *)
Lemma lazy_xmit_scan_once (dev : net_device) (cnt : Z) (F : gc_log -> Z)
    (n0 : nat) (gc : list (nat * gc_log)) :
  forall (txq : option Z) (sent_dev sent : Z) (w : world)
         (gc' : list (nat * gc_log)) (txq' : option Z) (sent' : Z)
         (w' : world),
    lazy_xmit_scan cfg env gc dev cnt txq sent_dev sent w
      = (gc', txq', sent', w') ->
    (forall log, 0 <= F log) ->
    (n0 <= w_next w)%nat ->
    NoDup (map fst gc) ->
    Forall (fun e => (fst e < n0)%nat) gc ->
    Forall (fun e => log_to_kernel (snd e) <> 0 \/
                     gc_count_dev_in_log dev (snd e) + F (snd e)
                     <= log_xmit_todo (snd e) < 2 ^ 64) gc ->
    exists d,
      w_trace w' = w_trace w ++ d /\
      ascending (w_next w) (w_next w') (clones_of n0 (submitted d)) /\
      NoDup (originals_of n0 (submitted d)) /\
      forall p,
        p ∈ originals_of n0 (submitted d) ->
        exists log,
          (p, log) ∈ gc /\ log_to_kernel log = 0 /\ F log = 0 /\
          0 < gc_count_dev_in_log dev log.
Proof.
  induction gc as [| [skb log] gc IH];
    intros txq sent_dev sent w gc' txq' sent' w' H HF Hn0 Hnd Hold Hlogs.
  - injection H as <- <- <- <-. exists []. rewrite app_nil_r. simpl.
    split; [reflexivity |]. split; [lia |]. split; [constructor |].
    intros p Hp. apply elem_of_nil in Hp. contradiction.
  - rewrite lazy_xmit_scan_step in H. cbv zeta in H.
    simpl in Hnd. apply NoDup_cons in Hnd as [Hnotin Hnd].
    apply Forall_cons in Hold as [Hskb Hold].
    apply Forall_cons in Hlogs as [Hlog Hlogs].
    simpl in Hskb, Hlog.
    pose proof (gc_count_dev_in_log_nonneg dev log) as Hnn.
    destruct (Z.eqb_spec (gc_count_dev_in_log dev log) 0) as [Hz | Hnz].
    + destruct (lazy_xmit_scan cfg env gc dev cnt txq sent_dev sent w)
        as [[[gc2 txq2] sent2] w2] eqn:Hrest.
      injection H as <- <- <- <-.
      apply IH in Hrest as (d & Ht & Hasc & Hno & Horig); try assumption.
      exists d. split; [exact Ht |]. split; [exact Hasc |].
      split; [exact Hno |].
      intros p Hp. destruct (Horig p Hp) as (l & Hin & Hrest').
      exists l. split; [apply list_elem_of_further; exact Hin | exact Hrest'].
    + assert (Hlock : exists q w1 d0,
                 match txq with
                 | Some q => (q, w)
                 | None =>
                     (pfq_pick_tx dev (skb_at w skb)
                                  (skb_queue_mapping (skb_at w skb)),
                      emit (EvLock (pfq_pick_tx dev (skb_at w skb)
                                      (skb_queue_mapping (skb_at w skb)))) w)
                 end = (q, w1) /\
                 w_trace w1 = w_trace w ++ d0 /\
                 submitted d0 = [] /\ w_next w1 = w_next w).
      { destruct txq as [q |].
        - exists q, w, []. rewrite app_nil_r. auto.
        - eexists _, _, [_]. split; [reflexivity |]. simpl. auto. }
      destruct Hlock as (q & w1 & d0 & Hsel & Ht0 & Hsub0 & Hnext0).
      rewrite Hsel in H.
      destruct (lazy_xmit_times cfg env (Z.to_nat (gc_count_dev_in_log dev log))
                  skb dev q cnt log sent_dev sent w1)
        as [[[log1 sent_dev1] sent1] w2] eqn:Htimes.
      apply lazy_xmit_times_once with (R := F log) in Htimes;
        [| apply HF | rewrite Z2Nat.id by lia; exact Hlog].
      destruct Htimes as (d1 & cl & Ht1 & Hasc1 & Hsub1).
      rewrite Hnext0 in Hasc1.
      pose proof (ascending_bound _ _ _ Hasc1) as Hle1.
      destruct (lazy_xmit_scan cfg env gc dev cnt (Some q) sent_dev1 sent1 w2)
        as [[[gc2 txq2] sent2] w3] eqn:Hrest.
      injection H as <- <- <- <-.
      apply IH in Hrest as (d2 & Ht2 & Hasc2 & Hno2 & Horig2);
        [| exact HF | lia | exact Hnd | exact Hold | exact Hlogs].
      destruct (clones_of_fresh n0 cl _ _ Hasc1 Hn0) as [Hcl Hcl0].
      destruct (originals_of_old n0 skb Hskb) as [Hsk0 Hsk].
      exists (d0 ++ d1 ++ d2).
      split; [rewrite Ht2, Ht1, Ht0, <- !app_assoc; reflexivity |].
      rewrite !submitted_app, Hsub0. simpl.
      rewrite clones_of_app, originals_of_app.
      assert (Hin2 : forall p, p ∈ originals_of n0 (submitted d2) ->
                exists l, (p, l) ∈ (skb, log) :: gc /\ log_to_kernel l = 0 /\
                          F l = 0 /\ 0 < gc_count_dev_in_log dev l).
      { intros p Hp. destruct (Horig2 p Hp) as (l & Hin & Hrest').
        exists l. split; [apply list_elem_of_further; exact Hin | exact Hrest']. }
      destruct Hsub1 as [-> | (-> & Hk & HR0 & Hnum)].
      * rewrite Hcl, Hcl0. simpl.
        split; [eapply ascending_app; eassumption |].
        split; [exact Hno2 | exact Hin2].
      * rewrite clones_of_app, originals_of_app, Hcl, Hcl0, Hsk0, Hsk.
        rewrite app_nil_r. simpl.
        split; [eapply ascending_app; eassumption |].
        split.
        { apply NoDup_cons. split; [| exact Hno2].
          intros Hin. destruct (Horig2 skb Hin) as (l & Hl & _).
          apply Hnotin. apply list_elem_of_In. apply in_map_iff.
          exists (skb, l). split; [reflexivity | apply list_elem_of_In; exact Hl]. }
        intros p Hp. apply elem_of_cons in Hp as [-> | Hp]; [| apply Hin2; exact Hp].
        exists log. split; [apply list_elem_of_here |].
        split; [exact Hk |]. split; [exact HR0 | lia].
Qed.

(** The loop on [n]: a buffer handed over itself has no forward left. *)
Lemma lazy_xmit_exec_loop_once (n0 : nat) (ts : list (net_device * Z)) :
  forall (gc : list (nat * gc_log)) (sent : Z) (w : world)
         (sent' : Z) (gc' : list (nat * gc_log)) (w' : world),
    lazy_xmit_exec_loop cfg env ts gc sent w = (sent', gc', w') ->
    (n0 <= w_next w)%nat ->
    NoDup (map fst gc) ->
    Forall (fun e => (fst e < n0)%nat) gc ->
    Forall (fun e => log_to_kernel (snd e) <> 0 \/
                     forwards ts (snd e) <= log_xmit_todo (snd e) < 2 ^ 64) gc ->
    exists d,
      w_trace w' = w_trace w ++ d /\
      ascending (w_next w) (w_next w') (clones_of n0 (submitted d)) /\
      NoDup (originals_of n0 (submitted d)) /\
      forall p,
        p ∈ originals_of n0 (submitted d) ->
        exists log,
          (p, log) ∈ gc /\ log_to_kernel log = 0 /\ 0 < forwards ts log.
Proof.
  induction ts as [| [dev cnt] ts IH];
    intros gc sent w sent' gc' w' H Hn0 Hnd Hold Hlogs.
  - injection H as <- <- <-. exists []. rewrite app_nil_r. simpl.
    split; [reflexivity |]. split; [lia |]. split; [constructor |].
    intros p Hp. apply elem_of_nil in Hp. contradiction.
  - change (lazy_xmit_exec_loop cfg env ((dev, cnt) :: ts) gc sent w)
      with
      (let '(gc, txq, sent, w) :=
         lazy_xmit_scan cfg env gc dev cnt None 0 sent w in
       let w := match txq with Some q => emit (EvUnlock q) w | None => w end in
       lazy_xmit_exec_loop cfg env ts gc sent w) in H.
    pose proof (lazy_xmit_scan_logs cfg env dev cnt gc None 0 sent w) as Hgc1.
    destruct (lazy_xmit_scan cfg env gc dev cnt None 0 sent w)
      as [[[gc1 txq1] sent1] w1] eqn:Hscan.
    simpl in Hgc1.
    apply lazy_xmit_scan_once with (F := forwards ts) (n0 := n0) in Hscan;
      [| apply forwards_nonneg | exact Hn0 | exact Hnd | exact Hold | exact Hlogs].
    destruct Hscan as (d1 & Ht1 & Hasc1 & Hno1 & Horig1).
    pose proof (ascending_bound _ _ _ Hasc1) as Hle1.
    set (w1' := match txq1 with Some q => emit (EvUnlock q) w1 | None => w1 end) in *.
    assert (Hunlock : exists du,
               w_trace w1' = w_trace w1 ++ du /\ submitted du = [] /\
               w_next w1' = w_next w1).
    { subst w1'. destruct txq1 as [q |].
      - exists [EvUnlock q]. auto.
      - exists []. rewrite app_nil_r. auto. }
    destruct Hunlock as (du & Htu & Hsubu & Hnextu).
    assert (Hfst1 : map fst gc1 = map fst gc).
    { rewrite Hgc1, map_map. reflexivity. }
    apply IH in H.
    2: { rewrite Hnextu. lia. }
    2: { rewrite Hfst1. exact Hnd. }
    2: { rewrite Hgc1. apply Forall_map. simpl. exact Hold. }
    2: { rewrite Hgc1. apply Forall_map. simpl.
         eapply Forall_impl; [exact Hlogs |].
         intros [skb log]. simpl. intros Hlog.
         destruct (forwarded_fields (gc_count_dev_in_log dev log) log)
           as (_ & _ & Hk).
         rewrite Hk, forwards_forwarded.
         destruct Hlog as [Hlog | Hlog]; [left; exact Hlog |].
         right.
         pose proof (gc_count_dev_in_log_nonneg dev log) as Hnn.
         pose proof (forwards_nonneg ts log) as Hfn.
         unfold forwarded.
         destruct ((log_to_kernel log =? 0)
                   && (0 <? gc_count_dev_in_log dev log)); [| lia].
         simpl. unfold to_u64. rewrite Z.mod_small by lia. lia. }
    destruct H as (d2 & Ht2 & Hasc2 & Hno2 & Horig2).
    rewrite Hnextu in Hasc2.
    exists (d1 ++ du ++ d2).
    split; [rewrite Ht2, Htu, Ht1, <- !app_assoc; reflexivity |].
    rewrite !submitted_app, Hsubu. simpl.
    rewrite clones_of_app, originals_of_app.
    split; [eapply ascending_app; eassumption |].
    assert (Hlate : forall p,
              p ∈ originals_of n0 (submitted d2) ->
              exists log, (p, log) ∈ gc /\ log_to_kernel log = 0 /\
                          0 < forwards ts log).
    { intros p Hp. destruct (Horig2 p Hp) as (l1 & Hin1 & Hk1 & Hf1).
      rewrite Hgc1 in Hin1. apply list_elem_of_In in Hin1.
      apply in_map_iff in Hin1 as ([skb log] & Heq & Hin).
      simpl in Heq. injection Heq as -> <-.
      destruct (forwarded_fields (gc_count_dev_in_log dev log) log)
        as (_ & _ & Hk).
      rewrite Hk in Hk1. rewrite forwards_forwarded in Hf1.
      exists log. split; [apply list_elem_of_In; exact Hin | auto]. }
    split.
    { apply NoDup_app. split; [exact Hno1 |]. split; [| exact Hno2].
      intros p Hp1 Hp2.
      destruct (Horig1 p Hp1) as (l & Hin & _ & Hzero & _).
      destruct (Hlate p Hp2) as (l' & Hin' & _ & Hpos).
      rewrite (gc_log_unique gc p l l' Hnd Hin Hin') in Hzero. lia. }
    intros p Hp. apply elem_of_app in Hp as [Hp | Hp].
    + destruct (Horig1 p Hp) as (l & Hin & Hk & _ & Hpos).
      exists l. split; [exact Hin |]. split; [exact Hk |].
      simpl. pose proof (forwards_nonneg ts l). lia.
    + destruct (Hlate p Hp) as (l & Hin & Hk & Hpos).
      exists l. split; [exact Hin |]. split; [exact Hk |].
      simpl. pose proof (gc_count_dev_in_log_nonneg dev l). lia.
Qed.

(** X30. A commit hands no buffer head to the driver twice.  For
    distinct buffers in flight, allocated before the commit, each with a
    log that goes to the kernel or asks for no more forwards than its
    [xmit_todo] counts: the buffers [pfq_lazy_xmit_exec] submits are
    all different; each is a clone made by the commit, the clones being
    submitted in the order they were made, or a buffer in flight that
    does not go to the kernel and of which a target takes a forward; a
    buffer that goes to the kernel is never submitted itself. *)
Theorem pfq_lazy_xmit_exec_once (gc : list (nat * gc_log))
    (ts : list (net_device * Z)) (w w' : world) (sent : Z)
    (gc' : list (nat * gc_log)) :
  NoDup (map fst gc) ->
  Forall (fun e => (fst e < w_next w)%nat) gc ->
  Forall (fun e => log_to_kernel (snd e) <> 0 \/
                   forwards ts (snd e) <= log_xmit_todo (snd e) < 2 ^ 64) gc ->
  pfq_lazy_xmit_exec cfg env gc ts w = (sent, gc', w') ->
  exists d,
    w_trace w' = w_trace w ++ d /\
    NoDup (submitted d) /\
    ascending (w_next w) (w_next w') (clones_of (w_next w) (submitted d)) /\
    (forall p,
        p ∈ submitted d ->
        (w_next w <= p < w_next w')%nat \/
        exists log,
          (p, log) ∈ gc /\ log_to_kernel log = 0 /\ 0 < forwards ts log) /\
    forall skb log,
      (skb, log) ∈ gc -> log_to_kernel log <> 0 -> skb ∉ submitted d.
Proof.
  intros Hnd Hold Hlogs H. unfold pfq_lazy_xmit_exec in H.
  apply lazy_xmit_exec_loop_once with (n0 := w_next w) in H
    as (d & Ht & Hasc & Hno & Horig); [| lia | exact Hnd | exact Hold | exact Hlogs].
  destruct (ascending_spec _ _ _ Hasc) as [Hbounds Hndc].
  exists d. split; [exact Ht |].
  split; [apply (NoDup_clones_originals (w_next w)); assumption |].
  split; [exact Hasc |].
  split.
  { intros p Hp. destruct (decide (w_next w <= p)%nat) as [Hge | Hlt].
    - left. rewrite Forall_forall in Hbounds. apply Hbounds.
      apply list_elem_of_filter. split; assumption.
    - right. apply Horig. apply list_elem_of_filter. split; [lia | exact Hp]. }
  intros skb log Hin Hk Hsub.
  assert (Hp : skb ∈ originals_of (w_next w) (submitted d)).
  { apply list_elem_of_filter. split; [| exact Hsub].
    rewrite Forall_forall in Hold. apply (Hold _ Hin). }
  destruct (Horig skb Hp) as (l & Hin' & Hk' & _).
  rewrite (gc_log_unique gc skb log l Hnd Hin Hin') in Hk. contradiction.
Qed.

End Once.

(** ** What a commit hands to the driver *)

Section Commit.

Variable cfg : config.
Variable env : environment.

(** The loop on [j]: the driver is handed clones made on the way, or
    the buffer itself when its log does not go to the kernel. *)
Lemma lazy_xmit_times_source (skb : nat) (dev : net_device) (txq cnt : Z)
    (num : nat) :
  forall (log : gc_log) (sent_dev sent : Z) (w : world)
         (log' : gc_log) (sent_dev' sent' : Z) (w' : world),
    lazy_xmit_times cfg env num skb dev txq cnt log sent_dev sent w
      = (log', sent_dev', sent', w') ->
    exists d,
      w_trace w' = w_trace w ++ d /\
      (w_next w <= w_next w')%nat /\
      forall p, p ∈ submitted d ->
        (w_next w <= p < w_next w')%nat \/ (p = skb /\ log_to_kernel log = 0).
Proof.
  induction num as [| num IH];
    intros log sent_dev sent w log' sent_dev' sent' w' H.
  - injection H as <- <- <- <-. exists []. rewrite app_nil_r.
    split; [reflexivity |]. split; [lia |].
    intros p Hp. apply elem_of_nil in Hp. contradiction.
  - rewrite lazy_xmit_times_step in H. cbv zeta in H.
    destruct (if negb (log_to_kernel log =? 0) then (true, log)
              else (log_xmit_todo log >? 1,
                    with_xmit_todo (to_u64 (log_xmit_todo log - 1)) log))
      as [to_clone log1] eqn:Hsel.
    assert (Hk : log_to_kernel log1 = log_to_kernel log /\
                 (to_clone = false -> log_to_kernel log = 0)).
    { destruct (Z.eqb_spec (log_to_kernel log) 0) as [Hz | Hnz];
        simpl in Hsel; injection Hsel as <- <-.
      - split; [reflexivity | auto].
      - split; [reflexivity | discriminate]. }
    destruct Hk as [Hk Hget]. clear Hsel.
    destruct to_clone.
    + unfold skb_clone, observe in H.
      destruct (env_clone_ok env (w_tick w)).
      * cbv beta iota zeta in H.
        match type of H with
        | context [__pfq_xmit cfg env ?q dev txq ?m ?w1] =>
            destruct (__pfq_xmit cfg env q dev txq m w1) as [rc w2] eqn:Hx
        end.
        apply __pfq_xmit_events in Hx as (d1 & Ht1 & (_ & Hn1 & _) & Hev).
        simpl in Ht1, Hn1.
        apply xmit_events_submitted in Hev.
        assert (Hrest : exists d2,
                   w_trace w' = w_trace w2 ++ d2 /\
                   (w_next w2 <= w_next w')%nat /\
                   forall p, p ∈ submitted d2 ->
                     (w_next w2 <= p < w_next w')%nat \/
                     (p = skb /\ log_to_kernel log1 = 0)).
        { destruct (rc =? NETDEV_TX_OK); apply IH in H; exact H. }
        destruct Hrest as (d2 & Ht2 & Hle2 & Hsrc2).
        exists (d1 ++ d2).
        split; [rewrite Ht2, Ht1, <- app_assoc; reflexivity |].
        split; [lia |].
        intros p Hp. rewrite submitted_app in Hp.
        apply elem_of_app in Hp as [Hp | Hp].
        -- destruct Hev as [Hev | Hev]; rewrite Hev in Hp.
           ++ apply elem_of_nil in Hp. contradiction.
           ++ apply list_elem_of_singleton in Hp. subst p. left. simpl. lia.
        -- destruct (Hsrc2 p Hp) as [Hr | [-> Hz]]; [left; lia |].
           right. split; [reflexivity | congruence].
      * cbv beta iota zeta in H. apply IH in H as (d2 & Ht2 & Hle2 & Hsrc2).
        simpl in Ht2, Hle2, Hsrc2.
        exists d2. split; [exact Ht2 |]. split; [exact Hle2 |].
        intros p Hp. destruct (Hsrc2 p Hp) as [Hr | [-> Hz]]; [left; exact Hr |].
        right. split; [reflexivity | congruence].
    + specialize (Hget eq_refl).
      match type of H with
      | context [__pfq_xmit cfg env skb dev txq ?m ?w1] =>
          destruct (__pfq_xmit cfg env skb dev txq m w1) as [rc w2] eqn:Hx
      end.
      apply __pfq_xmit_events in Hx as (d1 & Ht1 & (_ & Hn1 & _) & Hev).
      simpl in Ht1, Hn1.
      apply xmit_events_submitted in Hev.
      assert (Hrest : exists d2,
                 w_trace w' = w_trace w2 ++ d2 /\
                 (w_next w2 <= w_next w')%nat /\
                 forall p, p ∈ submitted d2 ->
                   (w_next w2 <= p < w_next w')%nat \/
                   (p = skb /\ log_to_kernel log1 = 0)).
      { destruct (rc =? NETDEV_TX_OK); apply IH in H; exact H. }
      destruct Hrest as (d2 & Ht2 & Hle2 & Hsrc2).
      exists (d1 ++ d2).
      split; [rewrite Ht2, Ht1, <- app_assoc; reflexivity |].
      split; [lia |].
      intros p Hp. rewrite submitted_app in Hp.
      apply elem_of_app in Hp as [Hp | Hp].
      * destruct Hev as [Hev | Hev]; rewrite Hev in Hp.
        -- apply elem_of_nil in Hp. contradiction.
        -- apply list_elem_of_singleton in Hp. subst p. right. auto.
      * destruct (Hsrc2 p Hp) as [Hr | [-> Hz]]; [left; lia |].
        right. split; [reflexivity | exact Hget].
Qed.

(** The loop on [i]. *)
Lemma lazy_xmit_scan_source (dev : net_device) (cnt : Z)
    (gc : list (nat * gc_log)) :
  forall (txq : option Z) (sent_dev sent : Z) (w : world)
         (gc' : list (nat * gc_log)) (txq' : option Z) (sent' : Z)
         (w' : world),
    lazy_xmit_scan cfg env gc dev cnt txq sent_dev sent w
      = (gc', txq', sent', w') ->
    exists d,
      w_trace w' = w_trace w ++ d /\
      (w_next w <= w_next w')%nat /\
      forall p, p ∈ submitted d ->
        (w_next w <= p < w_next w')%nat \/
        exists log, (p, log) ∈ gc /\ log_to_kernel log = 0.
Proof.
  induction gc as [| [skb log] gc IH];
    intros txq sent_dev sent w gc' txq' sent' w' H.
  - injection H as <- <- <- <-. exists []. rewrite app_nil_r.
    split; [reflexivity |]. split; [lia |].
    intros p Hp. apply elem_of_nil in Hp. contradiction.
  - rewrite lazy_xmit_scan_step in H. cbv zeta in H.
    destruct (gc_count_dev_in_log dev log =? 0).
    + destruct (lazy_xmit_scan cfg env gc dev cnt txq sent_dev sent w)
        as [[[gc2 txq2] sent2] w2] eqn:Hrest.
      injection H as <- <- <- <-.
      apply IH in Hrest as (d & Ht & Hle & Hsrc).
      exists d. split; [exact Ht |]. split; [exact Hle |].
      intros p Hp. destruct (Hsrc p Hp) as [Hr | (l & Hin & Hz)];
        [left; exact Hr |].
      right. exists l. split; [apply list_elem_of_further; exact Hin | exact Hz].
    + assert (Hlock : exists q w1 d0,
                 match txq with
                 | Some q => (q, w)
                 | None =>
                     (pfq_pick_tx dev (skb_at w skb)
                                  (skb_queue_mapping (skb_at w skb)),
                      emit (EvLock (pfq_pick_tx dev (skb_at w skb)
                                      (skb_queue_mapping (skb_at w skb)))) w)
                 end = (q, w1) /\
                 w_trace w1 = w_trace w ++ d0 /\
                 submitted d0 = [] /\ w_next w1 = w_next w).
      { destruct txq as [q |].
        - exists q, w, []. rewrite app_nil_r. auto.
        - eexists _, _, [_]. split; [reflexivity |]. simpl. auto. }
      destruct Hlock as (q & w1 & d0 & Hsel & Ht0 & Hsub0 & Hnext0).
      rewrite Hsel in H.
      destruct (lazy_xmit_times cfg env (Z.to_nat (gc_count_dev_in_log dev log))
                  skb dev q cnt log sent_dev sent w1)
        as [[[log1 sent_dev1] sent1] w2] eqn:Htimes.
      apply lazy_xmit_times_source in Htimes as (d1 & Ht1 & Hle1 & Hsrc1).
      destruct (lazy_xmit_scan cfg env gc dev cnt (Some q) sent_dev1 sent1 w2)
        as [[[gc2 txq2] sent2] w3] eqn:Hrest.
      injection H as <- <- <- <-.
      apply IH in Hrest as (d2 & Ht2 & Hle2 & Hsrc2).
      exists (d0 ++ d1 ++ d2).
      split; [rewrite Ht2, Ht1, Ht0, <- !app_assoc; reflexivity |].
      split; [lia |].
      intros p Hp. rewrite !submitted_app, Hsub0 in Hp. simpl in Hp.
      apply elem_of_app in Hp as [Hp | Hp].
      * destruct (Hsrc1 p Hp) as [Hr | [-> Hz]]; [left; lia |].
        right. exists log. split; [apply list_elem_of_here | exact Hz].
      * destruct (Hsrc2 p Hp) as [Hr | (l & Hin & Hz)]; [left; lia |].
        right. exists l. split; [apply list_elem_of_further; exact Hin | exact Hz].
Qed.

(** The loop on [n]. *)
Lemma lazy_xmit_exec_loop_source (ts : list (net_device * Z)) :
  forall (gc : list (nat * gc_log)) (sent : Z) (w : world)
         (sent' : Z) (gc' : list (nat * gc_log)) (w' : world),
    lazy_xmit_exec_loop cfg env ts gc sent w = (sent', gc', w') ->
    exists d,
      w_trace w' = w_trace w ++ d /\
      (w_next w <= w_next w')%nat /\
      forall p, p ∈ submitted d ->
        (w_next w <= p < w_next w')%nat \/
        exists log, (p, log) ∈ gc /\ log_to_kernel log = 0.
Proof.
  induction ts as [| [dev cnt] ts IH]; intros gc sent w sent' gc' w' H.
  - injection H as <- <- <-. exists []. rewrite app_nil_r.
    split; [reflexivity |]. split; [lia |].
    intros p Hp. apply elem_of_nil in Hp. contradiction.
  - change (lazy_xmit_exec_loop cfg env ((dev, cnt) :: ts) gc sent w)
      with
      (let '(gc, txq, sent, w) :=
         lazy_xmit_scan cfg env gc dev cnt None 0 sent w in
       let w := match txq with Some q => emit (EvUnlock q) w | None => w end in
       lazy_xmit_exec_loop cfg env ts gc sent w) in H.
    pose proof (lazy_xmit_scan_logs cfg env dev cnt gc None 0 sent w) as Hgc1.
    destruct (lazy_xmit_scan cfg env gc dev cnt None 0 sent w)
      as [[[gc1 txq1] sent1] w1] eqn:Hscan.
    simpl in Hgc1.
    apply lazy_xmit_scan_source in Hscan as (d1 & Ht1 & Hle1 & Hsrc1).
    set (w1' := match txq1 with Some q => emit (EvUnlock q) w1 | None => w1 end) in *.
    assert (Hunlock : exists du,
               w_trace w1' = w_trace w1 ++ du /\ submitted du = [] /\
               w_next w1' = w_next w1).
    { subst w1'. destruct txq1 as [q |].
      - exists [EvUnlock q]. auto.
      - exists []. rewrite app_nil_r. auto. }
    destruct Hunlock as (du & Htu & Hsubu & Hnextu).
    apply IH in H as (d2 & Ht2 & Hle2 & Hsrc2).
    exists (d1 ++ du ++ d2).
    split; [rewrite Ht2, Htu, Ht1, <- !app_assoc; reflexivity |].
    split; [lia |].
    intros p Hp. rewrite !submitted_app, Hsubu in Hp. simpl in Hp.
    apply elem_of_app in Hp as [Hp | Hp].
    + destruct (Hsrc1 p Hp) as [Hr | Hold]; [left; lia | right; exact Hold].
    + destruct (Hsrc2 p Hp) as [Hr | (l1 & Hin1 & Hz1)]; [left; lia |].
      right. rewrite Hgc1 in Hin1. apply list_elem_of_In in Hin1.
      apply in_map_iff in Hin1 as ([skb log] & Heq & Hin).
      simpl in Heq. injection Heq as -> <-.
      destruct (forwarded_fields (gc_count_dev_in_log dev log) log)
        as (_ & _ & Hk).
      exists log. split; [apply list_elem_of_In; exact Hin | congruence].
Qed.

(** C3, as the code has it.  A commit leaves the targets of every log
    and its flag [to_kernel] as they were.  For a buffer whose flag is
    clear, [xmit_todo] goes down by one for every forward of the buffer,
    one for each reference of its log to a target of the commit, whether
    the forward submits a clone, fails to clone or submits the buffer
    taken with [skb_get]: after a commit over distinct devices that
    cover the targets of the log, a counter that started at the number
    of targets is 0.  For a buffer whose flag is set [xmit_todo] stays
    as it was and the buffer is always cloned: whatever the driver is
    handed is a clone made by the commit or a buffer whose flag is
    clear, so a buffer in flight before the commit, with its flag set
    wherever it is listed, is never handed over itself.  Every forward
    ends with a buffer the driver took or with an abort. *)
Theorem pfq_lazy_xmit_exec_xmit_todo (gc : list (nat * gc_log))
    (ts : list (net_device * Z)) (w : world) (i : nat) (skb : nat)
    (log : gc_log) :
  gc !! i = Some (skb, log) ->
  0 <= log_xmit_todo log < 2 ^ 64 ->
  let '(sent, gc', w') := pfq_lazy_xmit_exec cfg env gc ts w in
  exists log' d,
    gc' !! i = Some (skb, log') /\
    w_trace w' = w_trace w ++ d /\
    sent + (w_abrt w' - w_abrt w) = total_forwards ts gc /\
    (forall p, p ∈ submitted d ->
       (w_next w <= p < w_next w')%nat \/
       exists log2, (p, log2) ∈ gc /\ log_to_kernel log2 = 0) /\
    log_dev log' = log_dev log /\
    log_num_devs log' = log_num_devs log /\
    log_to_kernel log' = log_to_kernel log /\
    (log_to_kernel log = 0 ->
     log_xmit_todo log' = to_u64 (log_xmit_todo log - forwards ts log) /\
     (NoDup (map (fun t => dev_ifindex (fst t)) ts) ->
      (forall d, d ∈ log_targets log ->
                 exists t, t ∈ ts /\ same_dev (fst t) d = true) ->
      log_xmit_todo log = Z.of_nat (length (log_targets log)) ->
      log_xmit_todo log' = 0)) /\
    (log_to_kernel log <> 0 ->
     log_xmit_todo log' = log_xmit_todo log /\
     ((skb < w_next w)%nat ->
      (forall log2, (skb, log2) ∈ gc -> log_to_kernel log2 <> 0) ->
      skb ∉ submitted d)).
Proof.
  intros Hi Hrange.
  pose proof (lazy_xmit_exec_loop_logs cfg env ts gc 0 w) as Hlogs.
  unfold pfq_lazy_xmit_exec.
  destruct (lazy_xmit_exec_loop cfg env ts gc 0 w) as [[sent gc'] w'] eqn:H.
  simpl in Hlogs.
  pose proof H as Hsrc.
  apply lazy_xmit_exec_loop_source in Hsrc as (d & Ht & _ & Hsrc).
  pose proof H as Heng.
  apply lazy_xmit_exec_loop_engine in Heng as (d' & Ht' & _ & _ & Hsum & _).
  exists (forwarded (forwards ts log) log), d.
  split; [rewrite Hlogs, list_lookup_fmap, Hi; reflexivity |].
  split; [exact Ht |].
  split; [lia |].
  split; [exact Hsrc |].
  destruct (forwarded_fields (forwards ts log) log) as (Hd & Hn & Hk).
  split; [exact Hd |]. split; [exact Hn |]. split; [exact Hk |].
  pose proof (forwards_nonneg ts log) as Hnn.
  unfold forwarded. split.
  - intros Hzero. rewrite Hzero. simpl.
    assert (Htodo : log_xmit_todo
                      (if 0 <? forwards ts log
                       then with_xmit_todo
                              (to_u64 (log_xmit_todo log - forwards ts log)) log
                       else log)
                    = to_u64 (log_xmit_todo log - forwards ts log)).
    { destruct (Z.ltb_spec 0 (forwards ts log)); [reflexivity |].
      replace (forwards ts log) with 0 by lia.
      unfold to_u64. rewrite Z.sub_0_r, Z.mod_small by lia. reflexivity. }
    split; [exact Htodo |].
    intros Hnd Hcover Hstart. rewrite Htodo.
    rewrite (forwards_all_targets ts log Hnd Hcover), Hstart, Z.sub_diag.
    reflexivity.
  - intros Hset. split.
    + destruct (Z.eqb_spec (log_to_kernel log) 0); [contradiction | reflexivity].
    + intros Hold Hall Hin.
      destruct (Hsrc skb Hin) as [Hr | (log2 & Hin2 & Hz)]; [lia |].
      apply (Hall log2 Hin2). exact Hz.
Qed.

End Commit.

(** ** The driver takes the packets in the order of the ring *)

Lemma transmitted_addrs_app (a b : list event) :
  transmitted_addrs (a ++ b) = transmitted_addrs a ++ transmitted_addrs b.
Proof. unfold transmitted_addrs. rewrite driver_calls_app. apply omap_app. Qed.

Lemma transmitted_addrs_silent (d : list event) :
  driver_calls d = [] -> transmitted_addrs d = [].
Proof. unfold transmitted_addrs. intros ->. reflexivity. Qed.

Lemma transmitted_of_calls (d : list event) :
  transmitted d =
    omap (fun c : nat * sk_buff * Z =>
            if snd c =? NETDEV_TX_OK then Some (fst (fst c)) else None)
         (driver_calls d).
Proof.
  induction d as [| e d IH]; [reflexivity |].
  destruct e; try exact IH.
  unfold transmitted, driver_calls in *. simpl.
  destruct (rc =? NETDEV_TX_OK); simpl; [f_equal |]; exact IH.
Qed.

Lemma transmitted_addrs_length (d : list event) :
  length (transmitted_addrs d) = length (transmitted d).
Proof.
  rewrite transmitted_of_calls. unfold transmitted_addrs.
  generalize (driver_calls d). intros l.
  induction l as [| [[p s] rc] l IH]; [reflexivity |].
  simpl. destruct (rc =? NETDEV_TX_OK); simpl; [f_equal |]; exact IH.
Qed.

(** When every call of the driver shows the data of its buffer as [f]
    has them, the descriptors taken are those of the buffers taken. *)
Lemma transmitted_addrs_of (f : nat -> Z) (d : list event) :
  (forall p s rc, (p, s, rc) ∈ driver_calls d -> skb_data s = f p) ->
  transmitted_addrs d
  = map (fun p => f p - sizeof_pfq_pkthdr_tx) (transmitted d).
Proof.
  rewrite transmitted_of_calls. unfold transmitted_addrs.
  generalize (driver_calls d). intros l.
  induction l as [| [[p s] rc] l IH]; intros H; [reflexivity |].
  assert (Hrest : forall q s' rc', (q, s', rc') ∈ l -> skb_data s' = f q).
  { intros q s' rc' Hin. apply (H q s' rc').
    apply list_elem_of_further. exact Hin. }
  simpl. destruct (rc =? NETDEV_TX_OK); simpl.
  - rewrite (H p s rc) by apply list_elem_of_here.
    f_equal. exact (IH Hrest).
  - exact (IH Hrest).
Qed.

Lemma cursor_positions_length (mem : tx_memory) (n : nat) :
  forall ptr, length (cursor_positions mem ptr n) = n.
Proof. induction n as [| n IH]; intros ptr; simpl; [| rewrite IH]; reflexivity. Qed.

Lemma cursor_positions_take (mem : tx_memory) (n : nat) :
  forall (k : nat) (ptr : Z),
    take k (cursor_positions mem ptr n) = cursor_positions mem ptr (Nat.min k n).
Proof.
  induction n as [| n IH]; intros k ptr; destruct k; simpl; try reflexivity.
  rewrite IH. reflexivity.
Qed.

(** A buffer that comes new to a batch and was never handed out. *)
Lemma apart_snoc (skbs hs : list nat) (p n : nat) :
  NoDup (skbs ++ hs) ->
  Forall (fun x => (x < n)%nat) (skbs ++ hs) ->
  (n <= p)%nat ->
  NoDup ((skbs ++ [p]) ++ hs) /\
  Forall (fun x => (x < S p)%nat) ((skbs ++ [p]) ++ hs).
Proof.
  intros Hnd Hlt Hle. rewrite <- app_assoc. simpl. split.
  - rewrite <- Permutation_middle. apply NoDup_cons. split; [| exact Hnd].
    intros Hin. apply (proj1 (Forall_forall _ _) Hlt) in Hin. lia.
  - apply Forall_app in Hlt as [H1 H2]. apply Forall_app. split.
    + eapply Forall_impl; [exact H1 |]. intros x Hx. simpl in Hx. lia.
    + constructor; [lia |].
      eapply Forall_impl; [exact H2 |]. intros x Hx. simpl in Hx. lia.
Qed.

(** The buffer a pop delivers was the oldest the pool held. *)
Lemma pfq_skb_pool_pop_handles (heap : skb_heap) (pool pool' : pfq_skb_pool)
    (p : nat) :
  pool_wf pool ->
  pfq_skb_pool_pop heap pool = Some (Some p, pool') ->
  pool_wf pool' /\ pool_handles pool = p :: pool_handles pool'.
Proof.
  intros Hwf Hpop.
  split; [eapply pfq_skb_pool_pop_wf; eassumption |].
  pose proof Hpop as Hpop'.
  unfold pfq_skb_pool_pop in Hpop'.
  destruct (pool_skbs pool) as [arr |] eqn:Harr; [| discriminate].
  cbv zeta in Hpop'.
  destruct (Z.eqb_spec (c_idx pool) (p_idx pool)) as [Heq | Hne];
    [discriminate |].
  simpl negb in Hpop'. cbv iota in Hpop'.
  destruct (arr !! Z.to_nat (c_idx pool)) as [[q |] |] eqn:Hslot;
    try discriminate.
  destruct (Z.ltb_spec (skb_users (heap q)) 2) as [Hfree | Hheld];
    [| discriminate].
  injection Hpop' as Hq _. subst q.
  destruct (pfq_skb_pool_pop_items heap pool arr p Hwf Harr Hne Hslot Hfree)
    as (pool'' & Hpop'' & Hitems & _).
  rewrite Hpop in Hpop''. injection Hpop'' as <-.
  unfold pool_handles. rewrite Hitems. reflexivity.
Qed.

(** A buffer given back to the pool becomes its newest buffer, or is
    released when the pool has no room. *)
Lemma pfq_kfree_skb_pool_handles (p : nat) (w w' : world) :
  pool_wf (w_tx_pool w) ->
  pfq_kfree_skb_pool p w = Some w' ->
  pool_wf (w_tx_pool w') /\
  (pool_handles (w_tx_pool w') = pool_handles (w_tx_pool w) \/
   pool_handles (w_tx_pool w') = pool_handles (w_tx_pool w) ++ [p]).
Proof.
  intros Hwf H. unfold pfq_kfree_skb_pool in H.
  destruct (pfq_skb_pool_push_wf (w_tx_pool w) p w Hwf)
    as (b & pool' & w1 & Hpush & Hwf' & _).
  rewrite Hpush in H. injection H as <-.
  change (w_tx_pool (with_tx_pool pool' w1)) with pool'.
  split; [exact Hwf' |].
  destruct (pool_skbs (w_tx_pool w)) as [arr |] eqn:Harr.
  - destruct (Z.eq_dec (__pool_next (w_tx_pool w) (p_idx (w_tx_pool w)))
                       (c_idx (w_tx_pool w))) as [Hfull | Hroom].
    + unfold pfq_skb_pool_push in Hpush. rewrite Harr in Hpush.
      cbv zeta in Hpush. rewrite Hfull, Z.eqb_refl in Hpush. simpl in Hpush.
      injection Hpush as _ <- _. left. reflexivity.
    + destruct (pfq_skb_pool_push_items (w_tx_pool w) p w arr Hwf Harr Hroom)
        as (pool'' & Hpush'' & Hitems & _).
      rewrite Hpush in Hpush''. injection Hpush'' as _ -> _.
      right. unfold pool_handles. rewrite Hitems, omap_app. reflexivity.
  - unfold pfq_skb_pool_push in Hpush. rewrite Harr in Hpush.
    injection Hpush as _ <- _. left. reflexivity.
Qed.

Lemma recycle_each_handles (ps : list nat) :
  forall w w' : world,
    pool_wf (w_tx_pool w) ->
    recycle_each ps w = Some w' ->
    pool_wf (w_tx_pool w') /\
    exists added,
      added `sublist_of` ps /\
      pool_handles (w_tx_pool w') = pool_handles (w_tx_pool w) ++ added.
Proof.
  induction ps as [| p ps IH]; intros w w' Hwf H; simpl in H.
  - injection H as <-. split; [exact Hwf |]. exists [].
    split; [constructor | rewrite app_nil_r; reflexivity].
  - destruct (pfq_kfree_skb_pool p w) as [w1 |] eqn:Hk; [| discriminate].
    apply pfq_kfree_skb_pool_handles in Hk as (Hwf1 & Hh1); [| exact Hwf].
    destruct (IH w1 w' Hwf1 H) as (Hwf' & added & Hsub & Hh').
    split; [exact Hwf' |].
    destruct Hh1 as [Hh1 | Hh1].
    + exists added.
      split; [apply sublist_cons; exact Hsub | rewrite Hh', Hh1; reflexivity].
    + exists (p :: added).
      split; [apply sublist_skip; exact Hsub |].
      rewrite Hh', Hh1, <- app_assoc. reflexivity.
Qed.

Section Order.

Variable cfg : config.
Variable env : environment.

(** The loop of [full_batch_xmit]: what the pool gains are buffers that
    left the batch. *)
Lemma full_batch_xmit_loop_handles (fuel : nat) :
  forall (skbs : list nat) (dev : net_device) (hw_queue total : Z)
         (w w' : world) (ret : Z) (skbs' : list nat),
    full_batch_xmit_loop cfg env fuel skbs dev hw_queue total w
      = Some (ret, skbs', w') ->
    pool_wf (w_tx_pool w) ->
    pool_wf (w_tx_pool w') /\
    exists added,
      added ++ skbs' `sublist_of` skbs /\
      pool_handles (w_tx_pool w') = pool_handles (w_tx_pool w) ++ added.
Proof.
  induction fuel as [| fuel IH];
    intros skbs dev hw_queue total w w' ret skbs' H Hwf;
    destruct skbs as [| p0 ps]; try discriminate.
  - injection H as <- <- <-. split; [exact Hwf |]. exists [].
    split; [reflexivity | rewrite app_nil_r; reflexivity].
  - injection H as <- <- <-. split; [exact Hwf |]. exists [].
    split; [reflexivity | rewrite app_nil_r; reflexivity].
  - rewrite full_batch_xmit_loop_step in H. cbv zeta in H.
    set (skbs := p0 :: ps) in *.
    assert (Hp1 : w_tx_pool (snd (giveup_tx_process env w)) = w_tx_pool w)
      by reflexivity.
    destruct (giveup_tx_process env w) as [g w1]. simpl in Hp1.
    destruct g.
    + injection H as <- <- <-. rewrite Hp1. split; [exact Hwf |].
      exists []. split; [reflexivity | rewrite app_nil_r; reflexivity].
    + pose proof (skb_get_each_pool skbs w1) as Hp2.
      set (w2 := fold_left (fun w p => skb_get p w) skbs w1) in *.
      pose proof (pfq_batch_xmit_pool cfg env skbs dev hw_queue w2) as Hp3.
      destruct (pfq_batch_xmit cfg env skbs dev hw_queue w2) as [sent w3].
      simpl in Hp3.
      assert (Hp : w_tx_pool w3 = w_tx_pool w) by congruence.
      destruct (sent =? 0).
      * apply IH in H.
        -- change (w_tx_pool (pfq_relax w3)) with (w_tx_pool w3) in H.
           rewrite Hp in H. exact H.
        -- change (w_tx_pool (pfq_relax w3)) with (w_tx_pool w3).
           rewrite Hp. exact Hwf.
      * destruct (recycle_each (take (Z.to_nat sent) skbs) w3) as [w4 |] eqn:Hr;
          [| discriminate].
        apply recycle_each_handles in Hr as (Hwf4 & added1 & Hsub1 & Hh1);
          [| rewrite Hp; exact Hwf].
        apply IH in H; [| exact Hwf4].
        destruct H as (Hwf' & added2 & Hsub2 & Hh2).
        split; [exact Hwf' |]. exists (added1 ++ added2). split.
        -- assert (Hs : added1 ++ drop (Z.to_nat sent) skbs
                          `sublist_of` take (Z.to_nat sent) skbs
                                       ++ drop (Z.to_nat sent) skbs)
             by (apply sublist_app; [exact Hsub1 | reflexivity]).
           rewrite take_drop in Hs.
           transitivity (added1 ++ drop (Z.to_nat sent) skbs); [| exact Hs].
           rewrite <- app_assoc. apply sublist_app; [reflexivity | exact Hsub2].
        -- rewrite Hh2, Hh1, Hp, app_assoc. reflexivity.
Qed.

(** One flush of the batch: the driver takes the first buffers of the
    batch, with the data they had in the batch, and the rest stays. *)
Lemma full_batch_xmit_order (fuel : nat) (skbs : list nat) (dev : net_device)
    (hw_queue : Z) (w w' : world) (ret : Z) (skbs' : list nat) :
  full_batch_xmit cfg env fuel skbs dev hw_queue w = Some (ret, skbs', w') ->
  batch_apart skbs w ->
  exists d,
    w_trace w' = w_trace w ++ d /\
    batch_apart skbs' w' /\
    batch_addrs w skbs = transmitted_addrs d ++ batch_addrs w' skbs'.
Proof.
  unfold full_batch_xmit. intros H (Hwf & Hnd & Hlt).
  pose proof H as H'.
  apply full_batch_xmit_loop_handles in H' as (Hwf' & added & Hsub & Hh);
    [| exact Hwf].
  apply full_batch_xmit_loop_spec in H
    as (d & Ht & (_ & Hnext & Hdata) & Htr & Hdrop & _ & Hcalls & _).
  exists d. split; [exact Ht |]. split.
  - split; [exact Hwf' |]. rewrite Hh, Hnext.
    assert (Hperm : skbs' ++ pool_handles (w_tx_pool w) ++ added
                    ≡ₚ (added ++ skbs') ++ pool_handles (w_tx_pool w)).
    { rewrite <- app_assoc. rewrite (Permutation_app_comm added).
      rewrite <- app_assoc. reflexivity. }
    assert (Hsub' : (added ++ skbs') ++ pool_handles (w_tx_pool w)
                    `sublist_of` skbs ++ pool_handles (w_tx_pool w))
      by (apply sublist_app; [exact Hsub | reflexivity]).
    split.
    + rewrite Hperm. eapply sublist_NoDup; [exact Hnd | exact Hsub'].
    + apply Forall_forall. intros x Hx. rewrite Hperm in Hx.
      apply (proj1 (Forall_forall _ _) Hlt).
      eapply elem_of_sublist; [exact Hx | exact Hsub'].
  - unfold batch_addrs.
    rewrite (transmitted_addrs_of (fun p => skb_data (w_heap w p)) d)
      by (intros p s rc Hin; exact (proj2 (Hcalls p s rc Hin))).
    cbv beta.
    rewrite (List.map_ext
               (fun p => skb_data (w_heap w' p) - sizeof_pfq_pkthdr_tx)
               (fun p => skb_data (w_heap w p) - sizeof_pfq_pkthdr_tx))
      by (intros p; rewrite Hdata; reflexivity).
    set (n := length (transmitted d)) in *.
    rewrite Htr, Hdrop, <- map_app, take_drop. reflexivity.
Qed.

Lemma tx_submit_order (inner : nat) (skbs : list nat) (now last_ts : Z)
    (dev : net_device) (hw_queue tot_sent : Z) (w w' : world)
    (interrupted : bool) (skbs' : list nat) (tot_sent' : Z) :
  tx_submit cfg env inner skbs now last_ts dev hw_queue tot_sent w
    = Some (interrupted, skbs', tot_sent', w') ->
  batch_apart skbs w ->
  exists d,
    w_trace w' = w_trace w ++ d /\
    batch_apart skbs' w' /\
    batch_addrs w skbs = transmitted_addrs d ++ batch_addrs w' skbs'.
Proof.
  unfold tx_submit. intros H Hinv.
  destruct (transmission_required cfg skbs now last_ts).
  - destruct (full_batch_xmit cfg env inner skbs dev hw_queue w)
      as [[[sent skbs1] w1] |] eqn:Hf; [| discriminate].
    injection H as <- <- <- <-. eapply full_batch_xmit_order; eassumption.
  - injection H as <- <- <- <-. exists []. rewrite app_nil_r.
    split; [reflexivity |]. split; [exact Hinv | reflexivity].
Qed.

(** The buffer an allocation delivers is in no batch and no longer in
    the pool. *)
Lemma pfq_tx_alloc_skb_apart (node : Z) (w w1 : world) (p : nat)
    (hdr : pfq_pkthdr_tx) (ptr : Z) (dev : net_device) (hw_queue : Z)
    (skbs : list nat) :
  pfq_tx_alloc_skb env node w = Some (Some p, w1) ->
  batch_apart skbs w ->
  batch_apart (skbs ++ [p]) (tx_fill cfg p hdr ptr dev hw_queue w1) /\
  p ∉ skbs.
Proof.
  unfold pfq_tx_alloc_skb, observe. intros H (Hwf & Hnd & Hlt).
  destruct (pfq_skb_pool_pop (w_heap w) (w_tx_pool w)) as [[[q |] pool] |]
    eqn:Hpop; [| | discriminate].
  - injection H as <- <-.
    apply pfq_skb_pool_pop_handles in Hpop as (Hwf' & Hh); [| exact Hwf].
    rewrite Hh in Hnd, Hlt.
    split.
    + unfold batch_apart.
      change (w_tx_pool (tx_fill cfg q hdr ptr dev hw_queue (with_tx_pool pool w)))
        with pool.
      change (w_next (tx_fill cfg q hdr ptr dev hw_queue (with_tx_pool pool w)))
        with (w_next w).
      split; [exact Hwf' |]. rewrite <- app_assoc.
      split; [exact Hnd | exact Hlt].
    + intros Hin. apply NoDup_app in Hnd as (_ & Hdisj & _).
      apply (Hdisj q Hin). apply list_elem_of_here.
  - destruct (env_alloc_ok env (w_tick w)); [| discriminate].
    injection H as <- <-.
    split.
    + unfold batch_apart. cbn [tx_fill with_heap w_tx_pool w_next].
      split; [exact Hwf |].
      apply (apart_snoc _ _ _ (w_next w)); [exact Hnd | exact Hlt | lia].
    + intros Hin.
      assert (Hself : (w_next w < w_next w)%nat); [| lia].
      apply (proj1 (Forall_forall _ _) Hlt). apply elem_of_app. left. exact Hin.
Qed.

Section Ring.

Variable mem : tx_memory.
Variable dev : net_device.

(** The "Tx loop": the descriptors the driver has taken and those that
    wait in the batch are, in this order, the descriptors the batch held
    and those the cursor went over. *)
Lemma tx_loop_order (inner : nat) (begin end_ : Z) (hw_queue node : Z)
    (fuel : nat) :
  0 < batch_len cfg <= Z.of_nat (Q_SKBUFF_SHORT_BATCH cfg) ->
  forall (ptr now : Z) (skbs : list nat) (tot_sent : Z) (w : world)
         (ptr' : Z) (skbs' : list nat) (tot_sent' : Z) (w' : world),
    tx_loop cfg env inner fuel mem begin end_ dev hw_queue node
            ptr now skbs tot_sent w = Some (ptr', skbs', tot_sent', w') ->
    batch_apart skbs w ->
    Z.of_nat (length skbs) <= batch_len cfg ->
    0 <= tot_sent ->
    exists d n,
      w_trace w' = w_trace w ++ d /\
      batch_apart skbs' w' /\
      batch_addrs w skbs ++ cursor_positions mem ptr n
      = transmitted_addrs d ++ batch_addrs w' skbs'.
Proof.
  intros Hcap.
  induction fuel as [| fuel IH];
    intros ptr now skbs tot_sent w ptr' skbs' tot_sent' w' H Hinv Hlen Htot;
    [discriminate |].
  rewrite tx_loop_step in H.
  destruct (traverse_tx_queue cfg mem ptr begin end_).
  2: { injection H as <- <- <- <-. exists [], 0%nat. simpl.
       rewrite !app_nil_r. auto. }
  destruct (tx_submit cfg env inner skbs now (pkt_nsec (mem ptr)) dev
              hw_queue tot_sent w) as [[[[intr skbs1] tot1] w1] |] eqn:Hs;
    [| discriminate].
  pose proof Hs as Hcount.
  apply tx_submit_count in Hcount as (Htot1 & _ & Hroom);
    [| lia | exact Hlen | exact Htot].
  apply tx_submit_order in Hs as (d1 & Ht1 & Hinv1 & Ha1); [| exact Hinv].
  destruct intr.
  { injection H as <- <- <- <-. exists d1, 0%nat. simpl.
    rewrite app_nil_r. auto. }
  specialize (Hroom eq_refl).
  assert (Hwait : exists now2 w2 d2,
             (if pkt_nsec (mem ptr) >? to_u64 now
              then wait_until env inner (pkt_nsec (mem ptr)) w1
              else Some (now, w1)) = Some (now2, w2) /\
             w_trace w2 = w_trace w1 ++ d2 /\
             only_observes w1 w2 /\ driver_calls d2 = []).
  { destruct (pkt_nsec (mem ptr) >? to_u64 now).
    - destruct (wait_until env inner (pkt_nsec (mem ptr)) w1)
        as [[now2 w2] |] eqn:Hw; [| discriminate].
      apply wait_until_observes in Hw as (d2 & Ht2 & Hobs & Hdc). eauto 8.
    - exists now, w1, []. rewrite app_nil_r.
      split; [reflexivity |]. split; [reflexivity |].
      split; [| reflexivity].
      unfold only_observes. repeat split; lia. }
  destruct Hwait as (now2 & w2 & d2 & Hw & Ht2 & Hobs2 & Hdc2).
  rewrite Hw in H.
  pose proof Hobs2 as (_ & Hh2 & Hn2 & Hp2 & _).
  assert (Hinv2 : batch_apart skbs1 w2).
  { unfold batch_apart in *. rewrite Hp2, Hn2. exact Hinv1. }
  assert (Ha2 : batch_addrs w2 skbs1 = batch_addrs w1 skbs1).
  { unfold batch_addrs. rewrite Hh2. reflexivity. }
  destruct (pfq_tx_alloc_skb env node w2) as [[[p |] w3] |] eqn:Ha;
    [| | discriminate].
  - pose proof (pfq_tx_alloc_skb_fill cfg env node w2 w3 p (mem ptr) ptr dev
                  hw_queue Ha) as (Ht3 & _ & _ & Hdata3 & Hframe3).
    destruct (pfq_tx_alloc_skb_apart node w2 w3 p (mem ptr) ptr dev hw_queue
                skbs1 Ha Hinv2) as (Hinv3 & Hnew).
    assert (Hpush : pfq_skbuff_short_batch_push cfg skbs1 p = skbs1 ++ [p]).
    { unfold pfq_skbuff_short_batch_push.
      destruct (Nat.ltb_spec (length skbs1) (Q_SKBUFF_SHORT_BATCH cfg));
        [reflexivity | lia]. }
    rewrite Hpush in H.
    assert (Hb : batch_addrs (tx_fill cfg p (mem ptr) ptr dev hw_queue w3)
                             (skbs1 ++ [p])
                 = batch_addrs w1 skbs1 ++ [ptr]).
    { unfold batch_addrs. rewrite map_app. f_equal.
      - apply List.map_ext_in. intros q Hq.
        assert (Hne : q <> p).
        { intros ->. apply Hnew. apply list_elem_of_In. exact Hq. }
        rewrite (Hframe3 q Hne), Hh2. reflexivity.
      - cbn [map]. rewrite Hdata3. f_equal. lia. }
    apply IH in H;
      [| exact Hinv3 | rewrite length_app; simpl length; lia | exact Htot1].
    destruct H as (d3 & n & Ht & Hinv' & Haddr).
    exists ((d1 ++ d2) ++ d3), (S n).
    split; [rewrite Ht, Ht3, Ht2, Ht1, <- !app_assoc; reflexivity |].
    split; [exact Hinv' |].
    rewrite !transmitted_addrs_app, (transmitted_addrs_silent d2 Hdc2),
      app_nil_r, <- app_assoc, <- Haddr, Hb, Ha1, <- !app_assoc.
    reflexivity.
  - apply pfq_tx_alloc_skb_none in Ha as (Ht3 & Hobs3).
    pose proof Hobs3 as (_ & Hh3 & Hn3 & Hp3 & _).
    injection H as <- <- <- <-. exists (d1 ++ d2), 0%nat.
    split; [rewrite Ht3, Ht2, Ht1, <- app_assoc; reflexivity |].
    split.
    + unfold batch_apart in *. rewrite Hp3, Hn3. exact Hinv2.
    + simpl. rewrite app_nil_r, transmitted_addrs_app,
        (transmitted_addrs_silent d2 Hdc2), app_nil_r, Ha1.
      f_equal. unfold batch_addrs. rewrite Hh3, Hh2. reflexivity.
Qed.

(** X24. The driver takes the packets of a drain in the order of the
    ring: the k-th buffer it accepts with [NETDEV_TX_OK] was filled from
    the descriptor at the k-th position of the cursor of the drain,
    counted from the start of the half, so no position is passed over
    and none is taken out of turn, whatever is refused and submitted
    again and whether a buffer is new or comes from the CPU-local pool.
    The pool keeps its invariant, holds no buffer twice and only buffers
    that were allocated, and [batch_len] is positive and within the
    capacity of the batch. *)
Theorem __pfq_queue_xmit_fifo (fuel : nat) (idx : nat) (to : pfq_tx_opt)
    (cpu node : Z) (w : world)
    (ret : Z) (to' : pfq_tx_opt) (mem' : tx_memory) (w' : world) :
  0 < batch_len cfg <= Z.of_nat (Q_SKBUFF_SHORT_BATCH cfg) ->
  pool_sound w ->
  __pfq_queue_xmit cfg env fuel idx to mem dev cpu node w
    = Some (ret, to', mem', w') ->
  let txs := to_txs to idx in
  let swap := to_int (to_u64 (txs_cons txs + 1)) in
  let begin := tx_half_begin (to_base_addr to idx) swap (txs_size txs) in
  exists d,
    w_trace w' = w_trace w ++ d /\
    transmitted_addrs d = cursor_positions mem begin (length (transmitted d)).
Proof.
  intros Hcap Hsound H. cbv zeta.
  unfold __pfq_queue_xmit in H.
  destruct (swap_tx_queue_and_wait cfg env fuel (to_txs to idx) cpu w)
    as [[[[err swap] txs1] w1] |] eqn:Hswap; [| discriminate].
  assert (Hs0 : exists d0,
             w_trace w1 = w_trace w ++ d0 /\ only_observes w w1 /\
             driver_calls d0 = [] /\ transmitted d0 = [] /\
             swap = to_int (to_u64 (txs_cons (to_txs to idx) + 1)) /\
             txs_size txs1 = txs_size (to_txs to idx)).
  { pose proof Hswap as Hidle.
    apply swap_tx_queue_and_wait_idle in Hidle as (d0 & Ht0 & Hidle).
    exists d0. split; [exact Ht0 |].
    destruct (idle_events_spec _ Hidle) as (_ & Htr0 & Hdc0 & _).
    unfold swap_tx_queue_and_wait in Hswap.
    destruct (negb (cpu =? Q_NO_KTHREAD cfg)).
    - destruct (swap_spin env fuel (to_int (to_u64 (txs_cons (to_txs to idx) + 1))) w)
        as [[e w2] |] eqn:Hs; [| discriminate].
      injection Hswap as <- <- <- <-.
      apply swap_spin_outcome in Hs as (_ & _ & Hobs & _). auto 8.
    - injection Hswap as <- <- <- <-.
      split; [unfold only_observes; repeat split; lia | auto 8]. }
  destruct Hs0 as (d0 & Ht0 & Hobs0 & Hdc0 & Htr0 & -> & Hsize).
  pose proof Hobs0 as (_ & _ & Hn0 & Hp0 & _).
  destruct (Z.ltb_spec err 0) as [Hneg | _].
  { injection H as <- <- <- <-. exists d0.
    split; [exact Ht0 |].
    rewrite (transmitted_addrs_silent d0 Hdc0), Htr0. reflexivity. }
  change (to_base_addr (with_txs idx txs1 to) idx) with (to_base_addr to idx) in H.
  rewrite Hsize in H.
  set (begin := tx_half_begin (to_base_addr to idx)
                  (to_int (to_u64 (txs_cons (to_txs to idx) + 1)))
                  (txs_size (to_txs to idx))) in *.
  unfold ktime_get_real, observe in H. cbv beta iota zeta in H.
  destruct (tx_loop cfg env fuel fuel mem begin
              (begin + txs_size (to_txs to idx)) dev
              (to_hw_queue to idx) node begin (env_clock env (w_tick w1)) [] 0 _)
    as [[[[ptr skbs] tot] w3] |] eqn:Hloop; [| discriminate].
  apply (tx_loop_order _ _ _ _ _ _ Hcap) in Hloop
    as (d3 & n & Ht3 & Hinv3 & Ha3).
  2: { destruct Hsound as (Hwf & Hnd & Hlt). unfold batch_apart.
       cbn [w_tx_pool w_next emit]. rewrite Hp0, Hn0. simpl app. auto. }
  2: { simpl. lia. }
  2: { lia. }
  simpl in Ht3. simpl batch_addrs in Ha3. simpl app in Ha3.
  assert (Hflush : exists sent skbs4 w4 d4,
             match skbs with
             | [] => Some (0, skbs, w3)
             | _ :: _ => full_batch_xmit cfg env fuel skbs dev (to_hw_queue to idx) w3
             end = Some (sent, skbs4, w4) /\
             w_trace w4 = w_trace w3 ++ d4 /\
             batch_addrs w3 skbs = transmitted_addrs d4 ++ batch_addrs w4 skbs4).
  { destruct skbs as [| p ps].
    - exists 0, [], w3, []. rewrite app_nil_r. auto.
    - destruct (full_batch_xmit cfg env fuel (p :: ps) dev (to_hw_queue to idx) w3)
        as [[[sent skbs4] w4] |] eqn:Hf; [| discriminate].
      apply full_batch_xmit_order in Hf as (d4 & Ht4 & _ & Ha4);
        [| exact Hinv3].
      exists sent, skbs4, w4, d4. auto. }
  destruct Hflush as (sent & skbs4 & w4 & d4 & Hf & Ht4 & Ha4).
  rewrite Hf in H.
  destruct (recycle_each skbs4 w4) as [w5 |] eqn:Hr; [| discriminate].
  apply recycle_each_spec in Hr as (d5 & Ht5 & _ & Hdc5 & _).
  destruct (count_left cfg fuel mem begin (begin + txs_size (to_txs to idx)) ptr
              (Z.of_nat (length skbs4))) as [disc |]; [| discriminate].
  unfold add_stats in H. injection H as <- <- <- <-. simpl w_trace.
  exists (d0 ++ EvClock (env_clock env (w_tick w1)) :: d3 ++ d4 ++ d5).
  split; [rewrite Ht5, Ht4, Ht3, Ht0, <- !app_assoc; reflexivity |].
  assert (Hall : transmitted_addrs
                   (d0 ++ EvClock (env_clock env (w_tick w1)) :: d3 ++ d4 ++ d5)
                 = transmitted_addrs d3 ++ transmitted_addrs d4).
  { rewrite transmitted_addrs_app, (transmitted_addrs_silent d0 Hdc0).
    change (transmitted_addrs (EvClock ?c :: ?l)) with (transmitted_addrs l).
    rewrite !transmitted_addrs_app, (transmitted_addrs_silent d5 Hdc5),
      app_nil_r. reflexivity. }
  rewrite <- transmitted_addrs_length, Hall.
  rewrite Ha4, app_assoc in Ha3.
  assert (Hn : (length (transmitted_addrs d3 ++ transmitted_addrs d4) <= n)%nat).
  { rewrite <- (cursor_positions_length mem n begin), Ha3, !length_app. lia. }
  rewrite <- (Nat.min_l _ _ Hn), <- cursor_positions_take, Ha3.
  rewrite take_app_length. reflexivity.
Qed.

End Ring.

End Order.


(** * The properties at work on the sample inputs *)

Import Samples.

Ltac by_computation := vm_compute; repeat split; try discriminate; reflexivity.

Lemma pfq_skb_pool_pop_spec_witness :
  pfq_skb_pool_pop heap12 pool78 =
    Some (Some 7%nat, SkbPool (Some [None; None; Some 8%nat; None]) 4 3 2).
Proof.
  rewrite (pfq_skb_pool_pop_spec heap12 pool78
             [None; Some 7%nat; Some 8%nat; None] 7 eq_refl (fun _ => eq_refl)).
  reflexivity.
Defined.

Lemma pfq_skb_pool_uninitialized_witness :
  pfq_skb_pool_pop heap12 pool_null = Some (None, pool_null) /\
  exists w',
    pfq_skb_pool_push pool_null 7 world0 = Some (false, pool_null, w') /\
    w_os_free w' = w_os_free world0 + 1 /\
    w_trace w' = w_trace world0 ++ [EvKfree 7] /\
    w_heap w' = heap_update (skb_with_users (fun u => u - 1)) 7 (w_heap world0) /\
    w_tx_pool w' = w_tx_pool world0.
Proof. exact (pfq_skb_pool_uninitialized heap12 pool_null 7 world0 eq_refl). Defined.

(** C2 as stated fails: on a device with four queues the caller's queue 7
    becomes queue 0, not queue 3. *)
Lemma pfq_pick_tx_not_clamped :
  7 <> -1 /\ 7 >= real_num_tx_queues eth1 /\
  pfq_pick_tx eth1 skb_zero 7 = 0 /\
  pfq_pick_tx eth1 skb_zero 7 <> real_num_tx_queues eth1 - 1.
Proof. by_computation. Qed.

Lemma pfq_pick_tx_spec_witness :
  pfq_pick_tx eth1 skb_zero 7 = 0 /\
  pfq_pick_tx eth1 skb_zero (-1) = 0 /\
  pfq_pick_tx eth1 skb_zero 2 = 2.
Proof.
  assert (Hnum : 0 <= real_num_tx_queues eth1 < 2 ^ 32) by by_computation.
  split; [| split].
  - assert (Hhw : - 2 ^ 31 <= 7 < 2 ^ 31) by by_computation.
    apply (proj1 (pfq_pick_tx_spec eth1 skb_zero 7 Hnum Hhw)); by_computation.
  - assert (Hhw : - 2 ^ 31 <= -1 < 2 ^ 31) by by_computation.
    apply (proj1 (proj2 (pfq_pick_tx_spec eth1 skb_zero (-1) Hnum Hhw)));
      by_computation.
  - assert (Hhw : - 2 ^ 31 <= 2 < 2 ^ 31) by by_computation.
    apply (proj2 (proj2 (pfq_pick_tx_spec eth1 skb_zero 2 Hnum Hhw)));
      by_computation.
Defined.

(** C6 as stated fails: built without [PFQ_USE_XMIT_MORE] both buffers
    of a batch of two are taken by the driver, and the first of them does
    not carry the hint. *)
Lemma pfq_batch_xmit_hint_cleared :
  let '(ret, w') :=
    pfq_batch_xmit cfg_nohint env_fair [7; 8]%nat eth0 (-1) world0 in
  ret = 2 /\
  exists s7 s8,
    w_trace w' = [EvLock 0; EvStartXmit 7 s7 NETDEV_TX_OK;
                  EvStartXmit 8 s8 NETDEV_TX_OK; EvUnlock 0] /\
    skb_xmit_more s7 = false /\ skb_xmit_more s7 <> true.
Proof.
  vm_compute. split; [reflexivity |].
  eexists _, _. split; [reflexivity |].
  split; [reflexivity | discriminate].
Qed.

Lemma pfq_batch_xmit_spec_witness :
  let '(ret, w') := pfq_batch_xmit cfg0 env_busy [7; 8]%nat eth1 (-1) world0 in
  ret = 1 /\
  exists txq body,
    w_trace w' = w_trace world0 ++ EvLock txq :: body ++ [EvUnlock txq] /\
    lock_events body = [] /\
    Forall (observed env_busy (w_tick world0) (w_tick w')) body /\
    length (driver_calls body) = 2%nat /\
    (forall (i : nat) p s rc,
        driver_calls body !! i = Some (p, s, rc) ->
        [7; 8]%nat !! i = Some p /\
        skb_xmit_more s = negb (i =? 1)%nat /\
        (rc = NETDEV_TX_OK <-> Z.of_nat i < ret)) /\
    exists front, released body = front ++ [] /\ (front = [] \/ front = [8%nat]).
Proof.
  destruct (pfq_batch_xmit cfg0 env_busy [7; 8]%nat eth1 (-1) world0)
    as [ret w'] eqn:H.
  assert (Hret : ret = 1).
  { pose proof H as Hc. vm_compute in Hc. injection Hc as Hc _.
    symmetry. exact Hc. }
  assert (Hpos : (0 < length [7; 8]%nat)%nat) by (simpl; lia).
  assert (Hsmall : Z.of_nat (length [7; 8]%nat) < 2 ^ 64) by reflexivity.
  destruct (pfq_batch_xmit_spec cfg0 env_busy [7; 8]%nat eth1 (-1) world0 w' ret
              Hpos Hsmall H)
    as (txq & body & Ht & Hl & Hobs & _ & _ & Hcalls & _ & Hfail).
  split; [exact Hret |].
  exists txq, body.
  split; [exact Ht |]. split; [exact Hl |]. split; [exact Hobs |].
  assert (Hlt : ret < Z.of_nat (length [7; 8]%nat)) by (rewrite Hret; reflexivity).
  destruct (Hfail Hlt) as (p & front & Hp & Hrel & Hshape).
  rewrite Hret in Hp, Hrel, Hshape. simpl in Hp, Hrel, Hshape.
  injection Hp as <-.
  destruct Hshape as [(s & rc & _ & Hlen & Hfront) | (_ & _ & t & _ & Hdown)].
  - split; [exact Hlen |]. split; [exact Hcalls |].
    exists front. split; [exact Hrel |].
    destruct (dev_xmit_complete rc); [left | right]; exact Hfront.
  - destruct Hdown as [Hdown | Hdown]; discriminate Hdown.
Defined.

Lemma full_batch_xmit_spec_witness :
  match full_batch_xmit cfg0 env_halt 5 [7; 8]%nat eth1 (-1) world0 with
  | Some (ret, skbs', w') =>
      ret = -2 /\ skbs' = [8%nat] /\
      exists d,
        w_trace w' = w_trace world0 ++ d /\
        Forall (observed env_halt (w_tick world0) (w_tick w')) d /\
        transmitted d = [7%nat] /\
        last d = Some (EvGiveup true) /\
        giveup_at env_halt (pred (w_tick w')) = true
  | None => False
  end.
Proof.
  destruct (full_batch_xmit cfg0 env_halt 5 [7; 8]%nat eth1 (-1) world0)
    as [[[ret skbs'] w'] |] eqn:H.
  - assert (Hret : ret = -2).
    { pose proof H as Hc. vm_compute in Hc. injection Hc as Hc _ _.
      symmetry. exact Hc. }
    destruct (full_batch_xmit_spec cfg0 env_halt 5 [7; 8]%nat eth1 (-1) world0
                w' ret skbs' H) as (d & Ht & Hobs & Htr & Hdrop & Hcases).
    destruct Hcases
      as [(Hnn & _) | (_ & _ & Htot & _ & _ & _ & _ & Hgave & Hlast & _)];
      [lia |].
    rewrite Hret in Htot. change (Z.lnot (-2)) with 1 in Htot.
    assert (Hone : length (transmitted d) = 1%nat) by lia.
    rewrite Hone in Htr, Hdrop. simpl in Htr, Hdrop.
    split; [exact Hret |]. split; [exact Hdrop |].
    exists d. auto.
  - vm_compute in H. discriminate H.
Defined.

Lemma ring3_descriptors :
  descriptors ring3 4096 0 [ring3 0; ring3 120; ring3 240].
Proof.
  apply descriptors_next; [reflexivity | discriminate |].
  change (next_descriptor ring3 0) with 120.
  apply descriptors_next; [reflexivity | discriminate |].
  change (next_descriptor ring3 120) with 240.
  apply descriptors_next; [reflexivity | discriminate |].
  apply descriptors_end. right. reflexivity.
Qed.

Lemma __pfq_queue_xmit_accounting_witness :
  match __pfq_queue_xmit cfg0 env_busy 10 0 to0 ring3 eth0 (-1) 0 world0 with
  | Some (ret, to', mem', w') =>
      exists tot_sent disc,
        to_stats_sent to' = to_stats_sent to0 + tot_sent /\
        to_stats_disc to' = to_stats_disc to0 + disc /\
        tot_sent + disc = 3
  | None => False
  end.
Proof.
  destruct (__pfq_queue_xmit cfg0 env_busy 10 0 to0 ring3 eth0 (-1) 0 world0)
    as [[[[ret to'] mem'] w'] |] eqn:H.
  - assert (Hswap : swap_tx_queue_and_wait cfg0 env_busy 10 (to_txs to0 0%nat)
                      (-1) world0
                    = Some (0, 1, TxQueue 1 1 4096, world0)) by reflexivity.
    assert (Herr : 0 <= 0) by lia.
    assert (Hdbg : PFQ_DEBUG cfg0 = true ->
                   Forall (fun d => pkt_len d <= 2048)
                          [ring3 0; ring3 120; ring3 240])
      by (intros Hd; discriminate Hd).
    assert (Haddr : PFQ_DEBUG cfg0 = true ->
                    Forall (fun a => 0 <= a)
                           (descriptor_addrs 0 [ring3 0; ring3 120; ring3 240]))
      by (intros Hd; discriminate Hd).
    assert (Hcap : 0 < batch_len cfg0 <= Z.of_nat (Q_SKBUFF_SHORT_BATCH cfg0))
      by by_computation.
    destruct (__pfq_queue_xmit_accounting cfg0 env_busy 10 0 to0 ring3 eth0
                (-1) 0 world0 0 1 (TxQueue 1 1 4096) world0
                [ring3 0; ring3 120; ring3 240] ret to' mem' w'
                Hswap Herr ring3_descriptors Hdbg Haddr Hcap H)
      as (tot_sent & disc & _ & _ & Hs & Hd & _ & Hsum).
    exists tot_sent, disc. auto.
  - vm_compute in H. discriminate H.
Defined.



(** C3 as stated fails: buffer 8 is forwarded once, to [eth0], but it
    also goes to the kernel, and its [xmit_todo] is still 1 after the
    commit. *)
Lemma xmit_todo_kept_for_kernel :
  gc78 !! 1%nat = Some (8%nat, log8) /\
  log_xmit_todo log8 = 1 /\
  forwards targets01 log8 = 1 /\
  exists log',
    snd (fst (pfq_lazy_xmit_exec cfg0 env_fair gc78 targets01 world0)) !! 1%nat
      = Some (8%nat, log') /\
    log_xmit_todo log' = 1 /\ log_xmit_todo log' <> 0.
Proof.
  split; [reflexivity |]. split; [reflexivity |]. split; [reflexivity |].
  eexists. split; [vm_compute; reflexivity |].
  split; [reflexivity | discriminate].
Qed.

Lemma pfq_lazy_xmit_exec_xmit_todo_witness :
  let '(sent, gc', w') := pfq_lazy_xmit_exec cfg0 env_fair gc78 targets01 world0 in
  exists log7' log8' d,
    gc' !! 0%nat = Some (7%nat, log7') /\
    gc' !! 1%nat = Some (8%nat, log8') /\
    w_trace w' = w_trace world0 ++ d /\
    log_xmit_todo log7' = 0 /\
    log_xmit_todo log8' = 1 /\
    (8%nat ∉ submitted d) /\
    sent + (w_abrt w' - w_abrt world0) = total_forwards targets01 gc78.
Proof.
  assert (Hrange7 : 0 <= log_xmit_todo log7 < 2 ^ 64) by by_computation.
  assert (Hrange8 : 0 <= log_xmit_todo log8 < 2 ^ 64) by by_computation.
  pose proof (pfq_lazy_xmit_exec_xmit_todo cfg0 env_fair gc78 targets01 world0
                0 7 log7 eq_refl Hrange7) as H7.
  pose proof (pfq_lazy_xmit_exec_xmit_todo cfg0 env_fair gc78 targets01 world0
                1 8 log8 eq_refl Hrange8) as H8.
  destruct (pfq_lazy_xmit_exec cfg0 env_fair gc78 targets01 world0)
    as [[sent gc'] w'].
  destruct H7 as (log7' & d & Hlook7 & Ht & Hsum & _ & _ & _ & _ & Hclear & _).
  destruct H8 as (log8' & d' & Hlook8 & Ht' & _ & _ & _ & _ & _ & _ & Hset).
  assert (Hd : d' = d).
  { rewrite Ht in Ht'. apply app_inv_head in Ht'. symmetry. exact Ht'. }
  subst d'.
  exists log7', log8', d.
  split; [exact Hlook7 |]. split; [exact Hlook8 |]. split; [exact Ht |].
  split; [| split; [| split; [| exact Hsum]]].
  - apply (proj2 (Hclear eq_refl)).
    + simpl. apply NoDup_cons.
      split; [| apply NoDup_singleton].
      intros Hin. apply list_elem_of_singleton in Hin. discriminate Hin.
    + intros dv Hd. apply list_elem_of_In in Hd. simpl in Hd.
      destruct Hd as [<- | [<- | [<- | []]]].
      * exists (eth0, 2). split; [apply list_elem_of_here | reflexivity].
      * exists (eth1, 2).
        split; [apply list_elem_of_further, list_elem_of_here | reflexivity].
      * exists (eth1, 2).
        split; [apply list_elem_of_further, list_elem_of_here | reflexivity].
    + reflexivity.
  - assert (Hk : log_to_kernel log8 <> 0) by discriminate.
    rewrite (proj1 (Hset Hk)). reflexivity.
  - assert (Hk : log_to_kernel log8 <> 0) by discriminate.
    apply (proj2 (Hset Hk)).
    + simpl. lia.
    + intros log2 Hin. apply list_elem_of_In in Hin. simpl in Hin.
      destruct Hin as [Hin | [Hin | []]].
      * discriminate Hin.
      * injection Hin as <-. exact Hk.
Defined.

Lemma pfq_lazy_xmit_spec_witness :
  pfq_lazy_xmit cfg0 7 log_full eth1 2 world0 = (0, log_full, world0) /\
  exists log' w',
    pfq_lazy_xmit cfg0 7 log7 eth1 2 world0 = (1, log', w') /\
    skb_queue_mapping (w_heap w' 7%nat) = 2 /\
    log_targets log' = [eth0; eth1; eth1; eth1] /\
    log_num_devs log' = 4 /\ log_xmit_todo log' = 4.
Proof.
  split.
  - assert (H1 : 0 <= log_num_devs log_full) by by_computation.
    assert (H2 : 0 <= log_xmit_todo log_full < 2 ^ 64 - 1) by by_computation.
    assert (H3 : Q_GC_LOG_QUEUE_LEN cfg0 < 2 ^ 64) by by_computation.
    apply (proj1 (pfq_lazy_xmit_spec cfg0 7 log_full eth1 2 world0
                    H1 H2 eq_refl H3)).
    by_computation.
  - assert (H1 : 0 <= log_num_devs log7) by by_computation.
    assert (H2 : 0 <= log_xmit_todo log7 < 2 ^ 64 - 1) by by_computation.
    assert (H3 : Q_GC_LOG_QUEUE_LEN cfg0 < 2 ^ 64) by by_computation.
    assert (H4 : log_num_devs log7 < Q_GC_LOG_QUEUE_LEN cfg0) by by_computation.
    destruct (proj2 (pfq_lazy_xmit_spec cfg0 7 log7 eth1 2 world0
                       H1 H2 eq_refl H3) H4)
      as (log' & w' & Hrun & Hq & _ & _ & Htargets & Hnum & Htodo & _).
    exists log', w'. auto.
Defined.

(** The serializer on [is_ip and is_udp]: the right operand is lost. *)
Example serialize_pred_and :
  pfq_lang.serialize 0 pred_and = pfq_lang.serialize 0 pred_and_left /\
  List.length (fst (pfq_lang.serialize 0 pred_and)) = 3%nat.
Proof. split; reflexivity. Qed.
(** * The further properties at work on the sample inputs *)

Lemma pool78_wf : pool_wf pool78.
Proof.
  unfold pool_wf. simpl.
  split; [reflexivity |]. split; [reflexivity |].
  split; [lia |]. split; [lia |].
  intros i Hi Hdead. unfold pool_live in Hdead. simpl in Hdead.
  destruct i as [| [| [| [| i]]]]; simpl; first [reflexivity | lia].
Qed.

Lemma pool_full_wf : pool_wf pool_full.
Proof.
  unfold pool_wf. simpl.
  split; [reflexivity |]. split; [reflexivity |].
  split; [lia |]. split; [lia |].
  intros i Hi Hdead. unfold pool_live in Hdead. simpl in Hdead.
  destruct i as [| [| [| i]]]; simpl; first [reflexivity | lia].
Qed.

Lemma pool_empty_wf : pool_wf pool_empty.
Proof.
  unfold pool_wf. simpl.
  split; [reflexivity |]. split; [reflexivity |].
  split; [lia |]. split; [lia |].
  intros i Hi _.
  destruct i as [| [| [| [| i]]]]; simpl; first [reflexivity | lia].
Qed.

Lemma pfq_skb_pool_push_appends_witness :
  exists pool',
    pfq_skb_pool_push pool78 9 world0 = Some (true, pool', world0) /\
    pool_items pool' = [Some 7%nat; Some 8%nat; Some 9%nat].
Proof.
  assert (Hroom : (S (length (pool_items pool78))
                   < length [None; Some 7%nat; Some 8%nat; None])%nat)
    by (simpl; lia).
  destruct (pfq_skb_pool_push_appends pool78 9 world0 _ pool78_wf eq_refl Hroom)
    as (pool' & Hpush & Hitems & _).
  exists pool'. split; [exact Hpush | exact Hitems].
Defined.

Lemma pfq_skb_pool_push_full_witness :
  pfq_skb_pool_push pool_full 9 world0
  = Some (false, pool_full, kfree_skb 9 (inc_os_free world0)).
Proof.
  apply (proj2 (pfq_skb_pool_push_full pool_full 9 world0 _ pool_full_wf eq_refl)).
  reflexivity.
Defined.

Lemma pfq_skb_pool_pop_oldest_witness :
  exists pool',
    pfq_skb_pool_pop heap12 pool78 = Some (Some 7%nat, pool') /\
    pool_items pool' = [Some 8%nat].
Proof.
  assert (Husers : skb_users (heap12 7%nat) < 2) by reflexivity.
  destruct (proj2 (pfq_skb_pool_pop_oldest heap12 pool78 _ pool78_wf eq_refl)
              7%nat [Some 8%nat] eq_refl Husers)
    as (pool' & Hpop & Hitems & _).
  exists pool'. split; [exact Hpop | exact Hitems].
Defined.

Lemma pfq_skb_pool_push_pop_witness :
  exists pool1 pool2,
    pfq_skb_pool_push pool_empty 9 world0 = Some (true, pool1, world0) /\
    pfq_skb_pool_pop (w_heap world0) pool1 = Some (Some 9%nat, pool2) /\
    pool_items pool2 = [].
Proof.
  assert (Hlen : (1 < length [@None nat; None; None; None])%nat) by (simpl; lia).
  assert (Husers : skb_users (w_heap world0 9%nat) < 2) by reflexivity.
  destruct (pfq_skb_pool_push_pop pool_empty 9 world0 _ pool_empty_wf eq_refl
              eq_refl Hlen Husers)
    as (pool1 & pool2 & Hpush & Hpop & Hitems & _).
  exists pool1, pool2. auto.
Defined.

Lemma FROM_JUST_JUST_witness : FROM_JUST (JUST 5) = 5.
Proof.
  assert (Hx : 0 <= 5 < 2 ^ 64) by by_computation.
  apply (proj2 (proj2 (proj2 (proj2 (FROM_JUST_JUST 5 Hx))))).
  reflexivity.
Defined.

Lemma relinkFunDescr_back_witness :
  relinkFunDescr 5 1 (relinkFunDescr 1 5 descr_and) = descr_and.
Proof.
  assert (Hl : pfq_lang.fd_left descr_and <> 5) by discriminate.
  assert (Hr : pfq_lang.fd_right descr_and <> 5) by discriminate.
  exact (proj1 (relinkFunDescr_back 1 5 descr_and Hl Hr)).
Defined.

Lemma pfq_pick_tx_in_range_witness :
  0 <= pfq_pick_tx eth1 skb_zero (-7) < real_num_tx_queues eth1.
Proof.
  assert (Hnum : 0 < real_num_tx_queues eth1 <= 2 ^ 31) by by_computation.
  assert (Hhw : - 2 ^ 31 <= -7 < 2 ^ 31) by by_computation.
  exact (pfq_pick_tx_in_range eth1 skb_zero (-7) Hnum Hhw).
Defined.

Lemma __pfq_xmit_consumes_witness :
  let '(ret, w') := __pfq_xmit cfg0 env_busy 7 eth0 0 false world0 in
  exists d, w_trace w' = w_trace world0 ++ d.
Proof.
  destruct (__pfq_xmit cfg0 env_busy 7 eth0 0 false world0) as [ret w'] eqn:H.
  destruct (__pfq_xmit_consumes cfg0 env_busy 7 eth0 0 false world0 w' ret H)
    as (d & Ht & _).
  exists d. exact Ht.
Defined.

Lemma pfq_xmit_spec_witness :
  let '(ret, w') := pfq_xmit cfg0 env_fair 7 eth1 (-1) false world0 in
  exists txq body,
    w_trace w' = w_trace world0 ++ EvLock txq :: body ++ [EvUnlock txq] /\
    lock_events body = [].
Proof.
  destruct (pfq_xmit cfg0 env_fair 7 eth1 (-1) false world0) as [ret w'] eqn:H.
  destruct (pfq_xmit_spec cfg0 env_fair 7 eth1 (-1) false world0 w' ret H)
    as (body & Ht & Hl & _).
  eexists _, body. split; [exact Ht | exact Hl].
Defined.

Lemma pfq_batch_xmit_no_hint_witness :
  let '(ret, w') := pfq_batch_xmit cfg_nohint env_fair [7; 8]%nat eth1 (-1) world0 in
  forallb (fun c => negb (skb_xmit_more (snd (fst c))))
          (driver_calls (w_trace w')) = true.
Proof.
  destruct (pfq_batch_xmit cfg_nohint env_fair [7; 8]%nat eth1 (-1) world0)
    as [ret w'] eqn:H.
  apply forallb_forall. intros [[p s] rc] Hin.
  apply list_elem_of_In in Hin. simpl.
  rewrite (pfq_batch_xmit_no_hint cfg_nohint env_fair [7; 8]%nat eth1 (-1)
             world0 w' ret (w_trace w') eq_refl H eq_refl p s rc Hin).
  reflexivity.
Defined.

Lemma pfq_batch_xmit_by_mask_spec_witness :
  let '(ret, w') :=
    pfq_batch_xmit_by_mask cfg0 env_fair [7; 8; 9]%nat 5 eth1 (-1) world0 in
  exists txq body,
    w_trace w' = w_trace world0 ++ EvLock txq :: body ++ [EvUnlock txq] /\
    transmitted body = take (Z.to_nat ret) (skbuff_bitmask 5 0 [7; 8; 9]%nat).
Proof.
  destruct (pfq_batch_xmit_by_mask cfg0 env_fair [7; 8; 9]%nat 5 eth1 (-1) world0)
    as [ret w'] eqn:H.
  destruct (pfq_batch_xmit_by_mask_spec cfg0 env_fair [7; 8; 9]%nat 5 eth1 (-1)
              world0 w' ret H)
    as (txq & body & Ht & _ & _ & Htr & _).
  exists txq, body. split; [exact Ht | exact Htr].
Defined.

(** The mask selects the buffers 8 and 9 and the driver is busy for the
    second of them: the buffers from the position 2 of the batch on are
    released, after the buffer that failed. *)
Lemma pfq_batch_xmit_by_mask_failure_witness :
  let '(ret, w') :=
    pfq_batch_xmit_by_mask cfg0 env_busy [7; 8; 9]%nat 6 eth0 0 world0 in
  exists front,
    released (w_trace w') = front ++ drop (S (Z.to_nat ret)) [7; 8; 9]%nat.
Proof.
  destruct (pfq_batch_xmit_by_mask cfg0 env_busy [7; 8; 9]%nat 6 eth0 0 world0)
    as [ret w'] eqn:H.
  assert (Hret : ret < Z.of_nat (length (skbuff_bitmask 6 0 [7; 8; 9]%nat))).
  { vm_compute in H. injection H as <- _. reflexivity. }
  destruct (pfq_batch_xmit_by_mask_failure cfg0 env_busy [7; 8; 9]%nat 6 eth0 0
              world0 w' ret (w_trace w') H eq_refl Hret)
    as (front & Hrel & _).
  exists front. exact Hrel.
Defined.

Lemma __pfq_queue_xmit_locked_witness :
  match __pfq_queue_xmit cfg0 env_busy 10 0 to0 ring3 eth0 (-1) 0 world0 with
  | Some (ret, to', mem', w') =>
      exists d, w_trace w' = w_trace world0 ++ d /\ lock_discipline d
  | None => False
  end.
Proof.
  destruct (__pfq_queue_xmit cfg0 env_busy 10 0 to0 ring3 eth0 (-1) 0 world0)
    as [[[[ret to'] mem'] w'] |] eqn:H.
  - destruct (__pfq_queue_xmit_locked cfg0 env_busy 10 0 to0 ring3 eth0 (-1) 0
                world0 ret to' mem' w' H) as (d & Ht & Hl & _).
    exists d. split; [exact Ht | exact Hl].
  - vm_compute in H. discriminate H.
Defined.

Lemma __pfq_queue_xmit_sent_witness :
  match __pfq_queue_xmit cfg0 env_busy 10 0 to0 ring3 eth0 (-1) 0 world0 with
  | Some (ret, to', mem', w') =>
      exists d,
        w_trace w' = w_trace world0 ++ d /\
        to_stats_sent to' = to_stats_sent to0 + Z.of_nat (length (transmitted d))
  | None => False
  end.
Proof.
  destruct (__pfq_queue_xmit cfg0 env_busy 10 0 to0 ring3 eth0 (-1) 0 world0)
    as [[[[ret to'] mem'] w'] |] eqn:H.
  - destruct (__pfq_queue_xmit_sent cfg0 env_busy 10 0 to0 ring3 eth0 (-1) 0
                world0 ret to' mem' w' H) as (d & Ht & Hs & _).
    exists d. split; [exact Ht | exact Hs].
  - vm_compute in H. discriminate H.
Defined.

Lemma world78_sound : pool_sound world78.
Proof.
  split; [exact pool78_wf |].
  change (pool_handles (w_tx_pool world78)) with [7; 8]%nat.
  split.
  - apply NoDup_cons. split; [| apply NoDup_singleton].
    intros Hin. apply list_elem_of_singleton in Hin. discriminate Hin.
  - repeat constructor.
Qed.

Lemma __pfq_queue_xmit_fifo_witness :
  match __pfq_queue_xmit cfg0 env_busy 10 0 to0 ring3 eth0 (-1) 0 world78 with
  | Some (ret, to', mem', w') =>
      exists d,
        w_trace w' = w_trace world78 ++ d /\
        transmitted d = [7; 9; 10]%nat /\
        transmitted_addrs d = [0; 120; 240]
  | None => False
  end.
Proof.
  destruct (__pfq_queue_xmit cfg0 env_busy 10 0 to0 ring3 eth0 (-1) 0 world78)
    as [[[[ret to'] mem'] w'] |] eqn:H.
  - assert (Hcap : 0 < batch_len cfg0 <= Z.of_nat (Q_SKBUFF_SHORT_BATCH cfg0))
      by by_computation.
    destruct (__pfq_queue_xmit_fifo cfg0 env_busy ring3 eth0 10 0 to0 (-1) 0
                world78 ret to' mem' w' Hcap world78_sound H)
      as (d & Ht & Ha).
    assert (Htr : transmitted (w_trace w') = [7; 9; 10]%nat).
    { pose proof (f_equal (fun r : option (Z * pfq_tx_opt * tx_memory * world) =>
                             match r with
                             | Some (_, _, _, v) => transmitted (w_trace v)
                             | None => []
                             end) H) as Hc.
      cbv beta iota in Hc. rewrite <- Hc. vm_compute. reflexivity. }
    change (w_trace world78 ++ d) with d in Ht.
    rewrite Ht in Htr. rewrite Htr in Ha.
    exists d. split; [exact Ht |]. split; [exact Htr | exact Ha].
  - vm_compute in H. discriminate H.
Defined.


Lemma swap_tx_queue_and_wait_spec_witness :
  match swap_tx_queue_and_wait cfg0 env_fair 3 (TxQueue 0 0 4096) 0 world0 with
  | Some (err, index, txs', w') =>
      txs_cons txs' = to_u64 (0 + 1) /\ index = to_int (txs_cons txs')
  | None => False
  end.
Proof.
  destruct (swap_tx_queue_and_wait cfg0 env_fair 3 (TxQueue 0 0 4096) 0 world0)
    as [[[[err index] txs'] w'] |] eqn:H.
  - destruct (swap_tx_queue_and_wait_spec cfg0 env_fair 3 (TxQueue 0 0 4096)
                txs' 0 err index world0 w' H) as (Hcons & Hindex & _).
    split; [exact Hcons | exact Hindex].
  - vm_compute in H. discriminate H.
Defined.

Lemma __pfq_queue_xmit_interrupted_witness :
  match swap_tx_queue_and_wait cfg0 env_cancel 3 (to_txs to0 0%nat) 0 world0 with
  | Some (err, swap, txs1, w1) =>
      exists to',
        __pfq_queue_xmit cfg0 env_cancel 3 0 to0 ring3 eth0 0 0 world0
          = Some (- EINTR, to', ring3, w1) /\
        to_stats_sent to' = to_stats_sent to0
  | None => False
  end.
Proof.
  destruct (swap_tx_queue_and_wait cfg0 env_cancel 3 (to_txs to0 0%nat) 0 world0)
    as [[[[err swap] txs1] w1] |] eqn:H.
  - assert (Herr : err < 0).
    { vm_compute in H. injection H as <- _ _ _. reflexivity. }
    destruct (__pfq_queue_xmit_interrupted cfg0 env_cancel 3 0 to0 ring3 eth0 0 0
                world0 err swap txs1 w1 H Herr) as (to' & Hrun & _ & Hs & _).
    exists to'. split; [exact Hrun | exact Hs].
  - vm_compute in H. discriminate H.
Defined.

Lemma __pfq_queue_xmit_clears_witness :
  match __pfq_queue_xmit cfg0 env_fair 10 0 to0 ring3 eth0 (-1) 0 world0 with
  | Some (ret, to', mem', w') =>
      pkt_len (mem' 0) = 0 /\ descriptors mem' (0 + 4096) 0 []
  | None => False
  end.
Proof.
  destruct (__pfq_queue_xmit cfg0 env_fair 10 0 to0 ring3 eth0 (-1) 0 world0)
    as [[[[ret to'] mem'] w'] |] eqn:H.
  - assert (Hswap : swap_tx_queue_and_wait cfg0 env_fair 10 (to_txs to0 0%nat)
                      (-1) world0
                    = Some (0, 1, TxQueue 1 1 4096, world0)) by reflexivity.
    assert (Herr : 0 <= 0) by lia.
    destruct (__pfq_queue_xmit_clears cfg0 env_fair 10 0 to0 ring3 eth0 (-1) 0
                world0 0 1 (TxQueue 1 1 4096) world0 ret to' mem' w'
                Hswap Herr H) as (Hlen & _ & _ & Hds & _).
    split; [exact Hlen | exact Hds].
  - vm_compute in H. discriminate H.
Defined.

Lemma env_cancel_gives_up : gives_up_by env_cancel 0.
Proof. intros t _. reflexivity. Qed.

Lemma full_batch_xmit_returns_witness :
  exists ret skbs' w',
    full_batch_xmit cfg0 env_cancel 1 [7; 8]%nat eth0 0 world0
    = Some (ret, skbs', w').
Proof.
  assert (Hfuel : (0 - w_tick world0 < 1)%nat) by (simpl; lia).
  exact (full_batch_xmit_returns cfg0 env_cancel 0 env_cancel_gives_up 1
           [7; 8]%nat eth0 0 world0 I Hfuel).
Defined.

Lemma env_halt_gives_up : gives_up_by env_halt 7.
Proof.
  intros t Ht. unfold giveup_at.
  change (env_signal_pending env_halt t) with (7 <=? t)%nat.
  destruct (Nat.leb_spec 7 t) as [_ | Hlt]; [reflexivity | lia].
Qed.

Lemma pool_null_stocked : pool_stocked pool_null.
Proof. split; [exact I | constructor]. Qed.

Lemma __pfq_queue_xmit_returns_witness :
  exists ret to' mem' w',
    __pfq_queue_xmit cfg0 env_halt 20 0 to0 ring3 eth0 (-1) 0 world0
    = Some (ret, to', mem', w').
Proof.
  assert (Hfuel : (7 + 3 < 20)%nat) by lia.
  exact (__pfq_queue_xmit_returns cfg0 env_halt 7 env_halt_gives_up 20 0
           to0 ring3 eth0 (-1) 0 world0 [ring3 0; ring3 120; ring3 240]
           pool_null_stocked ring3_descriptors Hfuel).
Defined.

Lemma gc78_wf : Forall (fun e => log_wf cfg0 (snd e)) gc78.
Proof.
  repeat constructor; simpl; try lia; reflexivity.
Qed.

Lemma pfq_batch_lazy_xmit_spec_witness :
  let '(n, queue', w') := pfq_batch_lazy_xmit cfg0 gc78 eth1 2 world0 in
  0 <= n <= 2 /\ Forall2 (lazy_annotated cfg0 eth1) gc78 queue'.
Proof.
  destruct (pfq_batch_lazy_xmit cfg0 gc78 eth1 2 world0) as [[n queue'] w'] eqn:H.
  assert (Hcap : Q_GC_LOG_QUEUE_LEN cfg0 < 2 ^ 64) by reflexivity.
  destruct (pfq_batch_lazy_xmit_spec cfg0 gc78 eth1 2 world0 w' n queue'
              gc78_wf Hcap H) as (_ & Hn & Hann & _).
  split; [exact Hn | exact Hann].
Defined.

Lemma pfq_batch_lazy_xmit_by_mask_spec_witness :
  let '(n, queue', w') := pfq_batch_lazy_xmit_by_mask cfg0 gc78 2 eth1 2 world0 in
  0 <= n <= 2 /\ length queue' = 2%nat.
Proof.
  destruct (pfq_batch_lazy_xmit_by_mask cfg0 gc78 2 eth1 2 world0)
    as [[n queue'] w'] eqn:H.
  assert (Hcap : Q_GC_LOG_QUEUE_LEN cfg0 < 2 ^ 64) by reflexivity.
  destruct (pfq_batch_lazy_xmit_by_mask_spec cfg0 gc78 2 eth1 2 world0 w' n queue'
              gc78_wf Hcap H) as (Hn & Hlen & _).
  split; [exact Hn | exact Hlen].
Defined.

Lemma queue_new_holds :
  Forall (fun e => log_holds (Q_GC_LOG_QUEUE_LEN cfg0) [] (snd e)) queue_new.
Proof. repeat constructor. Qed.

Lemma targets01_cover (d : net_device) :
  d ∈ [eth0; eth1] ->
  exists t, t ∈ targets01 /\ same_dev (fst t) d = true.
Proof.
  intros Hd. apply list_elem_of_In in Hd. simpl in Hd.
  destruct Hd as [<- | [<- | []]].
  - exists (eth0, 2). split; [apply list_elem_of_here | reflexivity].
  - exists (eth1, 2).
    split; [apply list_elem_of_further, list_elem_of_here | reflexivity].
Qed.

Lemma targets01_distinct : NoDup (map (fun t => dev_ifindex (fst t)) targets01).
Proof.
  simpl. apply NoDup_cons.
  split; [| apply NoDup_singleton].
  intros Hin. apply list_elem_of_singleton in Hin. discriminate Hin.
Qed.

Lemma pfq_lazy_xmit_annotate_commit_witness :
  let '(queue1, w1) :=
    pfq_batch_lazy_xmit_each cfg0 queue_new [eth0; eth1] 0 world0 in
  Forall (fun e => log_xmit_todo (snd e) = 0 /\
                   log_targets (snd e) = [eth0; eth1])
         (snd (fst (pfq_lazy_xmit_exec cfg0 env_fair queue1 targets01 w1))).
Proof.
  destruct (pfq_batch_lazy_xmit_each cfg0 queue_new [eth0; eth1] 0 world0)
    as [queue1 w1] eqn:H.
  assert (Hlen : Z.of_nat (length [eth0; eth1]) <= Q_GC_LOG_QUEUE_LEN cfg0 < 2 ^ 64)
    by by_computation.
  destruct (pfq_lazy_xmit_annotate_commit cfg0 env_fair queue_new [eth0; eth1]
              targets01 0 world0 queue1 w1 Hlen queue_new_holds
              targets01_distinct targets01_cover H) as (_ & _ & Hdone).
  exact Hdone.
Defined.

Lemma pfq_lazy_xmit_exec_accounting_witness :
  let '(sent, gc', w') := pfq_lazy_xmit_exec cfg0 env_fair gc78 targets01 world0 in
  sent + (w_abrt w' - w_abrt world0) = total_forwards targets01 gc78.
Proof.
  destruct (pfq_lazy_xmit_exec cfg0 env_fair gc78 targets01 world0)
    as [[sent gc'] w'] eqn:H.
  destruct (pfq_lazy_xmit_exec_accounting cfg0 env_fair gc78 targets01 world0 w'
              sent gc' H) as (d & _ & _ & _ & Hsum).
  exact Hsum.
Defined.

Lemma pfq_lazy_xmit_exec_locked_witness :
  let '(sent, gc', w') := pfq_lazy_xmit_exec cfg0 env_fair gc78 targets01 world0 in
  exists d, w_trace w' = w_trace world0 ++ d /\ lock_discipline d.
Proof.
  destruct (pfq_lazy_xmit_exec cfg0 env_fair gc78 targets01 world0)
    as [[sent gc'] w'] eqn:H.
  destruct (pfq_lazy_xmit_exec_locked cfg0 env_fair gc78 targets01 world0 w'
              sent gc' H) as (d & Ht & Hl & _).
  exists d. split; [exact Ht | exact Hl].
Defined.

Lemma __pfq_queue_xmit_filled_witness :
  match __pfq_queue_xmit cfg0 env_busy 10 0 to0 ring3 eth0 (-1) 0 world0 with
  | Some (ret, to', mem', w') =>
      exists d,
        w_trace w' = w_trace world0 ++ d /\
        forall p s rc,
          (p, s, rc) ∈ driver_calls d -> skb_len s <= to_u64 (max_len cfg0)
  | None => False
  end.
Proof.
  destruct (__pfq_queue_xmit cfg0 env_busy 10 0 to0 ring3 eth0 (-1) 0 world0)
    as [[[[ret to'] mem'] w'] |] eqn:H.
  - destruct (__pfq_queue_xmit_filled cfg0 env_busy ring3 eth0 10 0 to0 (-1) 0
                world0 ret to' mem' w' H) as (d & Ht & Hcalls).
    exists d. split; [exact Ht |].
    intros p s rc Hin. apply (Hcalls p s rc Hin).
  - vm_compute in H. discriminate H.
Defined.

Lemma __pfq_queue_xmit_global_stats_witness :
  match __pfq_queue_xmit cfg0 env_busy 10 0 to0 ring3 eth0 (-1) 0 world0 with
  | Some (ret, to', mem', w') =>
      w_sent w' - w_sent world0 = to_stats_sent to' - to_stats_sent to0
  | None => False
  end.
Proof.
  destruct (__pfq_queue_xmit cfg0 env_busy 10 0 to0 ring3 eth0 (-1) 0 world0)
    as [[[[ret to'] mem'] w'] |] eqn:H.
  - exact (proj1 (__pfq_queue_xmit_global_stats cfg0 env_busy ring3 eth0 10 0 to0
                    (-1) 0 world0 ret to' mem' w' H)).
  - vm_compute in H. discriminate H.
Defined.


Lemma gc78_distinct : NoDup (map fst gc78).
Proof.
  simpl. apply NoDup_cons.
  split; [| apply NoDup_singleton].
  intros Hin. apply list_elem_of_singleton in Hin. discriminate Hin.
Qed.

Lemma gc78_in_flight : Forall (fun e => (fst e < w_next world0)%nat) gc78.
Proof. repeat constructor; simpl; lia. Qed.

Lemma gc78_todo :
  Forall (fun e => log_to_kernel (snd e) <> 0 \/
                   forwards targets01 (snd e) <= log_xmit_todo (snd e) < 2 ^ 64)
         gc78.
Proof.
  constructor; [right; vm_compute; repeat split; discriminate |].
  constructor; [left; discriminate | constructor].
Qed.

Lemma pfq_lazy_xmit_exec_once_witness :
  let '(sent, gc', w') := pfq_lazy_xmit_exec cfg0 env_fair gc78 targets01 world0 in
  exists d,
    w_trace w' = w_trace world0 ++ d /\ NoDup (submitted d) /\
    8%nat ∉ submitted d.
Proof.
  destruct (pfq_lazy_xmit_exec cfg0 env_fair gc78 targets01 world0)
    as [[sent gc'] w'] eqn:H.
  destruct (pfq_lazy_xmit_exec_once cfg0 env_fair gc78 targets01 world0 w'
              sent gc' gc78_distinct gc78_in_flight gc78_todo H)
    as (d & Ht & Hnd & _ & _ & Hk).
  exists d. split; [exact Ht |]. split; [exact Hnd |].
  apply (Hk 8%nat log8); [| discriminate].
  apply list_elem_of_further, list_elem_of_here.
Defined.
